(* ===================================================================== *)
(* Peloton job manager: TaskManager handler, watch processor and Aurora  *)
(* metadata labels.                                                      *)
(*                                                                       *)
(* The handler (pkg/jobmgr/tasksvc/handler.go) talks to its collaborators *)
(* (leader candidate, cached job factory, task store, goal-state driver)  *)
(* through interfaces.  It is embedded as a program over the calls it     *)
(* issues; an environment answers the calls and the run records them.     *)
(* Logging, metrics counters, the request deadline and time.Now() are not *)
(* part of the model.                                                     *)
(* ===================================================================== *)

From Stdlib Require Import ZArith NArith String Ascii List Lia Bool.
From stdpp Require Import base option list gmap strings fin_maps pretty.

Open Scope string_scope.
Open Scope list_scope.

(* --------------------------------------------------------------------- *)
(* Machine integers                                                       *)
(* --------------------------------------------------------------------- *)

Definition MaxUint64 : N := 2 ^ 64 - 1.
Definition MaxInt32 : N := 2 ^ 31 - 1.

(* x + y on uint64 values, with Go's wrap-around. *)
Definition uint64_add (x y : N) : N := ((x + y) mod 2 ^ 64)%N.

(* uint64(v) for an int64 value v. *)
Definition uint64_of_int64 (v : Z) : N := Z.to_N (v mod 2 ^ 64).

(* --------------------------------------------------------------------- *)
(* Errors                                                                 *)
(* --------------------------------------------------------------------- *)

Inductive Code :=
| CodeInvalidArgument
| CodeNotFound
| CodeUnavailable
| CodeInternal
| CodeResourceExhausted.

(* Go error values.  UnexpectedVersionError is the sentinel of
   jobmgrcommon that the handler compares against with ==. *)
Inductive error :=
| UnexpectedVersionError
| YarpcError (c : Code) (msg : string)
| Wrapped (e : error) (msg : string)
| StoreError (msg : string).

Global Instance Code_eq_dec : EqDecision Code.
Proof. solve_decision. Defined.
Global Instance error_eq_dec : EqDecision error.
Proof. solve_decision. Defined.

Fixpoint Error_ (e : error) : string :=
  match e with
  | UnexpectedVersionError => "unexpected version"
  | YarpcError _ msg => msg
  | Wrapped e msg => msg +:+ ": " +:+ Error_ e
  | StoreError msg => msg
  end.

Definition UnavailableErrorf (msg : string) : error := YarpcError CodeUnavailable msg.
Definition InvalidArgumentErrorf (msg : string) : error := YarpcError CodeInvalidArgument msg.
Definition NotFoundErrorf (msg : string) : error := YarpcError CodeNotFound msg.

Definition IsUnavailable (e : error) : bool :=
  match e with YarpcError CodeUnavailable _ => true | _ => false end.
Definition IsInvalidArgument (e : error) : bool :=
  match e with YarpcError CodeInvalidArgument _ => true | _ => false end.

(* A Go pair (value, error) on which the caller tests the error first. *)
Inductive result (T : Type) :=
| Ok (v : T)
| Err (e : error).
Arguments Ok {T} v.
Arguments Err {T} e.

(* --------------------------------------------------------------------- *)
(* Data model (protobuf messages the handler reads and writes)            *)
(* --------------------------------------------------------------------- *)

Definition JobID := string.

Inductive JobType := BATCH | SERVICE.

Inductive JobState :=
| JobState_UNKNOWN
| JobState_INITIALIZED
| JobState_PENDING
| JobState_RUNNING
| JobState_SUCCEEDED
| JobState_FAILED
| JobState_KILLED.

Inductive TaskState :=
| TaskState_UNKNOWN
| TaskState_INITIALIZED
| TaskState_PENDING
| TaskState_RUNNING
| TaskState_SUCCEEDED
| TaskState_FAILED
| TaskState_KILLED
| TaskState_DELETED.

Inductive HealthState :=
| HealthState_INVALID
| HealthState_DISABLED
| HealthState_HEALTH_UNKNOWN
| HealthState_HEALTHY
| HealthState_UNHEALTHY.

Inductive TerminationReason :=
| TERMINATION_STATUS_REASON_INVALID
| TERMINATION_STATUS_REASON_KILLED_ON_REQUEST.

Record TerminationStatus := { Reason_ : TerminationReason }.

Global Instance JobType_eq_dec : EqDecision JobType.
Proof. solve_decision. Defined.
Global Instance JobState_eq_dec : EqDecision JobState.
Proof. solve_decision. Defined.
Global Instance TaskState_eq_dec : EqDecision TaskState.
Proof. solve_decision. Defined.
Global Instance HealthState_eq_dec : EqDecision HealthState.
Proof. solve_decision. Defined.
Global Instance TerminationReason_eq_dec : EqDecision TerminationReason.
Proof. solve_decision. Defined.
Global Instance TerminationStatus_eq_dec : EqDecision TerminationStatus.
Proof. solve_decision. Defined.

Record JobRuntime := {
  jr_State : JobState;
  jr_GoalState : JobState;
  jr_DesiredStateVersion : N;
  jr_UpdateTime : string;
  jr_Revision : N
}.

Record JobConfig := {
  jc_Type : JobType;
  jc_InstanceCount : N
}.

Inductive TaskConfig := MkTaskConfig (healthCheck : bool).

Record RuntimeInfo := {
  State : TaskState;
  GoalState : TaskState;
  MesosTaskId : string;
  DesiredMesosTaskId : string;
  Host : string;
  AgentID : string;
  Message : string;
  Reason : string;
  ConfigVersion : N;
  Healthy : HealthState;
  TerminationStatus_ : option TerminationStatus;
  Revision : N
}.

Record TaskInfo := {
  InstanceId : N;
  Runtime : RuntimeInfo;
  Config : TaskConfig
}.

Record InstanceRange := { From : N; To : N }.

(* jobmgrcommon.RuntimeDiff: field name -> new value. *)
Inductive RuntimeField :=
| GoalStateField
| MessageField
| ReasonField
| TerminationStatusField
| DesiredMesosTaskIDField.

Inductive FieldValue :=
| VTaskState (s : TaskState)
| VString (s : string)
| VTerminationStatus (t : TerminationStatus)
| VTaskID (id : string).

Definition RuntimeDiff := list (RuntimeField * FieldValue).

(* pod.PodEvent, the store's form of an event. *)
Record PodEvent := {
  pe_PodId : string;
  pe_PrevPodId : string;
  pe_DesiredPodId : string;
  pe_ActualState : string;
  pe_DesiredState : string;
  pe_Timestamp : string;
  pe_Version : string;
  pe_DesiredVersion : string;
  pe_AgentId : string;
  pe_Hostname : string;
  pe_Message : string;
  pe_Reason : string;
  pe_Healthy : string
}.

(* task.PodEvent, the wire form. *)
Record TaskPodEvent := {
  tpe_TaskId : string;
  tpe_ActualState : string;
  tpe_GoalState : string;
  tpe_Timestamp : string;
  tpe_ConfigVersion : N;
  tpe_DesiredConfigVersion : N;
  tpe_AgentID : string;
  tpe_Hostname : string;
  tpe_Message : string;
  tpe_Reason : string;
  tpe_PrevTaskId : string;
  tpe_Healthy : string;
  tpe_DesriedTaskId : string
}.

(* --------------------------------------------------------------------- *)
(* Collaborator calls                                                     *)
(* --------------------------------------------------------------------- *)

Inductive call : Type → Type :=
(* leader.Candidate *)
| IsLeader : call bool
(* cached.JobFactory, cached.Job, cached.Task *)
| AddJob (id : JobID) : call unit
| JobGetConfig (id : JobID) : call (result JobConfig)
| JobGetRuntime (id : JobID) : call (result JobRuntime)
| JobCompareAndSetRuntime (id : JobID) (rt : JobRuntime) : call (option error)
| JobAddTask (id : JobID) (inst : N) : call (option error)
| TaskGetRuntime (id : JobID) (inst : N) : call (result RuntimeInfo)
| TaskCompareAndSetRuntime (id : JobID) (inst : N) (rt : RuntimeInfo) (ty : JobType)
    : call (option error)
| PatchTasks (id : JobID) (diffs : gmap N RuntimeDiff) : call (option error)
| ReplaceTasks (id : JobID) (rts : gmap N RuntimeInfo) (force : bool) : call unit
(* storage.JobStore, storage.TaskStore *)
| GetJobConfig (id : JobID) : call (result JobConfig)
| GetTasksForJob (id : JobID) : call (result (gmap N TaskInfo))
| GetTasksForJobByRange (id : JobID) (r : InstanceRange) : call (result (gmap N TaskInfo))
| GetTaskRuntimesForJobByRange (id : JobID) (r : InstanceRange)
    : call (result (gmap N RuntimeInfo))
| TaskStore_GetPodEvents (id : JobID) (inst : N) (podID : string)
    : call (result (list PodEvent))
(* goalstate.Driver *)
| EnqueueTask (id : JobID) (inst : N) : call unit
| EnqueueJob (id : JobID) : call unit
| EnqueueJobWithDefaultDelay (id : JobID) : call unit.

(* A call together with the answer it got. *)
Inductive event :=
| Event {X : Type} (c : call X) (x : X).

(* Programs over the calls.  OutOfFuel marks a loop of the model that was
   unrolled fewer times than the source loop iterates. *)
Inductive prog (R : Type) : Type :=
| Ret (r : R)
| Vis {X : Type} (c : call X) (k : X → prog R)
| OutOfFuel.
Arguments Ret {R} r.
Arguments Vis {R X} c k.
Arguments OutOfFuel {R}.

Fixpoint bind {A B : Type} (p : prog A) (f : A → prog B) : prog B :=
  match p with
  | Ret a => f a
  | Vis c k => Vis c (λ x, bind (k x) f)
  | OutOfFuel => OutOfFuel
  end.

Definition trigger {X : Type} (c : call X) : prog X := Vis c Ret.

Global Instance prog_ret : MRet prog := @Ret.
Global Instance prog_bind : MBind prog := λ A B f p, bind p f.

(* The outcome of a run: the value returned, the environment's final
   state, and the calls made, oldest first. *)
Record outcome (R W : Type) := Outcome {
  returned : R;
  final : W;
  trace : list event
}.
Arguments Outcome {R W} returned final trace.
Arguments returned {R W} o.
Arguments final {R W} o.
Arguments trace {R W} o.

(* An environment: a state and the answer it gives to each call. *)
Record env := Env {
  world : Type;
  respond : ∀ X, call X → world → X * world
}.

Fixpoint run (E : env) {R : Type} (p : prog R) (w : world E) : option (outcome R (world E)) :=
  match p with
  | Ret r => Some (Outcome r w [])
  | Vis c k =>
      let '(x, w') := respond E _ c w in
      match run E (k x) w' with
      | Some o => Some (Outcome (returned o) (final o) (Event c x :: trace o))
      | None => None
      end
  | OutOfFuel => None
  end.

(* --------------------------------------------------------------------- *)
(* Helpers of other packages                                              *)
(* --------------------------------------------------------------------- *)

Definition digit_of (c : ascii) : option N :=
  let n := N_of_ascii c in
  if ((48 <=? n) && (n <=? 57))%N then Some (n - 48)%N else None.

Fixpoint parse_digits (s : string) (acc : N) : option N :=
  match s with
  | EmptyString => Some acc
  | String c rest =>
      match digit_of c with
      | Some d => parse_digits rest (acc * 10 + d)%N
      | None => None
      end
  end.

(* strconv.ParseUint(s, 10, 64): a non-empty run of decimal digits whose
   value fits 64 bits. *)
Definition ParseUint (s : string) : option N :=
  match s with
  | EmptyString => None
  | _ =>
      match parse_digits s 0 with
      | Some n => if (n <=? MaxUint64)%N then Some n else None
      | None => None
      end
  end.

(* strconv.ParseInt(s, 10, 64): an optional sign, then decimal digits; the
   value must fit a signed 64-bit integer. *)
Definition ParseInt (s : string) : option Z :=
  let '(neg, digits) :=
    match s with
    | String "-" rest => (true, rest)
    | String "+" rest => (false, rest)
    | _ => (false, s)
    end in
  match digits with
  | EmptyString => None
  | _ =>
      match parse_digits digits 0 with
      | Some n =>
          let v := if neg then (- Z.of_N n)%Z else Z.of_N n in
          if ((- 2 ^ 63 <=? v) && (v <? 2 ^ 63))%Z then Some v else None
      | None => None
      end
  end.

(* The text after the last hyphen of s, if s has a hyphen. *)
Fixpoint after_last_hyphen (s : string) : option string :=
  match s with
  | EmptyString => None
  | String c rest =>
      match after_last_hyphen rest with
      | Some t => Some t
      | None => if Ascii.eqb c "-" then Some rest else None
      end
  end.

(** Modelled from the spec: util.ParseRunID (pkg/common/util is not among
    the sources).  The mesos task id has the form
    <JobID>-<InstanceID>-<RunID> with RunID a decimal unsigned 64-bit
    integer; parsing splits on the last hyphen, and anything that does not
    parse is reported as an error (run id 0). *)
Definition ParseRunID (mesosTaskID : string) : result N :=
  match after_last_hyphen mesosTaskID with
  | Some run =>
      match ParseUint run with
      | Some n => Ok n
      | None => Err (InvalidArgumentErrorf ("unable to parse mesos task id: " +:+ mesosTaskID))
      end
  | None => Err (InvalidArgumentErrorf ("unable to parse mesos task id: " +:+ mesosTaskID))
  end.

(** Modelled from the spec: util.CreateMesosTaskID, the canonical form
    <JobID>-<InstanceID>-<RunID>. *)
Definition CreateMesosTaskID (jobID : JobID) (instanceID : N) (runID : N) : string :=
  jobID +:+ "-" +:+ pretty instanceID +:+ "-" +:+ pretty runID.

(** Modelled from the spec: util.IsPelotonJobStateTerminal; the terminal
    job states are SUCCEEDED, FAILED and KILLED. *)
Definition IsPelotonJobStateTerminal (s : JobState) : bool :=
  match s with
  | JobState_SUCCEEDED | JobState_FAILED | JobState_KILLED => true
  | _ => false
  end.

(** Modelled from the spec: jobmgrcommon.MaxConcurrencyErrorRetry, the
    option max_concurrency_error_retry with its default 5. *)
Definition MaxConcurrencyErrorRetry : Z := 5.

Definition set_MesosTaskId (rt : RuntimeInfo) (id : string) : RuntimeInfo :=
  {| State := State rt; GoalState := GoalState rt; MesosTaskId := id;
     DesiredMesosTaskId := DesiredMesosTaskId rt; Host := Host rt;
     AgentID := AgentID rt; Message := Message rt; Reason := Reason rt;
     ConfigVersion := ConfigVersion rt; Healthy := Healthy rt;
     TerminationStatus_ := TerminationStatus_ rt; Revision := Revision rt |}.

Definition set_Healthy (rt : RuntimeInfo) (h : HealthState) : RuntimeInfo :=
  {| State := State rt; GoalState := GoalState rt; MesosTaskId := MesosTaskId rt;
     DesiredMesosTaskId := DesiredMesosTaskId rt; Host := Host rt;
     AgentID := AgentID rt; Message := Message rt; Reason := Reason rt;
     ConfigVersion := ConfigVersion rt; Healthy := h;
     TerminationStatus_ := TerminationStatus_ rt; Revision := Revision rt |}.

Definition set_GoalState (rt : RuntimeInfo) (g : TaskState) : RuntimeInfo :=
  {| State := State rt; GoalState := g; MesosTaskId := MesosTaskId rt;
     DesiredMesosTaskId := DesiredMesosTaskId rt; Host := Host rt;
     AgentID := AgentID rt; Message := Message rt; Reason := Reason rt;
     ConfigVersion := ConfigVersion rt; Healthy := Healthy rt;
     TerminationStatus_ := TerminationStatus_ rt; Revision := Revision rt |}.

Definition set_Message (rt : RuntimeInfo) (m : string) : RuntimeInfo :=
  {| State := State rt; GoalState := GoalState rt; MesosTaskId := MesosTaskId rt;
     DesiredMesosTaskId := DesiredMesosTaskId rt; Host := Host rt;
     AgentID := AgentID rt; Message := m; Reason := Reason rt;
     ConfigVersion := ConfigVersion rt; Healthy := Healthy rt;
     TerminationStatus_ := TerminationStatus_ rt; Revision := Revision rt |}.

Definition set_jr_State (rt : JobRuntime) (s : JobState) : JobRuntime :=
  {| jr_State := s; jr_GoalState := jr_GoalState rt;
     jr_DesiredStateVersion := jr_DesiredStateVersion rt;
     jr_UpdateTime := jr_UpdateTime rt; jr_Revision := jr_Revision rt |}.

Definition set_jr_GoalState (rt : JobRuntime) (g : JobState) : JobRuntime :=
  {| jr_State := jr_State rt; jr_GoalState := g;
     jr_DesiredStateVersion := jr_DesiredStateVersion rt;
     jr_UpdateTime := jr_UpdateTime rt; jr_Revision := jr_Revision rt |}.

Definition set_jr_DesiredStateVersion (rt : JobRuntime) (v : N) : JobRuntime :=
  {| jr_State := jr_State rt; jr_GoalState := jr_GoalState rt;
     jr_DesiredStateVersion := v;
     jr_UpdateTime := jr_UpdateTime rt; jr_Revision := jr_Revision rt |}.

(* The run id of a mesos task id as the handler and the task utilities
   read it: a parse error counts as run 0. *)
Definition runID_or_zero (mesosTaskID : string) : N :=
  match ParseRunID mesosTaskID with
  | Ok runID => runID
  | Err _ => 0%N
  end.

(** Modelled from the spec: taskutil.RegenerateMesosTaskRuntime, which
    gives the task a mesos task id of the next run (J1-2-3 becomes J1-2-4)
    and the initial health state. *)
Definition RegenerateMesosTaskRuntime
    (jobID : JobID) (instanceID : N) (taskRuntime : RuntimeInfo)
    (initHealthyField : HealthState) : RuntimeInfo :=
  let prevRunID := runID_or_zero (MesosTaskId taskRuntime) in
  set_Healthy
    (set_MesosTaskId taskRuntime
       (CreateMesosTaskID jobID instanceID (uint64_add prevRunID 1)))
    initHealthyField.

(* --------------------------------------------------------------------- *)
(* Requests and responses                                                 *)
(* --------------------------------------------------------------------- *)

Record StartRequest := { start_JobId : JobID; start_Ranges : list InstanceRange }.

Inductive StartResponse_Error :=
| StartError_NotFound (id : JobID) (msg : string)
| StartError_OutOfRange (id : JobID) (instanceCount : N)
| StartError_Failure (msg : string).

Record StartResponse := {
  start_Error : option StartResponse_Error;
  StartedInstanceIds : list N;
  start_InvalidInstanceIds : list N
}.

Record StopRequest := { stop_JobId : JobID; stop_Ranges : list InstanceRange }.

Inductive StopResponse_Error :=
| StopError_NotFound (id : JobID) (msg : string)
| StopError_OutOfRange (id : JobID) (instanceCount : N)
| StopError_UpdateError (msg : string).

Record StopResponse := {
  stop_Error : option StopResponse_Error;
  StoppedInstanceIds : list N;
  stop_InvalidInstanceIds : list N
}.

Record RestartRequest := { restart_JobId : JobID; restart_Ranges : list InstanceRange }.
Inductive RestartResponse := MkRestartResponse.

Record RefreshRequest := { refresh_JobId : JobID; refresh_Range : option InstanceRange }.
Inductive RefreshResponse := MkRefreshResponse.

Record GetPodEventsRequest := {
  gpe_JobId : JobID;
  gpe_InstanceId : N;
  gpe_RunId : string;
  gpe_Limit : N
}.

Record GetPodEventsResponse := { gpe_Result : list TaskPodEvent }.

(* --------------------------------------------------------------------- *)
(* The handler                                                            *)
(* --------------------------------------------------------------------- *)

(* Iterations the retry loops of the model may take; the loops leave after
   at most MaxConcurrencyErrorRetry rounds (fuel_suffices below). *)
Definition retryFuel : nat := Z.to_nat (Z.max MaxConcurrencyErrorRetry 1).

(* What leaves a loop body: the function returns, or control goes on
   after the loop. *)
Inductive exit (R : Type) :=
| Return (r : R)
| Break.
Arguments Return {R} r.
Arguments Break {R}.

Inductive taskStart := TaskStarted | TaskFailed | TaskSkipped.

Section Handler.

(* goalstateutil.GetDefaultJobGoalState, jobmgr_task.GetDefaultTaskGoalState
   and taskutil.GetInitialHealthState belong to packages that are not among
   the sources. *)
Variable GetDefaultJobGoalState : JobType → JobState.
Variable GetDefaultTaskGoalState : JobType → TaskState.
Variable GetInitialHealthState : TaskConfig → HealthState.

(* getTaskInfosByRangesFromDB, the loop over the ranges.  The map that Go
   returns next to an error is dropped: every caller tests the error
   first. *)
Fixpoint getTaskInfosByRanges (jobID : JobID) (ranges : list InstanceRange)
    (taskInfos : gmap N TaskInfo) : prog (result (gmap N TaskInfo)) :=
  match ranges with
  | [] => Ret (Ok taskInfos)
  | taskRange :: ranges =>
      let taskRange :=
        if (MaxInt32 <? To taskRange)%N
        then {| From := From taskRange; To := MaxInt32 |}
        else taskRange in
      r ← trigger (GetTasksForJobByRange jobID taskRange);
      match r with
      | Err err => Ret (Err err)
      | Ok tmpTaskInfos => getTaskInfosByRanges jobID ranges (tmpTaskInfos ∪ taskInfos)
      end
  end.

Definition getTaskInfosByRangesFromDB (jobID : JobID) (ranges : list InstanceRange)
    : prog (result (gmap N TaskInfo)) :=
  if decide (length ranges = 0)
  then trigger (GetTasksForJob jobID)
  else getTaskInfosByRanges jobID ranges ∅.

(* The values of a Go map in the order a range statement visits them.  Go
   leaves the order open; the model takes the order of map_to_list. *)
Definition range_values {V : Type} (m : gmap N V) : list V := (map_to_list m).*2.
Definition range_keys {V : Type} (m : gmap N V) : list N := (map_to_list m).*1.

(* Start, one round of the loop that updates the job runtime (lines
   453-507); continue stands for the next round. *)
Definition Start_jobRuntime_round
    (continue : Z → prog (exit (result StartResponse)))
    (body : StartRequest) (cachedConfig : JobConfig) (count : Z)
    : prog (exit (result StartResponse)) :=
  r ← trigger (JobGetRuntime (start_JobId body));
  match r with
  | Err err => Ret (Return (Err err))
  | Ok jobRuntime =>
      if bool_decide (jc_Type cachedConfig = BATCH)
         && IsPelotonJobStateTerminal (jr_State jobRuntime)
      then Ret (Return (Err (InvalidArgumentErrorf
                               "cannot start tasks in a terminated job")))
      else
        let jobRuntime := set_jr_State jobRuntime JobState_PENDING in
        let jobRuntime :=
          set_jr_GoalState jobRuntime
            (GetDefaultJobGoalState (jc_Type cachedConfig)) in
        err ← trigger (JobCompareAndSetRuntime (start_JobId body) jobRuntime);
        let unexpected := bool_decide (err = Some UnexpectedVersionError) in
        let count := if unexpected then (count + 1)%Z else count in
        if unexpected && (count <? MaxConcurrencyErrorRetry)%Z
        then continue count
        else
          match err with
          | Some err =>
              Ret (Return (Ok {|
                start_Error := Some (StartError_Failure
                  ("task start failed while updating job status " +:+ Error_ err));
                StartedInstanceIds := [];
                start_InvalidInstanceIds := [] |}))
          | None => Ret Break
          end
  end.

Fixpoint Start_jobRuntime (fuel : nat) (body : StartRequest) (cachedConfig : JobConfig)
    (count : Z) : prog (exit (result StartResponse)) :=
  match fuel with
  | O => OutOfFuel
  | S fuel =>
      Start_jobRuntime_round (Start_jobRuntime fuel body cachedConfig)
        body cachedConfig count
  end.

(* Start, one round of the inner loop over one task (lines 540-600). *)
Definition Start_taskRuntime_round
    (continue : Z → prog taskStart)
    (body : StartRequest) (cachedConfig : JobConfig) (taskInfo : TaskInfo) (count : Z)
    : prog taskStart :=
  r ← trigger (TaskGetRuntime (start_JobId body) (InstanceId taskInfo));
  match r with
  | Err _ => Ret TaskFailed
  | Ok taskRuntime =>
      if bool_decide (GoalState taskRuntime ≠ TaskState_KILLED)
      then Ret TaskSkipped
      else
        let healthState := GetInitialHealthState (Config taskInfo) in
        let taskRuntime :=
          RegenerateMesosTaskRuntime (start_JobId body) (InstanceId taskInfo)
            taskRuntime healthState in
        let taskRuntime :=
          set_GoalState taskRuntime
            (GetDefaultTaskGoalState (jc_Type cachedConfig)) in
        let taskRuntime := set_Message taskRuntime "Task start API request" in
        err ← trigger (TaskCompareAndSetRuntime (start_JobId body)
                         (InstanceId taskInfo) taskRuntime (jc_Type cachedConfig));
        let unexpected := bool_decide (err = Some UnexpectedVersionError) in
        let count := if unexpected then (count + 1)%Z else count in
        if unexpected && (count <? MaxConcurrencyErrorRetry)%Z
        then continue count
        else
          match err with
          | Some _ => Ret TaskFailed
          | None => Ret TaskStarted
          end
  end.

Fixpoint Start_taskRuntime (fuel : nat) (body : StartRequest) (cachedConfig : JobConfig)
    (taskInfo : TaskInfo) (count : Z) : prog taskStart :=
  match fuel with
  | O => OutOfFuel
  | S fuel =>
      Start_taskRuntime_round (Start_taskRuntime fuel body cachedConfig taskInfo)
        body cachedConfig taskInfo count
  end.

(* Start, the loop over the task infos (lines 529-601). *)
Fixpoint Start_tasks (body : StartRequest) (cachedConfig : JobConfig)
    (taskInfos : list TaskInfo) (startedInstanceIds failedInstanceIds : list N)
    : prog (list N * list N) :=
  match taskInfos with
  | [] => Ret (startedInstanceIds, failedInstanceIds)
  | taskInfo :: taskInfos =>
      err ← trigger (JobAddTask (start_JobId body) (InstanceId taskInfo));
      match err with
      | Some _ =>
          Start_tasks body cachedConfig taskInfos startedInstanceIds
            (failedInstanceIds ++ [InstanceId taskInfo])
      | None =>
          o ← Start_taskRuntime retryFuel body cachedConfig taskInfo 0;
          match o with
          | TaskStarted =>
              Start_tasks body cachedConfig taskInfos
                (startedInstanceIds ++ [InstanceId taskInfo]) failedInstanceIds
          | TaskFailed =>
              Start_tasks body cachedConfig taskInfos startedInstanceIds
                (failedInstanceIds ++ [InstanceId taskInfo])
          | TaskSkipped =>
              Start_tasks body cachedConfig taskInfos startedInstanceIds failedInstanceIds
          end
      end
  end.

(* for _, instID := range ids { EnqueueTask(jobID, instID, time.Now()) } *)
Fixpoint enqueueTasks (jobID : JobID) (ids : list N) : prog unit :=
  match ids with
  | [] => Ret tt
  | instID :: ids => _ ← trigger (EnqueueTask jobID instID); enqueueTasks jobID ids
  end.

Definition Start (body : StartRequest) : prog (result StartResponse) :=
  leader ← trigger IsLeader;
  if negb leader
  then Ret (Err (UnavailableErrorf "Task Start API not suppported on non-leader"))
  else
    _ ← trigger (AddJob (start_JobId body));
    r ← trigger (JobGetConfig (start_JobId body));
    match r with
    | Err err =>
        Ret (Ok {| start_Error := Some (StartError_NotFound (start_JobId body) (Error_ err));
                   StartedInstanceIds := []; start_InvalidInstanceIds := [] |})
    | Ok cachedConfig =>
        x ← Start_jobRuntime retryFuel body cachedConfig 0;
        match x with
        | Return resp => Ret resp
        | Break =>
            r ← getTaskInfosByRangesFromDB (start_JobId body) (start_Ranges body);
            match r with
            | Err err =>
                Ret (Ok {| start_Error := Some (StartError_OutOfRange (start_JobId body)
                                                  (jc_InstanceCount cachedConfig));
                           StartedInstanceIds := []; start_InvalidInstanceIds := [] |})
            | Ok taskInfos =>
                '(startedInstanceIds, failedInstanceIds) ←
                  Start_tasks body cachedConfig (range_values taskInfos) [] [];
                _ ← enqueueTasks (start_JobId body) startedInstanceIds;
                _ ← trigger (EnqueueJobWithDefaultDelay (start_JobId body));
                Ret (Ok {| start_Error := None;
                           StartedInstanceIds := startedInstanceIds;
                           start_InvalidInstanceIds := failedInstanceIds |})
            end
        end
    end.

(* for i := uint32(0); i < instanceCount; i++ { append(instanceList, i) } *)
Definition instanceList (instanceCount : N) : list N :=
  N.of_nat <$> seq 0 (N.to_nat instanceCount).

(* stopJob, one round of the loop (lines 628-679); continue stands for
   the next round. *)
Definition stopJob_round
    (continue : Z → prog (exit (result StopResponse)))
    (jobID : JobID) (instanceCount : N) (count : Z)
    : prog (exit (result StopResponse)) :=
  r ← trigger (JobGetRuntime jobID);
  match r with
  | Err err =>
      Ret (Return (Ok {|
        stop_Error := Some (StopError_UpdateError
                              ("Job state fetch failed for " +:+ Error_ err));
        StoppedInstanceIds := [];
        stop_InvalidInstanceIds := instanceList instanceCount |}))
  | Ok jobRuntime =>
      if bool_decide (jr_GoalState jobRuntime = JobState_KILLED)
      then Ret (Return (Ok {| stop_Error := None;
                              StoppedInstanceIds := instanceList instanceCount;
                              stop_InvalidInstanceIds := [] |}))
      else
        let jobRuntime :=
          set_jr_DesiredStateVersion jobRuntime
            (uint64_add (jr_DesiredStateVersion jobRuntime) 1) in
        let jobRuntime := set_jr_GoalState jobRuntime JobState_KILLED in
        err ← trigger (JobCompareAndSetRuntime jobID jobRuntime);
        match err with
        | Some err =>
            let unexpected := bool_decide (err = UnexpectedVersionError) in
            let count := if unexpected then (count + 1)%Z else count in
            if unexpected && (count <? MaxConcurrencyErrorRetry)%Z
            then continue count
            else
              Ret (Return (Ok {|
                stop_Error := Some (StopError_UpdateError
                                      ("Job state update failed for " +:+ Error_ err));
                StoppedInstanceIds := [];
                stop_InvalidInstanceIds := instanceList instanceCount |}))
        | None => Ret Break
        end
  end.

Fixpoint stopJob_loop (fuel : nat) (jobID : JobID) (instanceCount : N) (count : Z)
    : prog (exit (result StopResponse)) :=
  match fuel with
  | O => OutOfFuel
  | S fuel => stopJob_round (stopJob_loop fuel jobID instanceCount) jobID instanceCount count
  end.

Definition stopJob (jobID : JobID) (instanceCount : N) : prog (result StopResponse) :=
  _ ← trigger (AddJob jobID);
  x ← stopJob_loop retryFuel jobID instanceCount 0;
  match x with
  | Return resp => Ret resp
  | Break =>
      _ ← trigger (EnqueueJob jobID);
      Ret (Ok {| stop_Error := None;
                 StoppedInstanceIds := instanceList instanceCount;
                 stop_InvalidInstanceIds := [] |})
  end.

Definition stopRuntimeDiff : RuntimeDiff :=
  [ (GoalStateField, VTaskState TaskState_KILLED);
    (MessageField, VString "Task stop API request");
    (ReasonField, VString "");
    (TerminationStatusField,
      VTerminationStatus {| Reason_ := TERMINATION_STATUS_REASON_KILLED_ON_REQUEST |}) ].

(* Stop, the loop that builds the diffs (lines 756-772). *)
Fixpoint Stop_diffs (taskInfos : list TaskInfo) (runtimeDiffs : gmap N RuntimeDiff)
    (instanceIds : list N) : gmap N RuntimeDiff * list N :=
  match taskInfos with
  | [] => (runtimeDiffs, instanceIds)
  | taskInfo :: taskInfos =>
      if bool_decide (GoalState (Runtime taskInfo) = TaskState_KILLED)
      then Stop_diffs taskInfos runtimeDiffs instanceIds
      else Stop_diffs taskInfos
             (<[InstanceId taskInfo := stopRuntimeDiff]> runtimeDiffs)
             (instanceIds ++ [InstanceId taskInfo])
  end.

(* The test of line 726 for stopping the job as a whole. *)
Definition stopsWholeJob (taskRange : list InstanceRange) (instanceCount : N) : bool :=
  match taskRange with
  | [] => true
  | [r] => bool_decide (From r = 0%N) && (instanceCount <=? To r)%N
  | _ => false
  end.

Definition Stop (body : StopRequest) : prog (result StopResponse) :=
  leader ← trigger IsLeader;
  if negb leader
  then Ret (Err (UnavailableErrorf "Task Stop API not suppported on non-leader"))
  else
    _ ← trigger (AddJob (stop_JobId body));
    r ← trigger (JobGetConfig (stop_JobId body));
    match r with
    | Err err =>
        Ret (Ok {| stop_Error := Some (StopError_NotFound (stop_JobId body) (Error_ err));
                   StoppedInstanceIds := []; stop_InvalidInstanceIds := [] |})
    | Ok cachedConfig =>
        let taskRange := stop_Ranges body in
        if stopsWholeJob taskRange (jc_InstanceCount cachedConfig)
        then stopJob (stop_JobId body) (jc_InstanceCount cachedConfig)
        else
          r ← getTaskInfosByRangesFromDB (stop_JobId body) taskRange;
          match r with
          | Err err =>
              Ret (Ok {| stop_Error := Some (StopError_OutOfRange (stop_JobId body)
                                               (jc_InstanceCount cachedConfig));
                         StoppedInstanceIds := []; stop_InvalidInstanceIds := [] |})
          | Ok taskInfos =>
              let '(runtimeDiffs, instanceIds) :=
                Stop_diffs (range_values taskInfos) ∅ [] in
              err ← trigger (PatchTasks (stop_JobId body) runtimeDiffs);
              let failedInstanceIds := if err is Some _ then instanceIds else [] in
              let stoppedInstanceIds := if err is Some _ then [] else instanceIds in
              _ ← enqueueTasks (stop_JobId body) stoppedInstanceIds;
              _ ← trigger (EnqueueJobWithDefaultDelay (stop_JobId body));
              match err with
              | Some err =>
                  Ret (Ok {| stop_Error := Some (StopError_UpdateError
                                                   ("Goalstate update failed for " +:+ Error_ err));
                             StoppedInstanceIds := stoppedInstanceIds;
                             stop_InvalidInstanceIds := [] |})
              | None =>
                  Ret (Ok {| stop_Error := None;
                             StoppedInstanceIds := stoppedInstanceIds;
                             stop_InvalidInstanceIds := failedInstanceIds |})
              end
          end
    end.

(* getRuntimeDiffsForRestart, the loop over the task infos (lines 863-874). *)
Fixpoint restartDiffs (jobID : JobID) (taskInfos : list TaskInfo)
    (res : gmap N RuntimeDiff) : gmap N RuntimeDiff :=
  match taskInfos with
  | [] => res
  | taskInfo :: taskInfos =>
      let runID :=
        match ParseRunID (MesosTaskId (Runtime taskInfo)) with
        | Ok runID => runID
        | Err _ => 0%N
        end in
      restartDiffs jobID taskInfos
        (<[InstanceId taskInfo :=
             [ (DesiredMesosTaskIDField,
                VTaskID (CreateMesosTaskID jobID (InstanceId taskInfo)
                           (uint64_add runID 1))) ]]> res)
  end.

Definition getRuntimeDiffsForRestart (jobID : JobID) (instanceRanges : list InstanceRange)
    : prog (result (gmap N RuntimeDiff)) :=
  r ← getTaskInfosByRangesFromDB jobID instanceRanges;
  match r with
  | Err err => Ret (Err err)
  | Ok taskInfos => Ret (Ok (restartDiffs jobID (range_values taskInfos) ∅))
  end.

Definition Restart (req : RestartRequest) : prog (result RestartResponse) :=
  leader ← trigger IsLeader;
  if negb leader
  then Ret (Err (UnavailableErrorf "Task Restart API not supported on non-leader"))
  else
    _ ← trigger (AddJob (restart_JobId req));
    r ← getRuntimeDiffsForRestart (restart_JobId req) (restart_Ranges req);
    match r with
    | Err err => Ret (Err err)
    | Ok runtimeDiffs =>
        err ← trigger (PatchTasks (restart_JobId req) runtimeDiffs);
        match err with
        | Some err => Ret (Err err)
        | None =>
            _ ← enqueueTasks (restart_JobId req) (range_keys runtimeDiffs);
            Ret (Ok MkRestartResponse)
        end
    end.

Definition Refresh (req : RefreshRequest) : prog (result RefreshResponse) :=
  leader ← trigger IsLeader;
  if negb leader
  then Ret (Err (UnavailableErrorf "Task Refresh API not suppported on non-leader"))
  else
    r ← trigger (GetJobConfig (refresh_JobId req));
    match r with
    | Err err => Ret (Err (NotFoundErrorf "job not found"))
    | Ok jobConfig =>
        let reqRange :=
          match refresh_Range req with
          | Some r => r
          | None => {| From := 0; To := jc_InstanceCount jobConfig |}
          end in
        let reqRange :=
          if (jc_InstanceCount jobConfig <? To reqRange)%N
          then {| From := From reqRange; To := jc_InstanceCount jobConfig |}
          else reqRange in
        r ← trigger (GetTaskRuntimesForJobByRange (refresh_JobId req) reqRange);
        match r with
        | Err err => Ret (Err (NotFoundErrorf "tasks not found"))
        | Ok runtimes =>
            if bool_decide (size runtimes = 0)
            then Ret (Err (NotFoundErrorf "tasks not found"))
            else
              _ ← trigger (AddJob (refresh_JobId req));
              _ ← trigger (ReplaceTasks (refresh_JobId req) runtimes true);
              _ ← enqueueTasks (refresh_JobId req) (range_keys runtimes);
              _ ← trigger (EnqueueJobWithDefaultDelay (refresh_JobId req));
              Ret (Ok MkRefreshResponse)
        end
    end.

(* GetPodEvents, the loop over the events of one run (lines 204-240).  The
   events of a run all point at the one variable prevPodID of that run: it
   is declared before the loop (line 204), every event assigns it (line
   207) and every wire event takes its address (line 233).  So run holds
   the wire events of the run so far with that pointer left open, as
   functions of what the variable will hold, and prevPodID is what it
   holds now.  podID and desiredPodID are fresh for each event. *)
Fixpoint convertRun_loop (podEvents : list PodEvent)
    (run : list (string → TaskPodEvent)) (prevPodID : string)
    : result (list (string → TaskPodEvent) * string) :=
  match podEvents with
  | [] => Ok (run, prevPodID)
  | e :: podEvents =>
      let podID := pe_PodId e in
      let prevPodID := pe_PrevPodId e in
      let desiredPodID := pe_DesiredPodId e in
      match ParseInt (pe_Version e) with
      | None => Err (Wrapped (StoreError "strconv.ParseInt") "error parsing job version")
      | Some jobVersion =>
          match ParseInt (pe_DesiredVersion e) with
          | None =>
              Err (Wrapped (StoreError "strconv.ParseInt")
                     "error parsing desired job version")
          | Some desiredVersion =>
              convertRun_loop podEvents
                (run ++ [ λ prevPodID, {|
                   tpe_TaskId := podID;
                   tpe_ActualState := pe_ActualState e;
                   tpe_GoalState := pe_DesiredState e;
                   tpe_Timestamp := pe_Timestamp e;
                   tpe_ConfigVersion := uint64_of_int64 jobVersion;
                   tpe_DesiredConfigVersion := uint64_of_int64 desiredVersion;
                   tpe_AgentID := pe_AgentId e;
                   tpe_Hostname := pe_Hostname e;
                   tpe_Message := pe_Message e;
                   tpe_Reason := pe_Reason e;
                   tpe_PrevTaskId := prevPodID;
                   tpe_Healthy := pe_Healthy e;
                   tpe_DesriedTaskId := desiredPodID |} ])
                prevPodID
          end
      end
  end.

(* The events of one run appended to res (lines 203-240): after the loop
   the variable prevPodID is not assigned again, so every wire event of
   the run reads through its pointer the prev pod id of the last event of
   the run. *)
Definition convertRun (podEvents : list PodEvent) (res : list TaskPodEvent)
    (prevPodID : string) : result (list TaskPodEvent * string) :=
  match convertRun_loop podEvents [] prevPodID with
  | Err err => Err err
  | Ok (run, prevPodID) => Ok (res ++ ((λ event, event prevPodID) <$> run), prevPodID)
  end.

(* GetPodEvents, the loop for i := uint64(0); i < limit; i++ (lines
   194-255); rounds is limit - i. *)
Fixpoint GetPodEvents_loop (rounds : nat) (body : GetPodEventsRequest) (podID : string)
    (res : list TaskPodEvent) : prog (result GetPodEventsResponse) :=
  match rounds with
  | O => Ret (Ok {| gpe_Result := res |})
  | S rounds =>
      r ← trigger (TaskStore_GetPodEvents (gpe_JobId body) (gpe_InstanceId body) podID);
      match r with
      | Err err => Ret (Err (Wrapped err "error getting pod events from store"))
      | Ok podEvents =>
          match convertRun podEvents res "" with
          | Err err => Ret (Err err)
          | Ok (res, prevPodID) =>
              if bool_decide (String.length prevPodID = 0)
              then Ret (Ok {| gpe_Result := res |})
              else
                match ParseRunID prevPodID with
                | Err err => Ret (Err (Wrapped err "error parsing prevPodID"))
                | Ok prevRunID =>
                    if bool_decide (prevRunID = 0%N)
                    then Ret (Ok {| gpe_Result := res |})
                    else GetPodEvents_loop rounds body prevPodID res
                end
          end
      end
  end.

(* The number of runs GetPodEvents walks (lines 182-190). *)
Definition podEventsLimit (body : GetPodEventsRequest) : N :=
  let limit := gpe_Limit body in
  let limit := if bool_decide (String.length (gpe_RunId body) ≠ 0) then 1%N else limit in
  if bool_decide (limit = 0%N) then 10%N else limit.

Definition GetPodEvents (body : GetPodEventsRequest)
    : prog (result GetPodEventsResponse) :=
  let limit := podEventsLimit body in
  let podID := gpe_RunId body in
  GetPodEvents_loop (N.to_nat limit) body podID [].

(* ----- What a run of the handler is expected to do ----- *)

(* A range as the task lookup passes it to the store (lines 401-403). *)
Definition clampRange (taskRange : InstanceRange) : InstanceRange :=
  if (MaxInt32 <? To taskRange)%N
  then {| From := From taskRange; To := MaxInt32 |}
  else taskRange.

(* The tasks a request selects, when the store holds all, and byRange r for
   the range r: the whole job without ranges, else the ranges merged, a
   later range overriding an earlier one. *)
Definition mergeRanges (byRange : InstanceRange → gmap N TaskInfo)
    (ranges : list InstanceRange) (taskInfos : gmap N TaskInfo) : gmap N TaskInfo :=
  foldl (λ acc r, byRange (clampRange r) ∪ acc) taskInfos ranges.

Definition selectedTasks (all : gmap N TaskInfo) (byRange : InstanceRange → gmap N TaskInfo)
    (ranges : list InstanceRange) : gmap N TaskInfo :=
  if decide (length ranges = 0) then all else mergeRanges byRange ranges ∅.

(* The store calls of that lookup. *)
Definition lookupTrace (jobID : JobID) (all : gmap N TaskInfo)
    (byRange : InstanceRange → gmap N TaskInfo) (ranges : list InstanceRange)
    : list event :=
  if decide (length ranges = 0)
  then [Event (GetTasksForJob jobID) (Ok all)]
  else (λ r, Event (GetTasksForJobByRange jobID (clampRange r))
               (Ok (byRange (clampRange r)))) <$> ranges.

(* The runtime Start writes for a task whose runtime is taskRuntime (lines
   563-572). *)
Definition startedRuntime (jobID : JobID) (cachedConfig : JobConfig)
    (taskInfo : TaskInfo) (taskRuntime : RuntimeInfo) : RuntimeInfo :=
  set_Message
    (set_GoalState
       (RegenerateMesosTaskRuntime jobID (InstanceId taskInfo) taskRuntime
          (GetInitialHealthState (Config taskInfo)))
       (GetDefaultTaskGoalState (jc_Type cachedConfig)))
    "Task start API request".

(* The calls Start makes for one task whose cached runtime is taskRuntime
   and whose compare-and-set, if it comes to one, is answered by cas. *)
Definition startTaskTrace (jobID : JobID) (cachedConfig : JobConfig)
    (taskInfo : TaskInfo) (taskRuntime : RuntimeInfo) (cas : option error)
    : list event :=
  [ Event (JobAddTask jobID (InstanceId taskInfo)) None;
    Event (TaskGetRuntime jobID (InstanceId taskInfo)) (Ok taskRuntime) ]
  ++ (if bool_decide (GoalState taskRuntime = TaskState_KILLED)
      then [ Event (TaskCompareAndSetRuntime jobID (InstanceId taskInfo)
                      (startedRuntime jobID cachedConfig taskInfo taskRuntime)
                      (jc_Type cachedConfig)) cas ]
      else []).

(* The diff Restart makes for a task (lines 864-873). *)
Definition restartDiff (jobID : JobID) (taskInfo : TaskInfo) : RuntimeDiff :=
  [ (DesiredMesosTaskIDField,
     VTaskID (CreateMesosTaskID jobID (InstanceId taskInfo)
                (uint64_add (runID_or_zero (MesosTaskId (Runtime taskInfo))) 1))) ].

(* The task infos are stored under their own instance ids. *)
Definition keyedByInstance (taskInfos : gmap N TaskInfo) : Prop :=
  ∀ i taskInfo, taskInfos !! i = Some taskInfo → InstanceId taskInfo = i.

Definition enqueueTrace (jobID : JobID) (ids : list N) : list event :=
  (λ i, Event (EnqueueTask jobID i) tt) <$> ids.

End Handler.

(* --------------------------------------------------------------------- *)
(* Watch processor (pkg/jobmgr/watchsvc)                                  *)
(* --------------------------------------------------------------------- *)

Module WatchProcessor.

Inductive StopSignal := StopSignalUnknown | StopSignalCancel | StopSignalOverflow.

Record Config := { BufferSize : nat; MaxClient : nat }.

(* pod.PodSummary; the processor only passes it on. *)
Definition PodSummary := string.

(** Modelled from the spec: the task watch client of processor.go (only
    processor_test.go is among the sources).  Input is the bounded queue of
    change events, oldest first; Signal is the single-slot channel for the
    terminal reason, None while the slot is empty. *)
Record TaskClient := {
  Input : list PodSummary;
  InputClosed : bool;
  Signal : option StopSignal
}.

(** Modelled from the spec: the processor.  A client is shared between the
    processor and its consumer, so the clients live in a store keyed by
    watch id (clients) and the registry (taskClients) holds the ids of the
    registered ones; an evicted client stays in the store, where its
    consumer still reads its channels.  nextID stands for the source of
    fresh UUIDs. *)
Record watchProcessor := {
  config : Config;
  clients : gmap string TaskClient;
  taskClients : gset string;
  nextID : N
}.

Definition newWatchProcessor (cfg : Config) : watchProcessor :=
  {| config := cfg; clients := ∅; taskClients := ∅; nextID := 0 |}.

(* The signal a consumer has received so far when it takes whatever is in
   the slot: the zero value StopSignalUnknown while nothing was sent. *)
Definition receivedSignal (c : TaskClient) : StopSignal :=
  match Signal c with
  | Some s => s
  | None => StopSignalUnknown
  end.

(** Modelled from the spec: NewTaskClient allocates a fresh id, a queue of
    size BufferSize and a single-slot signal channel, and fails with
    ResourceExhausted when the registry holds MaxClient clients. *)
Definition NewTaskClient (p : watchProcessor) : result (string * TaskClient) * watchProcessor :=
  if bool_decide (size (taskClients p) = MaxClient (config p))
  then (Err (YarpcError CodeResourceExhausted "max client reached"), p)
  else
    let watchID := pretty (nextID p) in
    let c := {| Input := []; InputClosed := false; Signal := None |} in
    (Ok (watchID, c),
     {| config := config p;
        clients := <[watchID := c]> (clients p);
        taskClients := {[watchID]} ∪ taskClients p;
        nextID := (nextID p + 1)%N |}).

(* c.Signal <- s on the single-slot channel: None when the slot is taken
   and the send would block. *)
Definition sendSignal (c : TaskClient) (s : StopSignal) : option TaskClient :=
  match Signal c with
  | Some _ => None
  | None => Some {| Input := Input c; InputClosed := InputClosed c; Signal := Some s |}
  end.

(** Modelled from the spec: stopping a client removes the registry entry,
    sends the signal and closes the input queue; unknown ids give
    NotFound.  The outer None is a blocked send. *)
Definition stopTaskClient (watchID : string) (s : StopSignal) (p : watchProcessor)
    : option (option error * watchProcessor) :=
  if bool_decide (watchID ∈ taskClients p)
  then
    match clients p !! watchID with
    | Some c =>
        match sendSignal c s with
        | Some c =>
            let c := {| Input := Input c; InputClosed := true; Signal := Signal c |} in
            Some (None,
                  {| config := config p;
                     clients := <[watchID := c]> (clients p);
                     taskClients := taskClients p ∖ {[watchID]};
                     nextID := nextID p |})
        | None => None
        end
    | None => Some (Some (NotFoundErrorf "client not found"), p)
    end
  else Some (Some (NotFoundErrorf "client not found"), p).

Definition StopTaskClient (watchID : string) (p : watchProcessor)
    : option (option error * watchProcessor) :=
  stopTaskClient watchID StopSignalCancel p.

(** Modelled from the spec: the notification of one client, a non-blocking
    send on its input queue; when the queue is full the client is evicted
    with StopSignalOverflow. *)
Definition notifyClient (pod : PodSummary) (watchID : string) (p : watchProcessor)
    : option watchProcessor :=
  match clients p !! watchID with
  | Some c =>
      if bool_decide (length (Input c) < BufferSize (config p))%nat
      then
        Some {| config := config p;
                clients := <[watchID :=
                  {| Input := Input c ++ [pod]; InputClosed := InputClosed c;
                     Signal := Signal c |}]> (clients p);
                taskClients := taskClients p;
                nextID := nextID p |}
      else snd <$> stopTaskClient watchID StopSignalOverflow p
  | None => Some p
  end.

(** Modelled from the spec: NotifyTaskChange fans the event out to all the
    registered clients.  None is a notifier that blocks. *)
Definition NotifyTaskChange (pod : PodSummary) (p : watchProcessor) : option watchProcessor :=
  foldr (λ watchID acc, acc ≫= notifyClient pod watchID) (Some p)
        (elements (taskClients p)).

(* The notifications of pods in a row, with no consumer step between
   them. *)
Fixpoint notifyEach (pods : list PodSummary) (p : watchProcessor) : option watchProcessor :=
  match pods with
  | [] => Some p
  | pod :: pods => NotifyTaskChange pod p ≫= notifyEach pods
  end.

(* The registered clients are in the store, with an empty signal slot and
   a queue within its bound. *)
Definition wf (p : watchProcessor) : Prop :=
  ∀ watchID, watchID ∈ taskClients p →
    ∃ c, clients p !! watchID = Some c ∧ Signal c = None
         ∧ (length (Input c) ≤ BufferSize (config p))%nat.

(* The client c with pod queued, and c evicted for overflow. *)
Definition queued (pod : PodSummary) (c : TaskClient) : TaskClient :=
  {| Input := Input c ++ [pod]; InputClosed := InputClosed c; Signal := Signal c |}.

Definition overflowed (c : TaskClient) : TaskClient :=
  {| Input := Input c; InputClosed := true; Signal := Some StopSignalOverflow |}.

(* The notification of the clients ids, the last of the list first. *)
Definition notifyList (pod : PodSummary) (ids : list string) (p : watchProcessor)
    : option watchProcessor :=
  foldr (λ watchID acc, acc ≫= notifyClient pod watchID) (Some p) ids.

(* What a notification makes of a registered client. *)
Definition notified (pod : PodSummary) (p p' : watchProcessor) (watchID : string)
    (c : TaskClient) : Prop :=
  if decide (length (Input c) < BufferSize (config p))%nat
  then clients p' !! watchID = Some (queued pod c) ∧ watchID ∈ taskClients p'
  else clients p' !! watchID = Some (overflowed c) ∧ watchID ∉ taskClients p'.

(* The configuration of the processor's tests. *)
Definition testConfig : Config := {| BufferSize := 10; MaxClient := 2 |}.

End WatchProcessor.

(* --------------------------------------------------------------------- *)
(* Aurora metadata labels (package label)                                 *)
(* --------------------------------------------------------------------- *)

Module Label.

Definition _auroraMetadataKey : string := "aurora_metadata".

(* peloton.Label *)
Record Label := { Key : string; Value : string }.

(* The getters of a *peloton.Label, which accept the nil pointer. *)
Definition GetKey (l : option Label) : string :=
  match l with Some l => Key l | None => "" end.
Definition GetValue (l : option Label) : string :=
  match l with Some l => Value l | None => "" end.

Definition quote : string := String (ascii_of_nat 34) EmptyString.

Section Codec.

(* api.Metadata is generated code and encoding/json is Go's library: the
   two functions are written over any metadata type and any codec. *)
Variable Metadata : Type.
Variable json_Marshal : list Metadata → result string.
Variable json_Unmarshal : string → result (list Metadata).

Definition NewAuroraMetadata (md : list Metadata) : result Label :=
  match json_Marshal md with
  | Err err => Err (StoreError ("json marshal: " +:+ Error_ err))
  | Ok b => Ok {| Key := _auroraMetadataKey; Value := b |}
  end.

Fixpoint ParseAuroraMetadata (ls : list (option Label)) : result (list Metadata) :=
  match ls with
  | [] => Err (StoreError ("missing label: " +:+ quote +:+ _auroraMetadataKey +:+ quote))
  | l :: ls =>
      if bool_decide (GetKey l = _auroraMetadataKey)
      then
        match json_Unmarshal (GetValue l) with
        | Err err => Err err
        | Ok m => Ok m
        end
      else ParseAuroraMetadata ls
  end.

(* The first label of ls with the aurora metadata key. *)
Definition firstAuroraLabel (ls : list (option Label)) : option (option Label) :=
  find (λ l, bool_decide (GetKey l = _auroraMetadataKey)) ls.

End Codec.

(* ----- encoding/json on a list of metadata ----- *)

(* api.Metadata is generated code that is not among the sources.  It is
   taken as the Aurora API has it, a key and a value, both strings, and
   both set.  encoding/json is Go's library; it is written out here for
   lists of these: json.Marshal in full, and json.Unmarshal for the
   documents json.Marshal writes (no white space, the members key and
   value in this order, no other member).  A Go string is a sequence of
   bytes, here a string of Rocq, one character a byte.  The encoder
   writes into a buffer: each function below takes what is written after
   it as its last argument k. *)
Definition api_Metadata : Type := string * string.

Local Open Scope N_scope.

Definition byte (c : ascii) : N := N_of_ascii c.
Definition chr (n : N) : ascii := ascii_of_N n.

(* e.WriteString(lit), before k. *)
Fixpoint write (lit k : string) : string :=
  match lit with
  | EmptyString => k
  | String c lit => String c (write lit k)
  end.

(* hex[n] of the table 0123456789abcdef, and the value of a hex digit of
   either case (getu4). *)
Definition hex (n : N) : ascii := chr (if n <? 10 then 48 + n else 87 + n).

Definition unhex (c : ascii) : option N :=
  let b := byte c in
  if (48 <=? b) && (b <=? 57) then Some (b - 48)
  else if (97 <=? b) && (b <=? 102) then Some (b - 87)
  else if (65 <=? b) && (b <=? 70) then Some (b - 55)
  else None.

Definition getu4 (h1 h2 h3 h4 : ascii) : option N :=
  match unhex h1, unhex h2, unhex h3, unhex h4 with
  | Some a, Some b, Some c, Some d => Some (((a * 16 + b) * 16 + c) * 16 + d)
  | _, _, _, _ => None
  end.

Definition between (lo hi : N) (c : ascii) : bool := (lo <=? byte c) && (byte c <=? hi).

(* A continuation byte of UTF-8. *)
Definition cont (c : ascii) : bool := between 0x80 0xBF c.

(* utf8.DecodeRuneInString on a string whose first byte is 0x80 or more,
   by the width it returns: the length of the encoding at the head of s
   when that is a valid encoding of two to four bytes, and 1, which comes
   with RuneError, when it is not. *)
Definition runeWidth (s : string) : nat :=
  match s with
  | String c0 (String c1 s) =>
      if between 0xC2 0xDF c0 then if cont c1 then 2%nat else 1%nat
      else if between 0xE0 0xEF c0 then
        if between (if byte c0 =? 0xE0 then 0xA0 else 0x80)
                   (if byte c0 =? 0xED then 0x9F else 0xBF) c1
        then match s with
             | String c2 _ => if cont c2 then 3%nat else 1%nat
             | _ => 1%nat
             end
        else 1%nat
      else if between 0xF0 0xF4 c0 then
        if between (if byte c0 =? 0xF0 then 0x90 else 0x80)
                   (if byte c0 =? 0xF4 then 0x8F else 0xBF) c1
        then match s with
             | String c2 (String c3 _) => if cont c2 && cont c3 then 4%nat else 1%nat
             | _ => 1%nat
             end
        else 1%nat
      else 1%nat
  | _ => 1%nat
  end.

(* utf8.ValidString *)
Fixpoint ValidString (s : string) : bool :=
  match s with
  | EmptyString => true
  | String c s1 =>
      if byte c <? 0x80 then ValidString s1
      else
        match runeWidth s, s1 with
        | 2%nat, String _ s2 => ValidString s2
        | 3%nat, String _ (String _ s3) => ValidString s3
        | 4%nat, String _ (String _ (String _ s4)) => ValidString s4
        | _, _ => false
        end
  end.

(* utf8.RuneError, U+FFFD, and utf8.EncodeRune: a surrogate half and a
   value above U+10FFFF are written as RuneError. *)
Definition RuneError : N := 0xFFFD.

Definition EncodeRune (r : N) : string :=
  let r := if (0xD800 <=? r) && (r <=? 0xDFFF) || (0x10FFFF <? r) then RuneError else r in
  if r <? 0x80 then String (chr r) ""
  else if r <? 0x800
  then String (chr (0xC0 + r / 64)) (String (chr (0x80 + r mod 64)) "")
  else if r <? 0x10000
  then String (chr (0xE0 + r / 4096))
         (String (chr (0x80 + (r / 64) mod 64)) (String (chr (0x80 + r mod 64)) ""))
  else String (chr (0xF0 + r / 262144))
         (String (chr (0x80 + (r / 4096) mod 64))
            (String (chr (0x80 + (r / 64) mod 64)) (String (chr (0x80 + r mod 64)) ""))).

(* htmlSafeSet: the ASCII bytes json.Marshal writes as they are, all from
   the space on but the quote, the backslash and <, > and &. *)
Definition htmlSafe (c : ascii) : bool :=
  let b := byte c in
  (0x20 <=? b) && (b <? 0x80)
  && negb ((b =? 34) || (b =? 92) || (b =? 60) || (b =? 62) || (b =? 38)).

(* What the encoder writes for an ASCII byte that is not in htmlSafeSet. *)
Definition escape (c : ascii) (k : string) : string :=
  let b := byte c in
  if (b =? 92) || (b =? 34) then String "\" (String c k)
  else if b =? 10 then String "\" (String "n" k)
  else if b =? 13 then String "\" (String "r" k)
  else if b =? 9 then String "\" (String "t" k)
  else write "\u00" (String (hex (b / 16)) (String (hex (b mod 16)) k)).

(* The loop of encodeState.string with escapeHTML set, as json.Marshal
   sets it, without the two quotes: an invalid byte is written as the
   escape of U+FFFD, U+2028 and U+2029 as their escapes, and any other
   valid encoding as it is. *)
Fixpoint encodeString (s : string) (k : string) : string :=
  match s with
  | EmptyString => k
  | String c s1 =>
      if byte c <? 0x80
      then if htmlSafe c then String c (encodeString s1 k)
           else escape c (encodeString s1 k)
      else
        match runeWidth s, s1 with
        | 2%nat, String c1 s2 => String c (String c1 (encodeString s2 k))
        | 3%nat, String c1 (String c2 s3) =>
            if (byte c =? 0xE2) && (byte c1 =? 0x80)
               && ((byte c2 =? 0xA8) || (byte c2 =? 0xA9))
            then write "\u202" (String (hex (byte c2 mod 16)) (encodeString s3 k))
            else String c (String c1 (String c2 (encodeString s3 k)))
        | 4%nat, String c1 (String c2 (String c3 s4)) =>
            String c (String c1 (String c2 (String c3 (encodeString s4 k))))
        | _, _ => write "\ufffd" (encodeString s1 k)
        end
  end.

Definition jsonString (s : string) (k : string) : string :=
  write quote (encodeString s (write quote k)).

(* The encoder of the struct and of the slice. *)
Definition encodeMetadata (m : api_Metadata) (k : string) : string :=
  write "{" (jsonString "key" (write ":" (jsonString m.1
    (write "," (jsonString "value" (write ":" (jsonString m.2 (write "}" k)))))))).

Fixpoint encodeElements (md : list api_Metadata) (k : string) : string :=
  match md with
  | [] => k
  | [m] => encodeMetadata m k
  | m :: md => encodeMetadata m (write "," (encodeElements md k))
  end.

(* json.Marshal(md).  It returns no error for a value of this type.  The
   nil slice, which is written as null, is not told from the empty one. *)
Definition json_Marshal (md : list api_Metadata) : result string :=
  Ok (write "[" (encodeElements md "]")).

(* The decoded text t put before what r decoded. *)
Definition put (t : string) (r : option (string * string)) : option (string * string) :=
  match r with
  | Some (u, rest) => Some (write t u, rest)
  | None => None
  end.

(* The character an escape of one letter stands for. *)
Definition unescape (e : ascii) : option ascii :=
  let b := byte e in
  if (b =? 34) || (b =? 92) || (b =? 47) then Some e
  else if b =? 98 then Some (chr 8)
  else if b =? 102 then Some (chr 12)
  else if b =? 110 then Some (chr 10)
  else if b =? 114 then Some (chr 13)
  else if b =? 116 then Some (chr 9)
  else None.

(* utf16.IsSurrogate, and utf16.DecodeRune of a valid pair. *)
Definition IsSurrogate (r : N) : bool := (0xD800 <=? r) && (r <? 0xE000).

Definition utf16_DecodeRune (r1 r2 : N) : N :=
  if (0xD800 <=? r1) && (r1 <? 0xDC00) && (0xDC00 <=? r2) && (r2 <? 0xE000)
  then (r1 - 0xD800) * 1024 + (r2 - 0xDC00) + 0x10000
  else RuneError.

(* A string literal after its opening quote, as the scanner and unquote
   read it: the text it stands for, and what follows the closing quote.
   An escape is replaced by what it stands for, a surrogate half by the
   rune of its pair or by RuneError; a byte below the space, an unknown
   escape and a literal that does not end are errors; bytes that are no
   valid UTF-8 are coerced, each to RuneError, and a valid encoding is
   written as it is. *)
Fixpoint unquote (s : string) : option (string * string) :=
  match s with
  | EmptyString => None
  | String c s1 =>
      if byte c =? 34 then Some ("", s1)
      else if byte c =? 92 then
        match s1 with
        | String e s2 =>
            match unescape e with
            | Some d => put (String d "") (unquote s2)
            | None =>
                if byte e =? 117 then
                  match s2 with
                  | String h1 (String h2 (String h3 (String h4 s6))) =>
                      match getu4 h1 h2 h3 h4 with
                      | Some rr =>
                          if IsSurrogate rr then
                            match s6 with
                            | String b1 (String u1
                                (String g1 (String g2 (String g3 (String g4 s12))))) =>
                                match
                                  (if (byte b1 =? 92) && (byte u1 =? 117)
                                   then getu4 g1 g2 g3 g4 else None)
                                with
                                | Some rr1 =>
                                    if utf16_DecodeRune rr rr1 =? RuneError
                                    then put (EncodeRune RuneError) (unquote s6)
                                    else put (EncodeRune (utf16_DecodeRune rr rr1))
                                           (unquote s12)
                                | None => put (EncodeRune RuneError) (unquote s6)
                                end
                            | _ => put (EncodeRune RuneError) (unquote s6)
                            end
                          else put (EncodeRune rr) (unquote s6)
                      | None => None
                      end
                  | _ => None
                  end
                else None
            end
        | EmptyString => None
        end
      else if byte c <? 0x20 then None
      else if byte c <? 0x80 then put (String c "") (unquote s1)
      else
        match runeWidth s, s1 with
        | 2%nat, String c1 s2 => put (String c (String c1 "")) (unquote s2)
        | 3%nat, String c1 (String c2 s3) =>
            put (String c (String c1 (String c2 ""))) (unquote s3)
        | 4%nat, String c1 (String c2 (String c3 s4)) =>
            put (String c (String c1 (String c2 (String c3 "")))) (unquote s4)
        | _, _ => put (EncodeRune RuneError) (unquote s1)
        end
  end.

Local Close Scope N_scope.

(* The rest of s after the prefix lit. *)
Fixpoint expect (lit s : string) : option string :=
  match lit, s with
  | EmptyString, _ => Some s
  | String a lit, String b s => if Ascii.eqb a b then expect lit s else None
  | _, _ => None
  end.

Definition readString (s : string) : option (string * string) :=
  match expect quote s with
  | Some s => unquote s
  | None => None
  end.

(* The member name, as the encoder writes it, and its value. *)
Definition readMember (name : string) (s : string) : option (string * string) :=
  match expect (jsonString name ":") s with
  | Some s => readString s
  | None => None
  end.

Definition readMetadata (s : string) : option (api_Metadata * string) :=
  match expect "{" s with
  | Some s =>
      match readMember "key" s with
      | Some (k, s) =>
          match expect "," s with
          | Some s =>
              match readMember "value" s with
              | Some (v, s) =>
                  match expect "}" s with
                  | Some s => Some ((k, v), s)
                  | None => None
                  end
              | None => None
              end
          | None => None
          end
      | None => None
      end
  | None => None
  end.

(* The elements of an array after the first bracket, up to the end of the
   document; fuel bounds the number of elements. *)
Fixpoint readElements (fuel : nat) (s : string) : option (list api_Metadata) :=
  match fuel with
  | O => None
  | S fuel =>
      match readMetadata s with
      | Some (m, s) =>
          match s with
          | String "]" EmptyString => Some [m]
          | String "," s =>
              match readElements fuel s with
              | Some md => Some (m :: md)
              | None => None
              end
          | _ => None
          end
      | None => None
      end
  end.

Definition SyntaxError : error := StoreError "invalid character".

(* json.Unmarshal(b, &m), for the documents json.Marshal writes of a
   metadata list. *)
Definition json_Unmarshal (s : string) : result (list api_Metadata) :=
  match s with
  | String "[" (String "]" EmptyString) => Ok []
  | String "[" s =>
      match readElements (String.length s) s with
      | Some md => Ok md
      | None => Err SyntaxError
      end
  | _ => Err SyntaxError
  end.

(* The label NewAuroraMetadata makes of md with this codec. *)
Definition labelOf (md : list api_Metadata) : Label :=
  {| Key := _auroraMetadataKey; Value := write "[" (encodeElements md "]") |}.

(* A label list with labels before that of md, a nil pointer among them,
   and a second label of the key after it. *)
Definition labelsWith (l : Label) : list (option Label) :=
  [ Some {| Key := "owner"; Value := "infra" |}; None; Some l;
    Some {| Key := "aurora_metadata"; Value := "stale" |} ].

(* Metadata whose second value has a quote, a backslash, a line feed, the
   characters < and &, and the two bytes of U+00E9. *)
Definition tierMetadata : list api_Metadata :=
  [ ("tier", "preferred");
    ("note", String (chr 34) (String (chr 92) (String (chr 10)
               (String "<" (String "&" (String (chr 0xC3%N) (String (chr 0xA9%N) ""))))))) ].

(* Metadata with a value of one byte, 0xFF, which is no UTF-8. *)
Definition brokenMetadata : list api_Metadata :=
  [ ("tier", String (chr 0xFF%N) "") ].

(* What comes back for it: the value is the encoding of U+FFFD. *)
Definition coercedMetadata : list api_Metadata :=
  [ ("tier", EncodeRune RuneError) ].

End Label.

(* --------------------------------------------------------------------- *)
(* What the calls of a run are                                            *)
(* --------------------------------------------------------------------- *)

(* The answer an environment gives to a call in a state, and the state it
   moves to. *)
Definition answer (E : env) {X : Type} (c : call X) (w : world E) : X :=
  (respond E X c w).1.
Definition next (E : env) {X : Type} (c : call X) (w : world E) : world E :=
  (respond E X c w).2.

(* The environment answers c with x whenever it is asked. *)
Definition always (E : env) {X : Type} (c : call X) (x : X) : Prop :=
  ∀ w, answer E c w = x.

(* The outcome o with the events evs put before its trace. *)
Definition after {R W : Type} (evs : list event) (o : option (outcome R W))
    : option (outcome R W) :=
  match o with
  | Some o => Some (Outcome (returned o) (final o) (evs ++ trace o))
  | None => None
  end.

(* The run of p from w ends, in an outcome that satisfies Q. *)
Definition ensures (E : env) {R : Type} (p : prog R) (w : world E)
    (Q : outcome R (world E) → Prop) : Prop :=
  ∃ o, run E p w = Some o ∧ Q o.

Definition prepend {R W : Type} (evs : list event) (o : outcome R W) : outcome R W :=
  Outcome (returned o) (final o) (evs ++ trace o).

(* The run of p ends from every state. *)
Definition total (E : env) {R : Type} (p : prog R) : Prop :=
  ∀ w, ensures E p w (λ _, True).

Definition isJobCAS (ev : event) : bool :=
  match ev with Event (JobCompareAndSetRuntime _ _) _ => true | _ => false end.

Definition isTaskCAS (ev : event) : bool :=
  match ev with Event (TaskCompareAndSetRuntime _ _ _ _) _ => true | _ => false end.

Definition isPatch (ev : event) : bool :=
  match ev with Event (PatchTasks _ _) _ => true | _ => false end.

(* Writes of a job or task runtime. *)
Definition isRuntimeWrite (ev : event) : bool :=
  match ev with
  | Event (JobCompareAndSetRuntime _ _) _
  | Event (TaskCompareAndSetRuntime _ _ _ _) _
  | Event (PatchTasks _ _) _
  | Event (ReplaceTasks _ _ _) _ => true
  | _ => false
  end.

(* Calls that change the cache: new job or task entries, and the runtime
   writes, which go through the cache. *)
Definition isCacheMutation (ev : event) : bool :=
  match ev with
  | Event (AddJob _) _
  | Event (JobAddTask _ _) _ => true
  | _ => isRuntimeWrite ev
  end.

Definition isEnqueue (ev : event) : bool :=
  match ev with
  | Event (EnqueueTask _ _) _
  | Event (EnqueueJob _) _
  | Event (EnqueueJobWithDefaultDelay _) _ => true
  | _ => false
  end.

Definition isStoreRead (ev : event) : bool :=
  match ev with
  | Event (GetJobConfig _) _
  | Event (GetTasksForJob _) _
  | Event (GetTasksForJobByRange _ _) _
  | Event (GetTaskRuntimesForJobByRange _ _) _
  | Event (TaskStore_GetPodEvents _ _ _) _ => true
  | _ => false
  end.

(* The events a pod-event fetch returned, for the events of that kind. *)
Definition fetched (ev : event) : option (result (list PodEvent)) :=
  match ev with
  | @Event X c x =>
      match c in call X return X → option (result (list PodEvent)) with
      | TaskStore_GetPodEvents _ _ _ => λ x, Some x
      | _ => λ _, None
      end x
  end.

Definition countOf (f : event → bool) (tr : list event) : nat := length (filter (λ ev, f ev = true) tr).

(* The calls of a round of a retry loop on the job runtime that ends in a
   version conflict: the read of the runtime and the rejected write. *)
Definition conflictRound (jobID : JobID) (jobRuntime written : JobRuntime) : list event :=
  [ Event (JobGetRuntime jobID) (Ok jobRuntime);
    Event (JobCompareAndSetRuntime jobID written) (Some UnexpectedVersionError) ].

(* A stretch of a run that enqueues nothing in the goal-state driver. *)
Definition quiet (tr : list event) : Prop := Forall (λ ev, isEnqueue ev = false) tr.

(* The run of p ends from every state, enqueues nothing, and returns a
   value that satisfies P. *)
Definition quietly (E : env) {R : Type} (p : prog R) (P : R → Prop) : Prop :=
  ∀ w, ensures E p w (λ o, quiet (trace o) ∧ P (returned o)).

Definition anything {R : Type} (r : R) : Prop := True.

(* The enqueue calls of a trace, in order. *)
Definition enqueues (tr : list event) : list event :=
  filter (λ ev, isEnqueue ev = true) tr.

(* The ranges together cover every instance of [0, instanceCount). *)
Definition coversAll (ranges : list InstanceRange) (instanceCount : N) : bool :=
  forallb (λ i, existsb (λ r, (From r <=? i)%N && (i <? To r)%N) ranges)
          (instanceList instanceCount).

(* The store answers the task lookups of jobID with all and byRange. *)
Definition lookupsAnswer (E : env) (jobID : JobID) (all : gmap N TaskInfo)
    (byRange : InstanceRange → gmap N TaskInfo) : Prop :=
  always E (GetTasksForJob jobID) (Ok all)
  ∧ ∀ r, always E (GetTasksForJobByRange jobID r) (Ok (byRange r)).

(* The task lookup answers with a map whenever the store does. *)
Definition lookupsSucceed (E : env) (jobID : JobID) : Prop :=
  (∀ w, ∃ m, answer E (GetTasksForJob jobID) w = Ok m)
  ∧ (∀ r w, ∃ m, answer E (GetTasksForJobByRange jobID r) w = Ok m).

Global Instance taskStart_eq_dec : EqDecision taskStart.
Proof. solve_decision. Defined.

(* How Start leaves a task whose cached runtime is rtOf of its instance id
   and whose compare-and-set, if it comes to one, is answered by casOf. *)
Definition startOutcome (rtOf : N → RuntimeInfo) (casOf : N → option error)
    (taskInfo : TaskInfo) : taskStart :=
  if bool_decide (GoalState (rtOf (InstanceId taskInfo)) = TaskState_KILLED)
  then if casOf (InstanceId taskInfo) is None then TaskStarted else TaskFailed
  else TaskSkipped.

(* The instance ids of the tasks that Start leaves in the way o. *)
Definition idsWith (o : taskStart) (rtOf : N → RuntimeInfo) (casOf : N → option error)
    (taskInfos : list TaskInfo) : list N :=
  InstanceId <$> filter (λ taskInfo, startOutcome rtOf casOf taskInfo = o) taskInfos.

(* The cache serves Start for the task: the task is added, its runtime is
   rtOf of its instance id, and the compare-and-set of the runtime Start
   writes is answered by casOf, which is not a version conflict. *)
Definition taskServed (E : env)
    (GetDefaultTaskGoalState : JobType → TaskState)
    (GetInitialHealthState : TaskConfig → HealthState)
    (jobID : JobID) (cachedConfig : JobConfig)
    (rtOf : N → RuntimeInfo) (casOf : N → option error) (taskInfo : TaskInfo) : Prop :=
  let inst := InstanceId taskInfo in
  always E (JobAddTask jobID inst) None
  ∧ always E (TaskGetRuntime jobID inst) (Ok (rtOf inst))
  ∧ always E (TaskCompareAndSetRuntime jobID inst
                (startedRuntime GetDefaultTaskGoalState GetInitialHealthState
                   jobID cachedConfig taskInfo (rtOf inst))
                (jc_Type cachedConfig)) (casOf inst)
  ∧ casOf inst ≠ Some UnexpectedVersionError.

(* The prev pod id GetPodEvents is left with after the events of a run:
   that of the last event, empty when there is none. *)
Definition lastPrevPodID (podEvents : list PodEvent) : string :=
  match last podEvents with
  | Some e => pe_PrevPodId e
  | None => ""
  end.

(* The walk of GetPodEvents ends after the events of a run when the prev
   pod id it is left with is empty or decodes to run 0 (lines 242-253). *)
Definition endsWalk (podEvents : list PodEvent) : Prop :=
  lastPrevPodID podEvents = "" ∨ ParseRunID (lastPrevPodID podEvents) = Ok 0%N.

(* The two versions of every event of a run parse, so the loop over the
   run returns no error (lines 208-217). *)
Definition converts (podEvents : list PodEvent) : Prop :=
  Forall (λ e, is_Some (ParseInt (pe_Version e))
               ∧ is_Some (ParseInt (pe_DesiredVersion e))) podEvents.

(* The walk of GetPodEvents goes on after the events of a run, to the run
   its last event names as the one before: the prev pod id it is left with
   is not empty and decodes to a run other than 0 (lines 242-254). *)
Definition goesOn (podEvents : list PodEvent) : Prop :=
  lastPrevPodID podEvents ≠ ""
  ∧ ∃ prevRunID, ParseRunID (lastPrevPodID podEvents) = Ok prevRunID ∧ prevRunID ≠ 0%N.

(* The fetches of a walk that starts at podID and finds the runs: each
   fetch after the first asks for the prev pod id of the last event of the
   run before. *)
Fixpoint walkTrace (jobID : JobID) (inst : N) (podID : string)
    (runs : list (list PodEvent)) : list event :=
  match runs with
  | [] => []
  | podEvents :: runs =>
      Event (TaskStore_GetPodEvents jobID inst podID) (Ok podEvents)
      :: walkTrace jobID inst (lastPrevPodID podEvents) runs
  end.

(* The pod id the fetch after the runs asks for: the prev pod id of the
   last event of the last run, and podID when there is no run yet (lines
   192 and 254). *)
Definition nextPodID (podID : string) (runs : list (list PodEvent)) : string :=
  match last runs with
  | Some podEvents => lastPrevPodID podEvents
  | None => podID
  end.

(* How GetPodEvents ends on the answer a of its last fetch, when before
   fetches were made ahead of it and limit runs may be walked: with the
   error of the store (lines 200-202), with the error of a version that
   does not parse (lines 208-217), with the events when the walk ends
   there (lines 242-253), with the error of a prev pod id that does not
   decode (lines 246-249), or with the events when the walk would go on
   but limit runs are fetched (line 194). *)
Definition walkEnd (limit before : nat) (a : result (list PodEvent))
    (r : result GetPodEventsResponse) : Prop :=
  match a with
  | Err err => r = Err (Wrapped err "error getting pod events from store")
  | Ok podEvents =>
      (¬ converts podEvents
       ∧ ∃ msg, r = Err (Wrapped (StoreError "strconv.ParseInt") msg))
      ∨ (converts podEvents ∧ endsWalk podEvents ∧ ∃ resp, r = Ok resp)
      ∨ (converts podEvents ∧ lastPrevPodID podEvents ≠ ""
         ∧ ∃ err, ParseRunID (lastPrevPodID podEvents) = Err err
                  ∧ r = Err (Wrapped err "error parsing prevPodID"))
      ∨ (converts podEvents ∧ goesOn podEvents ∧ S before = limit
         ∧ ∃ resp, r = Ok resp)
  end.

(* --------------------------------------------------------------------- *)
(* Stub environments                                                      *)
(* --------------------------------------------------------------------- *)

Module Stub.

(* Stand-ins for the helper functions of the packages that are not among
   the sources. *)
Definition defaultJobGoalState (t : JobType) : JobState :=
  match t with BATCH => JobState_SUCCEEDED | SERVICE => JobState_RUNNING end.
Definition defaultTaskGoalState (t : JobType) : TaskState :=
  match t with BATCH => TaskState_SUCCEEDED | SERVICE => TaskState_RUNNING end.
Definition initialHealthState (c : TaskConfig) : HealthState :=
  match c with
  | MkTaskConfig true => HealthState_HEALTH_UNKNOWN
  | MkTaskConfig false => HealthState_DISABLED
  end.

(* Canned answers for the collaborators, in the manner of the mocks of the
   handler's tests. *)
Record stub := {
  leader : bool;
  jobConfig : result JobConfig;
  jobRuntime : result JobRuntime;
  jobCAS : option error;
  tasks : gmap N TaskInfo;
  taskCAS : option error;
  patchErr : option error;
  podEvents : list (string * list PodEvent)
}.

Definition inRange (r : InstanceRange) (kv : N * TaskInfo) : Prop :=
  (From r ≤ kv.1)%N ∧ (kv.1 < To r)%N.

Global Instance inRange_dec r kv : Decision (inRange r kv).
Proof. unfold inRange. apply _. Defined.

Definition lookupRun (podID : string) (s : stub) : list PodEvent :=
  match find (λ kv, bool_decide (kv.1 = podID)) (podEvents s) with
  | Some kv => kv.2
  | None => []
  end.

Definition stub_answer (s : stub) (X : Type) (c : call X) : X :=
  match c in call X return X with
  | IsLeader => leader s
  | AddJob _ => tt
  | JobGetConfig _ => jobConfig s
  | JobGetRuntime _ => jobRuntime s
  | JobCompareAndSetRuntime _ _ => jobCAS s
  | JobAddTask _ _ => None
  | TaskGetRuntime _ inst =>
      match tasks s !! inst with
      | Some ti => Ok (Runtime ti)
      | None => Err (NotFoundErrorf "task not found")
      end
  | TaskCompareAndSetRuntime _ _ _ _ => taskCAS s
  | PatchTasks _ _ => patchErr s
  | ReplaceTasks _ _ _ => tt
  | GetJobConfig _ => jobConfig s
  | GetTasksForJob _ => Ok (tasks s)
  | GetTasksForJobByRange _ r => Ok (filter (inRange r) (tasks s))
  | GetTaskRuntimesForJobByRange _ r => Ok (Runtime <$> filter (inRange r) (tasks s))
  | TaskStore_GetPodEvents _ _ podID => Ok (lookupRun podID s)
  | EnqueueTask _ _ => tt
  | EnqueueJob _ => tt
  | EnqueueJobWithDefaultDelay _ => tt
  end.

(* The stateless environment of s. *)
Definition stubEnv (s : stub) : env :=
  {| world := unit; respond := λ X c w, (stub_answer s X c, w) |}.

(* The rejection of a compare-and-set for a version conflict. *)
Definition UnexpectedVersion : option error := Some UnexpectedVersionError.

(* The environment of s with a script for the job-level compare-and-set:
   the successive calls get the answers of the script, and the answer of s
   once the script is used up. *)
Definition scripted_respond (s : stub) (X : Type) (c : call X) (script : list (option error))
    : X * list (option error) :=
  match c in call X return X * list (option error) with
  | JobCompareAndSetRuntime _ _ =>
      match script with
      | a :: script => (a, script)
      | [] => (jobCAS s, [])
      end
  | c => (stub_answer s _ c, script)
  end.

Definition scriptedEnv (s : stub) : env :=
  {| world := list (option error); respond := scripted_respond s |}.

(* ----- The scenarios of the spec, as stubs ----- *)

Definition taskRuntime (goal : TaskState) (mesosTaskID : string) : RuntimeInfo :=
  {| State := goal; GoalState := goal; MesosTaskId := mesosTaskID;
     DesiredMesosTaskId := mesosTaskID; Host := "host-1"; AgentID := "agent-1";
     Message := ""; Reason := ""; ConfigVersion := 1;
     Healthy := HealthState_DISABLED; TerminationStatus_ := None; Revision := 1 |}.

Definition taskOf (inst : N) (goal : TaskState) (mesosTaskID : string) : TaskInfo :=
  {| InstanceId := inst; Runtime := taskRuntime goal mesosTaskID;
     Config := MkTaskConfig false |}.

Definition jobRuntimeOf (state goal : JobState) : JobRuntime :=
  {| jr_State := state; jr_GoalState := goal; jr_DesiredStateVersion := 7;
     jr_UpdateTime := ""; jr_Revision := 1 |}.

(* Job J1 on the leader, with the given type, instance count, runtime and
   tasks; every call succeeds. *)
Definition jobJ1 (ty : JobType) (instanceCount : N) (state goal : JobState)
    (ts : gmap N TaskInfo) : stub :=
  {| leader := true;
     jobConfig := Ok {| jc_Type := ty; jc_InstanceCount := instanceCount |};
     jobRuntime := Ok (jobRuntimeOf state goal);
     jobCAS := None;
     tasks := ts;
     taskCAS := None;
     patchErr := None;
     podEvents := [] |}.

(* The same on a node that is not the leader. *)
Definition follower (s : stub) : stub :=
  {| leader := false; jobConfig := jobConfig s; jobRuntime := jobRuntime s;
     jobCAS := jobCAS s; tasks := tasks s; taskCAS := taskCAS s;
     patchErr := patchErr s; podEvents := podEvents s |}.

(* Two tasks of J1: instance 2 was stopped in its run 3, instance 3 runs. *)
Definition tasksJ1 : gmap N TaskInfo :=
  {[ 2%N := taskOf 2 TaskState_KILLED "J1-2-3";
     3%N := taskOf 3 TaskState_RUNNING "J1-3-1" ]}.

(* The cached runtime of an instance of s, for the instances s has. *)
Definition runtimeIn (s : stub) (inst : N) : RuntimeInfo :=
  match tasks s !! inst with
  | Some ti => Runtime ti
  | None => taskRuntime TaskState_UNKNOWN ""
  end.

(* The ranges the store of s answers with. *)
Definition rangeIn (s : stub) (r : InstanceRange) : gmap N TaskInfo :=
  filter (inRange r) (tasks s).

Definition followerJ1 : stub :=
  follower (jobJ1 SERVICE 4 JobState_RUNNING JobState_RUNNING tasksJ1).

(* J1 as a running SERVICE job, a SERVICE job that was killed, a BATCH job
   that succeeded, and a job of 100 instances. *)
Definition runningJ1 : stub := jobJ1 SERVICE 4 JobState_RUNNING JobState_RUNNING tasksJ1.
Definition killedJ1 : stub := jobJ1 SERVICE 4 JobState_KILLED JobState_KILLED tasksJ1.
Definition succeededJ1 : stub := jobJ1 BATCH 4 JobState_SUCCEEDED JobState_SUCCEEDED tasksJ1.
Definition largeJ1 : stub := jobJ1 SERVICE 100 JobState_RUNNING JobState_RUNNING tasksJ1.

(* J1 on a store that rejects every job-level write for a version
   conflict. *)
Definition conflictingJ1 : stub :=
  {| leader := true; jobConfig := jobConfig largeJ1; jobRuntime := jobRuntime largeJ1;
     jobCAS := UnexpectedVersion; tasks := tasks largeJ1; taskCAS := None;
     patchErr := None; podEvents := [] |}.

(* A job of two running instances, and the two ranges [0,1) and [1,2) that
   together cover it. *)
Definition smallJ1 : stub :=
  jobJ1 SERVICE 2 JobState_RUNNING JobState_RUNNING
    {[ 0%N := taskOf 0 TaskState_RUNNING "J1-0-1";
       1%N := taskOf 1 TaskState_RUNNING "J1-1-1" ]}.

Definition halves : list InstanceRange :=
  [ {| From := 0; To := 1 |}; {| From := 1; To := 2 |} ].

End Stub.

(* --------------------------------------------------------------------- *)
(* More of what a run of the handler is expected to do                   *)
(* --------------------------------------------------------------------- *)

Definition IsNotFound (e : error) : bool :=
  match e with YarpcError CodeNotFound _ => true | _ => false end.

(* The range Refresh asks the task store for (lines 339-349): the range of
   the request with its end cut down to the instance count, the whole job
   when the request names no range. *)
Definition refreshRange (req : RefreshRequest) (instanceCount : N) : InstanceRange :=
  match refresh_Range req with
  | Some r => {| From := From r; To := N.min (To r) instanceCount |}
  | None => {| From := 0; To := instanceCount |}
  end.

(* A task whose goal state is not KILLED yet: a Stop by ranges patches
   these and passes over the others (lines 756-760). *)
Definition unkilled (taskInfo : TaskInfo) : Prop :=
  GoalState (Runtime taskInfo) ≠ TaskState_KILLED.

Global Instance unkilled_dec taskInfo : Decision (unkilled taskInfo).
Proof. unfold unkilled. apply _. Defined.

(* The instance ids a Stop by ranges patches, in the order of the range
   statement, and the diffs it hands to PatchTasks. *)
Definition stopIds (selected : gmap N TaskInfo) : list N :=
  InstanceId <$> filter unkilled (range_values selected).

Definition stopDiffs (selected : gmap N TaskInfo) : gmap N RuntimeDiff :=
  (λ _, stopRuntimeDiff) <$> filter (λ kv, unkilled kv.2) selected.

(* The calls of a Stop by ranges from the patch on, when the patch is
   answered by patched. *)
Definition stopPatchTrace (jobID : JobID) (selected : gmap N TaskInfo)
    (patched : option error) : list event :=
  [ Event (PatchTasks jobID (stopDiffs selected)) patched ]
  ++ (if patched is None then enqueueTrace jobID (stopIds selected) else [])
  ++ [ Event (EnqueueJobWithDefaultDelay jobID) tt ].

(* The task lookup of a request fails with err: the read of the whole job
   when the request names no range, else the read of its first range. *)
Definition lookupFails (E : env) (jobID : JobID) (ranges : list InstanceRange)
    (err : error) : Prop :=
  match ranges with
  | [] => always E (GetTasksForJob jobID) (Err err)
  | r :: _ => always E (GetTasksForJobByRange jobID (clampRange r)) (Err err)
  end.

(* The one store call of that lookup. *)
Definition failedLookup (jobID : JobID) (ranges : list InstanceRange) (err : error)
    : event :=
  match ranges with
  | [] => Event (GetTasksForJob jobID) (Err err)
  | r :: _ => Event (GetTasksForJobByRange jobID (clampRange r)) (Err err)
  end.

(* What the cache answers for the tasks of a job, by instance id: to
   AddTask, to GetRuntime and to CompareAndSetRuntime. *)
Record taskCache := {
  addTask : N → option error;
  getRuntime : N → result RuntimeInfo;
  compareAndSet : N → option error
}.

Definition serves (E : env) (jobID : JobID) (ty : JobType) (c : taskCache) (i : N) : Prop :=
  always E (JobAddTask jobID i) (addTask c i)
  ∧ always E (TaskGetRuntime jobID i) (getRuntime c i)
  ∧ ∀ rt, always E (TaskCompareAndSetRuntime jobID i rt ty) (compareAndSet c i).

(* How Start leaves the task of instance i on such a cache. *)
Definition startResult (c : taskCache) (i : N) : taskStart :=
  match addTask c i, getRuntime c i with
  | Some _, _ => TaskFailed
  | None, Err _ => TaskFailed
  | None, Ok rt =>
      if decide (GoalState rt = TaskState_KILLED)
      then if compareAndSet c i is None then TaskStarted else TaskFailed
      else TaskSkipped
  end.

Definition idsOf (o : taskStart) (c : taskCache) (taskInfos : list TaskInfo) : list N :=
  InstanceId <$> filter (λ taskInfo, startResult c (InstanceId taskInfo) = o) taskInfos.

(* The calls of a round of Start's retry loop on a task runtime that ends
   in a version conflict. *)
Definition taskConflictRound (jobID : JobID) (inst : N) (taskRuntime written : RuntimeInfo)
    (ty : JobType) : list event :=
  [ Event (TaskGetRuntime jobID inst) (Ok taskRuntime);
    Event (TaskCompareAndSetRuntime jobID inst written ty) (Some UnexpectedVersionError) ].

(* The cache holds the stopped task taskInfo with the runtime rtOf of its
   instance id, and rejects the write Start makes for it with
   UnexpectedVersionError, every time. *)
Definition taskConflicts (E : env)
    (GetDefaultTaskGoalState : JobType → TaskState)
    (GetInitialHealthState : TaskConfig → HealthState)
    (jobID : JobID) (cachedConfig : JobConfig)
    (rtOf : N → RuntimeInfo) (taskInfo : TaskInfo) : Prop :=
  let inst := InstanceId taskInfo in
  always E (JobAddTask jobID inst) None
  ∧ always E (TaskGetRuntime jobID inst) (Ok (rtOf inst))
  ∧ GoalState (rtOf inst) = TaskState_KILLED
  ∧ always E (TaskCompareAndSetRuntime jobID inst
                (startedRuntime GetDefaultTaskGoalState GetInitialHealthState
                   jobID cachedConfig taskInfo (rtOf inst))
                (jc_Type cachedConfig)) (Some UnexpectedVersionError).

(* The wire form of a store event of a run, when its two versions parse
   (lines 206-239).  Its prev pod id is read through the pointer the
   events of the run share, so it is prevPodID, what the loop over the
   run left in that variable, and not the event's own. *)
Definition toTaskPodEvent (prevPodID : string) (e : PodEvent) : option TaskPodEvent :=
  jobVersion ← ParseInt (pe_Version e);
  desiredVersion ← ParseInt (pe_DesiredVersion e);
  Some {| tpe_TaskId := pe_PodId e;
          tpe_ActualState := pe_ActualState e;
          tpe_GoalState := pe_DesiredState e;
          tpe_Timestamp := pe_Timestamp e;
          tpe_ConfigVersion := uint64_of_int64 jobVersion;
          tpe_DesiredConfigVersion := uint64_of_int64 desiredVersion;
          tpe_AgentID := pe_AgentId e;
          tpe_Hostname := pe_Hostname e;
          tpe_Message := pe_Message e;
          tpe_Reason := pe_Reason e;
          tpe_PrevTaskId := prevPodID;
          tpe_Healthy := pe_Healthy e;
          tpe_DesriedTaskId := pe_DesiredPodId e |}.

(* The wire events GetPodEvents makes of one run: each event of the run in
   the store's order, all of them with the prev pod id of the last event
   of the run. *)
Definition toTaskPodEvents (podEvents : list PodEvent) (evs : list TaskPodEvent) : Prop :=
  Forall2 (λ e t, toTaskPodEvent (lastPrevPodID podEvents) e = Some t) podEvents evs.

(* --------------------------------------------------------------------- *)
(* The RPCs that read: Get, List, Query, GetCache, BrowseSandbox          *)
(* --------------------------------------------------------------------- *)

(* query.QuerySpec, as far as the handler reads it: the pagination. *)
Record QuerySpec := { qs_Offset : N; qs_Limit : N }.

(* The calls of these RPCs: those of the write side, and the collaborators
   only they use (the config and runtime lookups of util/handler, the
   framework info store, the tracker of active resource-manager tasks, the
   host manager client and the log manager). *)
Inductive hcall : Type → Type :=
| Core {X : Type} (c : call X) : hcall X
| GetJobConfigWithoutFillingCache (id : JobID) : hcall (result JobConfig)
| GetJobRuntimeWithoutFillingCache (id : JobID) : hcall (result JobRuntime)
(* storage.TaskStore *)
| GetTaskForJob (id : JobID) (inst : N) : hcall (result (gmap N TaskInfo))
| DeletePodEvents_ (id : JobID) (inst : N) (fromRunID toRunID : N) : hcall (option error)
| QueryTasks (id : JobID) (spec : QuerySpec) : hcall (result (list TaskInfo * N))
(* activermtask.ActiveRMTasks: the reason of the task entry, None for nil *)
| ActiveRMTasks_GetTask (taskID : string) : hcall (option string)
(* cached.JobFactory.GetJob and cached.Job.GetTask: whether non-nil *)
| GetJob (id : JobID) : hcall bool
| GetTask (id : JobID) (inst : N) : hcall bool
(* storage.FrameworkInfoStore *)
| GetFrameworkID (frameworkName : string) : hcall (string * option error)
(* hostsvc.InternalHostService: the pids of the agents; host and port *)
| GetMesosAgentInfo (hostname : string) : hcall (result (list string))
| GetMesosMasterHostPort : hcall (result (string * string))
(* logmanager.LogManager *)
| ListSandboxFilesPaths (workDir frameworkID agentIP agentPort agentID taskID : string)
    : hcall (result (list string)).

Inductive hevent :=
| HEvent {X : Type} (c : hcall X) (x : X).

Inductive hprog (R : Type) : Type :=
| HRet (r : R)
| HVis {X : Type} (c : hcall X) (k : X → hprog R)
| HOutOfFuel.
Arguments HRet {R} r.
Arguments HVis {R X} c k.
Arguments HOutOfFuel {R}.

Fixpoint hbind {A B : Type} (p : hprog A) (f : A → hprog B) : hprog B :=
  match p with
  | HRet a => f a
  | HVis c k => HVis c (λ x, hbind (k x) f)
  | HOutOfFuel => HOutOfFuel
  end.

Definition ask {X : Type} (c : hcall X) : hprog X := HVis c HRet.

Global Instance hprog_ret : MRet hprog := @HRet.
Global Instance hprog_bind : MBind hprog := λ A B f p, hbind p f.

(* A program of the write side, run among these calls. *)
Fixpoint lift {R : Type} (p : prog R) : hprog R :=
  match p with
  | Ret r => HRet r
  | Vis c k => HVis (Core c) (λ x, lift (k x))
  | OutOfFuel => HOutOfFuel
  end.

Record henv := HEnv {
  hworld : Type;
  hrespond : ∀ X, hcall X → hworld → X * hworld
}.

Record houtcome (R W : Type) := HOutcome {
  hreturned : R;
  hfinal : W;
  htrace : list hevent
}.
Arguments HOutcome {R W} hreturned hfinal htrace.
Arguments hreturned {R W} _.
Arguments hfinal {R W} _.
Arguments htrace {R W} _.

Fixpoint hrun (E : henv) {R : Type} (p : hprog R) (w : hworld E)
    : option (houtcome R (hworld E)) :=
  match p with
  | HRet r => Some (HOutcome r w [])
  | HVis c k =>
      let '(x, w') := hrespond E _ c w in
      match hrun E (k x) w' with
      | Some o => Some (HOutcome (hreturned o) (hfinal o) (HEvent c x :: htrace o))
      | None => None
      end
  | HOutOfFuel => None
  end.

Definition _frameworkName : string := "Peloton".

Definition errEmptyFrameworkID : error := StoreError "framework id is empty".

Definition InternalErrorf (msg : string) : error := YarpcError CodeInternal msg.

(* The task.TaskInfo that getTerminalEvents builds of a pod event: the
   fields it sets (lines 1285-1304), the job id apart, which the TaskInfo
   of this model does not carry.  The state is the int32 code of the
   enum. *)
Record EventTaskInfo := {
  eti_InstanceId : N;
  eti_Config : option TaskConfig;
  eti_State : Z;
  eti_MesosTaskId : string;
  eti_Host : string;
  eti_AgentID : string;
  eti_Message : string;
  eti_Reason : string;
  eti_PrevMesosTaskId : string
}.

Record GetRequest := { get_JobId : JobID; get_InstanceId : N }.

Record GetResponse := {
  get_Result : option TaskInfo;
  get_Results : list EventTaskInfo;
  get_NotFound : option (JobID * string);
  get_OutOfRange : option (JobID * N)
}.

Record DeletePodEventsRequest := { dpe_JobId : JobID; dpe_InstanceId : N; dpe_RunId : N }.
Inductive DeletePodEventsResponse := MkDeletePodEventsResponse.

Record ListRequest := { list_JobId : JobID; list_Range : option InstanceRange }.

Record ListResponse := {
  list_Result : option (gmap N TaskInfo);
  list_NotFound : option (JobID * string)
}.

Record QueryRequest := { query_JobId : JobID; query_Spec : QuerySpec }.

(* query.Pagination of the response *)
Record Pagination := { pg_Offset : N; pg_Limit : N; pg_Total : N }.

Record QueryResponse := {
  query_Error : option (JobID * string);
  query_Records : list TaskInfo;
  query_Pagination : option Pagination
}.

Record GetCacheRequest := { cache_JobId : JobID; cache_InstanceId : N }.
Record GetCacheResponse := { cache_Runtime : RuntimeInfo }.

Record BrowseSandboxRequest := {
  bs_JobId : JobID;
  bs_InstanceId : N;
  bs_TaskId : string
}.

Inductive BrowseSandboxResponse_Error :=
| BrowseError_NotFound (id : JobID) (msg : string)
| BrowseError_OutOfRange (id : JobID) (instanceCount : N)
| BrowseError_NotRunning (msg : string)
| BrowseError_Failure (msg : string).

Record BrowseSandboxResponse := {
  bs_Error : option BrowseSandboxResponse_Error;
  bs_Hostname : string;
  bs_Port : string;
  bs_Paths : list string;
  bs_MesosMasterHostname : string;
  bs_MesosMasterPort : string
}.

Definition browseError (e : BrowseSandboxResponse_Error) : BrowseSandboxResponse :=
  {| bs_Error := Some e; bs_Hostname := ""; bs_Port := ""; bs_Paths := [];
     bs_MesosMasterHostname := ""; bs_MesosMasterPort := "" |}.

Definition set_Reason (rt : RuntimeInfo) (r : string) : RuntimeInfo :=
  {| State := State rt; GoalState := GoalState rt; MesosTaskId := MesosTaskId rt;
     DesiredMesosTaskId := DesiredMesosTaskId rt; Host := Host rt;
     AgentID := AgentID rt; Message := Message rt; Reason := r;
     ConfigVersion := ConfigVersion rt; Healthy := Healthy rt;
     TerminationStatus_ := TerminationStatus_ rt; Revision := Revision rt |}.

Section Reads.

(* Helpers of packages that are not among the sources: util.ParseRunID,
   jobutil.ParsePodEntityVersion (an integer, which the handler converts to
   uint64), the generated map task.TaskState_value from state names to
   enum codes, util.IsPelotonStateTerminal on such a code,
   util.CreatePelotonTaskID, util.ExtractIPAndPortFromMesosAgentPID, and
   the text that %v makes of a *peloton.JobID. *)
Variable ParseRunID : string → result N.
Variable ParsePodEntityVersion : string → result Z.
Variable TaskState_value : gmap string Z.
Variable IsPelotonStateTerminal : Z → bool.
Variable CreatePelotonTaskID : string → N → string.
Variable ExtractIPAndPortFromMesosAgentPID : string → result (string * string).
Variable JobID_String : JobID → string.

(* The handler's field mesosAgentWorkDir. *)
Variable mesosAgentWorkDir : string.

(* task.TaskState(task.TaskState_value[name]): a name that is not in the
   map gives the zero value. *)
Definition taskStateOf (name : string) : Z := default 0%Z (TaskState_value !! name).

Fixpoint convertPodEventsFormat_loop (podEvents : list PodEvent) (res : list TaskPodEvent)
    : result (list TaskPodEvent) :=
  match podEvents with
  | [] => Ok res
  | e :: podEvents =>
      let podID := pe_PodId e in
      let prevPodID := pe_PrevPodId e in
      let desiredPodID := pe_DesiredPodId e in
      match ParsePodEntityVersion (pe_Version e) with
      | Err err => Err err
      | Ok configVersion =>
          match ParsePodEntityVersion (pe_DesiredVersion e) with
          | Err err => Err err
          | Ok desiredConfigVersion =>
              convertPodEventsFormat_loop podEvents
                (res ++ [ {|
                   tpe_TaskId := podID;
                   tpe_ActualState := pe_ActualState e;
                   tpe_GoalState := pe_DesiredState e;
                   tpe_Timestamp := pe_Timestamp e;
                   tpe_ConfigVersion := uint64_of_int64 configVersion;
                   tpe_DesiredConfigVersion := uint64_of_int64 desiredConfigVersion;
                   tpe_AgentID := pe_AgentId e;
                   tpe_Hostname := pe_Hostname e;
                   tpe_Message := pe_Message e;
                   tpe_Reason := pe_Reason e;
                   tpe_PrevTaskId := prevPodID;
                   tpe_Healthy := pe_Healthy e;
                   tpe_DesriedTaskId := desiredPodID |} ])
          end
      end
  end.

Definition convertPodEventsFormat (podEvents : list PodEvent)
    : result (list TaskPodEvent) :=
  convertPodEventsFormat_loop podEvents [].

(* for _, taskInfo := range taskMaps { result = append(result, taskInfo) } *)
Definition convertTaskMapToSlice (taskMaps : gmap N TaskInfo) : list TaskInfo :=
  range_values taskMaps.

(* getPodEvents, the loop (lines 1241-1265).  The loop of the source has
   no bound; fuel bounds the rounds of the model, and a run that needs more
   is HOutOfFuel. *)
Fixpoint getPodEvents_loop (fuel : nat) (id : JobID) (instanceID : N) (runID : string)
    (events : list TaskPodEvent) : hprog (result (list TaskPodEvent)) :=
  match fuel with
  | O => HOutOfFuel
  | S fuel =>
      r ← ask (Core (TaskStore_GetPodEvents id instanceID runID));
      match r with
      | Err err => HRet (Err err)
      | Ok podEvents =>
          match podEvents with
          | [] => HRet (Ok events)
          | e0 :: _ =>
              match convertPodEventsFormat podEvents with
              | Err err => HRet (Err err)
              | Ok taskEvents =>
                  let events := events ++ taskEvents in
                  match ParseRunID (pe_PrevPodId e0) with
                  | Err err => HRet (Err err)
                  | Ok prevRunID =>
                      if bool_decide (prevRunID = 0%N)
                      then HRet (Ok events)
                      else getPodEvents_loop fuel id instanceID (pe_PrevPodId e0) events
                  end
              end
          end
      end
  end.

Definition getPodEvents (fuel : nat) (id : JobID) (instanceID : N) (runID : string)
    : hprog (result (list TaskPodEvent)) :=
  getPodEvents_loop fuel id instanceID runID [].

(* getTerminalEvents (lines 1271-1308); lastTaskInfo may be nil. *)
Fixpoint getTerminalEvents_loop (eventList : list TaskPodEvent)
    (lastTaskInfo : option TaskInfo) (taskInfos : list EventTaskInfo)
    : list EventTaskInfo :=
  match eventList with
  | [] => taskInfos
  | event :: eventList =>
      let taskState := taskStateOf (tpe_ActualState event) in
      if negb (IsPelotonStateTerminal taskState)
      then getTerminalEvents_loop eventList lastTaskInfo taskInfos
      else
        let mesosID := tpe_TaskId event in
        let prevMesosID := tpe_PrevTaskId event in
        let agentID := tpe_AgentID event in
        getTerminalEvents_loop eventList lastTaskInfo
          (taskInfos ++ [ {|
             eti_InstanceId := from_option InstanceId 0%N lastTaskInfo;
             eti_Config := Config <$> lastTaskInfo;
             eti_State := taskState;
             eti_MesosTaskId := mesosID;
             eti_Host := tpe_Hostname event;
             eti_AgentID := agentID;
             eti_Message := tpe_Message event;
             eti_Reason := tpe_Reason event;
             eti_PrevMesosTaskId := prevMesosID |} ])
  end.

Definition getTerminalEvents (eventList : list TaskPodEvent)
    (lastTaskInfo : option TaskInfo) : list EventTaskInfo :=
  getTerminalEvents_loop eventList lastTaskInfo [].

Definition Get (fuel : nat) (body : GetRequest) : hprog (result GetResponse) :=
  r ← ask (GetJobConfigWithoutFillingCache (get_JobId body));
  match r with
  | Err err =>
      HRet (Ok {| get_Result := None; get_Results := [];
                  get_NotFound :=
                    Some (get_JobId body,
                          "job " +:+ JobID_String (get_JobId body)
                          +:+ " not found, " +:+ Error_ err);
                  get_OutOfRange := None |})
  | Ok jobConfig =>
      r ← ask (GetTaskForJob (get_JobId body) (get_InstanceId body));
      match r with
      | Err err => HRet (Err err)
      | Ok res =>
          let lastTaskInfo := head (range_values res) in
          r ← getPodEvents fuel (get_JobId body) (get_InstanceId body) "";
          match r with
          | Err err =>
              HRet (Ok {| get_Result := None; get_Results := [];
                          get_NotFound := None;
                          get_OutOfRange :=
                            Some (get_JobId body, jc_InstanceCount jobConfig) |})
          | Ok eventList =>
              let taskInfos := getTerminalEvents eventList lastTaskInfo in
              HRet (Ok {| get_Result := lastTaskInfo; get_Results := taskInfos;
                          get_NotFound := None; get_OutOfRange := None |})
          end
      end
  end.

Definition DeletePodEvents (body : DeletePodEventsRequest)
    : hprog (result DeletePodEventsResponse) :=
  err ← ask (DeletePodEvents_ (dpe_JobId body) (dpe_InstanceId body) 1
               (uint64_add (dpe_RunId body) 1));
  match err with
  | Some err => HRet (Err err)
  | None => HRet (Ok MkDeletePodEventsResponse)
  end.

(* fillReasonForPendingTasksFromResMgr (lines 1198-1219).  The source
   writes the reason into the task infos it is handed; the model returns
   them as they are after the loop, in the same order. *)
Fixpoint fillReasonForPendingTasksFromResMgr (jobID : JobID) (taskInfos : list TaskInfo)
    : hprog (list TaskInfo) :=
  match taskInfos with
  | [] => HRet []
  | taskInfo :: taskInfos =>
      taskInfo ←
        (if bool_decide (State (Runtime taskInfo) = TaskState_PENDING)
         then
           taskEntry ← ask (ActiveRMTasks_GetTask
                              (CreatePelotonTaskID jobID (InstanceId taskInfo)));
           match taskEntry with
           | Some reason =>
               HRet {| InstanceId := InstanceId taskInfo;
                       Runtime := set_Reason (Runtime taskInfo) reason;
                       Config := Config taskInfo |}
           | None => HRet taskInfo
           end
         else HRet taskInfo);
      taskInfos ← fillReasonForPendingTasksFromResMgr jobID taskInfos;
      HRet (taskInfo :: taskInfos)
  end.

(* List (lines 283-316).  The slice convertTaskMapToSlice makes holds the
   task infos of the map itself, so what fillReason writes shows in the map
   of the response: the map is put together again from its keys and the
   task infos after the loop. *)
Definition List_ (body : ListRequest) : hprog (result ListResponse) :=
  let instanceRanges :=
    match list_Range body with
    | Some r => [r]
    | None => []
    end in
  r ← lift (getTaskInfosByRangesFromDB (list_JobId body) instanceRanges);
  match r with
  | Err err =>
      HRet (Ok {| list_Result := None;
                  list_NotFound := Some (list_JobId body, "err= " +:+ Error_ err) |})
  | Ok res =>
      if bool_decide (size res = 0)
      then
        HRet (Ok {| list_Result := None;
                    list_NotFound := Some (list_JobId body, "err= <nil>") |})
      else
        filled ← fillReasonForPendingTasksFromResMgr (list_JobId body)
                   (convertTaskMapToSlice res);
        HRet (Ok {| list_Result := Some (list_to_map (zip (range_keys res) filled));
                    list_NotFound := None |})
  end.

Definition Query (req : QueryRequest) : hprog (result QueryResponse) :=
  r ← ask (GetJobRuntimeWithoutFillingCache (query_JobId req));
  match r with
  | Err err =>
      HRet (Ok {| query_Error :=
                    Some (query_JobId req,
                          "Failed to find job with id " +:+ JobID_String (query_JobId req)
                          +:+ ", err=" +:+ Error_ err);
                  query_Records := []; query_Pagination := None |})
  | Ok _ =>
      r ← ask (QueryTasks (query_JobId req) (query_Spec req));
      match r with
      | Err err =>
          HRet (Ok {| query_Error := Some (query_JobId req, "err= " +:+ Error_ err);
                      query_Records := []; query_Pagination := None |})
      | Ok (res, total) =>
          res ← fillReasonForPendingTasksFromResMgr (query_JobId req) res;
          HRet (Ok {| query_Error := None;
                      query_Records := res;
                      query_Pagination :=
                        Some {| pg_Offset := qs_Offset (query_Spec req);
                                pg_Limit := qs_Limit (query_Spec req);
                                pg_Total := total |} |})
      end
  end.

Definition GetCache (req : GetCacheRequest) : hprog (result GetCacheResponse) :=
  cachedJob ← ask (GetJob (cache_JobId req));
  if negb cachedJob
  then HRet (Err (NotFoundErrorf "Job not found in cache"))
  else
    cachedTask ← ask (GetTask (cache_JobId req) (cache_InstanceId req));
    if negb cachedTask
    then HRet (Err (NotFoundErrorf "Task not found in cache"))
    else
      r ← ask (Core (TaskGetRuntime (cache_JobId req) (cache_InstanceId req)));
      match r with
      | Err err =>
          HRet (Err (InternalErrorf ("Cannot get task cache with err: " +:+ Error_ err)))
      | Ok runtime => HRet (Ok {| cache_Runtime := runtime |})
      end.

(* getHostInfoWithTaskID, the choice of the event (lines 973-981): the
   first terminal one, else the first. *)
Fixpoint firstTerminal (events : list TaskPodEvent) : option TaskPodEvent :=
  match events with
  | [] => None
  | event :: events =>
      let taskState := taskStateOf (tpe_ActualState event) in
      if IsPelotonStateTerminal taskState then Some event else firstTerminal events
  end.

Definition getHostInfoWithTaskID (fuel : nat) (jobID : JobID) (instanceID : N)
    (taskID : string) : hprog (result (string * string)) :=
  r ← getPodEvents fuel jobID instanceID taskID;
  match r with
  | Err err => HRet (Err err)
  | Ok events =>
      match events with
      | [] =>
          HRet (Err (NotFoundErrorf
                       ("no pod events present for job_id: " +:+ jobID
                        +:+ ", instance_id: " +:+ pretty instanceID
                        +:+ ", run_id: " +:+ taskID)))
      | event0 :: _ =>
          let terminalEvent := default event0 (firstTerminal events) in
          HRet (Ok (tpe_Hostname terminalEvent, tpe_AgentID terminalEvent))
      end
  end.

Definition getHostInfoCurrentTask (jobID : JobID) (instanceID : N)
    : hprog (result (string * string * string)) :=
  r ← ask (GetTaskForJob jobID instanceID);
  match r with
  | Err err => HRet (Err err)
  | Ok res =>
      if bool_decide (size res ≠ 1)
      then HRet (Err (NotFoundErrorf "task not found"))
      else
        match last (range_values res) with
        | Some taskInfo =>
            HRet (Ok (Host (Runtime taskInfo), AgentID (Runtime taskInfo),
                      MesosTaskId (Runtime taskInfo)))
        | None => HRet (Ok ("", "", ""))
        end
  end.

Definition getFrameworkID : hprog (string * option error) :=
  '(frameworkIDVal, err) ← ask (GetFrameworkID _frameworkName);
  match err with
  | Some err => HRet (frameworkIDVal, Some err)
  | None =>
      if bool_decide (frameworkIDVal = "")
      then HRet (frameworkIDVal, Some errEmptyFrameworkID)
      else HRet (frameworkIDVal, None)
  end.

(* getSandboxPathInfo: hostname, agentID, taskID, frameworkID and the
   response, which is nil when the four are found. *)
Definition getSandboxPathInfo (fuel : nat) (instanceCount : N) (req : BrowseSandboxRequest)
    : hprog (string * string * string * string * option BrowseSandboxResponse) :=
  let taskid := bs_TaskId req in
  r ← (if bool_decide (0 < String.length taskid)%nat
       then
         r ← getHostInfoWithTaskID fuel (bs_JobId req) (bs_InstanceId req) taskid;
         match r with
         | Ok (host, agentid) => HRet (Ok (host, agentid, taskid))
         | Err err => HRet (Err err)
         end
       else getHostInfoCurrentTask (bs_JobId req) (bs_InstanceId req));
  match r with
  | Err err =>
      HRet ("", "", "", "",
            Some (browseError (BrowseError_OutOfRange (bs_JobId req) instanceCount)))
  | Ok (host, agentid, taskid) =>
      if bool_decide (String.length host = 0) || bool_decide (String.length agentid = 0)
      then
        HRet ("", "", "", "",
              Some (browseError (BrowseError_NotRunning
                                   "taskinfo does not have hostname or agentID")))
      else
        '(frameworkid, err) ← getFrameworkID;
        match err with
        | Some err =>
            HRet ("", "", "", "", Some (browseError (BrowseError_Failure (Error_ err))))
        | None => HRet (host, agentid, taskid, frameworkid, None)
        end
  end.

Definition BrowseSandbox (fuel : nat) (req : BrowseSandboxRequest)
    : hprog (result BrowseSandboxResponse) :=
  r ← ask (GetJobConfigWithoutFillingCache (bs_JobId req));
  match r with
  | Err err =>
      HRet (Ok (browseError (BrowseError_NotFound (bs_JobId req)
                  ("job " +:+ JobID_String (bs_JobId req)
                   +:+ " not found, " +:+ Error_ err))))
  | Ok jobConfig =>
      '(hostname, agentID, taskID, frameworkID, resp) ←
        getSandboxPathInfo fuel (jc_InstanceCount jobConfig) req;
      match resp with
      | Some resp => HRet (Ok resp)
      | None =>
          let agentIP := hostname in
          let agentPort := "5051" in
          agentResponse ← ask (GetMesosAgentInfo hostname);
          let '(agentIP, agentPort) :=
            match agentResponse with
            | Ok (pid :: _) =>
                match ExtractIPAndPortFromMesosAgentPID pid with
                | Ok (ip, port) =>
                    (ip, if bool_decide (port ≠ "") then port else agentPort)
                | Err _ => (agentIP, agentPort)
                end
            | _ => (agentIP, agentPort)
            end in
          r ← ask (ListSandboxFilesPaths mesosAgentWorkDir frameworkID agentIP
                     agentPort agentID taskID);
          match r with
          | Err err =>
              HRet (Ok (browseError (BrowseError_Failure
                          ("get slave log failed on host:" +:+ hostname
                           +:+ " due to: " +:+ Error_ err))))
          | Ok logPaths =>
              r ← ask GetMesosMasterHostPort;
              match r with
              | Err err => HRet (Ok (browseError (BrowseError_Failure (Error_ err))))
              | Ok (masterHostname, masterPort) =>
                  HRet (Ok {| bs_Error := None;
                              bs_Hostname := agentIP;
                              bs_Port := agentPort;
                              bs_Paths := logPaths;
                              bs_MesosMasterHostname := masterHostname;
                              bs_MesosMasterPort := masterPort |})
              end
          end
      end
  end.

End Reads.

(* ----- What a run of these RPCs is expected to do ----- *)

Definition hanswer (E : henv) {X : Type} (c : hcall X) (w : hworld E) : X :=
  (hrespond E X c w).1.
Definition hnext (E : henv) {X : Type} (c : hcall X) (w : hworld E) : hworld E :=
  (hrespond E X c w).2.

Definition halways (E : henv) {X : Type} (c : hcall X) (x : X) : Prop :=
  ∀ w, hanswer E c w = x.

Definition hafter {R W : Type} (evs : list hevent) (o : option (houtcome R W))
    : option (houtcome R W) :=
  match o with
  | Some o => Some (HOutcome (hreturned o) (hfinal o) (evs ++ htrace o))
  | None => None
  end.

Definition hensures (E : henv) {R : Type} (p : hprog R) (w : hworld E)
    (Q : houtcome R (hworld E) → Prop) : Prop :=
  ∃ o, hrun E p w = Some o ∧ Q o.

Definition hprepend {R W : Type} (evs : list hevent) (o : houtcome R W) : houtcome R W :=
  HOutcome (hreturned o) (hfinal o) (evs ++ htrace o).

(* The write-side environment inside a read-side one, and the events of a
   write-side trace among the read-side events. *)
Definition coreEnv (E : henv) : env :=
  {| world := hworld E; respond := λ X c w, hrespond E X (Core c) w |}.

Definition coreEvent (ev : event) : hevent :=
  match ev with Event c x => HEvent (Core c) x end.

Section ReadsVocabulary.

Variable ParsePodEntityVersion : string → result Z.
Variable TaskState_value : gmap string Z.
Variable IsPelotonStateTerminal : Z → bool.

(* The wire form of a store event as convertPodEventsFormat makes it, or
   the error of the first of its two versions that does not parse. *)
Definition wireEvent (e : PodEvent) : result TaskPodEvent :=
  match ParsePodEntityVersion (pe_Version e) with
  | Err err => Err err
  | Ok configVersion =>
      match ParsePodEntityVersion (pe_DesiredVersion e) with
      | Err err => Err err
      | Ok desiredConfigVersion =>
          Ok {| tpe_TaskId := pe_PodId e;
                tpe_ActualState := pe_ActualState e;
                tpe_GoalState := pe_DesiredState e;
                tpe_Timestamp := pe_Timestamp e;
                tpe_ConfigVersion := uint64_of_int64 configVersion;
                tpe_DesiredConfigVersion := uint64_of_int64 desiredConfigVersion;
                tpe_AgentID := pe_AgentId e;
                tpe_Hostname := pe_Hostname e;
                tpe_Message := pe_Message e;
                tpe_Reason := pe_Reason e;
                tpe_PrevTaskId := pe_PrevPodId e;
                tpe_Healthy := pe_Healthy e;
                tpe_DesriedTaskId := pe_DesiredPodId e |}
      end
  end.

(* An event whose actual state is a terminal one. *)
Definition terminal (event : TaskPodEvent) : Prop :=
  IsPelotonStateTerminal (taskStateOf TaskState_value (tpe_ActualState event)) = true.

Global Instance terminal_dec event : Decision (terminal event).
Proof. unfold terminal. apply _. Defined.

(* The task info getTerminalEvents makes of a terminal event. *)
Definition eventTaskInfo (lastTaskInfo : option TaskInfo) (event : TaskPodEvent)
    : EventTaskInfo :=
  {| eti_InstanceId := from_option InstanceId 0%N lastTaskInfo;
     eti_Config := Config <$> lastTaskInfo;
     eti_State := taskStateOf TaskState_value (tpe_ActualState event);
     eti_MesosTaskId := tpe_TaskId event;
     eti_Host := tpe_Hostname event;
     eti_AgentID := tpe_AgentID event;
     eti_Message := tpe_Message event;
     eti_Reason := tpe_Reason event;
     eti_PrevMesosTaskId := tpe_PrevTaskId event |}.

End ReadsVocabulary.

(* The prev pod id getPodEvents goes on with after a run: that of its
   first event (lines 1256-1264). *)
Definition headPrevPodID (podEvents : list PodEvent) : string :=
  match podEvents with
  | e :: _ => pe_PrevPodId e
  | [] => ""
  end.

(* The store holds the chain of runs that starts at podID: each run is not
   empty and is what the store answers for its pod id; the prev pod id of
   its first event parses; the chain ends with the run whose prev run id is
   0, or with an empty answer for the pod id after the last run. *)
Fixpoint chain (E : henv) (ParseRunID : string → result N) (id : JobID) (inst : N)
    (podID : string) (runs : list (list PodEvent)) : Prop :=
  match runs with
  | [] => halways E (Core (TaskStore_GetPodEvents id inst podID)) (Ok [])
  | podEvents :: runs =>
      podEvents ≠ []
      ∧ halways E (Core (TaskStore_GetPodEvents id inst podID)) (Ok podEvents)
      ∧ ∃ prevRunID,
          ParseRunID (headPrevPodID podEvents) = Ok prevRunID
          ∧ if decide (prevRunID = 0%N) then runs = []
            else chain E ParseRunID id inst (headPrevPodID podEvents) runs
  end.

Section ReadsVocabulary3.

Variable CreatePelotonTaskID : string → N → string.
Variable ExtractIPAndPortFromMesosAgentPID : string → result (string * string).

(* A task info as fillReasonForPendingTasksFromResMgr leaves it, when the
   tracker of active tasks answers with reasonOf: a PENDING task that the
   tracker knows gets the tracker's reason. *)
Definition withReason (reasonOf : string → option string) (jobID : JobID)
    (taskInfo : TaskInfo) : TaskInfo :=
  if decide (State (Runtime taskInfo) = TaskState_PENDING)
  then
    match reasonOf (CreatePelotonTaskID jobID (InstanceId taskInfo)) with
    | Some reason =>
        {| InstanceId := InstanceId taskInfo;
           Runtime := set_Reason (Runtime taskInfo) reason;
           Config := Config taskInfo |}
    | None => taskInfo
    end
  else taskInfo.

(* The address and port BrowseSandbox uses for the agent on hostname, when
   the host manager answers agents (lines 1107-1119). *)
Definition agentAddress (hostname : string) (agents : result (list string))
    : string * string :=
  match agents with
  | Ok (pid :: _) =>
      match ExtractIPAndPortFromMesosAgentPID pid with
      | Ok (ip, port) => (ip, if decide (port = "") then "5051" else port)
      | Err _ => (hostname, "5051")
      end
  | _ => (hostname, "5051")
  end.

End ReadsVocabulary3.

(* --------------------------------------------------------------------- *)
(* pkg/storage/querybuilder/expr.go                                       *)
(* --------------------------------------------------------------------- *)

Module QueryBuilder.

(* The four types IsUUID knows: UUID, gocql.UUID and the pointers to
   them. *)
Inductive UUIDType := T_UUID | T_gocql_UUID | T_ptr_UUID | T_ptr_gocql_UUID.

(* An interface{} value, as far as the package looks at it: whether it is
   the nil interface, whether it is a driver.Valuer and what its Value()
   returns, whether its type is one of the UUID types, whether its kind is
   Array or Slice and, if so, its elements.  Any other value is a VScalar,
   kept by its text. *)
#[warnings="-register-all"]
Inductive value :=
| VNil
| VScalar (text : string)
| VUUID (t : UUIDType) (text : string)
| VArray (elems : list value)
| VSlice (elems : list value)
| VValuer (r : result value).

(* reflect.Kind, as far as toSQL tells kinds apart. *)
Inductive Kind := Array | Slice | OtherKind.

(* reflect.ValueOf(val).Kind().  gocql.UUID is [16]byte, UUID a struct
   around it.  A Valuer is asked for its kind only when another Value()
   returned it; it is taken to be neither an array nor a slice. *)
Definition kindOf (val : value) : Kind :=
  match val with
  | VUUID T_gocql_UUID _ => Array
  | VArray _ => Array
  | VSlice _ => Slice
  | _ => OtherKind
  end.

(* The elements valVal.Index(0) .. valVal.Index(valVal.Len()-1) of an array
   or slice that is no UUID. *)
Definition elemsOf (val : value) : list value :=
  match val with
  | VArray elems | VSlice elems => elems
  | _ => []
  end.

(* A Go slice: nil, or its elements. *)
Definition slice (A : Type) : Type := option (list A).

(* append(s, elems...): nil stays nil when nothing is appended. *)
Definition append {A : Type} (s : slice A) (elems : list A) : slice A :=
  match s, elems with
  | None, [] => None
  | None, _ => Some elems
  | Some l, _ => Some (l ++ elems)
  end.

Definition elements {A : Type} (s : slice A) : list A := default [] s.

(* strings.Join(elems, sep) *)
Definition strings_Join (elems : list string) (sep : string) : string :=
  String.concat sep elems.

(* fmt.Errorf(msg) *)
Definition fmt_Errorf (msg : string) : error := StoreError msg.

(* What a ToSQL returns: sql, args, err. *)
Definition sqlResult : Type := string * slice value * option error.

Record expr := { sql : string; args : slice value }.

Definition expression (sql : string) (args : slice value) : expr :=
  {| sql := sql; args := args |}.

Definition expr_ToSQL (e : expr) : sqlResult := (sql e, args e, None).

Definition exprs : Type := list expr.

Section Writer.

(* An io.Writer: its state, and io.WriteString on it. *)
Variable W : Type.
Variable WriteString : W → string → W * option error.

Fixpoint AppendToSQL_loop (es : list expr) (i : nat) (w : W) (sep : string)
    (args0 : slice value) : slice value * option error * W :=
  match es with
  | [] => (args0, None, w)
  | e :: es =>
      let '(w, err) := if (0 <? i)%nat then WriteString w sep else (w, None) in
      match err with
      | Some err => (None, Some err, w)
      | None =>
          let '(w, err) := WriteString w (sql e) in
          match err with
          | Some err => (None, Some err, w)
          | None => AppendToSQL_loop es (S i) w sep (append args0 (elements (args e)))
          end
      end
  end.

Definition AppendToSQL (es : exprs) (w : W) (sep : string) (args0 : slice value)
    : slice value * option error * W :=
  AppendToSQL_loop es 0 w sep args0.

End Writer.

Definition IsUUID (val : value) : bool :=
  match val with
  | VUUID T_UUID _ => true
  | VUUID T_gocql_UUID _ => true
  | VUUID T_ptr_UUID _ => true
  | VUUID T_ptr_gocql_UUID _ => true
  | _ => false
  end.

(* switch v := val.(type) { case driver.Valuer: val, err = v.Value() } *)
Definition valueOf (val : value) : result value :=
  match val with
  | VValuer r => r
  | _ => Ok val
  end.

Definition isArrayOrSlice (val : value) : bool :=
  match kindOf val with
  | Array | Slice => true
  | OtherKind => false
  end.

Definition Eq : Type := gmap string value.
Definition NotEq : Type := Eq.
Definition Lt : Type := gmap string value.
Definition LtOrEq : Type := Lt.
Definition Gt : Type := Lt.
Definition GtOrEq : Type := Lt.

Section Placeholders.

(* Placeholders, of another file of the package. *)
Variable Placeholders : nat → string.

(* The loop of Eq.toSQL over the entries in the order of the range
   statement; sql, args and err are the named results. *)
Fixpoint Eq_toSQL_loop (equalOpr inOpr nullOpr : string) (entries : list (string * value))
    (exprs : list string) (args : slice value) : sqlResult :=
  match entries with
  | [] => (strings_Join exprs " AND ", args, None)
  | (key, val) :: entries =>
      match valueOf val with
      | Err err => ("", args, Some err)
      | Ok val =>
          let '(expr, args) :=
            match val with
            | VNil => (key +:+ " " +:+ nullOpr +:+ " NULL", args)
            | _ =>
                if negb (IsUUID val) && isArrayOrSlice val
                then
                  if bool_decide (length (elemsOf val) = 0)
                  then (key +:+ " " +:+ inOpr +:+ " (NULL)",
                        if args is None then Some [] else args)
                  else (key +:+ " " +:+ inOpr +:+ " ("
                        +:+ Placeholders (length (elemsOf val)) +:+ ")",
                        append args (elemsOf val))
                else (key +:+ " " +:+ equalOpr +:+ " ?", append args [val])
            end in
          Eq_toSQL_loop equalOpr inOpr nullOpr entries (exprs ++ [expr]) args
      end
  end.

(* Eq.toSQL when its range statement over the map (line 132) takes the
   entries in the order entries.  Go leaves the order of a range over a
   map open, and two ranges over the same map need not take the same
   one. *)
Definition Eq_toSQL_ranged (entries : list (string * value)) (useNotOpr : bool)
    : sqlResult :=
  let equalOpr := if useNotOpr then "<>" else "=" in
  let inOpr := if useNotOpr then "NOT IN" else "IN" in
  let nullOpr := if useNotOpr then "IS NOT" else "IS" in
  Eq_toSQL_loop equalOpr inOpr nullOpr entries [] None.

(* The orders a range statement over the map eq may take: every entry of
   the map, once. *)
Definition rangesOver (eq : Eq) (entries : list (string * value)) : Prop :=
  entries ≡ₚ map_to_list eq.

(* Eq.toSQL in one of these orders, that of map_to_list.  It stands for
   one call; two calls on the same map are not taken to range alike. *)
Definition Eq_toSQL (eq : Eq) (useNotOpr : bool) : sqlResult :=
  Eq_toSQL_ranged (map_to_list eq) useNotOpr.

Definition Eq_ToSQL (eq : Eq) : sqlResult := Eq_toSQL eq false.

Definition NotEq_ToSQL (neq : NotEq) : sqlResult := Eq_toSQL neq true.

Fixpoint Lt_toSQL_loop (opr : string) (entries : list (string * value))
    (exprs : list string) (args : slice value) : sqlResult :=
  match entries with
  | [] => (strings_Join exprs " AND ", args, None)
  | (key, val) :: entries =>
      match valueOf val with
      | Err err => ("", args, Some err)
      | Ok val =>
          match val with
          | VNil =>
              ("", args,
               Some (fmt_Errorf
                       "cannot use null with less than or greater than operators"))
          | _ =>
              if isArrayOrSlice val
              then
                ("", args,
                 Some (fmt_Errorf
                         "cannot use UUID, array or slice with less than or greater than operators"))
              else
                let expr := key +:+ " " +:+ opr +:+ " ?" in
                Lt_toSQL_loop opr entries (exprs ++ [expr]) (append args [val])
          end
      end
  end.

Definition Lt_toSQL (lt : Lt) (opposite orEq : bool) : sqlResult :=
  let opr := if opposite then ">" else "<" in
  let opr := if orEq then opr +:+ "=" else opr in
  Lt_toSQL_loop opr (map_to_list lt) [] None.

Definition Lt_ToSQL (lt : Lt) : sqlResult := Lt_toSQL lt false false.
Definition LtOrEq_ToSQL (ltOrEq : LtOrEq) : sqlResult := Lt_toSQL ltOrEq false true.
Definition Gt_ToSQL (gt : Gt) : sqlResult := Lt_toSQL gt true false.
Definition GtOrEq_ToSQL (gtOrEq : GtOrEq) : sqlResult := Lt_toSQL gtOrEq true true.

(* The implementations of Sqlizer: those of this file, and any other by
   what its ToSQL returns. *)
#[warnings="-register-all"]
Inductive Sqlizer :=
| Sqlizer_expr (e : expr)
| Sqlizer_aliasExpr (expr : Sqlizer) (alias : string)
| Sqlizer_Eq (eq : Eq)
| Sqlizer_NotEq (neq : NotEq)
| Sqlizer_Lt (lt : Lt)
| Sqlizer_LtOrEq (ltOrEq : LtOrEq)
| Sqlizer_Gt (gt : Gt)
| Sqlizer_GtOrEq (gtOrEq : GtOrEq)
| Sqlizer_And (a : list Sqlizer)
| Sqlizer_Or (o : list Sqlizer)
| Sqlizer_other (r : sqlResult).

Definition alias (expr : Sqlizer) (alias : string) : Sqlizer :=
  Sqlizer_aliasExpr expr alias.

Section Join.

Variable ToSQL : Sqlizer → sqlResult.

(* The loop of conj.join. *)
Fixpoint conj_join_loop (c : list Sqlizer) (sqlParts : list string) (args : slice value)
    (sep : string) : sqlResult :=
  match c with
  | [] =>
      let sql :=
        if bool_decide (0 < length sqlParts)%nat
        then "(" +:+ strings_Join sqlParts sep +:+ ")"
        else "" in
      (sql, args, None)
  | sqlizer :: c =>
      let '(partSQL, partArgs, err) := ToSQL sqlizer in
      match err with
      | Some err => ("", None, Some err)
      | None =>
          if bool_decide (partSQL ≠ "")
          then conj_join_loop c (sqlParts ++ [partSQL])
                 (append args (elements partArgs)) sep
          else conj_join_loop c sqlParts args sep
      end
  end.

Definition conj_join (c : list Sqlizer) (sep : string) : sqlResult :=
  conj_join_loop c [] None sep.

End Join.

Fixpoint ToSQL (s : Sqlizer) : sqlResult :=
  match s with
  | Sqlizer_expr e => expr_ToSQL e
  | Sqlizer_aliasExpr expr alias =>
      let '(sql, args, err) := ToSQL expr in
      let sql := if err is None then "(" +:+ sql +:+ ") AS " +:+ alias else sql in
      (sql, args, err)
  | Sqlizer_Eq eq => Eq_ToSQL eq
  | Sqlizer_NotEq neq => NotEq_ToSQL neq
  | Sqlizer_Lt lt => Lt_ToSQL lt
  | Sqlizer_LtOrEq ltOrEq => LtOrEq_ToSQL ltOrEq
  | Sqlizer_Gt gt => Gt_ToSQL gt
  | Sqlizer_GtOrEq gtOrEq => GtOrEq_ToSQL gtOrEq
  | Sqlizer_And a => conj_join ToSQL a " AND "
  | Sqlizer_Or o => conj_join ToSQL o " OR "
  | Sqlizer_other r => r
  end.

(* ----- What the builders are expected to return ----- *)

(* The clause Eq.toSQL writes for key and val, and the args it adds, when
   Value() does not fail. *)
Definition eqClause (useNotOpr : bool) (key : string) (val : value) : string :=
  match valueOf val with
  | Ok VNil => key +:+ (if useNotOpr then " IS NOT NULL" else " IS NULL")
  | Ok (VArray [] | VSlice []) =>
      key +:+ (if useNotOpr then " NOT IN (NULL)" else " IN (NULL)")
  | Ok (VArray elems | VSlice elems) =>
      key +:+ (if useNotOpr then " NOT IN (" else " IN (")
      +:+ Placeholders (length elems) +:+ ")"
  | Ok _ => key +:+ (if useNotOpr then " <> ?" else " = ?")
  | Err _ => ""
  end.

Definition eqArgs (val : value) : list value :=
  match valueOf val with
  | Ok VNil => []
  | Ok (VArray elems | VSlice elems) => elems
  | Ok v => [v]
  | Err _ => []
  end.

(* The error Lt.toSQL returns for val, None when it takes val. *)
Definition ltError (val : value) : option error :=
  match valueOf val with
  | Err err => Some err
  | Ok VNil =>
      Some (fmt_Errorf "cannot use null with less than or greater than operators")
  | Ok v =>
      if isArrayOrSlice v
      then Some (fmt_Errorf
                   "cannot use UUID, array or slice with less than or greater than operators")
      else None
  end.

(* The operator of Lt, LtOrEq, Gt and GtOrEq. *)
Definition ltOpr (opposite orEq : bool) : string :=
  match opposite, orEq with
  | false, false => "<"
  | false, true => "<="
  | true, false => ">"
  | true, true => ">="
  end.

(* The arg Lt.toSQL adds for a value it takes. *)
Definition ltArg (val : value) : value :=
  match valueOf val with
  | Ok v => v
  | Err _ => VNil
  end.

(* An implementation of another file keeps to the rule that an error
   comes without SQL; asked of s when s is one, or an alias of one. *)
Fixpoint keepsRule (s : Sqlizer) : Prop :=
  match s with
  | Sqlizer_aliasExpr expr _ => keepsRule expr
  | Sqlizer_other (sql, _, Some _) => sql = ""
  | _ => True
  end.

(* The args of Eq.toSQL after one more entry. *)
Definition eqAdd (args : slice value) (kv : string * value) : slice value :=
  match valueOf kv.2 with
  | Ok VNil => args
  | Ok (VArray [] | VSlice []) => if args is None then Some [] else args
  | Ok (VArray elems | VSlice elems) => append args elems
  | Ok v => append args [v]
  | Err _ => args
  end.

(* The parts of c that give SQL, under the ToSQL f. *)
Definition withSQL (f : Sqlizer → sqlResult) (c : list Sqlizer) : list Sqlizer :=
  filter (λ s, (f s).1.1 ≠ "") c.

End Placeholders.

(* The strings AppendToSQL writes: the sql of each expression, with sep
   before each but the first. *)
Definition pieces (sep : string) (sqls : list string) : list string :=
  match sqls with
  | [] => []
  | s :: sqls => s :: concat ((λ s, [sep; s]) <$> sqls)
  end.

Section WriterVocabulary.

Variable W : Type.
Variable WriteString : W → string → W * option error.

(* The writes of strs on w, one after the other, up to the first that
   fails. *)
Fixpoint writeAll (w : W) (strs : list string) : W * option error :=
  match strs with
  | [] => (w, None)
  | s :: strs =>
      let '(w, err) := WriteString w s in
      match err with
      | Some err => (w, Some err)
      | None => writeAll w strs
      end
  end.

End WriterVocabulary.

(* A writer that does not fail: a buffer, as strings.Builder is. *)
Definition bufferWrite (w s : string) : string * option error := (w +:+ s, None).

End QueryBuilder.

(* --------------------------------------------------------------------- *)
(* Stub environments with failing collaborators                           *)
(* --------------------------------------------------------------------- *)

Module Faults.

Import Stub.

Definition dbTimeout : error := StoreError "db timeout".

(* J1 without a config, with a runtime that cannot be read, and on a store
   that fails every job-level write. *)
Definition missingJ1 : stub :=
  {| leader := true; jobConfig := Err (NotFoundErrorf "job not found");
     jobRuntime := jobRuntime runningJ1; jobCAS := None; tasks := tasksJ1;
     taskCAS := None; patchErr := None; podEvents := [] |}.

Definition unreadableJ1 : stub :=
  {| leader := true; jobConfig := jobConfig runningJ1; jobRuntime := Err dbTimeout;
     jobCAS := None; tasks := tasksJ1; taskCAS := None; patchErr := None;
     podEvents := [] |}.

Definition unwritableJ1 : stub :=
  {| leader := true; jobConfig := jobConfig runningJ1; jobRuntime := jobRuntime runningJ1;
     jobCAS := Some dbTimeout; tasks := tasksJ1; taskCAS := None; patchErr := None;
     podEvents := [] |}.

(* The job of two running instances on a cache that fails PatchTasks. *)
Definition unpatchableJ1 : stub :=
  {| leader := true; jobConfig := jobConfig smallJ1; jobRuntime := jobRuntime smallJ1;
     jobCAS := None; tasks := tasks smallJ1; taskCAS := None;
     patchErr := Some dbTimeout; podEvents := [] |}.

(* A task store that fails the read of the whole job and the reads of the
   ranges in lost. *)
Definition lossy_answer (s : stub) (lost : InstanceRange → bool) (X : Type) (c : call X)
    : X :=
  match c in call X return X with
  | GetTasksForJob _ => Err dbTimeout
  | GetTasksForJobByRange _ r =>
      if lost r then Err dbTimeout else Ok (filter (inRange r) (tasks s))
  | c => stub_answer s _ c
  end.

Definition lossyEnv (s : stub) (lost : InstanceRange → bool) : env :=
  {| world := unit; respond := λ X c w, (lossy_answer s lost X c, w) |}.

Definition fromOne (r : InstanceRange) : bool := bool_decide (From r = 1%N).

Definition thirds : list InstanceRange :=
  [ {| From := 0; To := 1 |}; {| From := 1; To := 2 |}; {| From := 2; To := 3 |} ].

(* A cache that answers for the tasks as c says. *)
Definition cache_answer (s : stub) (c : taskCache) (X : Type) (q : call X) : X :=
  match q in call X return X with
  | JobAddTask _ inst => addTask c inst
  | TaskGetRuntime _ inst => getRuntime c inst
  | TaskCompareAndSetRuntime _ inst _ _ => compareAndSet c inst
  | q => stub_answer s _ q
  end.

Definition cacheEnv (s : stub) (c : taskCache) : env :=
  {| world := unit; respond := λ X q w, (cache_answer s c X q, w) |}.

(* Five stopped or running tasks, and a cache that fails AddTask for
   instance 0, the read of the runtime for instance 1 and the write for
   instance 3. *)
Definition fiveTasks : gmap N TaskInfo :=
  {[ 0%N := taskOf 0 TaskState_KILLED "J1-0-1";
     1%N := taskOf 1 TaskState_KILLED "J1-1-1";
     2%N := taskOf 2 TaskState_KILLED "J1-2-3";
     3%N := taskOf 3 TaskState_KILLED "J1-3-1";
     4%N := taskOf 4 TaskState_RUNNING "J1-4-1" ]}.

Definition fiveJ1 : stub :=
  jobJ1 SERVICE 5 JobState_RUNNING JobState_RUNNING fiveTasks.

Definition patchyCache : taskCache :=
  {| addTask := λ inst, if bool_decide (inst = 0%N) then Some dbTimeout else None;
     getRuntime := λ inst,
       if bool_decide (inst = 1%N) then Err dbTimeout
       else match fiveTasks !! inst with
            | Some taskInfo => Ok (Runtime taskInfo)
            | None => Err (NotFoundErrorf "task not found")
            end;
     compareAndSet := λ inst,
       if bool_decide (inst = 3%N) then Some dbTimeout else None |}.

(* J1 with its stopped instance 2 alone, on a cache that rejects every
   write of a task runtime for a version conflict. *)
Definition stoppedJ1 : stub :=
  {| leader := true; jobConfig := jobConfig runningJ1; jobRuntime := jobRuntime runningJ1;
     jobCAS := None; tasks := {[ 2%N := taskOf 2 TaskState_KILLED "J1-2-3" ]};
     taskCAS := UnexpectedVersion; patchErr := None; podEvents := [] |}.

End Faults.

(* --------------------------------------------------------------------- *)
(* Stub environments of the RPCs that read                                *)
(* --------------------------------------------------------------------- *)

Module ReadStub.

Import Stub.

(* Stand-ins for the helpers that are not among the sources. *)
Definition parsePodEntityVersion (s : string) : result Z :=
  match ParseInt s with
  | Some v => Ok v
  | None => Err (InvalidArgumentErrorf ("invalid entity version: " +:+ s))
  end.

Definition taskStateValue : gmap string Z :=
  {[ "PENDING" := 2%Z; "RUNNING" := 9%Z; "SUCCEEDED" := 10%Z; "FAILED" := 11%Z;
     "KILLED" := 15%Z ]}.

Definition isPelotonStateTerminal (state : Z) : bool :=
  bool_decide (state ∈ [10; 11; 12; 15]%Z).

Definition createPelotonTaskID (jobID : string) (inst : N) : string :=
  jobID +:+ "-" +:+ pretty inst.

(* host:port of a pid of the form slave(1)@host:port is not parsed here:
   the stand-in knows the pids of the scenarios. *)
Definition extractIPAndPort (pid : string) : result (string * string) :=
  if bool_decide (pid = "slave(1)@10.0.0.7:5061") then Ok ("10.0.0.7", "5061")
  else if bool_decide (pid = "slave(1)@10.0.0.8") then Ok ("10.0.0.8", "")
  else Err (InvalidArgumentErrorf "invalid agent pid").

Definition jobIDString (id : JobID) : string := "value:" +:+ id.

(* Canned answers for the collaborators of the RPCs that read. *)
Record hstub := {
  core : stub;
  taskForJob : result (gmap N TaskInfo);
  queried : result (list TaskInfo * N);
  reasons : string → option string;
  framework : string * option error;
  agents : result (list string);
  sandboxPaths : result (list string);
  master : result (string * string)
}.

Definition hstub_answer (h : hstub) (X : Type) (c : hcall X) : X :=
  match c in hcall X return X with
  | Core c => stub_answer (core h) _ c
  | GetJobConfigWithoutFillingCache _ => jobConfig (core h)
  | GetJobRuntimeWithoutFillingCache _ => jobRuntime (core h)
  | GetTaskForJob _ _ => taskForJob h
  | DeletePodEvents_ _ _ _ _ => None
  | QueryTasks _ _ => queried h
  | ActiveRMTasks_GetTask taskID => reasons h taskID
  | GetJob _ => true
  | GetTask _ _ => true
  | GetFrameworkID _ => framework h
  | GetMesosAgentInfo _ => agents h
  | GetMesosMasterHostPort => master h
  | ListSandboxFilesPaths _ _ _ _ _ _ => sandboxPaths h
  end.

Definition hstubEnv (h : hstub) : henv :=
  {| hworld := unit; hrespond := λ X c w, (hstub_answer h X c, w) |}.

Definition podEvent (podID prevPodID actualState : string) : PodEvent :=
  {| pe_PodId := podID; pe_PrevPodId := prevPodID; pe_DesiredPodId := podID;
     pe_ActualState := actualState; pe_DesiredState := "RUNNING";
     pe_Timestamp := "2019-01-01T00:00:00Z"; pe_Version := "1";
     pe_DesiredVersion := "1"; pe_AgentId := "agent-" +:+ podID;
     pe_Hostname := "host-" +:+ podID; pe_Message := ""; pe_Reason := "";
     pe_Healthy := "DISABLED" |}.

(* The wire form of such an event. *)
Definition taskPodEvent (podID prevPodID actualState : string) : TaskPodEvent :=
  {| tpe_TaskId := podID; tpe_ActualState := actualState; tpe_GoalState := "RUNNING";
     tpe_Timestamp := "2019-01-01T00:00:00Z"; tpe_ConfigVersion := 1;
     tpe_DesiredConfigVersion := 1; tpe_AgentID := "agent-" +:+ podID;
     tpe_Hostname := "host-" +:+ podID; tpe_Message := ""; tpe_Reason := "";
     tpe_PrevTaskId := prevPodID; tpe_Healthy := "DISABLED";
     tpe_DesriedTaskId := podID |}.

(* The runs 3, 2 and 1 of instance 2 of J1: run 3 is running, run 2 failed
   after it ran, run 1 was killed. *)
Definition run3 : list PodEvent := [ podEvent "J1-2-3" "J1-2-2" "RUNNING" ].
Definition run2 : list PodEvent :=
  [ podEvent "J1-2-2" "J1-2-1" "FAILED"; podEvent "J1-2-2" "J1-2-1" "RUNNING" ].
Definition run1 : list PodEvent := [ podEvent "J1-2-1" "J1-2-0" "KILLED" ].

Definition historyJ1 : stub :=
  {| leader := true; jobConfig := jobConfig runningJ1; jobRuntime := jobRuntime runningJ1;
     jobCAS := None; tasks := tasksJ1; taskCAS := None; patchErr := None;
     podEvents := [ ("", run3); ("J1-2-3", run3); ("J1-2-2", run2); ("J1-2-1", run1) ] |}.

(* A store whose run 3 names itself as the run before it. *)
Definition loopJ1 : stub :=
  {| leader := true; jobConfig := jobConfig runningJ1; jobRuntime := jobRuntime runningJ1;
     jobCAS := None; tasks := tasksJ1; taskCAS := None; patchErr := None;
     podEvents := [ ("", [ podEvent "J1-2-3" "J1-2-3" "RUNNING" ]);
                    ("J1-2-3", [ podEvent "J1-2-3" "J1-2-3" "RUNNING" ]) ] |}.

Definition pendingTask (inst : N) : TaskInfo :=
  {| InstanceId := inst;
     Runtime := {| State := TaskState_PENDING; GoalState := TaskState_RUNNING;
                   MesosTaskId := ""; DesiredMesosTaskId := ""; Host := "";
                   AgentID := ""; Message := ""; Reason := ""; ConfigVersion := 1;
                   Healthy := HealthState_DISABLED; TerminationStatus_ := None;
                   Revision := 1 |};
     Config := MkTaskConfig false |}.

Definition noQuota (taskID : string) : option string :=
  if bool_decide (taskID = "J1-5") then Some "no quota" else None.

Definition readsOf (s : stub) : hstub :=
  {| core := s;
     taskForJob := Ok {[ 2%N := taskOf 2 TaskState_RUNNING "J1-2-3" ]};
     queried := Ok ([ pendingTask 5; taskOf 3 TaskState_RUNNING "J1-3-1" ], 2%N);
     reasons := noQuota;
     framework := ("fw-1", None);
     agents := Ok [ "slave(1)@10.0.0.8"; "slave(1)@10.0.0.7:5061" ];
     sandboxPaths := Ok [ "/var/lib/mesos/stdout"; "/var/lib/mesos/stderr" ];
     master := Ok ("master-1", "5050") |}.

Definition pendingJ1 : stub :=
  jobJ1 SERVICE 6 JobState_RUNNING JobState_RUNNING
    {[ 5%N := pendingTask 5; 3%N := taskOf 3 TaskState_RUNNING "J1-3-1" ]}.

End ReadStub.

(* --------------------------------------------------------------------- *)
(* Stub values for the query builder                                     *)
(* --------------------------------------------------------------------- *)

Module QueryStub.

Import QueryBuilder.

(* A stand-in for Placeholders: n question marks with commas between. *)
Fixpoint questionMarks (n : nat) : string :=
  match n with
  | 0 => ""
  | 1 => "?"
  | S n => "?," +:+ questionMarks n
  end.

Definition badValue : error := StoreError "bad value".

(* An alias of a conjunction one of whose parts has a value that fails. *)
Definition failing : Sqlizer :=
  alias (Sqlizer_And [ Sqlizer_expr (expression "a = 1" None);
                       Sqlizer_Eq {[ "id" := VValuer (Err badValue) ]} ]) "c".

(* A map of two keys, and the two orders a range over it may take. *)
Definition hostAndStates : Eq :=
  {[ "host" := VScalar "h1";
     "state" := VSlice [VScalar "RUNNING"; VScalar "KILLED"] ]}.

Definition hostFirst : list (string * value) :=
  [ ("host", VScalar "h1"); ("state", VSlice [VScalar "RUNNING"; VScalar "KILLED"]) ].

Definition stateFirst : list (string * value) :=
  [ ("state", VSlice [VScalar "RUNNING"; VScalar "KILLED"]); ("host", VScalar "h1") ].

End QueryStub.

(* ===================================================================== *)
(* Facts                                                                  *)
(* ===================================================================== *)

Lemma after_nil {R W} (o : option (outcome R W)) : after [] o = o.
Proof. by destruct o as [[]|]. Qed.

Lemma after_after {R W} evs1 evs2 (o : option (outcome R W)) :
  after evs1 (after evs2 o) = after (evs1 ++ evs2) o.
Proof. destruct o as [[]|]; simpl; [by rewrite app_assoc | done]. Qed.

Lemma run_ret E {R} (r : R) w : run E (Ret r) w = Some (Outcome r w []).
Proof. done. Qed.

Lemma run_vis E {R X} (c : call X) (k : X → prog R) w :
  run E (Vis c k) w = after [Event c (answer E c w)] (run E (k (answer E c w)) (next E c w)).
Proof.
  unfold answer, next. simpl. destruct (respond E X c w) as [x w']. simpl.
  by destruct (run E (k x) w').
Qed.

Lemma run_bind E {A B} (p : prog A) (f : A → prog B) w :
  run E (p ≫= f) w =
  match run E p w with
  | Some o => after (trace o) (run E (f (returned o)) (final o))
  | None => None
  end.
Proof.
  revert w. induction p as [a|X c k IH|]; intros w.
  - simpl. by rewrite after_nil.
  - change (run E (Vis c (λ x, k x ≫= f)) w = match run E (Vis c k) w with
              | Some o => after (trace o) (run E (f (returned o)) (final o))
              | None => None end).
    rewrite !run_vis, IH.
    destruct (run E (k (answer E c w)) (next E c w)) as [o|]; simpl; [|done].
    by destruct (run E (f (returned o)) (final o)).
  - done.
Qed.

Lemma run_trigger E {X} (c : call X) w :
  run E (trigger c) w = Some (Outcome (answer E c w) (next E c w) [Event c (answer E c w)]).
Proof. unfold trigger. by rewrite run_vis. Qed.

Lemma run_trigger_bind E {X B} (c : call X) (f : X → prog B) w :
  run E (trigger c ≫= f) w =
  after [Event c (answer E c w)] (run E (f (answer E c w)) (next E c w)).
Proof. by rewrite run_bind, run_trigger. Qed.

Lemma ensures_ret E {R} (r : R) w (Q : outcome R (world E) → Prop) :
  Q (Outcome r w []) → ensures E (Ret r) w Q.
Proof. intros HQ. by exists (Outcome r w []). Qed.

Lemma ensures_mono E {R} (p : prog R) w (Q Q' : outcome R (world E) → Prop) :
  ensures E p w Q → (∀ o, Q o → Q' o) → ensures E p w Q'.
Proof. intros (o & Hrun & HQ) Himp. exists o. auto. Qed.

Lemma ensures_bind E {A B} (p : prog A) (f : A → prog B) w
    (Q : outcome B (world E) → Prop) :
  ensures E p w (λ o, ensures E (f (returned o)) (final o)
                        (λ o', Q (prepend (trace o) o'))) →
  ensures E (p ≫= f) w Q.
Proof.
  intros (o & Hrun & o' & Hrun' & HQ). exists (prepend (trace o) o').
  rewrite run_bind, Hrun, Hrun'. done.
Qed.

Lemma ensures_trigger_bind E {X B} (c : call X) (f : X → prog B) w
    (Q : outcome B (world E) → Prop) :
  ensures E (f (answer E c w)) (next E c w)
    (λ o, Q (prepend [Event c (answer E c w)] o)) →
  ensures E (trigger c ≫= f) w Q.
Proof.
  intros (o & Hrun & HQ). exists (prepend [Event c (answer E c w)] o).
  rewrite run_trigger_bind, Hrun. done.
Qed.

Lemma ensures_vis E {X B} (c : call X) (k : X → prog B) w
    (Q : outcome B (world E) → Prop) :
  ensures E (k (answer E c w)) (next E c w)
    (λ o, Q (prepend [Event c (answer E c w)] o)) →
  ensures E (Vis c k) w Q.
Proof.
  intros (o & Hrun & HQ). exists (prepend [Event c (answer E c w)] o).
  rewrite run_vis, Hrun. done.
Qed.

Lemma ensures_ask E {X B} (c : call X) (f : X → prog B) w (x : X)
    (Q : outcome B (world E) → Prop) :
  answer E c w = x →
  ensures E (f x) (next E c w) (λ o, Q (prepend [Event c x] o)) →
  ensures E (trigger c ≫= f) w Q.
Proof. intros <-. apply ensures_trigger_bind. Qed.

Lemma ensures_trigger E {X} (c : call X) w (Q : outcome X (world E) → Prop) :
  Q (Outcome (answer E c w) (next E c w) [Event c (answer E c w)]) →
  ensures E (trigger c) w Q.
Proof. intros HQ. eexists. by rewrite run_trigger. Qed.

Lemma total_ret E {R} (r : R) : total E (Ret r).
Proof. intros w. by apply ensures_ret. Qed.

Lemma total_trigger E {X} (c : call X) : total E (trigger c).
Proof. intros w. by apply ensures_trigger. Qed.

Lemma total_bind E {A B} (p : prog A) (f : A → prog B) :
  total E p → (∀ a, total E (f a)) → total E (p ≫= f).
Proof.
  intros Hp Hf w. apply ensures_bind.
  eapply ensures_mono; [apply Hp|]. intros o _.
  eapply ensures_mono; [apply Hf|]. done.
Qed.

Lemma total_vis E {X B} (c : call X) (k : X → prog B) :
  (∀ x, total E (k x)) → total E (Vis c k).
Proof.
  intros Hk w. apply ensures_vis. eapply ensures_mono; [apply Hk|]. done.
Qed.

Create HintDb total discriminated.
#[export] Hint Resolve total_ret total_trigger : total.

Ltac total_step :=
  lazymatch goal with
  | |- total _ (Ret _) => apply total_ret
  | |- total _ (trigger _) => apply total_trigger
  | |- total _ (Vis _ _) => apply total_vis; intros ?
  | |- total _ (_ ≫= _) => apply total_bind; [| intros ?]
  | |- total _ (if ?b then _ else _) => destruct b eqn:?
  | |- total _ (match ?x with _ => _ end) => destruct x
  | |- total _ (let '(_, _) := ?x in _) => destruct x
  | |- total _ (let _ := _ in _) => cbv zeta
  end.

Ltac ensures_step :=
  lazymatch goal with
  | |- ensures _ (Ret _) _ _ => apply ensures_ret
  | |- ensures _ (trigger _ ≫= _) _ _ => apply ensures_trigger_bind
  | |- ensures _ (trigger _) _ _ => apply ensures_trigger
  | |- ensures _ (Vis _ _) _ _ => apply ensures_vis
  | |- ensures _ (_ ≫= _) _ _ => apply ensures_bind
  end.

(* ----- Mesos task ids ----- *)

Lemma digit_of_pretty_N_char (d : N) : (d < 10)%N → digit_of (pretty_N_char d) = Some d.
Proof.
  intros Hd.
  assert (d = 0 ∨ d = 1 ∨ d = 2 ∨ d = 3 ∨ d = 4 ∨ d = 5 ∨ d = 6 ∨ d = 7
          ∨ d = 8 ∨ d = 9)%N as Hcases by lia.
  repeat (destruct Hcases as [->|Hcases]; [reflexivity|]). by subst.
Qed.

Lemma parse_digits_pretty_N_go (x : N) (s : string) :
  parse_digits (pretty_N_go x s) 0 = parse_digits s x.
Proof.
  revert s. induction (N.lt_wf_0 x) as [x _ IH]; intros s.
  destruct (decide (x = 0)%N) as [->|Hx].
  - by rewrite pretty_N_go_0.
  - rewrite pretty_N_go_step by lia. rewrite IH by (apply N.div_lt; lia).
    cbn [parse_digits]. rewrite digit_of_pretty_N_char by (apply N.mod_lt; lia).
    f_equal. rewrite N.mul_comm. symmetry. apply N.div_mod'.
Qed.

Lemma parse_digits_pretty (n : N) : parse_digits (pretty n) 0 = Some n.
Proof.
  unfold pretty, pretty_N. case_decide as Hn.
  - by subst.
  - by rewrite parse_digits_pretty_N_go.
Qed.

Lemma ParseUint_pretty (n : N) : (n ≤ MaxUint64)%N → ParseUint (pretty n) = Some n.
Proof.
  intros Hn. unfold ParseUint.
  pose proof (parse_digits_pretty n) as Hp.
  destruct (pretty n) as [|c rest] eqn:Hs.
  - simpl in Hp. injection Hp as <-. by vm_compute in Hs.
  - rewrite Hp. by rewrite (proj2 (N.leb_le _ _) Hn).
Qed.

Lemma parse_digits_no_hyphen (t : string) (acc n : N) :
  parse_digits t acc = Some n → after_last_hyphen t = None.
Proof.
  revert acc. induction t as [|c t IH]; intros acc Hp; [done|].
  cbn [parse_digits] in Hp. cbn [after_last_hyphen].
  destruct (digit_of c) as [d|] eqn:Hd; [|done].
  rewrite (IH _ Hp).
  destruct (Ascii.eqb_spec c "-") as [->|]; [by vm_compute in Hd | done].
Qed.

Lemma after_last_hyphen_app (pre t : string) :
  after_last_hyphen t = None → after_last_hyphen (pre +:+ "-" +:+ t) = Some t.
Proof.
  intros Ht. induction pre as [|c pre IH].
  - change (after_last_hyphen (String "-" t) = Some t).
    cbn [after_last_hyphen]. by rewrite Ht.
  - change (after_last_hyphen (String c (pre +:+ "-" +:+ t)) = Some t).
    cbn [after_last_hyphen]. by rewrite IH.
Qed.

Lemma string_app_assoc (a b c : string) : (a +:+ b) +:+ c = a +:+ (b +:+ c).
Proof.
  induction a as [|x a IH]; [done|].
  change (String x ((a +:+ b) +:+ c) = String x (a +:+ b +:+ c)). by rewrite IH.
Qed.

Lemma ParseRunID_CreateMesosTaskID (jobID : JobID) (instanceID runID : N) :
  (runID ≤ MaxUint64)%N →
  ParseRunID (CreateMesosTaskID jobID instanceID runID) = Ok runID.
Proof.
  intros Hn. unfold ParseRunID, CreateMesosTaskID.
  replace (jobID +:+ "-" +:+ pretty instanceID +:+ "-" +:+ pretty runID)
    with ((jobID +:+ "-" +:+ pretty instanceID) +:+ "-" +:+ pretty runID)
    by (by rewrite !string_app_assoc).
  rewrite after_last_hyphen_app
    by (eapply parse_digits_no_hyphen, parse_digits_pretty).
  by rewrite ParseUint_pretty.
Qed.

Lemma runID_or_zero_CreateMesosTaskID (jobID : JobID) (instanceID runID : N) :
  (runID ≤ MaxUint64)%N →
  runID_or_zero (CreateMesosTaskID jobID instanceID runID) = runID.
Proof. intros Hn. unfold runID_or_zero. by rewrite ParseRunID_CreateMesosTaskID. Qed.

Lemma uint64_add_1 (n : N) : (n < MaxUint64)%N → uint64_add n 1 = (n + 1)%N.
Proof.
  intros Hn. unfold uint64_add. apply N.mod_small.
  unfold MaxUint64 in Hn. lia.
Qed.

(* ----- Stretches without enqueues ----- *)

Lemma quietly_ret E {R} (r : R) (P : R → Prop) : P r → quietly E (Ret r) P.
Proof. intros HP w. apply ensures_ret. split; [constructor | done]. Qed.

Lemma quietly_ask E {X B} (c : call X) (f : X → prog B) (P : B → Prop) :
  (∀ x, isEnqueue (Event c x) = false) →
  (∀ x, quietly E (f x) P) →
  quietly E (trigger c ≫= f) P.
Proof.
  intros Hc Hf w. apply ensures_trigger_bind.
  eapply ensures_mono; [apply Hf|]. intros o [Ho HP]. simpl.
  split; [by constructor | done].
Qed.

Lemma quietly_trigger E {X} (c : call X) :
  (∀ x, isEnqueue (Event c x) = false) → quietly E (trigger c) anything.
Proof. intros Hc w. apply ensures_trigger. simpl. split; [by repeat constructor | done]. Qed.

Lemma quietly_bind E {A B} (p : prog A) (f : A → prog B) (P : B → Prop) :
  quietly E p anything → (∀ a, quietly E (f a) P) → quietly E (p ≫= f) P.
Proof.
  intros Hp Hf w. apply ensures_bind.
  eapply ensures_mono; [apply Hp|]. intros o [Ho _].
  eapply ensures_mono; [apply Hf|]. intros o' [Ho' HP]. simpl.
  split; [by apply Forall_app | done].
Qed.

Lemma enqueues_quiet (tr : list event) : quiet tr → enqueues tr = [].
Proof.
  unfold enqueues. induction 1 as [|ev tr Hev _ IH]; [done|].
  rewrite filter_cons, decide_False by (by rewrite Hev). done.
Qed.

Lemma enqueues_app (tr1 tr2 : list event) :
  enqueues (tr1 ++ tr2) = enqueues tr1 ++ enqueues tr2.
Proof. apply filter_app. Qed.

Lemma enqueues_enqueueTrace (jobID : JobID) (ids : list N) :
  enqueues (enqueueTrace jobID ids) = enqueueTrace jobID ids.
Proof.
  unfold enqueues, enqueueTrace. induction ids as [|i ids IH]; [done|].
  cbn [fmap list_fmap]. rewrite filter_cons, decide_True by done.
  f_equal. apply IH.
Qed.

Ltac quietly_step :=
  lazymatch goal with
  | |- quietly _ (Ret _) _ =>
      apply quietly_ret; first [done | by intros ? [= <-]]
  | |- quietly _ (trigger _ ≫= _) _ =>
      apply quietly_ask; [intros ?; reflexivity | intros ?]
  | |- quietly _ (trigger _) _ => apply quietly_trigger; intros ?; reflexivity
  | |- quietly _ (_ ≫= _) _ => apply quietly_bind; [| intros ?]
  | |- quietly _ (if ?b then _ else _) _ => destruct b eqn:?
  | |- quietly _ (match ?x with _ => _ end) _ => destruct x
  | |- quietly _ (let _ := _ in _) _ => cbv zeta
  end.

(* The round that goes on to the next one: the call was rejected with
   UnexpectedVersionError and the count is below the bound. *)
Ltac retry_round IH :=
  match goal with
  | H : _ && _ = true |- _ =>
      let Hu := fresh "Hu" in
      let Hlt := fresh "Hlt" in
      apply andb_true_iff in H as [Hu Hlt];
      rewrite Hu in *; apply Z.ltb_lt in Hlt; apply IH; lia
  end.

Section HandlerFacts.

Variable GetDefaultJobGoalState : JobType → JobState.
Variable GetDefaultTaskGoalState : JobType → TaskState.
Variable GetInitialHealthState : TaskConfig → HealthState.

Abbreviation Start' :=
  (Start GetDefaultJobGoalState GetDefaultTaskGoalState GetInitialHealthState).

(** C3: a write RPC (Start, Stop, Restart, Refresh) invoked while
    IsLeader() answers false returns Unavailable, and the leader query is
    the only call it makes: no store read or write, no cache mutation and
    no enqueue in the goal-state driver. *)
Theorem write_rpcs_refuse_on_non_leader
    (E : env) (w : world E)
    (start : StartRequest) (stop : StopRequest)
    (restart : RestartRequest) (refresh : RefreshRequest) :
  answer E IsLeader w = false →
  (∃ e, IsUnavailable e = true ∧
        run E (Start' start) w
        = Some (Outcome (Err e) (next E IsLeader w) [Event IsLeader false]))
  ∧ (∃ e, IsUnavailable e = true ∧
        run E (Stop stop) w
        = Some (Outcome (Err e) (next E IsLeader w) [Event IsLeader false]))
  ∧ (∃ e, IsUnavailable e = true ∧
        run E (Restart restart) w
        = Some (Outcome (Err e) (next E IsLeader w) [Event IsLeader false]))
  ∧ (∃ e, IsUnavailable e = true ∧
        run E (Refresh refresh) w
        = Some (Outcome (Err e) (next E IsLeader w) [Event IsLeader false]))
  ∧ (∀ ev, ev ∈ [Event IsLeader false] →
        isRuntimeWrite ev = false ∧ isCacheMutation ev = false
        ∧ isEnqueue ev = false ∧ isStoreRead ev = false).
Proof.
  intros Hl.
  assert (∀ ev, ev ∈ [Event IsLeader false] →
            isRuntimeWrite ev = false ∧ isCacheMutation ev = false
            ∧ isEnqueue ev = false ∧ isStoreRead ev = false) as Hquiet.
  { intros ev Hev. apply list_elem_of_singleton in Hev. by subst. }
  repeat split; try (by apply Hquiet);
    (eexists; split;
     [| unfold Start, Stop, Restart, Refresh;
        rewrite run_trigger_bind, Hl; simpl; reflexivity]; reflexivity).
Qed.

Lemma elem_of_instanceList (n i : N) : i ∈ instanceList n ↔ (i < n)%N.
Proof.
  unfold instanceList. rewrite list_elem_of_fmap. split.
  - intros (k & -> & Hk). apply elem_of_seq in Hk. lia.
  - intros Hi. exists (N.to_nat i). split; [lia|]. apply elem_of_seq. lia.
Qed.

Lemma NoDup_instanceList (n : N) : NoDup (instanceList n).
Proof.
  unfold instanceList. apply NoDup_fmap_2; [|apply NoDup_seq].
  intros x y Hxy. lia.
Qed.

(** C9: a Stop with no ranges on a job whose runtime already has goal
    state KILLED succeeds with every instance id 0..instance_count-1 in
    StoppedInstanceIds, and makes no CompareAndSetRuntime call (so no
    desired_state_version increment is written) and no enqueue. *)
Theorem stop_whole_job_is_idempotent
    (E : env) (w : world E) (body : StopRequest) (cachedConfig : JobConfig)
    (jobRuntime : JobRuntime) :
  always E IsLeader true →
  always E (JobGetConfig (stop_JobId body)) (Ok cachedConfig) →
  always E (JobGetRuntime (stop_JobId body)) (Ok jobRuntime) →
  jr_GoalState jobRuntime = JobState_KILLED →
  stop_Ranges body = [] →
  ∃ o resp,
    run E (Stop body) w = Some o
    ∧ returned o = Ok resp
    ∧ stop_Error resp = None
    ∧ stop_InvalidInstanceIds resp = []
    ∧ (∀ i, i ∈ StoppedInstanceIds resp ↔ (i < jc_InstanceCount cachedConfig)%N)
    ∧ NoDup (StoppedInstanceIds resp)
    ∧ trace o = [ Event IsLeader true;
                  Event (AddJob (stop_JobId body)) tt;
                  Event (JobGetConfig (stop_JobId body)) (Ok cachedConfig);
                  Event (AddJob (stop_JobId body)) tt;
                  Event (JobGetRuntime (stop_JobId body)) (Ok jobRuntime) ]
    ∧ countOf isRuntimeWrite (trace o) = 0
    ∧ countOf isEnqueue (trace o) = 0.
Proof.
  intros Hl Hc Hr Hk Hranges.
  unfold Stop. rewrite run_trigger_bind, Hl. simpl negb. cbv iota.
  rewrite run_trigger_bind. destruct (answer E (AddJob (stop_JobId body)) _).
  rewrite run_trigger_bind, Hc, Hranges. simpl stopsWholeJob. cbv iota.
  unfold stopJob. rewrite run_trigger_bind.
  destruct (answer E (AddJob (stop_JobId body)) _).
  rewrite run_bind. change retryFuel with 5%nat. simpl stopJob_loop.
  unfold stopJob_round. rewrite run_trigger_bind, Hr, Hk. simpl.
  eexists _, _. repeat split; try reflexivity; simpl.
  - by intros ?%elem_of_instanceList.
  - by intros ?%elem_of_instanceList.
  - apply NoDup_instanceList.
Qed.

(* The retry loops leave within the fuel the handler gives them. *)
Lemma Start_jobRuntime_total E fuel body cachedConfig count :
  (MaxConcurrencyErrorRetry - count ≤ Z.of_nat fuel)%Z → (1 ≤ fuel)%nat →
  total E (Start_jobRuntime GetDefaultJobGoalState fuel body cachedConfig count).
Proof.
  revert count. induction fuel as [|fuel IH]; intros count Hfuel Hpos; [lia|].
  simpl. unfold Start_jobRuntime_round.
  repeat total_step; auto with total.
  retry_round IH.
Qed.

Lemma Start_taskRuntime_total E fuel body cachedConfig taskInfo count :
  (MaxConcurrencyErrorRetry - count ≤ Z.of_nat fuel)%Z → (1 ≤ fuel)%nat →
  total E (Start_taskRuntime GetDefaultTaskGoalState GetInitialHealthState
             fuel body cachedConfig taskInfo count).
Proof.
  revert count. induction fuel as [|fuel IH]; intros count Hfuel Hpos; [lia|].
  simpl. unfold Start_taskRuntime_round.
  repeat total_step; auto with total.
  retry_round IH.
Qed.

Lemma stopJob_loop_total E fuel jobID instanceCount count :
  (MaxConcurrencyErrorRetry - count ≤ Z.of_nat fuel)%Z → (1 ≤ fuel)%nat →
  total E (stopJob_loop fuel jobID instanceCount count).
Proof.
  revert count. induction fuel as [|fuel IH]; intros count Hfuel Hpos; [lia|].
  simpl. unfold stopJob_round.
  repeat total_step; auto with total.
  retry_round IH.
Qed.

Lemma retryFuel_suffices :
  (MaxConcurrencyErrorRetry - 0 ≤ Z.of_nat retryFuel)%Z ∧ (1 ≤ retryFuel)%nat.
Proof. vm_compute. split; [discriminate | lia]. Qed.

Lemma getTaskInfosByRanges_total E jobID ranges taskInfos :
  total E (getTaskInfosByRanges jobID ranges taskInfos).
Proof.
  revert taskInfos. induction ranges as [|r ranges IH]; intros taskInfos;
    cbn [getTaskInfosByRanges].
  - apply total_ret.
  - repeat total_step; auto with total.
Qed.

Lemma getTaskInfosByRangesFromDB_total E jobID ranges :
  total E (getTaskInfosByRangesFromDB jobID ranges).
Proof.
  unfold getTaskInfosByRangesFromDB. case_decide.
  - apply total_trigger.
  - apply getTaskInfosByRanges_total.
Qed.

Lemma enqueueTasks_total E jobID ids : total E (enqueueTasks jobID ids).
Proof. induction ids; cbn [enqueueTasks]; repeat total_step; auto with total. Qed.

Lemma Start_tasks_total E body cachedConfig taskInfos started failed :
  total E (Start_tasks GetDefaultTaskGoalState GetInitialHealthState
             body cachedConfig taskInfos started failed).
Proof.
  revert started failed.
  induction taskInfos as [|ti taskInfos IH]; intros started failed;
    cbn [Start_tasks].
  - apply total_ret.
  - repeat total_step; try apply IH.
    apply Start_taskRuntime_total; apply retryFuel_suffices.
Qed.

#[local] Hint Resolve getTaskInfosByRangesFromDB_total enqueueTasks_total
  Start_tasks_total : total.

Lemma Start_total E body : total E (Start' body).
Proof.
  unfold Start. repeat total_step; auto with total.
  apply Start_jobRuntime_total; apply retryFuel_suffices.
Qed.

Lemma stopJob_total E jobID instanceCount : total E (stopJob jobID instanceCount).
Proof.
  unfold stopJob. repeat total_step; auto with total.
  apply stopJob_loop_total; apply retryFuel_suffices.
Qed.

Lemma Stop_total E body : total E (Stop body).
Proof.
  unfold Stop. repeat total_step; auto using stopJob_total with total.
Qed.

Lemma Restart_total E req : total E (Restart req).
Proof.
  unfold Restart, getRuntimeDiffsForRestart.
  repeat total_step; auto with total.
Qed.

Lemma Refresh_total E req : total E (Refresh req).
Proof. unfold Refresh. repeat total_step; auto with total. Qed.

Lemma GetPodEvents_loop_total E rounds body podID res :
  total E (GetPodEvents_loop rounds body podID res).
Proof.
  revert podID res. induction rounds as [|rounds IH]; intros podID res;
    cbn [GetPodEvents_loop].
  - apply total_ret.
  - repeat total_step; auto with total.
Qed.

Lemma GetPodEvents_total E body : total E (GetPodEvents body).
Proof. apply GetPodEvents_loop_total. Qed.

Lemma getTaskInfosByRanges_ok E jobID ranges taskInfos w :
  lookupsSucceed E jobID →
  ensures E (getTaskInfosByRanges jobID ranges taskInfos) w
    (λ o, ∃ m, returned o = Ok m ∧ Forall (λ ev, isStoreRead ev = true) (trace o)).
Proof.
  intros [_ Hr]. revert taskInfos w.
  induction ranges as [|r ranges IH]; intros taskInfos w; cbn [getTaskInfosByRanges].
  - apply ensures_ret. eauto.
  - cbv zeta. apply ensures_trigger_bind.
    match goal with
    | |- context [answer E (GetTasksForJobByRange jobID ?r') w] =>
        destruct (Hr r' w) as [m ->]
    end.
    eapply ensures_mono; [apply IH|]. intros o (m' & Hm' & Htr).
    exists m'. split; [done|]. simpl. by constructor.
Qed.

Lemma getTaskInfosByRangesFromDB_ok E jobID ranges w :
  lookupsSucceed E jobID →
  ensures E (getTaskInfosByRangesFromDB jobID ranges) w
    (λ o, ∃ m, returned o = Ok m ∧ Forall (λ ev, isStoreRead ev = true) (trace o)).
Proof.
  intros Hl. unfold getTaskInfosByRangesFromDB. case_decide.
  - apply ensures_trigger. destruct (proj1 Hl w) as [m ->].
    exists m. split; [done|]. by repeat constructor.
  - by apply getTaskInfosByRanges_ok.
Qed.


Lemma stopsWholeJob_spec (taskRange : list InstanceRange) (instanceCount : N) :
  stopsWholeJob taskRange instanceCount = true
  ↔ taskRange = []
    ∨ ∃ r, taskRange = [r] ∧ From r = 0%N ∧ (instanceCount ≤ To r)%N.
Proof.
  unfold stopsWholeJob. destruct taskRange as [|r [|r' rest]].
  - split; [by left | done].
  - rewrite andb_true_iff, bool_decide_eq_true, N.leb_le. split.
    + intros [? ?]. right. by exists r.
    + intros [?|(r0 & [= <-] & ? & ?)]; done.
  - split; [done|]. by intros [?|(r0 & ? & _)].
Qed.

(** C5, as the handler has it: a Stop by the leader whose ranges are absent
    or are exactly one range with from = 0 and to >= instance_count, on a
    job whose goal state is not yet KILLED and whose compare-and-set is
    accepted, stops the job as a whole.  The one runtime write is a
    job-level CompareAndSetRuntime of the runtime read, with goal state
    KILLED and desired_state_version one higher (in uint64 arithmetic); the
    job is enqueued once; there is no per-task compare-and-set or patch;
    and StoppedInstanceIds holds all the instance ids. *)
Theorem stop_single_covering_range_stops_job
    (E : env) (w : world E) (body : StopRequest) (cachedConfig : JobConfig)
    (jobRuntime : JobRuntime) :
  let killed :=
    set_jr_GoalState
      (set_jr_DesiredStateVersion jobRuntime
         (uint64_add (jr_DesiredStateVersion jobRuntime) 1))
      JobState_KILLED in
  always E IsLeader true →
  always E (JobGetConfig (stop_JobId body)) (Ok cachedConfig) →
  always E (JobGetRuntime (stop_JobId body)) (Ok jobRuntime) →
  jr_GoalState jobRuntime ≠ JobState_KILLED →
  always E (JobCompareAndSetRuntime (stop_JobId body) killed) None →
  (stop_Ranges body = []
   ∨ ∃ r, stop_Ranges body = [r] ∧ From r = 0%N
          ∧ (jc_InstanceCount cachedConfig ≤ To r)%N) →
  ∃ o resp,
    run E (Stop body) w = Some o
    ∧ returned o = Ok resp
    ∧ stop_Error resp = None
    ∧ StoppedInstanceIds resp = instanceList (jc_InstanceCount cachedConfig)
    ∧ (∀ i, i ∈ StoppedInstanceIds resp ↔ (i < jc_InstanceCount cachedConfig)%N)
    ∧ trace o = [ Event IsLeader true;
                  Event (AddJob (stop_JobId body)) tt;
                  Event (JobGetConfig (stop_JobId body)) (Ok cachedConfig);
                  Event (AddJob (stop_JobId body)) tt;
                  Event (JobGetRuntime (stop_JobId body)) (Ok jobRuntime);
                  Event (JobCompareAndSetRuntime (stop_JobId body) killed) None;
                  Event (EnqueueJob (stop_JobId body)) tt ]
    ∧ jr_GoalState killed = JobState_KILLED
    ∧ jr_DesiredStateVersion killed
      = ((jr_DesiredStateVersion jobRuntime + 1) mod 2 ^ 64)%N
    ∧ countOf isJobCAS (trace o) = 1
    ∧ countOf isTaskCAS (trace o) = 0
    ∧ countOf isPatch (trace o) = 0
    ∧ countOf isEnqueue (trace o) = 1.
Proof.
  intros killed Hl Hc Hr Hk Hcas Hranges.
  apply stopsWholeJob_spec in Hranges.
  cut (ensures E (Stop body) w (λ o,
         returned o = Ok {| stop_Error := None;
                            StoppedInstanceIds := instanceList (jc_InstanceCount cachedConfig);
                            stop_InvalidInstanceIds := [] |}
         ∧ trace o = [ Event IsLeader true;
                       Event (AddJob (stop_JobId body)) tt;
                       Event (JobGetConfig (stop_JobId body)) (Ok cachedConfig);
                       Event (AddJob (stop_JobId body)) tt;
                       Event (JobGetRuntime (stop_JobId body)) (Ok jobRuntime);
                       Event (JobCompareAndSetRuntime (stop_JobId body) killed) None;
                       Event (EnqueueJob (stop_JobId body)) tt ])).
  { intros (o & Hrun & Hret & Htr). eexists o, _.
    split; [done|]. split; [done|]. rewrite Htr.
    repeat split; try reflexivity; simpl; by intros ?%elem_of_instanceList. }
  unfold Stop. apply ensures_trigger_bind. rewrite Hl. simpl negb. cbv iota.
  apply ensures_trigger_bind. destruct (answer E (AddJob (stop_JobId body)) _).
  apply ensures_trigger_bind. rewrite Hc. cbv zeta. rewrite Hranges.
  unfold stopJob. apply ensures_trigger_bind.
  destruct (answer E (AddJob (stop_JobId body)) _).
  apply ensures_bind. change retryFuel with 5%nat. cbn [stopJob_loop].
  unfold stopJob_round. apply ensures_trigger_bind. rewrite Hr.
  rewrite bool_decide_eq_false_2 by done. cbv zeta.
  apply ensures_trigger_bind. fold killed. rewrite Hcas.
  apply ensures_ret. simpl returned. cbv iota.
  apply ensures_trigger_bind.
  destruct (answer E (EnqueueJob (stop_JobId body)) _).
  apply ensures_ret. simpl. rewrite Hl, Hc, Hr, Hcas. by split.
Qed.

Lemma getTaskInfosByRanges_selected E jobID all byRange ranges taskInfos w :
  lookupsAnswer E jobID all byRange →
  ensures E (getTaskInfosByRanges jobID ranges taskInfos) w
    (λ o, returned o = Ok (mergeRanges byRange ranges taskInfos)
          ∧ trace o = (λ r, Event (GetTasksForJobByRange jobID (clampRange r))
                              (Ok (byRange (clampRange r)))) <$> ranges).
Proof.
  intros [_ Hr]. revert taskInfos w.
  induction ranges as [|r ranges IH]; intros taskInfos w; cbn [getTaskInfosByRanges].
  - by apply ensures_ret.
  - cbv zeta. fold (clampRange r). eapply ensures_ask; [apply Hr|].
    eapply ensures_mono; [apply IH|]. intros o [Hret Htr].
    split; [done|]. simpl. by rewrite Htr.
Qed.

Lemma getTaskInfosByRangesFromDB_selected E jobID all byRange ranges w :
  lookupsAnswer E jobID all byRange →
  ensures E (getTaskInfosByRangesFromDB jobID ranges) w
    (λ o, returned o = Ok (selectedTasks all byRange ranges)
          ∧ trace o = lookupTrace jobID all byRange ranges).
Proof.
  intros Hl. unfold getTaskInfosByRangesFromDB, selectedTasks, lookupTrace.
  case_decide.
  - apply ensures_trigger. by rewrite (proj1 Hl).
  - by eapply getTaskInfosByRanges_selected.
Qed.

Lemma enqueueTasks_trace E jobID ids w :
  ensures E (enqueueTasks jobID ids) w
    (λ o, returned o = tt ∧ trace o = enqueueTrace jobID ids).
Proof.
  revert w. induction ids as [|i ids IH]; intros w; cbn [enqueueTasks].
  - by apply ensures_ret.
  - eapply (ensures_ask _ _ _ _ tt); [by destruct (answer E _ w)|].
    eapply ensures_mono; [apply IH|]. intros o [Hret Htr].
    split; [done|]. simpl. by rewrite Htr.
Qed.

Lemma restartDiffs_lookup jobID (l : list (N * TaskInfo)) (acc : gmap N RuntimeDiff) j :
  NoDup l.*1 →
  Forall (λ kv, InstanceId kv.2 = kv.1) l →
  restartDiffs jobID l.*2 acc !! j
  = match (list_to_map l : gmap N TaskInfo) !! j with
    | Some taskInfo => Some (restartDiff jobID taskInfo)
    | None => acc !! j
    end.
Proof.
  revert acc. induction l as [|[k ti] l IH]; intros acc Hnd Hkey.
  - done.
  - apply NoDup_cons in Hnd as [Hk Hnd]. apply Forall_cons in Hkey as [Hti Hkey].
    simpl in Hti. cbn [fmap list_fmap restartDiffs snd list_to_map foldr fst uncurry].
    change (list_fmap _ _ snd l) with (l.*2).
    rewrite IH by done. rewrite Hti.
    change (foldr (λ '(i, x), <[i:=x]>) ∅ l) with (list_to_map l : gmap N TaskInfo).
    destruct (decide (j = k)) as [->|Hne].
    + rewrite lookup_insert_eq.
      rewrite (not_elem_of_list_to_map_1 _ _ Hk), lookup_insert_eq.
      unfold restartDiff, runID_or_zero. by rewrite Hti.
    + by rewrite !lookup_insert_ne.
Qed.

Lemma restartDiffs_fmap jobID (taskInfos : gmap N TaskInfo) :
  keyedByInstance taskInfos →
  restartDiffs jobID (range_values taskInfos) ∅ = restartDiff jobID <$> taskInfos.
Proof.
  intros Hkey. apply map_eq. intros j. unfold range_values.
  rewrite restartDiffs_lookup.
  - rewrite list_to_map_to_list, lookup_fmap, lookup_empty.
    by destruct (taskInfos !! j).
  - apply NoDup_fst_map_to_list.
  - apply Forall_forall. intros [k ti] Hin. simpl.
    apply elem_of_map_to_list in Hin. by apply Hkey.
Qed.

Lemma elem_of_range_keys {V} (m : gmap N V) i : i ∈ range_keys m ↔ is_Some (m !! i).
Proof.
  unfold range_keys. rewrite list_elem_of_fmap. split.
  - intros ([k v] & -> & Hin). apply elem_of_map_to_list in Hin. by exists v.
  - intros [v Hv]. exists (i, v). split; [done|]. by apply elem_of_map_to_list.
Qed.

Lemma NoDup_range_keys {V} (m : gmap N V) : NoDup (range_keys m).
Proof. apply NoDup_fst_map_to_list. Qed.

(** C6: Restart gives each selected task a RuntimeDiff that sets
    desired_mesos_task_id to (job, instance, run+1), the sum taken in
    uint64 arithmetic, where run is read from the task's current
    mesos_task_id by splitting on the last hyphen and is 0 when that does
    not parse; the diffs go to PatchTasks in one call, and afterwards each
    patched task is enqueued in the goal-state driver, once. *)
Theorem restart_bumps_desired_run
    (E : env) (w : world E) (req : RestartRequest)
    (all : gmap N TaskInfo) (byRange : InstanceRange → gmap N TaskInfo) :
  let jobID := restart_JobId req in
  let selected := selectedTasks all byRange (restart_Ranges req) in
  let diffs := restartDiff jobID <$> selected in
  always E IsLeader true →
  lookupsAnswer E jobID all byRange →
  keyedByInstance selected →
  always E (PatchTasks jobID diffs) None →
  (∃ o,
     run E (Restart req) w = Some o
     ∧ returned o = Ok MkRestartResponse
     ∧ trace o = [ Event IsLeader true; Event (AddJob jobID) tt ]
                 ++ lookupTrace jobID all byRange (restart_Ranges req)
                 ++ [ Event (PatchTasks jobID diffs) None ]
                 ++ enqueueTrace jobID (range_keys diffs))
  ∧ (∀ i taskInfo,
       selected !! i = Some taskInfo →
       diffs !! i
       = Some [ (DesiredMesosTaskIDField,
                 VTaskID (CreateMesosTaskID jobID i
                            (uint64_add
                               (runID_or_zero (MesosTaskId (Runtime taskInfo))) 1))) ])
  ∧ (∀ i, i ∈ range_keys diffs ↔ is_Some (selected !! i))
  ∧ NoDup (range_keys diffs)
  ∧ (∀ mesosTaskID e, ParseRunID mesosTaskID = Err e → runID_or_zero mesosTaskID = 0%N)
  ∧ (∀ job instance run,
       (run < MaxUint64)%N →
       uint64_add (runID_or_zero (CreateMesosTaskID job instance run)) 1 = (run + 1)%N).
Proof.
  intros jobID selected diffs Hl Hlookup Hkey Hpatch.
  split; [|split; [|split; [|split; [|split]]]].
  - cut (ensures E (Restart req) w (λ o,
           returned o = Ok MkRestartResponse
           ∧ trace o = [ Event IsLeader true; Event (AddJob jobID) tt ]
                       ++ lookupTrace jobID all byRange (restart_Ranges req)
                       ++ [ Event (PatchTasks jobID diffs) None ]
                       ++ enqueueTrace jobID (range_keys diffs))).
    { intros (o & ? & ? & ?). by exists o. }
    unfold Restart. eapply ensures_ask; [apply Hl|]. simpl negb. cbv iota.
    eapply (ensures_ask _ _ _ _ tt); [by destruct (answer E _ _)|].
    unfold getRuntimeDiffsForRestart. apply ensures_bind. apply ensures_bind.
    eapply ensures_mono; [by apply getTaskInfosByRangesFromDB_selected|].
    intros o1 [Hret1 Htr1]. rewrite Hret1. apply ensures_ret. simpl returned.
    fold jobID selected. rewrite restartDiffs_fmap by done. fold diffs.
    eapply ensures_ask; [apply Hpatch|].
    apply ensures_bind.
    eapply ensures_mono; [apply enqueueTasks_trace|]. intros o2 [Hret2 Htr2].
    apply ensures_ret. simpl. rewrite Htr1, Htr2, !app_nil_r. done.
  - intros i taskInfo Hi. unfold diffs. rewrite lookup_fmap, Hi. simpl.
    unfold restartDiff. by rewrite (Hkey _ _ Hi).
  - intros i. rewrite elem_of_range_keys. unfold diffs.
    by rewrite lookup_fmap, fmap_is_Some.
  - apply NoDup_range_keys.
  - intros mesosTaskID e He. unfold runID_or_zero. by rewrite He.
  - intros job instance run Hrun.
    rewrite runID_or_zero_CreateMesosTaskID by lia. by apply uint64_add_1.
Qed.

Lemma Start_jobRuntime_quietly E fuel body cachedConfig count :
  (MaxConcurrencyErrorRetry - count ≤ Z.of_nat fuel)%Z → (1 ≤ fuel)%nat →
  quietly E (Start_jobRuntime GetDefaultJobGoalState fuel body cachedConfig count)
    (λ x, ∀ resp, x = Return (Ok resp) → start_Error resp ≠ None).
Proof.
  revert count. induction fuel as [|fuel IH]; intros count Hfuel Hpos; [lia|].
  cbn [Start_jobRuntime]. unfold Start_jobRuntime_round.
  repeat quietly_step.
  retry_round IH.
Qed.

Lemma Start_taskRuntime_quietly E fuel body cachedConfig taskInfo count :
  (MaxConcurrencyErrorRetry - count ≤ Z.of_nat fuel)%Z → (1 ≤ fuel)%nat →
  quietly E (Start_taskRuntime GetDefaultTaskGoalState GetInitialHealthState
               fuel body cachedConfig taskInfo count) anything.
Proof.
  revert count. induction fuel as [|fuel IH]; intros count Hfuel Hpos; [lia|].
  cbn [Start_taskRuntime]. unfold Start_taskRuntime_round.
  repeat quietly_step.
  retry_round IH.
Qed.

Lemma getTaskInfosByRangesFromDB_quietly E jobID ranges :
  quietly E (getTaskInfosByRangesFromDB jobID ranges) anything.
Proof.
  unfold getTaskInfosByRangesFromDB. case_decide as Hlen; [quietly_step|].
  clear Hlen. generalize (∅ : gmap N TaskInfo).
  induction ranges as [|r ranges IH]; intros taskInfos; cbn [getTaskInfosByRanges];
    repeat quietly_step; apply IH.
Qed.

Lemma Start_tasks_quietly E body cachedConfig taskInfos started failed :
  quietly E (Start_tasks GetDefaultTaskGoalState GetInitialHealthState
               body cachedConfig taskInfos started failed) anything.
Proof.
  revert started failed.
  induction taskInfos as [|ti taskInfos IH]; intros started failed;
    cbn [Start_tasks].
  - by apply quietly_ret.
  - repeat quietly_step; try apply IH.
    apply Start_taskRuntime_quietly; apply retryFuel_suffices.
Qed.

(* The enqueues of a Start, whatever the collaborators answer: one
   EnqueueTask per started instance id, then the job; none when the
   response is an error. *)
Lemma Start_enqueues E w body :
  ensures E (Start' body) w
    (λ o, match returned o with
          | Ok {| start_Error := None; StartedInstanceIds := started |} =>
              enqueues (trace o)
              = enqueueTrace (start_JobId body) started
                ++ [ Event (EnqueueJobWithDefaultDelay (start_JobId body)) tt ]
          | _ => enqueues (trace o) = []
          end).
Proof.
  unfold Start. apply ensures_trigger_bind.
  destruct (answer E IsLeader w); simpl negb; cbv iota; [|by apply ensures_ret].
  apply ensures_trigger_bind. apply ensures_trigger_bind.
  destruct (answer E (JobGetConfig (start_JobId body)) _) as [cachedConfig|err];
    [|by apply ensures_ret].
  apply ensures_bind.
  eapply ensures_mono;
    [apply Start_jobRuntime_quietly; apply retryFuel_suffices|].
  intros o1 [Hq1 Hret1]. apply enqueues_quiet in Hq1.
  destruct (returned o1) as [resp|].
  { apply ensures_ret. simpl.
    rewrite app_nil_r.
    assert (enqueues (Event IsLeader true
                        :: Event (AddJob (start_JobId body))
                             (answer E (AddJob (start_JobId body)) (next E IsLeader w))
                        :: Event (JobGetConfig (start_JobId body)) (Ok cachedConfig)
                        :: trace o1) = []) as Hnone by exact Hq1.
    destruct resp as [[err sids iids]|]; [|done].
    destruct err; [done|]. by destruct (Hret1 _ eq_refl). }
  apply ensures_bind.
  eapply ensures_mono; [apply getTaskInfosByRangesFromDB_quietly|].
  intros o2 [Hq2 _]. apply enqueues_quiet in Hq2.
  destruct (returned o2) as [taskInfos|err].
  2:{ apply ensures_ret. simpl. rewrite app_nil_r.
      change (enqueues (trace o1 ++ trace o2) = []).
      by rewrite enqueues_app, Hq1, Hq2. }
  apply ensures_bind.
  eapply ensures_mono; [apply Start_tasks_quietly|].
  intros o3 [Hq3 _]. apply enqueues_quiet in Hq3.
  destruct (returned o3) as [started failed].
  apply ensures_bind.
  eapply ensures_mono; [apply enqueueTasks_trace|]. intros o4 [_ Htr4].
  apply ensures_trigger_bind. apply ensures_ret. simpl.
  change (enqueues (trace o1 ++ trace o2 ++ trace o3 ++ trace o4
                    ++ [Event (EnqueueJobWithDefaultDelay (start_JobId body))
                          (answer E (EnqueueJobWithDefaultDelay (start_JobId body))
                             (final o4))] ++ [])
          = enqueueTrace (start_JobId body) started
            ++ [Event (EnqueueJobWithDefaultDelay (start_JobId body)) ()]).
  rewrite !enqueues_app, Hq1, Hq2, Hq3, Htr4, enqueues_enqueueTrace. simpl.
  by destruct (answer E (EnqueueJobWithDefaultDelay (start_JobId body)) (final o4)).
Qed.

Abbreviation startedRuntime' :=
  (startedRuntime GetDefaultTaskGoalState GetInitialHealthState).
Abbreviation startTaskTrace' :=
  (startTaskTrace GetDefaultTaskGoalState GetInitialHealthState).
Abbreviation taskServed' E :=
  (taskServed E GetDefaultTaskGoalState GetInitialHealthState).

Lemma Start_taskRuntime_served E w body cachedConfig rtOf casOf taskInfo :
  taskServed' E (start_JobId body) cachedConfig rtOf casOf taskInfo →
  ensures E (Start_taskRuntime GetDefaultTaskGoalState GetInitialHealthState
               retryFuel body cachedConfig taskInfo 0) w
    (λ o, returned o = startOutcome rtOf casOf taskInfo
          ∧ [Event (JobAddTask (start_JobId body) (InstanceId taskInfo)) None]
            ++ trace o
            = startTaskTrace' (start_JobId body) cachedConfig taskInfo
                (rtOf (InstanceId taskInfo)) (casOf (InstanceId taskInfo))).
Proof.
  intros (_ & Hrt & Hcas & Hne).
  change retryFuel with 5%nat. cbn [Start_taskRuntime].
  unfold Start_taskRuntime_round, startOutcome, startTaskTrace.
  eapply ensures_ask; [apply Hrt|].
  destruct (decide (GoalState (rtOf (InstanceId taskInfo)) = TaskState_KILLED))
    as [Hk|Hk].
  - rewrite (bool_decide_eq_false_2 (_ ≠ _)) by (intros ?; done).
    rewrite (bool_decide_eq_true_2 (_ = _)) by done. cbv zeta.
    eapply ensures_ask; [apply Hcas|].
    rewrite (bool_decide_eq_false_2 (_ = Some UnexpectedVersionError)) by done.
    simpl andb. cbv iota.
    destruct (casOf (InstanceId taskInfo)); by apply ensures_ret.
  - rewrite (bool_decide_eq_true_2 (_ ≠ _)) by done.
    rewrite (bool_decide_eq_false_2 (_ = _)) by done.
    by apply ensures_ret.
Qed.

Lemma Start_tasks_served E w body cachedConfig rtOf casOf taskInfos started failed :
  Forall (taskServed' E (start_JobId body) cachedConfig rtOf casOf) taskInfos →
  ensures E (Start_tasks GetDefaultTaskGoalState GetInitialHealthState
               body cachedConfig taskInfos started failed) w
    (λ o, returned o = (started ++ idsWith TaskStarted rtOf casOf taskInfos,
                        failed ++ idsWith TaskFailed rtOf casOf taskInfos)
          ∧ trace o
            = concat ((λ taskInfo,
                         startTaskTrace' (start_JobId body) cachedConfig taskInfo
                           (rtOf (InstanceId taskInfo)) (casOf (InstanceId taskInfo)))
                      <$> taskInfos)).
Proof.
  intros Hserved. revert w started failed.
  induction Hserved as [|ti taskInfos Hti _ IH]; intros w started failed;
    cbn [Start_tasks].
  - apply ensures_ret. unfold idsWith. simpl. by rewrite !app_nil_r.
  - eapply ensures_ask; [apply Hti|]. cbv iota.
    apply ensures_bind.
    eapply ensures_mono; [by apply Start_taskRuntime_served|].
    intros o1 [Hret1 Htr1]. rewrite Hret1.
    assert (∀ o, idsWith o rtOf casOf (ti :: taskInfos)
                 = (if decide (startOutcome rtOf casOf ti = o)
                    then [InstanceId ti] else [])
                   ++ idsWith o rtOf casOf taskInfos) as Hids.
    { intros o. unfold idsWith. rewrite filter_cons. by case_decide. }
    destruct (startOutcome rtOf casOf ti) eqn:Hout;
      (eapply ensures_mono; [apply IH|]; intros o2 [Hret2 Htr2];
       split;
       [ simpl; rewrite Hret2, !Hids; repeat case_decide; try done;
         by rewrite <- ?app_assoc
       | cbn [fmap list_fmap concat]; rewrite <- Htr1;
         simpl; by rewrite Htr2, <- ?app_assoc ]).
Qed.

Lemma instance_ids_of_keyed (taskInfos : gmap N TaskInfo) :
  keyedByInstance taskInfos →
  InstanceId <$> range_values taskInfos = range_keys taskInfos.
Proof.
  intros Hkey. unfold range_values, range_keys.
  rewrite <- list_fmap_compose. apply list_fmap_ext.
  intros i [k ti] Hi. simpl. apply Hkey.
  apply elem_of_map_to_list, list_elem_of_lookup. by exists i.
Qed.

Lemma NoDup_idsWith o rtOf casOf (taskInfos : gmap N TaskInfo) :
  keyedByInstance taskInfos →
  NoDup (idsWith o rtOf casOf (range_values taskInfos)).
Proof.
  intros Hkey. unfold idsWith.
  eapply sublist_NoDup; [|apply fmap_sublist, sublist_filter].
  rewrite instance_ids_of_keyed by done. apply NoDup_range_keys.
Qed.

Lemma elem_of_idsWith o rtOf casOf taskInfos i :
  i ∈ idsWith o rtOf casOf taskInfos
  ↔ ∃ taskInfo, taskInfo ∈ taskInfos ∧ InstanceId taskInfo = i
                ∧ startOutcome rtOf casOf taskInfo = o.
Proof.
  unfold idsWith. rewrite list_elem_of_fmap. split.
  - intros (ti & -> & Hin). apply list_elem_of_filter in Hin as [? ?]. by exists ti.
  - intros (ti & Hin & <- & Hout). exists ti. split; [done|].
    by apply list_elem_of_filter.
Qed.

(** C4: in Start, with the job-level update accepted and the cache serving
    the selected tasks, a task whose goal state is not KILLED is skipped:
    no compare-and-set is made for it and it is in neither
    started_instance_ids nor invalid_instance_ids.  For a task whose goal
    state is KILLED the runtime written has the mesos task id of the next
    run (the run of the current id plus one, in uint64 arithmetic, so that
    J1-2-3 becomes J1-2-4), the default goal state of the job type, and is
    written by a compare-and-set; a rejection with UnexpectedVersionError
    below the retry bound leads to another round.  The tasks whose write
    was accepted are the started ones, each enqueued in the goal-state
    driver once, in one EnqueueTask call per started id, and after them
    the job is enqueued once with the default delay; these are the only
    enqueues of a Start that reports started and invalid ids, whatever the
    collaborators answer. *)
Theorem start_restarts_killed_tasks
    (E : env) (w : world E) (body : StartRequest) (cachedConfig : JobConfig)
    (jobRuntime : JobRuntime)
    (all : gmap N TaskInfo) (byRange : InstanceRange → gmap N TaskInfo)
    (rtOf : N → RuntimeInfo) (casOf : N → option error) :
  let jobID := start_JobId body in
  let pending :=
    set_jr_GoalState (set_jr_State jobRuntime JobState_PENDING)
      (GetDefaultJobGoalState (jc_Type cachedConfig)) in
  let selectedMap := selectedTasks all byRange (start_Ranges body) in
  let selected := range_values selectedMap in
  let started := idsWith TaskStarted rtOf casOf selected in
  let failed := idsWith TaskFailed rtOf casOf selected in
  always E IsLeader true →
  always E (JobGetConfig jobID) (Ok cachedConfig) →
  always E (JobGetRuntime jobID) (Ok jobRuntime) →
  bool_decide (jc_Type cachedConfig = BATCH)
    && IsPelotonJobStateTerminal (jr_State jobRuntime) = false →
  always E (JobCompareAndSetRuntime jobID pending) None →
  lookupsAnswer E jobID all byRange →
  Forall (taskServed' E jobID cachedConfig rtOf casOf) selected →
  (∃ o,
     run E (Start' body) w = Some o
     ∧ returned o = Ok {| start_Error := None;
                          StartedInstanceIds := started;
                          start_InvalidInstanceIds := failed |}
     ∧ trace o
       = [ Event IsLeader true;
           Event (AddJob jobID) tt;
           Event (JobGetConfig jobID) (Ok cachedConfig);
           Event (JobGetRuntime jobID) (Ok jobRuntime);
           Event (JobCompareAndSetRuntime jobID pending) None ]
         ++ lookupTrace jobID all byRange (start_Ranges body)
         ++ concat ((λ taskInfo,
                       startTaskTrace' jobID cachedConfig taskInfo
                         (rtOf (InstanceId taskInfo)) (casOf (InstanceId taskInfo)))
                    <$> selected)
         ++ enqueueTrace jobID started
         ++ [ Event (EnqueueJobWithDefaultDelay jobID) tt ])
  ∧ (∀ taskInfo,
       taskInfo ∈ selected →
       GoalState (rtOf (InstanceId taskInfo)) ≠ TaskState_KILLED →
       (InstanceId taskInfo ∉ started)
       ∧ (InstanceId taskInfo ∉ failed)
       ∧ countOf isTaskCAS
           (startTaskTrace' jobID cachedConfig taskInfo
              (rtOf (InstanceId taskInfo)) (casOf (InstanceId taskInfo))) = 0)
  ∧ (∀ taskInfo,
       taskInfo ∈ selected →
       GoalState (rtOf (InstanceId taskInfo)) = TaskState_KILLED →
       let written :=
         startedRuntime' jobID cachedConfig taskInfo (rtOf (InstanceId taskInfo)) in
       MesosTaskId written
       = CreateMesosTaskID jobID (InstanceId taskInfo)
           (uint64_add (runID_or_zero (MesosTaskId (rtOf (InstanceId taskInfo)))) 1)
       ∧ GoalState written = GetDefaultTaskGoalState (jc_Type cachedConfig)
       ∧ Event (TaskCompareAndSetRuntime jobID (InstanceId taskInfo) written
                  (jc_Type cachedConfig)) (casOf (InstanceId taskInfo))
         ∈ startTaskTrace' jobID cachedConfig taskInfo
             (rtOf (InstanceId taskInfo)) (casOf (InstanceId taskInfo))
       ∧ (casOf (InstanceId taskInfo) = None → InstanceId taskInfo ∈ started))
  ∧ (∀ job instance run,
       (run < MaxUint64)%N →
       uint64_add (runID_or_zero (CreateMesosTaskID job instance run)) 1 = (run + 1)%N)
  ∧ (keyedByInstance selectedMap → NoDup started)
  ∧ (∀ (continue : Z → prog taskStart) w' taskInfo taskRuntime count,
       answer E (TaskGetRuntime jobID (InstanceId taskInfo)) w' = Ok taskRuntime →
       GoalState taskRuntime = TaskState_KILLED →
       answer E (TaskCompareAndSetRuntime jobID (InstanceId taskInfo)
                   (startedRuntime' jobID cachedConfig taskInfo taskRuntime)
                   (jc_Type cachedConfig))
         (next E (TaskGetRuntime jobID (InstanceId taskInfo)) w')
       = Some UnexpectedVersionError →
       (count + 1 < MaxConcurrencyErrorRetry)%Z →
       run E (Start_taskRuntime_round GetDefaultTaskGoalState GetInitialHealthState
                continue body cachedConfig taskInfo count) w'
       = after [ Event (TaskGetRuntime jobID (InstanceId taskInfo)) (Ok taskRuntime);
                 Event (TaskCompareAndSetRuntime jobID (InstanceId taskInfo)
                          (startedRuntime' jobID cachedConfig taskInfo taskRuntime)
                          (jc_Type cachedConfig)) (Some UnexpectedVersionError) ]
           (run E (continue (count + 1)%Z)
              (next E (TaskCompareAndSetRuntime jobID (InstanceId taskInfo)
                         (startedRuntime' jobID cachedConfig taskInfo taskRuntime)
                         (jc_Type cachedConfig))
                 (next E (TaskGetRuntime jobID (InstanceId taskInfo)) w'))))
  ∧ (∀ (E' : env) (w' : world E') (body' : StartRequest),
       ∃ o,
         run E' (Start' body') w' = Some o
         ∧ match returned o with
           | Ok {| start_Error := None; StartedInstanceIds := startedIds |} =>
               enqueues (trace o)
               = enqueueTrace (start_JobId body') startedIds
                 ++ [ Event (EnqueueJobWithDefaultDelay (start_JobId body')) tt ]
           | _ => enqueues (trace o) = []
           end).
Proof.
  intros jobID pending selectedMap selected started failed
    Hl Hc Hr Hgate Hcas Hlookup Hserved.
  split; [|split; [|split; [|split; [|split; [|split]]]]].
  - cut (ensures E (Start' body) w (λ o,
           returned o = Ok {| start_Error := None;
                              StartedInstanceIds := started;
                              start_InvalidInstanceIds := failed |}
           ∧ trace o
             = [ Event IsLeader true;
                 Event (AddJob jobID) tt;
                 Event (JobGetConfig jobID) (Ok cachedConfig);
                 Event (JobGetRuntime jobID) (Ok jobRuntime);
                 Event (JobCompareAndSetRuntime jobID pending) None ]
               ++ lookupTrace jobID all byRange (start_Ranges body)
               ++ concat ((λ taskInfo,
                             startTaskTrace' jobID cachedConfig taskInfo
                               (rtOf (InstanceId taskInfo))
                               (casOf (InstanceId taskInfo)))
                          <$> selected)
               ++ enqueueTrace jobID started
               ++ [ Event (EnqueueJobWithDefaultDelay jobID) tt ])).
    { intros (o & ? & ? & ?). by exists o. }
    unfold Start. eapply ensures_ask; [apply Hl|]. simpl negb. cbv iota.
    eapply (ensures_ask _ _ _ _ tt); [by destruct (answer E _ _)|].
    eapply ensures_ask; [apply Hc|]. cbv iota.
    apply ensures_bind. change retryFuel with 5%nat. cbn [Start_jobRuntime].
    unfold Start_jobRuntime_round. eapply ensures_ask; [apply Hr|]. cbv iota.
    rewrite Hgate. cbv zeta. eapply ensures_ask; [apply Hcas|].
    simpl. apply ensures_ret. simpl returned. cbv iota.
    apply ensures_bind.
    eapply ensures_mono; [by apply getTaskInfosByRangesFromDB_selected|].
    intros o1 [Hret1 Htr1]. rewrite Hret1.
    apply ensures_bind.
    eapply ensures_mono; [by apply Start_tasks_served|].
    intros o2 [Hret2 Htr2]. rewrite Hret2. simpl.
    apply ensures_bind.
    eapply ensures_mono; [apply enqueueTasks_trace|]. intros o3 [Hret3 Htr3].
    eapply (ensures_ask _ _ _ _ tt); [by destruct (answer E _ _)|].
    apply ensures_ret. simpl. rewrite Htr1, Htr2, Htr3, ?app_nil_r.
    rewrite <- ?app_assoc. done.
  - intros taskInfo Hin Hgoal.
    assert (∀ o taskInfo', InstanceId taskInfo' = InstanceId taskInfo →
              startOutcome rtOf casOf taskInfo' = o → o = TaskSkipped) as Hskip.
    { intros o ti' Heq <-. unfold startOutcome. rewrite Heq.
      by rewrite bool_decide_eq_false_2. }
    repeat split.
    + intros (ti' & _ & Heq & Hout)%elem_of_idsWith.
      by specialize (Hskip _ _ Heq Hout).
    + intros (ti' & _ & Heq & Hout)%elem_of_idsWith.
      by specialize (Hskip _ _ Heq Hout).
    + unfold startTaskTrace. by rewrite bool_decide_eq_false_2.
  - intros taskInfo Hin Hgoal written. repeat split.
    + unfold startTaskTrace. rewrite bool_decide_eq_true_2 by done.
      do 2 apply list_elem_of_further. apply list_elem_of_here.
    + intros Hnone. apply elem_of_idsWith. exists taskInfo.
      repeat split; [done|]. unfold startOutcome.
      rewrite bool_decide_eq_true_2 by done. by rewrite Hnone.
  - intros job instance run Hrun.
    rewrite runID_or_zero_CreateMesosTaskID by lia. by apply uint64_add_1.
  - apply NoDup_idsWith.
  - intros continue w' taskInfo taskRuntime count Hrt Hgoal Hconflict Hcount.
    subst jobID.
    unfold Start_taskRuntime_round. rewrite run_trigger_bind, Hrt.
    rewrite (bool_decide_eq_false_2 (_ ≠ _)) by (intros ?; done). cbv zeta.
    fold (startedRuntime' (start_JobId body) cachedConfig taskInfo taskRuntime).
    rewrite run_trigger_bind, Hconflict.
    rewrite bool_decide_eq_true_2 by done.
    rewrite (proj2 (Z.ltb_lt _ _) Hcount). simpl andb. cbv iota.
    by rewrite after_after.
  - intros E' w' body'. apply Start_enqueues.
Qed.

Lemma convertRun_loop_spec podEvents run prevPodID :
  match convertRun_loop podEvents run prevPodID with
  | Ok (run', prevPodID') =>
      converts podEvents
      ∧ prevPodID' = match last podEvents with
                     | Some e => pe_PrevPodId e
                     | None => prevPodID
                     end
      ∧ ∃ evs, run' = run ++ evs
               ∧ ∀ prev, Forall2 (λ e t, toTaskPodEvent prev e = Some t) podEvents
                           ((λ event, event prev) <$> evs)
  | Err err =>
      ¬ converts podEvents ∧ ∃ msg, err = Wrapped (StoreError "strconv.ParseInt") msg
  end.
Proof.
  revert run prevPodID. induction podEvents as [|e podEvents IH]; intros run prevPodID.
  - simpl. split; [constructor|]. split; [done|]. exists []. split; [by rewrite app_nil_r|].
    intros prev. constructor.
  - cbn [convertRun_loop]. cbv zeta.
    destruct (ParseInt (pe_Version e)) as [jobVersion|] eqn:Hv.
    2: { split; [|by eexists]. intros Hc. apply Forall_cons in Hc as [[[? Hc] _] _].
         by rewrite Hv in Hc. }
    destruct (ParseInt (pe_DesiredVersion e)) as [desiredVersion|] eqn:Hd.
    2: { split; [|by eexists]. intros Hc. apply Forall_cons in Hc as [[_ [? Hc]] _].
         by rewrite Hd in Hc. }
    match goal with
    | |- match convertRun_loop _ (run ++ [?t]) ?p with _ => _ end =>
        specialize (IH (run ++ [t]) p);
        destruct (convertRun_loop podEvents (run ++ [t]) p) as [[run' prev']|err];
        [destruct IH as (Hc & Hprev & evs & -> & Hall); split; [|split];
         [| |exists (t :: evs); split; [by rewrite <- app_assoc|]]
        |destruct IH as [Hc Hmsg]; split; [|done]]
    end.
    + constructor; [|done]. rewrite Hv, Hd. by split; eexists.
    + rewrite Hprev, last_cons. by destruct (last podEvents).
    + intros prev. cbn [fmap list_fmap]. constructor; [|apply Hall].
      unfold toTaskPodEvent. by rewrite Hv, Hd.
    + intros Hc'. apply Forall_cons in Hc' as [_ Hc']. by apply Hc.
Qed.

Lemma convertRun_spec podEvents res :
  match convertRun podEvents res "" with
  | Ok (res', prevPodID) =>
      converts podEvents
      ∧ prevPodID = lastPrevPodID podEvents
      ∧ ∃ evs, res' = res ++ evs ∧ toTaskPodEvents podEvents evs
  | Err err =>
      ¬ converts podEvents ∧ ∃ msg, err = Wrapped (StoreError "strconv.ParseInt") msg
  end.
Proof.
  unfold convertRun. pose proof (convertRun_loop_spec podEvents [] "") as Hspec.
  destruct (convertRun_loop podEvents [] "") as [[run prevPodID]|err]; [|done].
  destruct Hspec as (Hc & Hprev & evs & -> & Hall). split; [done|].
  split; [done|]. eexists. split; [done|].
  unfold toTaskPodEvents. fold (lastPrevPodID podEvents) in Hprev. rewrite <- Hprev.
  apply Hall.
Qed.

Lemma convertRun_prev podEvents res res' prevPodID' :
  convertRun podEvents res "" = Ok (res', prevPodID') →
  prevPodID' = lastPrevPodID podEvents.
Proof.
  intros Hc. pose proof (convertRun_spec podEvents res) as Hspec.
  rewrite Hc in Hspec. by destruct Hspec as (_ & -> & _).
Qed.

Lemma string_length_0 (s : string) : String.length s = 0 ↔ s = "".
Proof. by destruct s. Qed.

Lemma GetPodEvents_loop_walk E rounds body podID res w :
  ensures E (GetPodEvents_loop rounds body podID res) w
    (λ o, Forall (λ ev, is_Some (fetched ev)) (trace o)
          ∧ (length (trace o) ≤ rounds)%nat
          ∧ ∀ i podEvents,
              fetched <$> trace o !! i = Some (Some (Ok podEvents)) →
              endsWalk podEvents →
              length (trace o) = S i).
Proof.
  revert podID res w. induction rounds as [|rounds IH]; intros podID res w;
    cbn [GetPodEvents_loop].
  - apply ensures_ret. simpl. repeat split; [constructor|lia|done].
  - apply ensures_trigger_bind.
    set (c := TaskStore_GetPodEvents (gpe_JobId body) (gpe_InstanceId body) podID).
    assert (∀ (r : outcome (result GetPodEventsResponse) (world E)),
              trace r = [] →
              (∀ podEvents, answer E c w = Ok podEvents → endsWalk podEvents → True) →
              Forall (λ ev, is_Some (fetched ev))
                (trace (prepend [Event c (answer E c w)] r))
              ∧ (length (trace (prepend [Event c (answer E c w)] r)) ≤ S rounds)%nat
              ∧ ∀ i podEvents,
                  fetched <$> trace (prepend [Event c (answer E c w)] r) !! i
                  = Some (Some (Ok podEvents)) →
                  endsWalk podEvents →
                  length (trace (prepend [Event c (answer E c w)] r)) = S i)
      as Hlast.
    { intros r Hr _. simpl. rewrite Hr. repeat split.
      - by repeat constructor.
      - simpl. lia.
      - intros [|i] podEvents Hi _; [done|]. by destruct i. }
    destruct (answer E c w) as [podEvents|err] eqn:Hanswer;
      [|apply ensures_ret; by apply Hlast].
    destruct (convertRun podEvents res "") as [[res' prevPodID]|err] eqn:Hconv;
      [|apply ensures_ret; by apply Hlast].
    apply convertRun_prev in Hconv.
    case_bool_decide as Hempty; [apply ensures_ret; by apply Hlast|].
    destruct (ParseRunID prevPodID) as [prevRunID|err] eqn:Hparse;
      [|apply ensures_ret; by apply Hlast].
    case_bool_decide as Hzero; [apply ensures_ret; by apply Hlast|].
    eapply ensures_mono; [apply IH|]. intros o (Hall & Hlen & Hend).
    simpl. repeat split.
    + constructor; [by eexists | done].
    + lia.
    + intros [|i] podEvents' Hi Hends.
      * simpl in Hi. injection Hi as <-. exfalso.
        destruct Hends as [Hends|Hends]; rewrite <- Hconv in Hends.
        -- apply Hempty. by rewrite Hends.
        -- rewrite Hparse in Hends. by injection Hends.
      * f_equal. by eapply Hend.
Qed.

Lemma nextPodID_cons podID podEvents runs :
  nextPodID podID (podEvents :: runs) = nextPodID (lastPrevPodID podEvents) runs.
Proof. unfold nextPodID. rewrite last_cons. by destruct (last runs). Qed.

Lemma length_walkTrace jobID inst podID runs :
  length (walkTrace jobID inst podID runs) = length runs.
Proof.
  revert podID. induction runs as [|podEvents runs IH]; intros podID; [done|].
  simpl. by rewrite IH.
Qed.

Lemma GetPodEvents_loop_chain E rounds body podID res w :
  (0 < rounds)%nat →
  ensures E (GetPodEvents_loop rounds body podID res) w
    (λ o, ∃ runs a,
        trace o = walkTrace (gpe_JobId body) (gpe_InstanceId body) podID runs
                  ++ [Event (TaskStore_GetPodEvents (gpe_JobId body) (gpe_InstanceId body)
                               (nextPodID podID runs)) a]
        ∧ Forall (λ podEvents, converts podEvents ∧ goesOn podEvents) runs
        ∧ walkEnd rounds (length runs) a (returned o)).
Proof.
  revert podID res w. induction rounds as [|rounds IH]; intros podID res w Hpos; [lia|].
  cbn [GetPodEvents_loop]. apply ensures_trigger_bind.
  set (c := TaskStore_GetPodEvents (gpe_JobId body) (gpe_InstanceId body) podID).
  assert (∀ (r : result GetPodEventsResponse) w',
            walkEnd (S rounds) 0 (answer E c w) r →
            ensures E (Ret r) w'
              (λ o, ∃ runs a,
                  trace (prepend [Event c (answer E c w)] o)
                  = walkTrace (gpe_JobId body) (gpe_InstanceId body) podID runs
                    ++ [Event (TaskStore_GetPodEvents (gpe_JobId body)
                                 (gpe_InstanceId body) (nextPodID podID runs)) a]
                  ∧ Forall (λ podEvents, converts podEvents ∧ goesOn podEvents) runs
                  ∧ walkEnd (S rounds) (length runs) a
                      (returned (prepend [Event c (answer E c w)] o)))) as Hlast.
  { intros r w' Hend. apply ensures_ret. exists [], (answer E c w). by repeat split. }
  destruct (answer E c w) as [podEvents|err] eqn:Hanswer; [|by apply Hlast].
  pose proof (convertRun_spec podEvents res) as Hspec.
  destruct (convertRun podEvents res "") as [[res' prevPodID]|err];
    [|apply Hlast; left; destruct Hspec as [? [msg ->]]; split; [done|by eexists]].
  destruct Hspec as (Hconv & -> & _).
  case_bool_decide as Hempty.
  { apply Hlast. right. left. split; [done|]. split; [|by eexists].
    left. by apply string_length_0. }
  assert (lastPrevPodID podEvents ≠ "") as Hne by (by intros ?%string_length_0).
  destruct (ParseRunID (lastPrevPodID podEvents)) as [prevRunID|err] eqn:Hparse.
  2: { apply Hlast. right. right. left. split; [done|]. split; [done|]. by eexists. }
  case_bool_decide as Hzero.
  { apply Hlast. right. left. split; [done|]. split; [|by eexists].
    right. by rewrite Hparse, Hzero. }
  assert (goesOn podEvents) as Hgoes by (split; [done|by eexists]).
  destruct rounds as [|rounds].
  { cbn [GetPodEvents_loop]. apply Hlast. do 3 right. split; [done|].
    split; [done|]. split; [done|]. by eexists. }
  eapply ensures_mono; [apply IH; lia|]. intros o (runs & a & Htr & Hall & Hend).
  exists (podEvents :: runs), a. split; [|split].
  - simpl. by rewrite Htr, nextPodID_cons.
  - by constructor.
  - simpl. destruct a as [podEvents'|err]; [|done].
    destruct Hend as [?|[?|[?|(? & ? & Hlen & ?)]]]; [by left|by right; left|
      by right; right; left|].
    do 3 right. split; [done|]. split; [done|]. split; [|done]. simpl in Hlen. lia.
Qed.

(** C7: GetPodEvents walks the pod-event chain backwards, one store fetch
    per run, for at most Limit runs, where Limit is 1 when the request
    names a run id, else the request's limit, else 10 when that limit is
    0.  The walk always ends, and its calls are these: a first fetch for
    the run id of the request, then for each run fetched, as long as its
    versions parse and the prev pod id of its last event is not empty and
    decodes to a run other than 0, a fetch for that prev pod id.  After
    the last fetch the handler returns: the error of the store, of a
    version or of a prev pod id that does not parse; or the events, when
    the prev pod id of the last event fetched is empty or decodes to run
    0, or when Limit runs are fetched.  So a fetch is made, there are at
    most Limit of them, and a fetch whose last event has a prev_pod_id
    that is empty or decodes to run 0 is the last one. *)
Theorem GetPodEvents_walks_at_most_limit_runs
    (E : env) (w : world E) (body : GetPodEventsRequest) :
  podEventsLimit body
  = (if decide (gpe_RunId body ≠ "") then 1
     else if decide (gpe_Limit body = 0) then 10
     else gpe_Limit body)%N
  ∧ ∃ o runs a,
      run E (GetPodEvents body) w = Some o
      ∧ trace o
        = walkTrace (gpe_JobId body) (gpe_InstanceId body) (gpe_RunId body) runs
          ++ [Event (TaskStore_GetPodEvents (gpe_JobId body) (gpe_InstanceId body)
                       (nextPodID (gpe_RunId body) runs)) a]
      ∧ Forall (λ podEvents, converts podEvents ∧ goesOn podEvents) runs
      ∧ walkEnd (N.to_nat (podEventsLimit body)) (length runs) a (returned o)
      ∧ Forall (λ ev, is_Some (fetched ev)) (trace o)
      ∧ (N.of_nat (length (trace o)) ≤ podEventsLimit body)%N
      ∧ ∀ i podEvents,
          fetched <$> trace o !! i = Some (Some (Ok podEvents)) →
          endsWalk podEvents →
          length (trace o) = S i.
Proof.
  assert (podEventsLimit body
          = (if decide (gpe_RunId body ≠ "") then 1
             else if decide (gpe_Limit body = 0) then 10
             else gpe_Limit body)%N) as Hlimit.
  { unfold podEventsLimit.
    destruct (decide (gpe_RunId body ≠ "")) as [Hrun|Hrun].
    + rewrite (bool_decide_eq_true_2 (String.length (gpe_RunId body) ≠ 0))
        by (by intros ?%string_length_0).
      done.
    + rewrite (bool_decide_eq_false_2 (String.length (gpe_RunId body) ≠ 0))
        by (intros Hlen; apply Hlen, string_length_0;
            by destruct (decide (gpe_RunId body = ""))).
      by case_bool_decide; case_decide. }
  split; [done|].
  assert (0 < N.to_nat (podEventsLimit body))%nat as Hpos.
  { rewrite Hlimit. repeat case_decide; lia. }
  unfold GetPodEvents. cbv zeta.
  destruct (GetPodEvents_loop_chain E (N.to_nat (podEventsLimit body)) body
              (gpe_RunId body) [] w Hpos) as (o & Hrun & runs & a & Htr & Hruns & Hend).
  destruct (GetPodEvents_loop_walk E (N.to_nat (podEventsLimit body)) body
              (gpe_RunId body) [] w) as (o' & Hrun' & Hall & Hlen & Hlast).
  rewrite Hrun in Hrun'. injection Hrun' as <-.
  exists o, runs, a. repeat split; [done|done|done|done|done|lia|done].
Qed.

Lemma countOf_app f (tr1 tr2 : list event) :
  countOf f (tr1 ++ tr2) = countOf f tr1 + countOf f tr2.
Proof. unfold countOf. by rewrite filter_app, length_app. Qed.

Lemma countOf_conflictRounds jobID jobRuntime written n :
  countOf isJobCAS (concat (replicate n (conflictRound jobID jobRuntime written))) = n.
Proof.
  induction n as [|n IH]; [done|].
  cbn [replicate concat]. rewrite countOf_app, IH. done.
Qed.

Lemma Start_jobRuntime_conflicts E fuel body cachedConfig jobRuntime count w :
  let written :=
    set_jr_GoalState (set_jr_State jobRuntime JobState_PENDING)
      (GetDefaultJobGoalState (jc_Type cachedConfig)) in
  always E (JobGetRuntime (start_JobId body)) (Ok jobRuntime) →
  bool_decide (jc_Type cachedConfig = BATCH)
    && IsPelotonJobStateTerminal (jr_State jobRuntime) = false →
  always E (JobCompareAndSetRuntime (start_JobId body) written)
    (Some UnexpectedVersionError) →
  (count < MaxConcurrencyErrorRetry)%Z →
  (MaxConcurrencyErrorRetry - count ≤ Z.of_nat fuel)%Z →
  ensures E (Start_jobRuntime GetDefaultJobGoalState fuel body cachedConfig count) w
    (λ o, returned o
          = Return (Ok {| start_Error := Some (StartError_Failure
                            ("task start failed while updating job status "
                             +:+ Error_ UnexpectedVersionError));
                          StartedInstanceIds := [];
                          start_InvalidInstanceIds := [] |})
          ∧ trace o
            = concat (replicate (Z.to_nat (MaxConcurrencyErrorRetry - count))
                        (conflictRound (start_JobId body) jobRuntime written))).
Proof.
  intros written Hr Hgate Hcas. revert count w.
  induction fuel as [|fuel IH]; intros count w Hcount Hfuel; [lia|].
  cbn [Start_jobRuntime]. unfold Start_jobRuntime_round.
  eapply ensures_ask; [apply Hr|]. cbv iota. rewrite Hgate. cbv zeta.
  eapply ensures_ask; [apply Hcas|].
  rewrite bool_decide_eq_true_2 by done. simpl andb.
  replace (Z.to_nat (MaxConcurrencyErrorRetry - count))
    with (S (Z.to_nat (MaxConcurrencyErrorRetry - (count + 1)))) by lia.
  destruct (Z.ltb_spec (count + 1) MaxConcurrencyErrorRetry) as [Hlt|Hge].
  - eapply ensures_mono; [apply IH; lia|]. intros o [Hret Htr].
    split; [done|]. simpl. by rewrite Htr.
  - apply ensures_ret. split; [done|].
    replace (Z.to_nat (MaxConcurrencyErrorRetry - (count + 1))) with 0%nat by lia.
    done.
Qed.

Lemma stopJob_loop_conflicts E fuel jobID instanceCount jobRuntime count w :
  let written :=
    set_jr_GoalState
      (set_jr_DesiredStateVersion jobRuntime
         (uint64_add (jr_DesiredStateVersion jobRuntime) 1))
      JobState_KILLED in
  always E (JobGetRuntime jobID) (Ok jobRuntime) →
  jr_GoalState jobRuntime ≠ JobState_KILLED →
  always E (JobCompareAndSetRuntime jobID written) (Some UnexpectedVersionError) →
  (count < MaxConcurrencyErrorRetry)%Z →
  (MaxConcurrencyErrorRetry - count ≤ Z.of_nat fuel)%Z →
  ensures E (stopJob_loop fuel jobID instanceCount count) w
    (λ o, returned o
          = Return (Ok {| stop_Error := Some (StopError_UpdateError
                            ("Job state update failed for "
                             +:+ Error_ UnexpectedVersionError));
                          StoppedInstanceIds := [];
                          stop_InvalidInstanceIds := instanceList instanceCount |})
          ∧ trace o
            = concat (replicate (Z.to_nat (MaxConcurrencyErrorRetry - count))
                        (conflictRound jobID jobRuntime written))).
Proof.
  intros written Hr Hk Hcas. revert count w.
  induction fuel as [|fuel IH]; intros count w Hcount Hfuel; [lia|].
  cbn [stopJob_loop]. unfold stopJob_round.
  eapply ensures_ask; [apply Hr|]. cbv iota.
  rewrite bool_decide_eq_false_2 by done. cbv zeta.
  eapply ensures_ask; [apply Hcas|]. cbv iota.
  rewrite bool_decide_eq_true_2 by done. simpl andb.
  replace (Z.to_nat (MaxConcurrencyErrorRetry - count))
    with (S (Z.to_nat (MaxConcurrencyErrorRetry - (count + 1)))) by lia.
  destruct (Z.ltb_spec (count + 1) MaxConcurrencyErrorRetry) as [Hlt|Hge].
  - eapply ensures_mono; [apply IH; lia|]. intros o [Hret Htr].
    split; [done|]. simpl. by rewrite Htr.
  - apply ensures_ret. split; [done|].
    replace (Z.to_nat (MaxConcurrencyErrorRetry - (count + 1))) with 0%nat by lia.
    done.
Qed.

(** C1, as the handler has it: when the store rejects every job-level
    CompareAndSetRuntime of a Start, or of a Stop of the whole job, with
    UnexpectedVersionError, the read-modify-write cycle is made
    MaxConcurrencyErrorRetry (5) times in all, the first attempt and four
    retries; there is no sixth attempt, and the failure of the fifth is
    what the response carries, as Failure for Start and as UpdateError,
    with all the instance ids invalid, for Stop. *)
Theorem retry_gives_up_at_fifth_conflict
    (E : env) (w : world E) (start : StartRequest) (stop : StopRequest)
    (cachedConfig : JobConfig) (jobRuntime : JobRuntime) :
  let jobID := start_JobId start in
  let pending :=
    set_jr_GoalState (set_jr_State jobRuntime JobState_PENDING)
      (GetDefaultJobGoalState (jc_Type cachedConfig)) in
  let killed :=
    set_jr_GoalState
      (set_jr_DesiredStateVersion jobRuntime
         (uint64_add (jr_DesiredStateVersion jobRuntime) 1))
      JobState_KILLED in
  stop_JobId stop = jobID →
  stop_Ranges stop = [] →
  always E IsLeader true →
  always E (JobGetConfig jobID) (Ok cachedConfig) →
  always E (JobGetRuntime jobID) (Ok jobRuntime) →
  bool_decide (jc_Type cachedConfig = BATCH)
    && IsPelotonJobStateTerminal (jr_State jobRuntime) = false →
  jr_GoalState jobRuntime ≠ JobState_KILLED →
  (∀ written, always E (JobCompareAndSetRuntime jobID written)
                (Some UnexpectedVersionError)) →
  (∃ o resp msg,
     run E (Start' start) w = Some o
     ∧ returned o = Ok resp
     ∧ start_Error resp = Some (StartError_Failure msg)
     ∧ trace o = [ Event IsLeader true;
                   Event (AddJob jobID) tt;
                   Event (JobGetConfig jobID) (Ok cachedConfig) ]
                 ++ concat (replicate 5 (conflictRound jobID jobRuntime pending))
     ∧ countOf isJobCAS (trace o) = 5)
  ∧ (∃ o resp msg,
       run E (Stop stop) w = Some o
       ∧ returned o = Ok resp
       ∧ stop_Error resp = Some (StopError_UpdateError msg)
       ∧ stop_InvalidInstanceIds resp = instanceList (jc_InstanceCount cachedConfig)
       ∧ trace o = [ Event IsLeader true;
                     Event (AddJob jobID) tt;
                     Event (JobGetConfig jobID) (Ok cachedConfig);
                     Event (AddJob jobID) tt ]
                   ++ concat (replicate 5 (conflictRound jobID jobRuntime killed))
       ∧ countOf isJobCAS (trace o) = 5)
  ∧ Z.to_nat MaxConcurrencyErrorRetry = 5.
Proof.
  intros jobID pending killed Hid Hranges Hl Hc Hr Hgate Hk Hcas.
  split; [|split; [|done]].
  - cut (ensures E (Start' start) w (λ o,
           returned o
           = Ok {| start_Error := Some (StartError_Failure
                     ("task start failed while updating job status "
                      +:+ Error_ UnexpectedVersionError));
                   StartedInstanceIds := [];
                   start_InvalidInstanceIds := [] |}
           ∧ trace o = [ Event IsLeader true;
                         Event (AddJob jobID) tt;
                         Event (JobGetConfig jobID) (Ok cachedConfig) ]
                       ++ concat (replicate 5 (conflictRound jobID jobRuntime pending)))).
    { intros (o & Hrun & Hret & Htr). eexists o, _, _.
      split; [done|]. split; [done|]. split; [done|]. split; [done|].
      rewrite Htr, countOf_app, countOf_conflictRounds. done. }
    unfold Start. eapply ensures_ask; [apply Hl|]. simpl negb. cbv iota.
    eapply (ensures_ask _ _ _ _ tt); [by destruct (answer E _ _)|].
    eapply ensures_ask; [apply Hc|]. cbv iota.
    apply ensures_bind.
    eapply ensures_mono.
    { apply (Start_jobRuntime_conflicts E retryFuel start cachedConfig jobRuntime 0);
        [done|done|apply Hcas|done|apply retryFuel_suffices]. }
    intros o1 [Hret1 Htr1]. rewrite Hret1. apply ensures_ret.
    simpl. rewrite Htr1, app_nil_r. done.
  - cut (ensures E (Stop stop) w (λ o,
           returned o
           = Ok {| stop_Error := Some (StopError_UpdateError
                     ("Job state update failed for "
                      +:+ Error_ UnexpectedVersionError));
                   StoppedInstanceIds := [];
                   stop_InvalidInstanceIds :=
                     instanceList (jc_InstanceCount cachedConfig) |}
           ∧ trace o = [ Event IsLeader true;
                         Event (AddJob jobID) tt;
                         Event (JobGetConfig jobID) (Ok cachedConfig);
                         Event (AddJob jobID) tt ]
                       ++ concat (replicate 5 (conflictRound jobID jobRuntime killed)))).
    { intros (o & Hrun & Hret & Htr). eexists o, _, _.
      split; [done|]. split; [done|]. split; [done|]. split; [done|]. split; [done|].
      rewrite Htr, countOf_app, countOf_conflictRounds. done. }
    unfold Stop. rewrite Hid, Hranges.
    eapply ensures_ask; [apply Hl|]. simpl negb. cbv iota.
    eapply (ensures_ask _ _ _ _ tt); [by destruct (answer E _ _)|].
    eapply ensures_ask; [apply Hc|]. cbv iota zeta. simpl stopsWholeJob. cbv iota.
    unfold stopJob.
    eapply (ensures_ask _ _ _ _ tt); [by destruct (answer E _ _)|].
    apply ensures_bind.
    eapply ensures_mono.
    { apply (stopJob_loop_conflicts E retryFuel jobID _ jobRuntime 0);
        [done|done|apply Hcas|done|apply retryFuel_suffices]. }
    intros o1 [Hret1 Htr1]. rewrite Hret1. apply ensures_ret.
    simpl. rewrite Htr1, app_nil_r. done.
Qed.

End HandlerFacts.

(* --------------------------------------------------------------------- *)
(* Runs against the stub environments                                     *)
(* --------------------------------------------------------------------- *)

Import Stub.

Abbreviation StartS := (Start defaultJobGoalState defaultTaskGoalState initialHealthState).

(* --------------------------------------------------------------------- *)
(* Watch processor                                                        *)
(* --------------------------------------------------------------------- *)

Section WatchProcessorFacts.

Import WatchProcessor.

Lemma notifyClient_room pod watchID p c :
  clients p !! watchID = Some c →
  (length (Input c) < BufferSize (config p))%nat →
  notifyClient pod watchID p
  = Some {| config := config p;
            clients := <[watchID := queued pod c]> (clients p);
            taskClients := taskClients p;
            nextID := nextID p |}.
Proof.
  intros Hc Hroom. unfold notifyClient. rewrite Hc.
  by rewrite bool_decide_eq_true_2.
Qed.

Lemma notifyClient_full pod watchID p c :
  clients p !! watchID = Some c →
  watchID ∈ taskClients p →
  Signal c = None →
  ¬ (length (Input c) < BufferSize (config p))%nat →
  notifyClient pod watchID p
  = Some {| config := config p;
            clients := <[watchID := overflowed c]> (clients p);
            taskClients := taskClients p ∖ {[watchID]};
            nextID := nextID p |}.
Proof.
  intros Hc Hreg Hsig Hfull. unfold notifyClient. rewrite Hc.
  rewrite bool_decide_eq_false_2 by done.
  unfold stopTaskClient. rewrite bool_decide_eq_true_2 by done.
  rewrite Hc. unfold sendSignal. rewrite Hsig. done.
Qed.

Lemma elem_of_remove_other (s : gset string) (a watchID : string) :
  watchID ≠ a → watchID ∈ s ∖ {[a]} ↔ watchID ∈ s.
Proof. intros Hne. rewrite elem_of_difference, elem_of_singleton. tauto. Qed.

Lemma not_elem_of_remove (s : gset string) (a : string) : a ∉ s ∖ {[a]}.
Proof. rewrite elem_of_difference, elem_of_singleton. tauto. Qed.

Lemma notifyList_spec pod ids p :
  NoDup ids →
  (∀ watchID, watchID ∈ ids → watchID ∈ taskClients p) →
  wf p →
  ∃ p',
    notifyList pod ids p = Some p'
    ∧ config p' = config p
    ∧ (∀ watchID, watchID ∉ ids →
         clients p' !! watchID = clients p !! watchID
         ∧ (watchID ∈ taskClients p' ↔ watchID ∈ taskClients p))
    ∧ (∀ watchID c, watchID ∈ ids → clients p !! watchID = Some c →
         notified pod p p' watchID c).
Proof.
  intros Hnd Hreg Hwf. induction Hnd as [|a ids Ha Hnd IH].
  - exists p. repeat split; try done. intros ? ? Hin. by apply elem_of_nil in Hin.
  - destruct IH as (p1 & Hrun & Hcfg & Hout & Hin).
    { intros id Hid. apply Hreg. by right. }
    destruct (Hwf a) as (c & Hc & Hsig & Hlen); [apply Hreg; by left|].
    destruct (Hout a Ha) as [Hc1 Hreg1].
    assert (a ∈ taskClients p1) as Hareg by (apply Hreg1, Hreg; by left).
    rewrite <- Hc1 in Hc.
    cbn [notifyList foldr]. fold (notifyList pod ids p). rewrite Hrun.
    cbn [mbind option_bind].
    destruct (decide (length (Input c) < BufferSize (config p1))%nat) as [Hroom|Hfull].
    + rewrite (notifyClient_room _ _ _ _ Hc Hroom).
      eexists. split; [done|]. cbn [config clients taskClients].
      split; [done|]. split.
      * intros id Hid. apply not_elem_of_cons in Hid as [Hne Hid].
        rewrite lookup_insert_ne by done. by apply Hout.
      * intros id c' Hid Hc'. unfold notified. cbn [clients taskClients config].
        apply elem_of_cons in Hid as [->|Hid].
        -- rewrite Hc1 in Hc. rewrite Hc in Hc'. injection Hc' as <-.
           rewrite <- Hcfg. rewrite decide_True by done.
           rewrite lookup_insert_eq. done.
        -- assert (id ≠ a) as Hne by (intros ->; done).
           rewrite lookup_insert_ne by done.
           by apply Hin.
    + rewrite (notifyClient_full _ _ _ _ Hc Hareg Hsig Hfull).
      eexists. split; [done|]. cbn [config clients taskClients].
      split; [done|]. split.
      * intros id Hid. apply not_elem_of_cons in Hid as [Hne Hid].
        rewrite lookup_insert_ne by done.
        destruct (Hout id Hid) as [? Hiff]. split; [done|].
        by rewrite elem_of_remove_other.
      * intros id c' Hid Hc'. unfold notified. cbn [clients taskClients config].
        apply elem_of_cons in Hid as [->|Hid].
        -- rewrite Hc1 in Hc. rewrite Hc in Hc'. injection Hc' as <-.
           rewrite <- Hcfg. rewrite decide_False by done.
           rewrite lookup_insert_eq. split; [done|].
           apply not_elem_of_remove.
        -- assert (id ≠ a) as Hne by (intros ->; done).
           rewrite lookup_insert_ne by done.
           specialize (Hin id c' Hid Hc'). unfold notified in Hin.
           case_decide; destruct Hin as [? ?]; (split; [done|]);
             by rewrite elem_of_remove_other.
Qed.

Lemma NotifyTaskChange_spec pod p :
  wf p →
  ∃ p',
    NotifyTaskChange pod p = Some p'
    ∧ config p' = config p
    ∧ wf p'
    ∧ (∀ watchID c, watchID ∈ taskClients p → clients p !! watchID = Some c →
         notified pod p p' watchID c).
Proof.
  intros Hwf.
  destruct (notifyList_spec pod (elements (taskClients p)) p)
    as (p' & Hrun & Hcfg & Hout & Hin); [apply NoDup_elements| |done|].
  { intros id Hid. by apply elem_of_elements in Hid. }
  exists p'. split; [done|]. split; [done|]. split.
  - intros id Hid.
    destruct (decide (id ∈ taskClients p)) as [Hreg|Hreg].
    + destruct (Hwf id Hreg) as (c & Hc & Hsig & Hlen).
      assert (id ∈ elements (taskClients p)) as Hel by by apply elem_of_elements.
      specialize (Hin id c Hel Hc). unfold notified in Hin.
      case_decide as Hroom; destruct Hin as [Hc' Hreg']; [|done].
      exists (queued pod c). split; [done|]. split; [done|].
      simpl. rewrite length_app, Hcfg. simpl. lia.
    + assert (id ∉ elements (taskClients p)) as Hel
        by by rewrite elem_of_elements.
      apply Hout in Hel as [_ Hiff]. by apply Hiff in Hid.
  - intros id c Hid Hc. apply Hin; [by apply elem_of_elements | done].
Qed.

Lemma notifyEach_queues pods p watchID c :
  wf p →
  watchID ∈ taskClients p →
  clients p !! watchID = Some c →
  (length (Input c) + length pods ≤ BufferSize (config p))%nat →
  ∃ p',
    notifyEach pods p = Some p'
    ∧ wf p'
    ∧ config p' = config p
    ∧ watchID ∈ taskClients p'
    ∧ clients p' !! watchID
      = Some {| Input := Input c ++ pods; InputClosed := InputClosed c;
                Signal := Signal c |}.
Proof.
  revert p c. induction pods as [|pod pods IH]; intros p c Hwf Hreg Hc Hlen.
  - exists p. repeat split; try done. rewrite app_nil_r. by destruct c.
  - simpl in Hlen.
    destruct (NotifyTaskChange_spec pod p Hwf) as (p1 & Hrun & Hcfg & Hwf1 & Hin).
    specialize (Hin watchID c Hreg Hc). unfold notified in Hin.
    rewrite decide_True in Hin by lia. destruct Hin as [Hc1 Hreg1].
    destruct (IH p1 (queued pod c) Hwf1 Hreg1 Hc1) as (p2 & Hrun2 & ? & ? & ? & Hc2).
    { simpl. rewrite length_app, Hcfg. simpl. lia. }
    exists p2. cbn [notifyEach]. rewrite Hrun. cbn [mbind option_bind].
    repeat split; try done; [congruence|].
    rewrite Hc2. simpl. by rewrite <- app_assoc.
Qed.

Lemma NewTaskClient_wf p watchID c p1 :
  wf p →
  NewTaskClient p = (Ok (watchID, c), p1) →
  wf p1 ∧ config p1 = config p ∧ watchID ∈ taskClients p1
  ∧ clients p1 !! watchID = Some c
  ∧ c = {| Input := []; InputClosed := false; Signal := None |}.
Proof.
  intros Hwf Hnew. unfold NewTaskClient in Hnew.
  case_bool_decide; [done|]. injection Hnew as <- <- <-.
  repeat split; cbn [config clients taskClients].
  - intros id Hid. cbn [config clients taskClients] in *.
    destruct (decide (id = pretty (nextID p))) as [->|Hne].
    + rewrite lookup_insert_eq. eexists. repeat split. simpl. lia.
    + rewrite lookup_insert_ne by done. apply Hwf.
      apply elem_of_union in Hid as [Hid|Hid]; [|done].
      by apply elem_of_singleton in Hid.
  - apply elem_of_union_l. by apply elem_of_singleton.
  - by rewrite lookup_insert_eq.
Qed.

(** C8: for a task watch client registered with queue depth BufferSize
    and no consumer taking events off the queue, BufferSize
    NotifyTaskChange calls all complete and leave the signal slot empty
    (a receiver still has StopSignalUnknown) with the client registered;
    the next NotifyTaskChange completes as well, puts StopSignalOverflow
    on the client's signal channel and removes the client from the
    registry, so that stopping it afterwards gives NotFound. *)
Theorem task_client_overflows_after_buffer_size
    (p p1 : watchProcessor) (watchID : string) (c : TaskClient)
    (pods : list PodSummary) (pod : PodSummary) :
  wf p →
  NewTaskClient p = (Ok (watchID, c), p1) →
  length pods = BufferSize (config p) →
  ∃ p2 c2,
    notifyEach pods p1 = Some p2
    ∧ clients p2 !! watchID = Some c2
    ∧ Input c2 = pods
    ∧ Signal c2 = None
    ∧ receivedSignal c2 = StopSignalUnknown
    ∧ watchID ∈ taskClients p2
    ∧ ∃ p3 c3,
        NotifyTaskChange pod p2 = Some p3
        ∧ clients p3 !! watchID = Some c3
        ∧ Signal c3 = Some StopSignalOverflow
        ∧ receivedSignal c3 = StopSignalOverflow
        ∧ (watchID ∉ taskClients p3)
        ∧ ∃ e, StopTaskClient watchID p3 = Some (Some e, p3)
               ∧ e = NotFoundErrorf "client not found".
Proof.
  intros Hwf Hnew Hlen.
  destruct (NewTaskClient_wf _ _ _ _ Hwf Hnew) as (Hwf1 & Hcfg1 & Hreg1 & Hc1 & ->).
  destruct (notifyEach_queues pods p1 watchID _ Hwf1 Hreg1 Hc1)
    as (p2 & Hrun2 & Hwf2 & Hcfg2 & Hreg2 & Hc2).
  { simpl. rewrite Hcfg1. lia. }
  simpl in Hc2. eexists p2, _. split; [done|]. split; [done|].
  repeat split; [done|].
  destruct (NotifyTaskChange_spec pod p2 Hwf2) as (p3 & Hrun3 & Hcfg3 & Hwf3 & Hin).
  specialize (Hin watchID _ Hreg2 Hc2). unfold notified in Hin.
  rewrite decide_False in Hin by (simpl; rewrite Hcfg2, Hcfg1; lia).
  destruct Hin as [Hc3 Hreg3].
  eexists p3, _. split; [done|]. split; [done|]. repeat split; [done|].
  eexists. split; [|done].
  unfold StopTaskClient, stopTaskClient. by rewrite bool_decide_eq_false_2.
Qed.

End WatchProcessorFacts.

(* --------------------------------------------------------------------- *)
(* Aurora metadata labels                                                 *)
(* --------------------------------------------------------------------- *)

Section LabelFacts.

Import Label.

Variable Metadata : Type.
Variable json_Marshal : list Metadata → result string.
Variable json_Unmarshal : string → result (list Metadata).

Abbreviation NewAuroraMetadata' := (NewAuroraMetadata Metadata json_Marshal).
Abbreviation ParseAuroraMetadata' := (ParseAuroraMetadata Metadata json_Unmarshal).

Lemma ParseAuroraMetadata_first (ls : list (option Label)) (l : option Label) :
  firstAuroraLabel ls = Some l →
  ParseAuroraMetadata' ls = json_Unmarshal (GetValue l).
Proof.
  unfold firstAuroraLabel. induction ls as [|l' ls IH]; [done|].
  cbn [find ParseAuroraMetadata]. case_bool_decide as Hkey.
  - intros [= <-]. by destruct (json_Unmarshal (GetValue l')).
  - apply IH.
Qed.

Lemma ParseAuroraMetadata_missing (ls : list (option Label)) :
  (∀ l, l ∈ ls → GetKey l ≠ _auroraMetadataKey) →
  ParseAuroraMetadata' ls
  = Err (StoreError ("missing label: " +:+ quote +:+ _auroraMetadataKey +:+ quote)).
Proof.
  induction ls as [|l ls IH]; intros Hls; [done|].
  cbn [ParseAuroraMetadata].
  rewrite bool_decide_eq_false_2 by (apply Hls; by left).
  apply IH. intros l' Hl'. apply Hls. by right.
Qed.

End LabelFacts.

(* ----- The JSON codec gives back what it encoded ----- *)

Section JsonFacts.

Import Label.

Abbreviation NewAuroraMetadata' := (NewAuroraMetadata api_Metadata json_Marshal).
Abbreviation ParseAuroraMetadata' := (ParseAuroraMetadata api_Metadata json_Unmarshal).

Lemma encodeString_cons c s1 k :
  encodeString (String c s1) k
  = if (byte c <? 0x80)%N
    then if htmlSafe c then String c (encodeString s1 k)
         else escape c (encodeString s1 k)
    else
      match runeWidth (String c s1), s1 with
      | 2%nat, String c1 s2 => String c (String c1 (encodeString s2 k))
      | 3%nat, String c1 (String c2 s3) =>
          if ((byte c =? 0xE2) && (byte c1 =? 0x80)
              && ((byte c2 =? 0xA8) || (byte c2 =? 0xA9)))%N
          then write "\u202" (String (hex (byte c2 mod 16)) (encodeString s3 k))
          else String c (String c1 (String c2 (encodeString s3 k)))
      | 4%nat, String c1 (String c2 (String c3 s4)) =>
          String c (String c1 (String c2 (String c3 (encodeString s4 k))))
      | _, _ => write "\ufffd" (encodeString s1 k)
      end.
Proof. reflexivity. Qed.

Lemma unquote_multibyte c s1 :
  (byte c <? 0x80)%N = false →
  unquote (String c s1)
  = match runeWidth (String c s1), s1 with
    | 2%nat, String c1 s2 => put (String c (String c1 "")) (unquote s2)
    | 3%nat, String c1 (String c2 s3) =>
        put (String c (String c1 (String c2 ""))) (unquote s3)
    | 4%nat, String c1 (String c2 (String c3 s4)) =>
        put (String c (String c1 (String c2 (String c3 "")))) (unquote s4)
    | _, _ => put (EncodeRune RuneError) (unquote s1)
    end.
Proof.
  intros Hc. apply N.ltb_ge in Hc. cbn [unquote].
  rewrite (proj2 (N.eqb_neq (byte c) 34)) by lia.
  rewrite (proj2 (N.eqb_neq (byte c) 92)) by lia.
  rewrite (proj2 (N.ltb_ge (byte c) 0x20)) by lia.
  rewrite (proj2 (N.ltb_ge (byte c) 0x80)) by lia.
  reflexivity.
Qed.

Lemma byte_inj c n : byte c = n → c = chr n.
Proof. intros <-. unfold chr, byte. by rewrite ascii_N_embedding. Qed.

Lemma byte_ascii (b0 b1 b2 b3 b4 b5 b6 b7 : bool) :
  (byte (Ascii b0 b1 b2 b3 b4 b5 b6 b7) <? 0x80)%N = negb b7.
Proof. by destruct b0, b1, b2, b3, b4, b5, b6, b7. Qed.

Lemma unquote_encodeString_ascii c s1 k :
  (byte c <? 0x80)%N = true →
  unquote (encodeString (String c s1) k)
  = put (String c "") (unquote (encodeString s1 k)).
Proof.
  intros Hc. destruct c as [b0 b1 b2 b3 b4 b5 b6 b7].
  rewrite byte_ascii in Hc. destruct b7; [done|]. clear Hc.
  destruct b0, b1, b2, b3, b4, b5, b6; reflexivity.
Qed.

Lemma ValidString_cons c s1 :
  ValidString (String c s1)
  = if (byte c <? 0x80)%N then ValidString s1
    else
      match runeWidth (String c s1), s1 with
      | 2%nat, String _ s2 => ValidString s2
      | 3%nat, String _ (String _ s3) => ValidString s3
      | 4%nat, String _ (String _ (String _ s4)) => ValidString s4
      | _, _ => false
      end.
Proof. reflexivity. Qed.

(* The width of an encoding depends on its own bytes only. *)
Lemma runeWidth_2 c c1 s s' :
  runeWidth (String c (String c1 s)) = 2%nat →
  runeWidth (String c (String c1 s')) = 2%nat.
Proof. unfold runeWidth. repeat case_match; congruence. Qed.

Lemma runeWidth_3 c c1 c2 s s' :
  runeWidth (String c (String c1 (String c2 s))) = 3%nat →
  runeWidth (String c (String c1 (String c2 s'))) = 3%nat.
Proof. unfold runeWidth. repeat case_match; congruence. Qed.

Lemma runeWidth_4 c c1 c2 c3 s s' :
  runeWidth (String c (String c1 (String c2 (String c3 s)))) = 4%nat →
  runeWidth (String c (String c1 (String c2 (String c3 s')))) = 4%nat.
Proof. unfold runeWidth. repeat case_match; congruence. Qed.

Lemma unquote_separator (d : N) X :
  d = 0xA8%N ∨ d = 0xA9%N →
  unquote (write "\u202" (String (hex (byte (chr d) mod 16)) X))
  = put (String (chr 0xE2) (String (chr 0x80) (String (chr d) ""))) (unquote X).
Proof. by intros [-> | ->]. Qed.

(* What json.Unmarshal reads of a string json.Marshal wrote is the string
   itself, when the string is valid UTF-8. *)
Lemma unquote_encodeString (s k : string) :
  ValidString s = true →
  unquote (encodeString s (write quote k)) = Some (s, k).
Proof.
  remember (String.length s) as n eqn:Hn.
  assert (String.length s ≤ n)%nat as Hlen by lia. clear Hn.
  revert s Hlen. induction n as [|n IH]; intros s Hlen Hvalid.
  { destruct s; [reflexivity | simpl in Hlen; lia]. }
  destruct s as [|c s1]; [reflexivity|]. simpl in Hlen.
  rewrite ValidString_cons in Hvalid.
  destruct (byte c <? 0x80)%N eqn:Hc.
  { rewrite unquote_encodeString_ascii by done. rewrite IH by (done || lia). done. }
  rewrite encodeString_cons, Hc.
  destruct (runeWidth (String c s1)) as [|[|[|[|[|w]]]]] eqn:Hw; try done.
  - destruct s1 as [|c1 s2]; [done|]. simpl in Hlen.
    rewrite unquote_multibyte by done.
    rewrite (runeWidth_2 _ _ _ _ Hw). rewrite IH by (done || lia). done.
  - destruct s1 as [|c1 [|c2 s3]]; try done. simpl in Hlen.
    destruct ((byte c =? 0xE2) && (byte c1 =? 0x80)
              && ((byte c2 =? 0xA8) || (byte c2 =? 0xA9)))%N eqn:Hsep.
    + apply andb_prop in Hsep as [Hsep Hc2]. apply andb_prop in Hsep as [Hc0 Hc1].
      apply N.eqb_eq, byte_inj in Hc0, Hc1. subst c c1.
      assert (byte c2 = 0xA8%N ∨ byte c2 = 0xA9%N) as Hd.
      { apply orb_prop in Hc2 as [?%N.eqb_eq | ?%N.eqb_eq]; [by left | by right]. }
      rewrite (byte_inj c2 _ eq_refl) at 1.
      rewrite unquote_separator by done.
      rewrite IH by (done || lia). simpl. by rewrite <- (byte_inj c2 _ eq_refl).
    + rewrite unquote_multibyte by done.
      rewrite (runeWidth_3 _ _ _ _ _ Hw). rewrite IH by (done || lia). done.
  - destruct s1 as [|c1 [|c2 [|c3 s4]]]; try done. simpl in Hlen.
    rewrite unquote_multibyte by done.
    rewrite (runeWidth_4 _ _ _ _ _ _ Hw). rewrite IH by (done || lia). done.
Qed.

Lemma length_write lit k :
  String.length (write lit k) = (String.length lit + String.length k)%nat.
Proof. induction lit as [|c lit IH]; simpl; [done | by rewrite IH]. Qed.

Lemma length_escape c k : (String.length k ≤ String.length (escape c k))%nat.
Proof. unfold escape. repeat case_match; rewrite ?length_write; simpl; lia. Qed.

Lemma length_encodeString s k :
  (String.length k ≤ String.length (encodeString s k))%nat.
Proof.
  remember (String.length s) as n eqn:Hn.
  assert (String.length s ≤ n)%nat as Hlen by lia. clear Hn.
  revert s Hlen. induction n as [|n IH]; intros s Hlen.
  { destruct s; [done | simpl in Hlen; lia]. }
  destruct s as [|c s1]; [done|]. rewrite encodeString_cons.
  repeat case_match; subst; simpl in Hlen;
    rewrite ?length_write; cbn [String.length];
    try (etrans; [|apply length_escape]);
    match goal with
    | |- context [encodeString ?x k] => specialize (IH x)
    end; cbn [String.length] in IH; lia.
Qed.

Lemma expect_write lit k : expect lit (write lit k) = Some k.
Proof.
  induction lit as [|c lit IH]; simpl; [by destruct k|].
  by rewrite Ascii.eqb_refl.
Qed.

Lemma readString_jsonString s k :
  ValidString s = true → readString (jsonString s k) = Some (s, k).
Proof.
  intros Hs. unfold readString, jsonString. rewrite expect_write.
  by apply unquote_encodeString.
Qed.

Lemma readMetadata_encodeMetadata (m : api_Metadata) k :
  ValidString m.1 = true → ValidString m.2 = true →
  readMetadata (encodeMetadata m k) = Some (m, k).
Proof.
  intros Hk Hv. unfold readMetadata, encodeMetadata.
  rewrite expect_write.
  change (readMember "key" (jsonString "key" (write ":" ?X))) with (readString X).
  rewrite readString_jsonString by done. rewrite expect_write.
  change (readMember "value" (jsonString "value" (write ":" ?X))) with (readString X).
  rewrite readString_jsonString by done. rewrite expect_write.
  by destruct m.
Qed.

Lemma length_write_le lit k : (String.length k ≤ String.length (write lit k))%nat.
Proof. rewrite length_write. lia. Qed.

Lemma length_jsonString s k : (String.length k ≤ String.length (jsonString s k))%nat.
Proof.
  unfold jsonString. etrans; [|apply length_write_le].
  etrans; [|apply length_encodeString]. apply length_write_le.
Qed.

Lemma length_encodeMetadata m k :
  (String.length k < String.length (encodeMetadata m k))%nat.
Proof.
  unfold encodeMetadata. rewrite length_write. cbn [String.length].
  apply Nat.lt_succ_r.
  repeat (etrans; [|first [apply length_jsonString | apply length_write_le]]).
  done.
Qed.

Lemma length_encodeElements md k :
  (length md ≤ String.length (encodeElements md k))%nat.
Proof.
  induction md as [|m md IH]; [simpl; lia|].
  cbn [encodeElements]. destruct md as [|m' md].
  - pose proof (length_encodeMetadata m k). simpl. lia.
  - pose proof (length_encodeMetadata m (write "," (encodeElements (m' :: md) k))) as Hm.
    rewrite length_write in Hm. simpl in Hm, IH |- *. lia.
Qed.

Lemma readElements_encodeElements fuel (md : list api_Metadata) :
  md ≠ [] →
  (length md ≤ fuel)%nat →
  Forall (λ m, ValidString m.1 = true ∧ ValidString m.2 = true) md →
  readElements fuel (encodeElements md "]") = Some md.
Proof.
  revert fuel. induction md as [|m md IH]; intros fuel Hne Hfuel Hvalid; [done|].
  apply Forall_cons in Hvalid as [[Hk Hv] Hvalid].
  destruct fuel as [|fuel]; [simpl in Hfuel; lia|]. simpl in Hfuel.
  cbn [readElements encodeElements]. destruct md as [|m' md].
  - by rewrite readMetadata_encodeMetadata.
  - rewrite readMetadata_encodeMetadata by done. cbn [write].
    rewrite IH by (done || lia). done.
Qed.

(* json.Unmarshal gives back the list json.Marshal encoded, when the keys
   and values of the list are valid UTF-8. *)
Lemma json_Unmarshal_Marshal (md : list api_Metadata) :
  Forall (λ m, ValidString m.1 = true ∧ ValidString m.2 = true) md →
  ∃ b, json_Marshal md = Ok b ∧ json_Unmarshal b = Ok md.
Proof.
  intros Hvalid. eexists. split; [reflexivity|].
  destruct md as [|m md]; [reflexivity|].
  pose proof (readElements_encodeElements
                (String.length (encodeElements (m :: md) "]")) (m :: md)
                ltac:(done) (length_encodeElements _ _) Hvalid) as Hread.
  assert (∃ X, encodeElements (m :: md) "]" = String "{" X) as [X HX].
  { destruct md; eexists; reflexivity. }
  cbn [write]. rewrite HX in Hread |- *.
  change (json_Unmarshal (String "[" (String "{" X)))
    with (match readElements (String.length (String "{" X)) (String "{" X) with
          | Some md => Ok md
          | None => Err SyntaxError
          end).
  by rewrite Hread.
Qed.

(** C10: ParseAuroraMetadata inverts NewAuroraMetadata on metadata whose
    keys and values are valid UTF-8.  For such a list md,
    NewAuroraMetadata(md) succeeds with a label l of the key
    aurora_metadata whose value is what json.Marshal makes of md;
    ParseAuroraMetadata on a label list whose first label with that key
    is l returns md; and on a label list with no label of that key
    ParseAuroraMetadata returns an error. *)
Theorem ParseAuroraMetadata_inverts_NewAuroraMetadata (md : list api_Metadata) :
  Forall (λ m, ValidString m.1 = true ∧ ValidString m.2 = true) md →
  ∃ l,
    NewAuroraMetadata' md = Ok l
    ∧ Key l = "aurora_metadata"
    ∧ json_Marshal md = Ok (Value l)
    ∧ (∀ ls, firstAuroraLabel ls = Some (Some l) →
             ParseAuroraMetadata' ls = json_Unmarshal (Value l)
             ∧ ParseAuroraMetadata' ls = Ok md)
    ∧ (∀ ls, (∀ l', l' ∈ ls → GetKey l' ≠ "aurora_metadata") →
             ∃ e, ParseAuroraMetadata' ls = Err e).
Proof.
  intros Hvalid.
  destruct (json_Unmarshal_Marshal md Hvalid) as (b & Hb & Hback).
  exists {| Key := _auroraMetadataKey; Value := b |}.
  unfold NewAuroraMetadata. rewrite Hb. simpl.
  split; [done|]. split; [done|]. split; [done|]. split.
  - intros ls Hfirst.
    apply (ParseAuroraMetadata_first api_Metadata json_Unmarshal) in Hfirst.
    rewrite Hfirst. simpl. split; [done | exact Hback].
  - intros ls Hls. eexists. by apply ParseAuroraMetadata_missing.
Qed.

End JsonFacts.

(* --------------------------------------------------------------------- *)
(* More facts about the handler                                          *)
(* --------------------------------------------------------------------- *)

Section MoreHandlerFacts.

Variable GetDefaultJobGoalState : JobType → JobState.
Variable GetDefaultTaskGoalState : JobType → TaskState.
Variable GetInitialHealthState : TaskConfig → HealthState.

Abbreviation Start' :=
  (Start GetDefaultJobGoalState GetDefaultTaskGoalState GetInitialHealthState).
Abbreviation startedRuntime' :=
  (startedRuntime GetDefaultTaskGoalState GetInitialHealthState).
Abbreviation taskConflicts' E :=
  (taskConflicts E GetDefaultTaskGoalState GetInitialHealthState).

Lemma Refresh_range (req : RefreshRequest) (jobConfig : JobConfig) :
  (let reqRange :=
     match refresh_Range req with
     | Some r => r
     | None => {| From := 0; To := jc_InstanceCount jobConfig |}
     end in
   if (jc_InstanceCount jobConfig <? To reqRange)%N
   then {| From := From reqRange; To := jc_InstanceCount jobConfig |}
   else reqRange)
  = refreshRange req (jc_InstanceCount jobConfig).
Proof.
  unfold refreshRange. cbv zeta.
  destruct (refresh_Range req) as [[from to]|]; simpl.
  - destruct (N.ltb_spec (jc_InstanceCount jobConfig) to).
    + by rewrite N.min_r by lia.
    + by rewrite N.min_l by lia.
  - by rewrite N.ltb_irrefl.
Qed.

(** X1.  Refresh, when the job has a config and the store has runtimes for
    the range: it asks the store for the range of the request cut down to
    the instance count (the whole job when the request names no range),
    replaces the tasks of the cache by the runtimes read, enqueues each of
    these instances once and then the job. *)
Theorem Refresh_replaces_and_enqueues
    (E : env) (w : world E) (req : RefreshRequest) (jobConfig : JobConfig)
    (runtimes : gmap N RuntimeInfo) :
  let jobID := refresh_JobId req in
  let reqRange := refreshRange req (jc_InstanceCount jobConfig) in
  always E IsLeader true →
  always E (GetJobConfig jobID) (Ok jobConfig) →
  always E (GetTaskRuntimesForJobByRange jobID reqRange) (Ok runtimes) →
  runtimes ≠ ∅ →
  ∃ o,
    run E (Refresh req) w = Some o
    ∧ returned o = Ok MkRefreshResponse
    ∧ trace o = [ Event IsLeader true;
                  Event (GetJobConfig jobID) (Ok jobConfig);
                  Event (GetTaskRuntimesForJobByRange jobID reqRange) (Ok runtimes);
                  Event (AddJob jobID) tt;
                  Event (ReplaceTasks jobID runtimes true) tt ]
                ++ enqueueTrace jobID (range_keys runtimes)
                ++ [ Event (EnqueueJobWithDefaultDelay jobID) tt ]
    ∧ (To reqRange ≤ jc_InstanceCount jobConfig)%N
    ∧ (∀ i, i ∈ range_keys runtimes ↔ is_Some (runtimes !! i))
    ∧ NoDup (range_keys runtimes).
Proof.
  intros jobID reqRange Hl Hc Hr Hne.
  cut (ensures E (Refresh req) w (λ o,
         returned o = Ok MkRefreshResponse
         ∧ trace o = [ Event IsLeader true;
                       Event (GetJobConfig jobID) (Ok jobConfig);
                       Event (GetTaskRuntimesForJobByRange jobID reqRange) (Ok runtimes);
                       Event (AddJob jobID) tt;
                       Event (ReplaceTasks jobID runtimes true) tt ]
                     ++ enqueueTrace jobID (range_keys runtimes)
                     ++ [ Event (EnqueueJobWithDefaultDelay jobID) tt ])).
  { intros (o & Hrun & Hret & Htr). exists o.
    split; [done|]. split; [done|]. split; [done|]. split; [|split].
    - unfold reqRange, refreshRange. destruct (refresh_Range req); simpl; lia.
    - intros i. apply elem_of_range_keys.
    - apply NoDup_range_keys. }
  unfold Refresh. eapply ensures_ask; [apply Hl|]. simpl negb. cbv iota.
  eapply ensures_ask; [apply Hc|]. cbv iota.
  rewrite Refresh_range. fold jobID reqRange.
  eapply ensures_ask; [apply Hr|]. cbv iota.
  rewrite bool_decide_eq_false_2 by (by intros ?%map_size_empty_inv).
  eapply (ensures_ask _ _ _ _ tt); [by destruct (answer E _ _)|].
  eapply (ensures_ask _ _ _ _ tt); [by destruct (answer E _ _)|].
  apply ensures_bind.
  eapply ensures_mono; [apply enqueueTasks_trace|]. intros o1 [_ Htr1].
  eapply (ensures_ask _ _ _ _ tt); [by destruct (answer E _ _)|].
  apply ensures_ret. simpl. rewrite Htr1. done.
Qed.

(** X2.  Refresh, whatever the collaborators answer: an error it returns is
    Unavailable or NotFound, and it has then neither changed the cache nor
    enqueued anything; when it succeeds it has replaced the tasks of the
    cache by a non-empty set of runtimes and enqueued their instances and
    the job. *)
Theorem Refresh_error_touches_nothing
    (E : env) (w : world E) (req : RefreshRequest) :
  ∃ o,
    run E (Refresh req) w = Some o
    ∧ match returned o with
      | Err e =>
          (IsUnavailable e = true ∨ IsNotFound e = true)
          ∧ countOf isCacheMutation (trace o) = 0
          ∧ countOf isEnqueue (trace o) = 0
      | Ok _ =>
          ∃ runtimes : gmap N RuntimeInfo,
            runtimes ≠ ∅
            ∧ Event (ReplaceTasks (refresh_JobId req) runtimes true) tt ∈ trace o
            ∧ enqueues (trace o)
              = enqueueTrace (refresh_JobId req) (range_keys runtimes)
                ++ [ Event (EnqueueJobWithDefaultDelay (refresh_JobId req)) tt ]
      end.
Proof.
  unfold Refresh. apply ensures_trigger_bind.
  destruct (answer E IsLeader w); simpl negb; cbv iota;
    [|apply ensures_ret; simpl; auto].
  apply ensures_trigger_bind.
  destruct (answer E (GetJobConfig _) _) as [jobConfig|err];
    [|apply ensures_ret; simpl; auto].
  cbv zeta. apply ensures_trigger_bind.
  destruct (answer E (GetTaskRuntimesForJobByRange _ _) _) as [runtimes|err];
    [|apply ensures_ret; simpl; auto].
  case_bool_decide as Hsize; [apply ensures_ret; simpl; auto|].
  eapply (ensures_ask _ _ _ _ tt); [by destruct (answer E _ _)|].
  eapply (ensures_ask _ _ _ _ tt); [by destruct (answer E _ _)|].
  apply ensures_bind.
  eapply ensures_mono; [apply enqueueTasks_trace|]. intros o1 [_ Htr1].
  eapply (ensures_ask _ _ _ _ tt); [by destruct (answer E _ _)|].
  apply ensures_ret. simpl. exists runtimes. split; [|split].
  - intros ->. by apply Hsize.
  - do 4 apply list_elem_of_further. apply list_elem_of_here.
  - rewrite Htr1.
    match goal with
    | |- enqueues (?a :: ?b :: ?c :: ?d :: ?e :: ?rest) = ?rhs =>
        change (enqueues ([a; b; c; d; e] ++ rest) = rhs)
    end.
    by rewrite !enqueues_app, enqueues_enqueueTrace.
Qed.

(** X3.  When the config of the job cannot be read, Start and Stop answer
    with the NotFound variant that carries the text of the error, return no
    error of the call, and make no other call after the failed read. *)
Theorem config_failure_is_reported_as_NotFound
    (E : env) (w : world E) (start : StartRequest) (stop : StopRequest) (err : error) :
  always E IsLeader true →
  always E (JobGetConfig (start_JobId start)) (Err err) →
  always E (JobGetConfig (stop_JobId stop)) (Err err) →
  (∃ o,
     run E (Start' start) w = Some o
     ∧ returned o
       = Ok {| start_Error := Some (StartError_NotFound (start_JobId start) (Error_ err));
               StartedInstanceIds := []; start_InvalidInstanceIds := [] |}
     ∧ trace o = [ Event IsLeader true;
                   Event (AddJob (start_JobId start)) tt;
                   Event (JobGetConfig (start_JobId start)) (Err err) ])
  ∧ (∃ o,
       run E (Stop stop) w = Some o
       ∧ returned o
         = Ok {| stop_Error := Some (StopError_NotFound (stop_JobId stop) (Error_ err));
                 StoppedInstanceIds := []; stop_InvalidInstanceIds := [] |}
       ∧ trace o = [ Event IsLeader true;
                     Event (AddJob (stop_JobId stop)) tt;
                     Event (JobGetConfig (stop_JobId stop)) (Err err) ]).
Proof.
  intros Hl Hc Hc'. split.
  - cut (ensures E (Start' start) w (λ o,
      returned o
      = Ok {| start_Error := Some (StartError_NotFound (start_JobId start) (Error_ err));
              StartedInstanceIds := []; start_InvalidInstanceIds := [] |}
      ∧ trace o = [ Event IsLeader true;
                    Event (AddJob (start_JobId start)) tt;
                    Event (JobGetConfig (start_JobId start)) (Err err) ])).
    { intros (o & ? & ? & ?). by exists o. }
    unfold Start. eapply ensures_ask; [apply Hl|]. simpl negb. cbv iota.
    eapply (ensures_ask _ _ _ _ tt); [by destruct (answer E _ _)|].
    eapply ensures_ask; [apply Hc|]. by apply ensures_ret.
  - cut (ensures E (Stop stop) w (λ o,
      returned o
      = Ok {| stop_Error := Some (StopError_NotFound (stop_JobId stop) (Error_ err));
              StoppedInstanceIds := []; stop_InvalidInstanceIds := [] |}
      ∧ trace o = [ Event IsLeader true;
                    Event (AddJob (stop_JobId stop)) tt;
                    Event (JobGetConfig (stop_JobId stop)) (Err err) ])).
    { intros (o & ? & ? & ?). by exists o. }
    unfold Stop. eapply ensures_ask; [apply Hl|]. simpl negb. cbv iota.
    eapply (ensures_ask _ _ _ _ tt); [by destruct (answer E _ _)|].
    eapply ensures_ask; [apply Hc'|]. by apply ensures_ret.
Qed.

(** X4.  When the runtime of the job cannot be read, Start returns the
    error itself as the error of the call, while a Stop of the whole job
    answers with UpdateError and lists every instance as invalid; neither
    writes nor enqueues anything. *)
Theorem runtime_fetch_failure_ends_the_call
    (E : env) (w : world E) (start : StartRequest) (stop : StopRequest)
    (cachedConfig : JobConfig) (err : error) :
  let jobID := start_JobId start in
  stop_JobId stop = jobID →
  stopsWholeJob (stop_Ranges stop) (jc_InstanceCount cachedConfig) = true →
  always E IsLeader true →
  always E (JobGetConfig jobID) (Ok cachedConfig) →
  always E (JobGetRuntime jobID) (Err err) →
  (∃ o,
     run E (Start' start) w = Some o
     ∧ returned o = Err err
     ∧ trace o = [ Event IsLeader true;
                   Event (AddJob jobID) tt;
                   Event (JobGetConfig jobID) (Ok cachedConfig);
                   Event (JobGetRuntime jobID) (Err err) ])
  ∧ (∃ o,
       run E (Stop stop) w = Some o
       ∧ returned o
         = Ok {| stop_Error := Some (StopError_UpdateError
                                       ("Job state fetch failed for " +:+ Error_ err));
                 StoppedInstanceIds := [];
                 stop_InvalidInstanceIds := instanceList (jc_InstanceCount cachedConfig) |}
       ∧ trace o = [ Event IsLeader true;
                     Event (AddJob jobID) tt;
                     Event (JobGetConfig jobID) (Ok cachedConfig);
                     Event (AddJob jobID) tt;
                     Event (JobGetRuntime jobID) (Err err) ]).
Proof.
  intros jobID Hid Hwhole Hl Hc Hr. split.
  - cut (ensures E (Start' start) w (λ o,
      returned o = Err err
      ∧ trace o = [ Event IsLeader true;
                    Event (AddJob jobID) tt;
                    Event (JobGetConfig jobID) (Ok cachedConfig);
                    Event (JobGetRuntime jobID) (Err err) ])).
    { intros (o & ? & ? & ?). by exists o. }
    unfold Start. eapply ensures_ask; [apply Hl|]. simpl negb. cbv iota.
    eapply (ensures_ask _ _ _ _ tt); [by destruct (answer E _ _)|].
    eapply ensures_ask; [apply Hc|]. cbv iota.
    apply ensures_bind. change retryFuel with 5%nat. cbn [Start_jobRuntime].
    unfold Start_jobRuntime_round. eapply ensures_ask; [apply Hr|].
    apply ensures_ret. simpl. by apply ensures_ret.
  - cut (ensures E (Stop stop) w (λ o,
      returned o
      = Ok {| stop_Error := Some (StopError_UpdateError
                                    ("Job state fetch failed for " +:+ Error_ err));
              StoppedInstanceIds := [];
              stop_InvalidInstanceIds := instanceList (jc_InstanceCount cachedConfig) |}
      ∧ trace o = [ Event IsLeader true;
                    Event (AddJob jobID) tt;
                    Event (JobGetConfig jobID) (Ok cachedConfig);
                    Event (AddJob jobID) tt;
                    Event (JobGetRuntime jobID) (Err err) ])).
    { intros (o & ? & ? & ?). by exists o. }
    unfold Stop. rewrite Hid. eapply ensures_ask; [apply Hl|]. simpl negb. cbv iota.
    eapply (ensures_ask _ _ _ _ tt); [by destruct (answer E _ _)|].
    eapply ensures_ask; [apply Hc|]. cbv iota zeta. rewrite Hwhole.
    unfold stopJob.
    eapply (ensures_ask _ _ _ _ tt); [by destruct (answer E _ _)|].
    apply ensures_bind. change retryFuel with 5%nat. cbn [stopJob_loop].
    unfold stopJob_round. eapply ensures_ask; [apply Hr|].
    apply ensures_ret. simpl. by apply ensures_ret.
Qed.

(** X5.  Only a version conflict is retried: when the write of the job
    runtime fails with another error, Start and the Stop of the whole job
    make that one write and answer with the failure (Start with Failure,
    Stop with UpdateError and every instance invalid), enqueuing
    nothing. *)
Theorem other_write_errors_are_not_retried
    (E : env) (w : world E) (start : StartRequest) (stop : StopRequest)
    (cachedConfig : JobConfig) (jobRuntime : JobRuntime) (err : error) :
  let jobID := start_JobId start in
  let pending :=
    set_jr_GoalState (set_jr_State jobRuntime JobState_PENDING)
      (GetDefaultJobGoalState (jc_Type cachedConfig)) in
  let killed :=
    set_jr_GoalState
      (set_jr_DesiredStateVersion jobRuntime
         (uint64_add (jr_DesiredStateVersion jobRuntime) 1))
      JobState_KILLED in
  stop_JobId stop = jobID →
  stopsWholeJob (stop_Ranges stop) (jc_InstanceCount cachedConfig) = true →
  always E IsLeader true →
  always E (JobGetConfig jobID) (Ok cachedConfig) →
  always E (JobGetRuntime jobID) (Ok jobRuntime) →
  bool_decide (jc_Type cachedConfig = BATCH)
    && IsPelotonJobStateTerminal (jr_State jobRuntime) = false →
  jr_GoalState jobRuntime ≠ JobState_KILLED →
  err ≠ UnexpectedVersionError →
  always E (JobCompareAndSetRuntime jobID pending) (Some err) →
  always E (JobCompareAndSetRuntime jobID killed) (Some err) →
  (∃ o,
     run E (Start' start) w = Some o
     ∧ returned o
       = Ok {| start_Error := Some (StartError_Failure
                 ("task start failed while updating job status " +:+ Error_ err));
               StartedInstanceIds := []; start_InvalidInstanceIds := [] |}
     ∧ trace o = [ Event IsLeader true;
                   Event (AddJob jobID) tt;
                   Event (JobGetConfig jobID) (Ok cachedConfig);
                   Event (JobGetRuntime jobID) (Ok jobRuntime);
                   Event (JobCompareAndSetRuntime jobID pending) (Some err) ])
  ∧ (∃ o,
       run E (Stop stop) w = Some o
       ∧ returned o
         = Ok {| stop_Error := Some (StopError_UpdateError
                   ("Job state update failed for " +:+ Error_ err));
                 StoppedInstanceIds := [];
                 stop_InvalidInstanceIds := instanceList (jc_InstanceCount cachedConfig) |}
       ∧ trace o = [ Event IsLeader true;
                     Event (AddJob jobID) tt;
                     Event (JobGetConfig jobID) (Ok cachedConfig);
                     Event (AddJob jobID) tt;
                     Event (JobGetRuntime jobID) (Ok jobRuntime);
                     Event (JobCompareAndSetRuntime jobID killed) (Some err) ]).
Proof.
  intros jobID pending killed Hid Hwhole Hl Hc Hr Hgate Hk Herr Hcas Hcas'. split.
  - cut (ensures E (Start' start) w (λ o,
      returned o
      = Ok {| start_Error := Some (StartError_Failure
                ("task start failed while updating job status " +:+ Error_ err));
              StartedInstanceIds := []; start_InvalidInstanceIds := [] |}
      ∧ trace o = [ Event IsLeader true;
                    Event (AddJob jobID) tt;
                    Event (JobGetConfig jobID) (Ok cachedConfig);
                    Event (JobGetRuntime jobID) (Ok jobRuntime);
                    Event (JobCompareAndSetRuntime jobID pending) (Some err) ])).
    { intros (o & ? & ? & ?). by exists o. }
    unfold Start. eapply ensures_ask; [apply Hl|]. simpl negb. cbv iota.
    eapply (ensures_ask _ _ _ _ tt); [by destruct (answer E _ _)|].
    eapply ensures_ask; [apply Hc|]. cbv iota.
    apply ensures_bind. change retryFuel with 5%nat. cbn [Start_jobRuntime].
    unfold Start_jobRuntime_round. eapply ensures_ask; [apply Hr|]. cbv iota.
    rewrite Hgate. cbv zeta. eapply ensures_ask; [apply Hcas|].
    rewrite bool_decide_eq_false_2 by (by intros [= ?]). simpl andb. cbv iota.
    apply ensures_ret. simpl. by apply ensures_ret.
  - cut (ensures E (Stop stop) w (λ o,
      returned o
      = Ok {| stop_Error := Some (StopError_UpdateError
                ("Job state update failed for " +:+ Error_ err));
              StoppedInstanceIds := [];
              stop_InvalidInstanceIds := instanceList (jc_InstanceCount cachedConfig) |}
      ∧ trace o = [ Event IsLeader true;
                    Event (AddJob jobID) tt;
                    Event (JobGetConfig jobID) (Ok cachedConfig);
                    Event (AddJob jobID) tt;
                    Event (JobGetRuntime jobID) (Ok jobRuntime);
                    Event (JobCompareAndSetRuntime jobID killed) (Some err) ])).
    { intros (o & ? & ? & ?). by exists o. }
    unfold Stop. rewrite Hid. eapply ensures_ask; [apply Hl|]. simpl negb. cbv iota.
    eapply (ensures_ask _ _ _ _ tt); [by destruct (answer E _ _)|].
    eapply ensures_ask; [apply Hc|]. cbv iota zeta. rewrite Hwhole.
    unfold stopJob.
    eapply (ensures_ask _ _ _ _ tt); [by destruct (answer E _ _)|].
    apply ensures_bind. change retryFuel with 5%nat. cbn [stopJob_loop].
    unfold stopJob_round. eapply ensures_ask; [apply Hr|]. cbv iota.
    rewrite bool_decide_eq_false_2 by done. cbv zeta.
    eapply ensures_ask; [apply Hcas'|]. cbv iota.
    rewrite bool_decide_eq_false_2 by done. simpl andb. cbv iota.
    apply ensures_ret. simpl. by apply ensures_ret.
Qed.

Lemma Stop_diffs_list (l : list (N * TaskInfo)) (acc : gmap N RuntimeDiff) (ids : list N) :
  NoDup l.*1 →
  Forall (λ kv, InstanceId kv.2 = kv.1) l →
  (Stop_diffs l.*2 acc ids).2 = ids ++ (InstanceId <$> filter unkilled l.*2)
  ∧ ∀ j, (Stop_diffs l.*2 acc ids).1 !! j
         = match (list_to_map l : gmap N TaskInfo) !! j with
           | Some taskInfo =>
               if decide (unkilled taskInfo) then Some stopRuntimeDiff else acc !! j
           | None => acc !! j
           end.
Proof.
  revert acc ids. induction l as [|[k ti] l IH]; intros acc ids Hnd Hkey.
  - simpl. by rewrite app_nil_r.
  - apply NoDup_cons in Hnd as [Hk Hnd]. apply Forall_cons in Hkey as [Hti Hkey].
    simpl in Hti.
    cbn [fmap list_fmap Stop_diffs snd list_to_map foldr fst uncurry].
    change (list_fmap _ _ snd l) with (l.*2).
    change (foldr (λ '(i, x), <[i:=x]>) ∅ l) with (list_to_map l : gmap N TaskInfo).
    rewrite filter_cons.
    destruct (decide (unkilled ti)) as [Hu|Hu].
    + rewrite bool_decide_eq_false_2 by done.
      destruct (IH (<[InstanceId ti := stopRuntimeDiff]> acc) (ids ++ [InstanceId ti])
                  Hnd Hkey) as [Hids Hmap].
      split.
      * rewrite Hids. by rewrite <- app_assoc.
      * intros j. rewrite Hmap, Hti.
        destruct (decide (j = k)) as [->|Hne].
        -- rewrite lookup_insert_eq, (not_elem_of_list_to_map_1 _ _ Hk), lookup_insert_eq.
           by rewrite decide_True.
        -- by rewrite !lookup_insert_ne.
    + rewrite bool_decide_eq_true_2 by (by apply dec_stable).
      destruct (IH acc ids Hnd Hkey) as [Hids Hmap].
      split; [done|].
      intros j. rewrite Hmap.
      destruct (decide (j = k)) as [->|Hne].
      * rewrite lookup_insert_eq, (not_elem_of_list_to_map_1 _ _ Hk).
        by rewrite decide_False.
      * by rewrite lookup_insert_ne.
Qed.

Lemma Stop_diffs_selected (selected : gmap N TaskInfo) :
  keyedByInstance selected →
  Stop_diffs (range_values selected) ∅ [] = (stopDiffs selected, stopIds selected).
Proof.
  intros Hkey.
  destruct (Stop_diffs_list (map_to_list selected) ∅ []) as [Hids Hmap].
  { apply NoDup_fst_map_to_list. }
  { apply Forall_forall. intros [k ti] Hin. simpl.
    apply elem_of_map_to_list in Hin. by apply Hkey. }
  change ((map_to_list selected).*2) with (range_values selected) in *.
  destruct (Stop_diffs (range_values selected) ∅ []) as [diffs ids].
  simpl in *. f_equal; [|done].
  apply map_eq. intros j. rewrite Hmap, list_to_map_to_list.
  unfold stopDiffs. rewrite lookup_fmap, map_lookup_filter.
  destruct (selected !! j) as [ti|]; simpl; [|done].
  case_decide; simpl.
  - by rewrite option_guard_True.
  - by rewrite option_guard_False.
Qed.

Lemma elem_of_stopIds (selected : gmap N TaskInfo) (i : N) :
  keyedByInstance selected →
  i ∈ stopIds selected
  ↔ ∃ taskInfo, selected !! i = Some taskInfo
                ∧ GoalState (Runtime taskInfo) ≠ TaskState_KILLED.
Proof.
  intros Hkey. unfold stopIds, range_values. rewrite list_elem_of_fmap. split.
  - intros (ti & -> & Hin). apply list_elem_of_filter in Hin as [Hu Hin].
    apply list_elem_of_fmap in Hin as ([k ti'] & -> & Hin).
    apply elem_of_map_to_list in Hin. simpl in *.
    exists ti'. split; [|done]. by rewrite (Hkey _ _ Hin).
  - intros (ti & Hi & Hu). exists ti. split; [by rewrite (Hkey _ _ Hi)|].
    apply list_elem_of_filter. split; [done|].
    apply list_elem_of_fmap. exists (i, ti). split; [done|].
    by apply elem_of_map_to_list.
Qed.

Lemma NoDup_stopIds (selected : gmap N TaskInfo) :
  keyedByInstance selected → NoDup (stopIds selected).
Proof.
  intros Hkey. unfold stopIds.
  eapply sublist_NoDup; [|apply fmap_sublist, sublist_filter].
  rewrite instance_ids_of_keyed by done. apply NoDup_range_keys.
Qed.

Lemma lookupTrace_quiet jobID all byRange ranges :
  quiet (lookupTrace jobID all byRange ranges).
Proof.
  unfold lookupTrace. case_decide.
  - by repeat constructor.
  - apply Forall_fmap, Forall_forall. by intros r _.
Qed.

Lemma Stop_by_ranges_run E w body cachedConfig all byRange patched :
  let jobID := stop_JobId body in
  let selected := selectedTasks all byRange (stop_Ranges body) in
  always E IsLeader true →
  always E (JobGetConfig jobID) (Ok cachedConfig) →
  stopsWholeJob (stop_Ranges body) (jc_InstanceCount cachedConfig) = false →
  lookupsAnswer E jobID all byRange →
  keyedByInstance selected →
  always E (PatchTasks jobID (stopDiffs selected)) patched →
  ensures E (Stop body) w (λ o,
    returned o
    = Ok (match patched with
          | Some err =>
              {| stop_Error := Some (StopError_UpdateError
                                       ("Goalstate update failed for " +:+ Error_ err));
                 StoppedInstanceIds := []; stop_InvalidInstanceIds := [] |}
          | None =>
              {| stop_Error := None; StoppedInstanceIds := stopIds selected;
                 stop_InvalidInstanceIds := [] |}
          end)
    ∧ trace o = [ Event IsLeader true;
                  Event (AddJob jobID) tt;
                  Event (JobGetConfig jobID) (Ok cachedConfig) ]
                ++ lookupTrace jobID all byRange (stop_Ranges body)
                ++ stopPatchTrace jobID selected patched).
Proof.
  intros jobID selected Hl Hc Hpart Hlookup Hkey Hpatch.
  unfold Stop. eapply ensures_ask; [apply Hl|]. simpl negb. cbv iota.
  eapply (ensures_ask _ _ _ _ tt); [by destruct (answer E _ _)|].
  eapply ensures_ask; [apply Hc|]. cbv iota zeta. rewrite Hpart.
  apply ensures_bind.
  eapply ensures_mono; [by apply getTaskInfosByRangesFromDB_selected|].
  intros o1 [Hret1 Htr1]. rewrite Hret1. fold jobID selected.
  rewrite Stop_diffs_selected by done.
  eapply ensures_ask; [apply Hpatch|].
  apply ensures_bind.
  eapply ensures_mono; [apply enqueueTasks_trace|]. intros o2 [Hret2 Htr2].
  eapply (ensures_ask _ _ _ _ tt); [by destruct (answer E _ _)|].
  unfold stopPatchTrace.
  destruct patched as [err|]; apply ensures_ret; simpl; rewrite Htr1, Htr2;
    (split; [done|]); by rewrite ?app_nil_r.
Qed.

(** X6.  A Stop by ranges patches the selected tasks whose goal state is not
    KILLED yet, all in one PatchTasks call, reports exactly these instances
    as stopped, each once, and enqueues each of them and then the job; a
    selected task that is already to be killed is neither patched nor
    reported. *)
Theorem Stop_by_ranges_patches_the_unkilled
    (E : env) (w : world E) (body : StopRequest) (cachedConfig : JobConfig)
    (all : gmap N TaskInfo) (byRange : InstanceRange → gmap N TaskInfo) :
  let jobID := stop_JobId body in
  let selected := selectedTasks all byRange (stop_Ranges body) in
  always E IsLeader true →
  always E (JobGetConfig jobID) (Ok cachedConfig) →
  stopsWholeJob (stop_Ranges body) (jc_InstanceCount cachedConfig) = false →
  lookupsAnswer E jobID all byRange →
  keyedByInstance selected →
  always E (PatchTasks jobID (stopDiffs selected)) None →
  ∃ o,
    run E (Stop body) w = Some o
    ∧ returned o = Ok {| stop_Error := None; StoppedInstanceIds := stopIds selected;
                         stop_InvalidInstanceIds := [] |}
    ∧ trace o = [ Event IsLeader true;
                  Event (AddJob jobID) tt;
                  Event (JobGetConfig jobID) (Ok cachedConfig) ]
                ++ lookupTrace jobID all byRange (stop_Ranges body)
                ++ [ Event (PatchTasks jobID (stopDiffs selected)) None ]
                ++ enqueueTrace jobID (stopIds selected)
                ++ [ Event (EnqueueJobWithDefaultDelay jobID) tt ]
    ∧ (∀ i, i ∈ stopIds selected
            ↔ ∃ taskInfo, selected !! i = Some taskInfo
                          ∧ GoalState (Runtime taskInfo) ≠ TaskState_KILLED)
    ∧ NoDup (stopIds selected)
    ∧ (∀ i, stopDiffs selected !! i
            = if decide (i ∈ stopIds selected) then Some stopRuntimeDiff else None).
Proof.
  intros jobID selected Hl Hc Hpart Hlookup Hkey Hpatch.
  destruct (Stop_by_ranges_run E w body cachedConfig all byRange None
              Hl Hc Hpart Hlookup Hkey Hpatch) as (o & Hrun & Hret & Htr).
  exists o. split; [done|]. split; [done|]. split; [done|].
  split; [|split].
  - intros i. by apply elem_of_stopIds.
  - by apply NoDup_stopIds.
  - intros i. unfold stopDiffs. rewrite lookup_fmap, map_lookup_filter.
    case_decide as Hin.
    + apply elem_of_stopIds in Hin as (ti & Hi & Hu); [|done].
      rewrite Hi. simpl. by rewrite option_guard_True.
    + destruct (selected !! i) as [ti|] eqn:Hi; simpl; [|done].
      rewrite option_guard_False; [done|].
      intros Hu. apply Hin. apply elem_of_stopIds; [done|]. by exists ti.
Qed.

(** X7.  When PatchTasks fails, a Stop by ranges answers with UpdateError,
    reports no instance as stopped or invalid, and enqueues no task; the
    job is still enqueued. *)
Theorem Stop_by_ranges_patch_failure
    (E : env) (w : world E) (body : StopRequest) (cachedConfig : JobConfig)
    (all : gmap N TaskInfo) (byRange : InstanceRange → gmap N TaskInfo) (err : error) :
  let jobID := stop_JobId body in
  let selected := selectedTasks all byRange (stop_Ranges body) in
  always E IsLeader true →
  always E (JobGetConfig jobID) (Ok cachedConfig) →
  stopsWholeJob (stop_Ranges body) (jc_InstanceCount cachedConfig) = false →
  lookupsAnswer E jobID all byRange →
  keyedByInstance selected →
  always E (PatchTasks jobID (stopDiffs selected)) (Some err) →
  ∃ o,
    run E (Stop body) w = Some o
    ∧ returned o
      = Ok {| stop_Error := Some (StopError_UpdateError
                                    ("Goalstate update failed for " +:+ Error_ err));
              StoppedInstanceIds := []; stop_InvalidInstanceIds := [] |}
    ∧ trace o = [ Event IsLeader true;
                  Event (AddJob jobID) tt;
                  Event (JobGetConfig jobID) (Ok cachedConfig) ]
                ++ lookupTrace jobID all byRange (stop_Ranges body)
                ++ [ Event (PatchTasks jobID (stopDiffs selected)) (Some err);
                     Event (EnqueueJobWithDefaultDelay jobID) tt ]
    ∧ enqueues (trace o) = [ Event (EnqueueJobWithDefaultDelay jobID) tt ].
Proof.
  intros jobID selected Hl Hc Hpart Hlookup Hkey Hpatch.
  destruct (Stop_by_ranges_run E w body cachedConfig all byRange (Some err)
              Hl Hc Hpart Hlookup Hkey Hpatch) as (o & Hrun & Hret & Htr).
  exists o. split; [done|]. split; [done|]. split; [done|].
  rewrite Htr, !enqueues_app.
  rewrite (enqueues_quiet (lookupTrace _ _ _ _)) by apply lookupTrace_quiet.
  done.
Qed.

Lemma getTaskInfosByRanges_first_failure E jobID pre r post byRange err taskInfos w :
  (∀ r', r' ∈ pre →
         always E (GetTasksForJobByRange jobID (clampRange r'))
           (Ok (byRange (clampRange r')))) →
  always E (GetTasksForJobByRange jobID (clampRange r)) (Err err) →
  ensures E (getTaskInfosByRanges jobID (pre ++ r :: post) taskInfos) w
    (λ o, returned o = Err err
          ∧ trace o
            = ((λ r', Event (GetTasksForJobByRange jobID (clampRange r'))
                        (Ok (byRange (clampRange r')))) <$> pre)
              ++ [ Event (GetTasksForJobByRange jobID (clampRange r)) (Err err) ]).
Proof.
  intros Hpre Hr. revert taskInfos w.
  induction pre as [|r0 pre IH]; intros taskInfos w;
    cbn [app getTaskInfosByRanges]; cbv zeta.
  - fold (clampRange r). eapply ensures_ask; [apply Hr|]. by apply ensures_ret.
  - fold (clampRange r0).
    eapply ensures_ask; [apply Hpre, list_elem_of_here|].
    eapply ensures_mono.
    { apply IH. intros r' Hin. by apply Hpre, list_elem_of_further. }
    intros o [Hret Htr]. split; [done|]. simpl. by rewrite Htr.
Qed.

(** X8.  getTaskInfosByRangesFromDB reads the ranges in the order given and
    stops at the first read that fails: it returns that error, and the
    ranges after it are not read.  The end of each range is cut down to
    MaxInt32 before the read. *)
Theorem task_lookup_stops_at_first_failing_range
    (E : env) (w : world E) (jobID : JobID) (pre post : list InstanceRange)
    (r : InstanceRange) (byRange : InstanceRange → gmap N TaskInfo) (err : error) :
  (∀ r', r' ∈ pre →
         always E (GetTasksForJobByRange jobID (clampRange r'))
           (Ok (byRange (clampRange r')))) →
  always E (GetTasksForJobByRange jobID (clampRange r)) (Err err) →
  (∃ o,
     run E (getTaskInfosByRangesFromDB jobID (pre ++ r :: post)) w = Some o
     ∧ returned o = Err err
     ∧ trace o
       = ((λ r', Event (GetTasksForJobByRange jobID (clampRange r'))
                   (Ok (byRange (clampRange r')))) <$> pre)
         ++ [ Event (GetTasksForJobByRange jobID (clampRange r)) (Err err) ]
     ∧ length (trace o) = S (length pre))
  ∧ (∀ r', From (clampRange r') = From r'
           ∧ To (clampRange r') = N.min (To r') MaxInt32).
Proof.
  intros Hpre Hr. split.
  - destruct (getTaskInfosByRanges_first_failure E jobID pre r post byRange err ∅ w
                Hpre Hr) as (o & Hrun & Hret & Htr).
    exists o. unfold getTaskInfosByRangesFromDB.
    rewrite decide_False by (rewrite length_app; simpl; lia).
    split; [done|]. split; [done|]. split; [done|].
    rewrite Htr, length_app, length_fmap. simpl. lia.
  - intros r'. unfold clampRange.
    destruct (N.ltb_spec MaxInt32 (To r')); simpl.
    + split; [done|]. by rewrite N.min_r by lia.
    + split; [done|]. by rewrite N.min_l by lia.
Qed.

Lemma getTaskInfosByRangesFromDB_fails E jobID ranges err w :
  lookupFails E jobID ranges err →
  ensures E (getTaskInfosByRangesFromDB jobID ranges) w
    (λ o, returned o = Err err ∧ trace o = [failedLookup jobID ranges err]).
Proof.
  intros Hfail. unfold getTaskInfosByRangesFromDB.
  destruct ranges as [|r rest]; simpl in Hfail.
  - rewrite decide_True by done. apply ensures_trigger. by rewrite Hfail.
  - rewrite decide_False by done.
    apply (getTaskInfosByRanges_first_failure E jobID [] r rest (λ _, ∅) err ∅ w);
      [|done].
    by intros r' ?%elem_of_nil.
Qed.

(** X9.  When the task lookup fails, Start and a Stop by ranges answer with
    OutOfRange and the instance count of the job, whatever the error was.
    Start has by then written the job runtime with state PENDING. *)
Theorem failed_task_lookup_is_reported_as_OutOfRange
    (E : env) (w : world E) (start : StartRequest) (stop : StopRequest)
    (cachedConfig : JobConfig) (jobRuntime : JobRuntime) (err : error) :
  let jobID := start_JobId start in
  let pending :=
    set_jr_GoalState (set_jr_State jobRuntime JobState_PENDING)
      (GetDefaultJobGoalState (jc_Type cachedConfig)) in
  stop_JobId stop = jobID →
  stopsWholeJob (stop_Ranges stop) (jc_InstanceCount cachedConfig) = false →
  always E IsLeader true →
  always E (JobGetConfig jobID) (Ok cachedConfig) →
  always E (JobGetRuntime jobID) (Ok jobRuntime) →
  bool_decide (jc_Type cachedConfig = BATCH)
    && IsPelotonJobStateTerminal (jr_State jobRuntime) = false →
  always E (JobCompareAndSetRuntime jobID pending) None →
  lookupFails E jobID (start_Ranges start) err →
  lookupFails E jobID (stop_Ranges stop) err →
  (∃ o,
     run E (Start' start) w = Some o
     ∧ returned o
       = Ok {| start_Error := Some (StartError_OutOfRange jobID
                                      (jc_InstanceCount cachedConfig));
               StartedInstanceIds := []; start_InvalidInstanceIds := [] |}
     ∧ trace o = [ Event IsLeader true;
                   Event (AddJob jobID) tt;
                   Event (JobGetConfig jobID) (Ok cachedConfig);
                   Event (JobGetRuntime jobID) (Ok jobRuntime);
                   Event (JobCompareAndSetRuntime jobID pending) None;
                   failedLookup jobID (start_Ranges start) err ]
     ∧ jr_State pending = JobState_PENDING)
  ∧ (∃ o,
       run E (Stop stop) w = Some o
       ∧ returned o
         = Ok {| stop_Error := Some (StopError_OutOfRange jobID
                                       (jc_InstanceCount cachedConfig));
                 StoppedInstanceIds := []; stop_InvalidInstanceIds := [] |}
       ∧ trace o = [ Event IsLeader true;
                     Event (AddJob jobID) tt;
                     Event (JobGetConfig jobID) (Ok cachedConfig);
                     failedLookup jobID (stop_Ranges stop) err ]).
Proof.
  intros jobID pending Hid Hpart Hl Hc Hr Hgate Hcas Hfail Hfail'. split.
  - cut (ensures E (Start' start) w (λ o,
      returned o
      = Ok {| start_Error := Some (StartError_OutOfRange jobID
                                     (jc_InstanceCount cachedConfig));
              StartedInstanceIds := []; start_InvalidInstanceIds := [] |}
      ∧ trace o = [ Event IsLeader true;
                    Event (AddJob jobID) tt;
                    Event (JobGetConfig jobID) (Ok cachedConfig);
                    Event (JobGetRuntime jobID) (Ok jobRuntime);
                    Event (JobCompareAndSetRuntime jobID pending) None;
                    failedLookup jobID (start_Ranges start) err ])).
    { intros (o & ? & ? & ?). by exists o. }
    unfold Start. eapply ensures_ask; [apply Hl|]. simpl negb. cbv iota.
    eapply (ensures_ask _ _ _ _ tt); [by destruct (answer E _ _)|].
    eapply ensures_ask; [apply Hc|]. cbv iota.
    apply ensures_bind. change retryFuel with 5%nat. cbn [Start_jobRuntime].
    unfold Start_jobRuntime_round. eapply ensures_ask; [apply Hr|]. cbv iota.
    rewrite Hgate. cbv zeta. eapply ensures_ask; [apply Hcas|].
    simpl. apply ensures_ret. simpl returned. cbv iota.
    apply ensures_bind.
    eapply ensures_mono; [by apply getTaskInfosByRangesFromDB_fails|].
    intros o1 [Hret1 Htr1]. rewrite Hret1. apply ensures_ret.
    simpl. by rewrite Htr1.
  - cut (ensures E (Stop stop) w (λ o,
      returned o
      = Ok {| stop_Error := Some (StopError_OutOfRange jobID
                                    (jc_InstanceCount cachedConfig));
              StoppedInstanceIds := []; stop_InvalidInstanceIds := [] |}
      ∧ trace o = [ Event IsLeader true;
                    Event (AddJob jobID) tt;
                    Event (JobGetConfig jobID) (Ok cachedConfig);
                    failedLookup jobID (stop_Ranges stop) err ])).
    { intros (o & ? & ? & ?). by exists o. }
    unfold Stop. rewrite Hid. eapply ensures_ask; [apply Hl|]. simpl negb. cbv iota.
    eapply (ensures_ask _ _ _ _ tt); [by destruct (answer E _ _)|].
    eapply ensures_ask; [apply Hc|]. cbv iota zeta. rewrite Hpart.
    apply ensures_bind.
    eapply ensures_mono; [by apply getTaskInfosByRangesFromDB_fails|].
    intros o1 [Hret1 Htr1]. rewrite Hret1. apply ensures_ret.
    simpl. by rewrite Htr1.
Qed.

Lemma Start_taskRuntime_result E fuel body cachedConfig c taskInfo count w :
  serves E (start_JobId body) (jc_Type cachedConfig) c (InstanceId taskInfo) →
  addTask c (InstanceId taskInfo) = None →
  (MaxConcurrencyErrorRetry - count ≤ Z.of_nat fuel)%Z → (1 ≤ fuel)%nat →
  ensures E (Start_taskRuntime GetDefaultTaskGoalState GetInitialHealthState
               fuel body cachedConfig taskInfo count) w
    (λ o, returned o = startResult c (InstanceId taskInfo)).
Proof.
  intros (_ & Hrt & Hcas) Hadd. unfold startResult. rewrite Hadd.
  revert count w. induction fuel as [|fuel IH]; intros count w Hfuel Hpos; [lia|].
  cbn [Start_taskRuntime]. unfold Start_taskRuntime_round.
  eapply ensures_ask; [apply Hrt|].
  destruct (getRuntime c (InstanceId taskInfo)) as [rt|err]; [|by apply ensures_ret].
  destruct (decide (GoalState rt = TaskState_KILLED)) as [Hk|Hk].
  - rewrite (bool_decide_eq_false_2 (_ ≠ _)) by (intros ?; done). cbv zeta.
    eapply ensures_ask; [apply Hcas|].
    destruct (compareAndSet c (InstanceId taskInfo)) as [err|] eqn:Hc.
    + destruct (bool_decide (Some err = Some UnexpectedVersionError)
                && (_ <? MaxConcurrencyErrorRetry)%Z) eqn:Hretry.
      * apply andb_true_iff in Hretry as [Hu Hlt]. rewrite Hu in *.
        apply Z.ltb_lt in Hlt. apply IH; lia.
      * by apply ensures_ret.
    + simpl. by apply ensures_ret.
  - rewrite (bool_decide_eq_true_2 (_ ≠ _)) by done. by apply ensures_ret.
Qed.

Lemma idsOf_cons o c taskInfo taskInfos :
  idsOf o c (taskInfo :: taskInfos)
  = (if decide (startResult c (InstanceId taskInfo) = o) then [InstanceId taskInfo] else [])
    ++ idsOf o c taskInfos.
Proof. unfold idsOf. rewrite filter_cons. by case_decide. Qed.

Lemma Start_tasks_result E w body cachedConfig c taskInfos started failed :
  Forall (λ taskInfo, serves E (start_JobId body) (jc_Type cachedConfig) c
                        (InstanceId taskInfo)) taskInfos →
  ensures E (Start_tasks GetDefaultTaskGoalState GetInitialHealthState
               body cachedConfig taskInfos started failed) w
    (λ o, returned o = (started ++ idsOf TaskStarted c taskInfos,
                        failed ++ idsOf TaskFailed c taskInfos)).
Proof.
  intros Hserved. revert w started failed.
  induction Hserved as [|ti taskInfos Hti _ IH]; intros w started failed;
    cbn [Start_tasks].
  - apply ensures_ret. unfold idsOf. simpl. by rewrite !app_nil_r.
  - eapply ensures_ask; [apply Hti|]. rewrite !idsOf_cons.
    destruct (addTask c (InstanceId ti)) as [err|] eqn:Hadd.
    + eapply ensures_mono; [apply IH|]. intros o Hret. simpl. rewrite Hret.
      unfold startResult. rewrite Hadd.
      rewrite decide_False by done. rewrite decide_True by done.
      simpl. by rewrite <- app_assoc.
    + apply ensures_bind.
      eapply ensures_mono.
      { eapply Start_taskRuntime_result; [done|done|apply retryFuel_suffices..]. }
      intros o1 Hret1. rewrite Hret1.
      destruct (startResult c (InstanceId ti));
        (eapply ensures_mono; [apply IH|]); intros o2 Hret2; simpl; rewrite Hret2;
        repeat case_decide; try done; simpl; by rewrite <- ?app_assoc.
Qed.

(** X10.  The ids a Start reports: of the selected tasks, the started ones are
    those whose AddTask and GetRuntime succeed, whose goal state is KILLED
    and whose compare-and-set is accepted; the invalid ones are those whose
    AddTask, GetRuntime or compare-and-set fails; a task with another goal
    state is in neither list. *)
Theorem Start_reports_started_and_invalid_ids
    (E : env) (w : world E) (body : StartRequest) (cachedConfig : JobConfig)
    (jobRuntime : JobRuntime)
    (all : gmap N TaskInfo) (byRange : InstanceRange → gmap N TaskInfo)
    (c : taskCache) :
  let jobID := start_JobId body in
  let pending :=
    set_jr_GoalState (set_jr_State jobRuntime JobState_PENDING)
      (GetDefaultJobGoalState (jc_Type cachedConfig)) in
  let selected := range_values (selectedTasks all byRange (start_Ranges body)) in
  always E IsLeader true →
  always E (JobGetConfig jobID) (Ok cachedConfig) →
  always E (JobGetRuntime jobID) (Ok jobRuntime) →
  bool_decide (jc_Type cachedConfig = BATCH)
    && IsPelotonJobStateTerminal (jr_State jobRuntime) = false →
  always E (JobCompareAndSetRuntime jobID pending) None →
  lookupsAnswer E jobID all byRange →
  Forall (λ taskInfo, serves E jobID (jc_Type cachedConfig) c (InstanceId taskInfo))
    selected →
  ∃ o,
    run E (Start' body) w = Some o
    ∧ returned o = Ok {| start_Error := None;
                         StartedInstanceIds := idsOf TaskStarted c selected;
                         start_InvalidInstanceIds := idsOf TaskFailed c selected |}
    ∧ enqueues (trace o)
      = enqueueTrace jobID (idsOf TaskStarted c selected)
        ++ [ Event (EnqueueJobWithDefaultDelay jobID) tt ]
    ∧ (∀ taskInfo, taskInfo ∈ selected →
         let i := InstanceId taskInfo in
         (i ∈ idsOf TaskStarted c selected
          ↔ ∃ rt, addTask c i = None ∧ getRuntime c i = Ok rt
                  ∧ GoalState rt = TaskState_KILLED ∧ compareAndSet c i = None)
         ∧ (i ∈ idsOf TaskFailed c selected
            ↔ addTask c i ≠ None
              ∨ (∃ err, getRuntime c i = Err err)
              ∨ (∃ rt, getRuntime c i = Ok rt ∧ GoalState rt = TaskState_KILLED
                       ∧ compareAndSet c i ≠ None))).
Proof.
  intros jobID pending selected Hl Hc Hr Hgate Hcas Hlookup Hserved.
  assert (ensures E (Start' body) w (λ o,
            returned o = Ok {| start_Error := None;
                               StartedInstanceIds := idsOf TaskStarted c selected;
                               start_InvalidInstanceIds := idsOf TaskFailed c selected |}))
    as (o & Hrun & Hret).
  { unfold Start. eapply ensures_ask; [apply Hl|]. simpl negb. cbv iota.
    eapply (ensures_ask _ _ _ _ tt); [by destruct (answer E _ _)|].
    eapply ensures_ask; [apply Hc|]. cbv iota.
    apply ensures_bind. change retryFuel with 5%nat. cbn [Start_jobRuntime].
    unfold Start_jobRuntime_round. eapply ensures_ask; [apply Hr|]. cbv iota.
    rewrite Hgate. cbv zeta. eapply ensures_ask; [apply Hcas|].
    simpl. apply ensures_ret. simpl returned. cbv iota.
    apply ensures_bind.
    eapply ensures_mono; [by apply getTaskInfosByRangesFromDB_selected|].
    intros o1 [Hret1 Htr1]. rewrite Hret1.
    apply ensures_bind.
    eapply ensures_mono; [by apply Start_tasks_result|].
    intros o2 Hret2. rewrite Hret2. simpl.
    apply ensures_bind.
    eapply ensures_mono; [apply enqueueTasks_total|]. intros o3 _.
    apply ensures_trigger_bind. by apply ensures_ret. }
  exists o. split; [done|]. split; [done|]. split.
  - destruct (Start_enqueues GetDefaultJobGoalState GetDefaultTaskGoalState
                GetInitialHealthState E w body) as (o' & Hrun' & Henq).
    rewrite Hrun in Hrun'. injection Hrun' as <-. by rewrite Hret in Henq.
  - intros taskInfo Hin i. unfold idsOf. rewrite !list_elem_of_fmap. split.
    + split.
      * intros (ti & Hi & Hti). apply list_elem_of_filter in Hti as [Hres Hti].
        rewrite <- Hi in Hres. unfold startResult in Hres.
        destruct (addTask c i); [done|].
        destruct (getRuntime c i) as [rt|]; [|done].
        case_decide; [|done].
        destruct (compareAndSet c i); [done|]. by exists rt.
      * intros (rt & Hadd & Hrt & Hk & Hcs). exists taskInfo.
        split; [done|]. apply list_elem_of_filter. split; [|done].
        unfold startResult. fold i. rewrite Hadd, Hrt, decide_True by done.
        by rewrite Hcs.
    + split.
      * intros (ti & Hi & Hti). apply list_elem_of_filter in Hti as [Hres Hti].
        rewrite <- Hi in Hres. unfold startResult in Hres.
        destruct (addTask c i); [by left|].
        destruct (getRuntime c i) as [rt|err]; [|right; left; by exists err].
        case_decide; [|done].
        destruct (compareAndSet c i); [|done].
        right; right. by exists rt.
      * intros Hfail. exists taskInfo. split; [done|].
        apply list_elem_of_filter. split; [|done].
        unfold startResult. fold i.
        destruct Hfail as [Hadd|[[err Hrt]|(rt & Hrt & Hk & Hcs)]].
        -- by destruct (addTask c i).
        -- rewrite Hrt. by destruct (addTask c i).
        -- rewrite Hrt, decide_True by done.
           destruct (addTask c i); [done|]. by destruct (compareAndSet c i).
Qed.

Lemma countOf_cons f (ev : event) (tr : list event) :
  countOf f (ev :: tr) = (if f ev then 1 else 0) + countOf f tr.
Proof.
  unfold countOf. rewrite filter_cons.
  destruct (f ev); [by rewrite decide_True | by rewrite decide_False].
Qed.

Lemma countOf_taskConflictRounds jobID inst taskRuntime written ty n :
  countOf isTaskCAS
    (concat (replicate n (taskConflictRound jobID inst taskRuntime written ty))) = n.
Proof.
  induction n as [|n IH]; [done|].
  cbn [replicate concat]. rewrite countOf_app, IH. done.
Qed.

Lemma Start_taskRuntime_conflicts E fuel body cachedConfig rtOf taskInfo count w :
  taskConflicts' E (start_JobId body) cachedConfig rtOf taskInfo →
  (count < MaxConcurrencyErrorRetry)%Z →
  (MaxConcurrencyErrorRetry - count ≤ Z.of_nat fuel)%Z →
  ensures E (Start_taskRuntime GetDefaultTaskGoalState GetInitialHealthState
               fuel body cachedConfig taskInfo count) w
    (λ o, returned o = TaskFailed
          ∧ trace o
            = concat (replicate (Z.to_nat (MaxConcurrencyErrorRetry - count))
                        (taskConflictRound (start_JobId body) (InstanceId taskInfo)
                           (rtOf (InstanceId taskInfo))
                           (startedRuntime' (start_JobId body) cachedConfig taskInfo
                              (rtOf (InstanceId taskInfo)))
                           (jc_Type cachedConfig)))).
Proof.
  intros (_ & Hrt & Hk & Hcas). revert count w.
  induction fuel as [|fuel IH]; intros count w Hcount Hfuel; [lia|].
  cbn [Start_taskRuntime]. unfold Start_taskRuntime_round.
  eapply ensures_ask; [apply Hrt|]. cbv iota.
  rewrite (bool_decide_eq_false_2 (_ ≠ _)) by (intros ?; done). cbv zeta.
  eapply ensures_ask; [apply Hcas|].
  rewrite bool_decide_eq_true_2 by done. simpl andb.
  replace (Z.to_nat (MaxConcurrencyErrorRetry - count))
    with (S (Z.to_nat (MaxConcurrencyErrorRetry - (count + 1)))) by lia.
  destruct (Z.ltb_spec (count + 1) MaxConcurrencyErrorRetry) as [Hlt|Hge].
  - eapply ensures_mono; [apply IH; lia|]. intros o [Hret Htr].
    split; [done|]. simpl. by rewrite Htr.
  - apply ensures_ret. split; [done|].
    replace (Z.to_nat (MaxConcurrencyErrorRetry - (count + 1))) with 0%nat by lia.
    done.
Qed.

Lemma Start_tasks_conflicts E w body cachedConfig rtOf taskInfos started failed :
  Forall (taskConflicts' E (start_JobId body) cachedConfig rtOf) taskInfos →
  ensures E (Start_tasks GetDefaultTaskGoalState GetInitialHealthState
               body cachedConfig taskInfos started failed) w
    (λ o, returned o = (started, failed ++ (InstanceId <$> taskInfos))
          ∧ quiet (trace o)
          ∧ countOf isTaskCAS (trace o) = 5 * length taskInfos).
Proof.
  intros Hall. revert w started failed.
  induction Hall as [|ti taskInfos Hti _ IH]; intros w started failed;
    cbn [Start_tasks].
  - apply ensures_ret. simpl. rewrite app_nil_r. repeat split. constructor.
  - eapply ensures_ask; [apply Hti|]. cbv iota.
    apply ensures_bind.
    eapply ensures_mono.
    { apply (Start_taskRuntime_conflicts E retryFuel body cachedConfig rtOf ti 0);
        [done|done|apply retryFuel_suffices]. }
    intros o1 [Hret1 Htr1]. rewrite Hret1.
    eapply ensures_mono; [apply IH|]. intros o2 (Hret2 & Hq2 & Hn2).
    simpl. rewrite Hret2, Htr1. split; [by rewrite <- app_assoc|]. split.
    + constructor; [done|]. apply Forall_app. split; [|done].
      by repeat constructor.
    + match goal with
      | |- countOf _ (?a :: ?l ++ ?r) = _ => change (countOf isTaskCAS ([a] ++ l ++ r) = 5 * S (length taskInfos))
      end.
      rewrite !countOf_app, Hn2, countOf_taskConflictRounds.
      change (Z.to_nat (MaxConcurrencyErrorRetry - 0)) with 5. simpl. lia.
Qed.

Lemma isTaskCAS_quiet_lookup jobID all byRange ranges :
  countOf isTaskCAS (lookupTrace jobID all byRange ranges) = 0.
Proof.
  unfold lookupTrace, countOf. case_decide as Hlen.
  - by rewrite filter_cons, decide_False.
  - clear Hlen. induction ranges as [|r ranges IH]; [done|].
    cbn [fmap list_fmap]. by rewrite filter_cons, decide_False.
Qed.

(** X11.  Start retries the write of a task runtime as it retries that of the
    job runtime: with every selected task stopped and every
    CompareAndSetRuntime of a task rejected with UnexpectedVersionError,
    each task gets MaxConcurrencyErrorRetry (5) attempts and is then
    reported in InvalidInstanceIds; the response has no error variant,
    nothing is started and only the job is enqueued. *)
Theorem Start_gives_up_on_a_task_at_fifth_conflict
    (E : env) (w : world E) (body : StartRequest) (cachedConfig : JobConfig)
    (jobRuntime : JobRuntime)
    (all : gmap N TaskInfo) (byRange : InstanceRange → gmap N TaskInfo)
    (rtOf : N → RuntimeInfo) :
  let jobID := start_JobId body in
  let pending :=
    set_jr_GoalState (set_jr_State jobRuntime JobState_PENDING)
      (GetDefaultJobGoalState (jc_Type cachedConfig)) in
  let selected := range_values (selectedTasks all byRange (start_Ranges body)) in
  always E IsLeader true →
  always E (JobGetConfig jobID) (Ok cachedConfig) →
  always E (JobGetRuntime jobID) (Ok jobRuntime) →
  bool_decide (jc_Type cachedConfig = BATCH)
    && IsPelotonJobStateTerminal (jr_State jobRuntime) = false →
  always E (JobCompareAndSetRuntime jobID pending) None →
  lookupsAnswer E jobID all byRange →
  Forall (taskConflicts' E jobID cachedConfig rtOf) selected →
  ∃ o,
    run E (Start' body) w = Some o
    ∧ returned o = Ok {| start_Error := None;
                         StartedInstanceIds := [];
                         start_InvalidInstanceIds := InstanceId <$> selected |}
    ∧ countOf isTaskCAS (trace o) = 5 * length selected
    ∧ enqueues (trace o) = [ Event (EnqueueJobWithDefaultDelay jobID) tt ]
    ∧ Z.to_nat MaxConcurrencyErrorRetry = 5.
Proof.
  intros jobID pending selected Hl Hc Hr Hgate Hcas Hlookup Hall.
  cut (ensures E (Start' body) w (λ o,
         returned o = Ok {| start_Error := None;
                            StartedInstanceIds := [];
                            start_InvalidInstanceIds := InstanceId <$> selected |}
         ∧ countOf isTaskCAS (trace o) = 5 * length selected
         ∧ enqueues (trace o) = [ Event (EnqueueJobWithDefaultDelay jobID) tt ])).
  { intros (o & ? & ? & ? & ?). by exists o. }
  unfold Start. eapply ensures_ask; [apply Hl|]. simpl negb. cbv iota.
  eapply (ensures_ask _ _ _ _ tt); [by destruct (answer E _ _)|].
  eapply ensures_ask; [apply Hc|]. cbv iota.
  apply ensures_bind. change retryFuel with 5%nat. cbn [Start_jobRuntime].
  unfold Start_jobRuntime_round. eapply ensures_ask; [apply Hr|]. cbv iota.
  rewrite Hgate. cbv zeta. eapply ensures_ask; [apply Hcas|].
  simpl. apply ensures_ret. simpl returned. cbv iota.
  apply ensures_bind.
  eapply ensures_mono; [by apply getTaskInfosByRangesFromDB_selected|].
  intros o1 [Hret1 Htr1]. rewrite Hret1.
  apply ensures_bind.
  eapply ensures_mono; [by eapply Start_tasks_conflicts|].
  intros o2 (Hret2 & Hq2 & Hn2). rewrite Hret2. simpl.
  eapply (ensures_ask _ _ _ _ tt); [by destruct (answer E _ _)|].
  apply ensures_ret. simpl. split; [done|].
  rewrite Htr1.
  match goal with
  | |- countOf _ (?a :: ?b :: ?c :: ?d :: ?e :: ?l) = _ ∧ _ =>
      change (countOf isTaskCAS ([a; b; c; d; e] ++ l) = 5 * length selected
              ∧ enqueues ([a; b; c; d; e] ++ l)
                = [Event (EnqueueJobWithDefaultDelay jobID) tt])
  end.
  rewrite !countOf_app, !enqueues_app, isTaskCAS_quiet_lookup, Hn2.
  rewrite (enqueues_quiet (lookupTrace _ _ _ _)) by apply lookupTrace_quiet.
  rewrite (enqueues_quiet (trace o2)) by done.
  split; [|done]. rewrite !countOf_cons. simpl. unfold countOf, selected. simpl. lia.
Qed.

Lemma Forall_countOf_0 (f g : event → bool) (tr : list event) :
  (∀ ev, g ev = true → f ev = false) →
  Forall (λ ev, g ev = true) tr → countOf f tr = 0.
Proof.
  intros Hfg. unfold countOf. induction 1 as [|ev tr Hev _ IH]; [done|].
  rewrite filter_cons, decide_False; [done|]. by rewrite (Hfg _ Hev).
Qed.

Lemma getTaskInfosByRanges_reads E jobID ranges taskInfos w :
  ensures E (getTaskInfosByRanges jobID ranges taskInfos) w
    (λ o, Forall (λ ev, isStoreRead ev = true) (trace o)).
Proof.
  revert taskInfos w.
  induction ranges as [|r ranges IH]; intros taskInfos w; cbn [getTaskInfosByRanges].
  - apply ensures_ret. constructor.
  - cbv zeta. apply ensures_trigger_bind.
    destruct (answer E _ w) as [m|err].
    + eapply ensures_mono; [apply IH|]. intros o Ho. simpl. by constructor.
    + apply ensures_ret. simpl. by repeat constructor.
Qed.

Lemma getTaskInfosByRangesFromDB_reads E jobID ranges w :
  ensures E (getTaskInfosByRangesFromDB jobID ranges) w
    (λ o, Forall (λ ev, isStoreRead ev = true) (trace o)).
Proof.
  unfold getTaskInfosByRangesFromDB. case_decide.
  - apply ensures_trigger. by repeat constructor.
  - apply getTaskInfosByRanges_reads.
Qed.

Lemma store_read_is_no_patch ev : isStoreRead ev = true → isPatch ev = false.
Proof. destruct ev as [X c x]. by destruct c. Qed.

Lemma store_read_is_no_enqueue ev : isStoreRead ev = true → isEnqueue ev = false.
Proof. destruct ev as [X c x]. by destruct c. Qed.

Lemma countOf_enqueueTrace f jobID ids :
  (∀ i, f (Event (EnqueueTask jobID i) tt) = false) →
  countOf f (enqueueTrace jobID ids) = 0.
Proof.
  intros Hf. unfold enqueueTrace. induction ids as [|i ids IH]; [done|].
  cbn [fmap list_fmap]. by rewrite countOf_cons, Hf.
Qed.

(** X12.  Restart, whatever the collaborators answer: it hands the diffs to
    PatchTasks at most once; when it returns an error it has enqueued
    nothing; when it succeeds the one patch was accepted and the instances
    enqueued are those of the diffs patched, each once. *)
Theorem Restart_enqueues_what_it_patched
    (E : env) (w : world E) (req : RestartRequest) :
  ∃ o,
    run E (Restart req) w = Some o
    ∧ (countOf isPatch (trace o) ≤ 1)%nat
    ∧ match returned o with
      | Err _ => enqueues (trace o) = []
      | Ok _ =>
          ∃ diffs : gmap N RuntimeDiff,
            Event (PatchTasks (restart_JobId req) diffs) None ∈ trace o
            ∧ countOf isPatch (trace o) = 1
            ∧ enqueues (trace o) = enqueueTrace (restart_JobId req) (range_keys diffs)
            ∧ NoDup (range_keys diffs)
      end.
Proof.
  unfold Restart. apply ensures_trigger_bind.
  destruct (answer E IsLeader w); simpl negb; cbv iota;
    [|apply ensures_ret; simpl; split; [rewrite countOf_cons; simpl; unfold countOf; simpl; lia | done]].
  eapply (ensures_ask _ _ _ _ tt); [by destruct (answer E _ _)|].
  unfold getRuntimeDiffsForRestart. apply ensures_bind. apply ensures_bind.
  eapply ensures_mono; [apply getTaskInfosByRangesFromDB_reads|].
  intros o1 Hreads.
  assert (countOf isPatch (trace o1) = 0) as Hp1.
  { eapply Forall_countOf_0; [apply store_read_is_no_patch | done]. }
  assert (enqueues (trace o1) = []) as He1.
  { apply enqueues_quiet. eapply Forall_impl; [exact Hreads|].
    apply store_read_is_no_enqueue. }
  destruct (returned o1) as [taskInfos|err]; apply ensures_ret; simpl returned.
  2:{ apply ensures_ret. simpl. rewrite !app_nil_r.
      rewrite !countOf_cons, Hp1. simpl. split; [lia|]. exact He1. }
  apply ensures_trigger_bind.
  set (diffs := restartDiffs (restart_JobId req) (range_values taskInfos) ∅).
  destruct (answer E (PatchTasks _ diffs) _) as [err|].
  - apply ensures_ret. simpl. rewrite !app_nil_r.
    match goal with
    | |- (countOf _ (?a :: ?b :: ?l) ≤ 1)%nat ∧ _ =>
        change ((countOf isPatch ([a; b] ++ l) ≤ 1)%nat ∧ enqueues ([a; b] ++ l) = [])
    end.
    rewrite !countOf_app, !enqueues_app, Hp1, He1, !countOf_cons. simpl.
    split; [|done]. unfold countOf. simpl. lia.
  - apply ensures_bind.
    eapply ensures_mono; [apply enqueueTasks_trace|]. intros o2 [_ Htr2].
    apply ensures_ret. simpl. rewrite !app_nil_r, Htr2.
    assert (countOf isPatch
              (Event IsLeader true :: Event (AddJob (restart_JobId req)) ()
               :: trace o1 ++ Event (PatchTasks (restart_JobId req) diffs) None
               :: enqueueTrace (restart_JobId req) (range_keys diffs)) = 1) as Hone.
    { rewrite !countOf_cons, countOf_app, Hp1, countOf_cons,
        countOf_enqueueTrace by done. done. }
    split; [by rewrite Hone|]. exists diffs. split; [|split; [done|split]].
    + do 2 apply list_elem_of_further. apply elem_of_app. right.
      apply list_elem_of_here.
    + match goal with
      | |- enqueues (?a :: ?b :: ?l ++ ?c :: ?r) = _ =>
          change (enqueues ([a; b] ++ l ++ [c] ++ r) = r)
      end.
      by rewrite !enqueues_app, He1, enqueues_enqueueTrace.
    + apply NoDup_range_keys.
Qed.

Lemma GetPodEvents_loop_content E rounds body podID res w :
  ensures E (GetPodEvents_loop rounds body podID res) w
    (λ o, match returned o with
          | Ok resp =>
              ∃ runs evss,
                trace o = walkTrace (gpe_JobId body) (gpe_InstanceId body) podID runs
                ∧ Forall2 toTaskPodEvents runs evss
                ∧ gpe_Result resp = res ++ concat evss
          | Err err => ∃ e msg, err = Wrapped e msg
          end).
Proof.
  revert podID res w. induction rounds as [|rounds IH]; intros podID res w;
    cbn [GetPodEvents_loop].
  - apply ensures_ret. simpl. exists [], []. simpl. rewrite app_nil_r.
    repeat split. constructor.
  - apply ensures_trigger_bind.
    destruct (answer E _ w) as [podEvents|err]; [|apply ensures_ret; simpl; by eauto].
    pose proof (convertRun_spec podEvents res) as Hconv.
    destruct (convertRun podEvents res "") as [[res' prevPodID]|err] eqn:Hrun;
      [|apply ensures_ret; simpl; destruct Hconv as [_ [msg ->]]; by eauto].
    destruct Hconv as (_ & -> & evs & -> & Hall).
    assert (∀ w', ensures E (Ret (Ok {| gpe_Result := res ++ evs |})) w'
              (λ o, match returned (prepend
                            [Event (TaskStore_GetPodEvents (gpe_JobId body)
                                      (gpe_InstanceId body) podID) (Ok podEvents)] o) with
                    | Ok resp =>
                        ∃ runs evss,
                          trace (prepend
                            [Event (TaskStore_GetPodEvents (gpe_JobId body)
                                      (gpe_InstanceId body) podID) (Ok podEvents)] o)
                          = walkTrace (gpe_JobId body) (gpe_InstanceId body) podID runs
                          ∧ Forall2 toTaskPodEvents runs evss
                          ∧ gpe_Result resp = res ++ concat evss
                    | Err err => ∃ e msg, err = Wrapped e msg
                    end)) as Hstop.
    { intros w'. apply ensures_ret. simpl. exists [podEvents], [evs].
      simpl. rewrite app_nil_r. repeat split. by repeat constructor. }
    case_bool_decide; [apply Hstop|].
    destruct (ParseRunID (lastPrevPodID podEvents)) as [prevRunID|err];
      [|apply ensures_ret; simpl; by eauto].
    case_bool_decide; [apply Hstop|].
    eapply ensures_mono; [apply IH|]. intros o Ho. simpl in Ho |- *.
    destruct (returned o) as [resp|err]; [|exact Ho].
    destruct Ho as (runs & evss & Htr & Hall' & Hres).
    exists (podEvents :: runs), (evs :: evss). split; [|split].
    + simpl. by rewrite Htr.
    + by constructor.
    + simpl. by rewrite Hres, app_assoc.
Qed.

Lemma toTaskPodEvent_prev prevPodID e t :
  toTaskPodEvent prevPodID e = Some t → tpe_PrevTaskId t = prevPodID.
Proof.
  unfold toTaskPodEvent. destruct (ParseInt (pe_Version e)); [|done].
  destruct (ParseInt (pe_DesiredVersion e)); [|done]. simpl. by intros [= <-].
Qed.

Lemma toTaskPodEvents_length runs evss :
  Forall2 toTaskPodEvents runs evss → length (concat evss) = length (concat runs).
Proof.
  induction 1 as [|podEvents evs runs evss Hrun _ IH]; [done|].
  simpl. rewrite !length_app, IH. f_equal. symmetry. by eapply Forall2_length.
Qed.

(** X13.  What GetPodEvents returns: the events of the runs it fetched, in the
    order fetched and in the store's order within a run, each in its wire
    form; the first fetch asks for the run of the request and each later
    one for the prev pod id of the last event before it.  The wire events
    of one run share the variable that holds the prev pod id, so each of
    them reports the prev pod id of the last event of its run, whatever
    its own is.  An error it returns is a wrapped one. *)
Theorem GetPodEvents_returns_the_events_fetched
    (E : env) (w : world E) (body : GetPodEventsRequest) :
  ∃ o,
    run E (GetPodEvents body) w = Some o
    ∧ match returned o with
      | Ok resp =>
          ∃ runs evss,
            trace o = walkTrace (gpe_JobId body) (gpe_InstanceId body)
                        (gpe_RunId body) runs
            ∧ Forall2 toTaskPodEvents runs evss
            ∧ gpe_Result resp = concat evss
            ∧ Forall2 (λ podEvents evs,
                         Forall (λ t, tpe_PrevTaskId t = lastPrevPodID podEvents) evs)
                runs evss
            ∧ length (gpe_Result resp) = length (concat runs)
      | Err err => ∃ e msg, err = Wrapped e msg
      end.
Proof.
  unfold GetPodEvents. cbv zeta.
  eapply ensures_mono; [apply GetPodEvents_loop_content|]. intros o Ho.
  simpl in Ho. destruct (returned o) as [resp|err]; [|exact Ho].
  destruct Ho as (runs & evss & Htr & Hall & Hres). simpl in Hres.
  exists runs, evss. split; [done|]. split; [done|]. split; [done|]. split.
  - eapply Forall2_impl; [exact Hall|]. intros podEvents evs Hrun.
    apply Forall_forall. intros t Ht.
    apply list_elem_of_lookup in Ht as [i Hi].
    destruct (Forall2_lookup_r _ _ _ _ _ Hrun Hi) as (e & _ & He).
    by eapply toTaskPodEvent_prev.
  - rewrite Hres. by apply toTaskPodEvents_length.
Qed.

Lemma stopJob_loop_recovers (s : stub) fuel jobID instanceCount jobRuntime count
    (k : nat) (rest : list (option error)) :
  let killed :=
    set_jr_GoalState
      (set_jr_DesiredStateVersion jobRuntime
         (uint64_add (jr_DesiredStateVersion jobRuntime) 1))
      JobState_KILLED in
  Stub.jobRuntime s = Ok jobRuntime →
  jr_GoalState jobRuntime ≠ JobState_KILLED →
  (count + Z.of_nat k < MaxConcurrencyErrorRetry)%Z →
  (k < fuel)%nat →
  ensures (scriptedEnv s) (stopJob_loop fuel jobID instanceCount count)
    (replicate k UnexpectedVersion ++ None :: rest)
    (λ o, returned o = Break
          ∧ final o = rest
          ∧ trace o
            = concat (replicate k (conflictRound jobID jobRuntime killed))
              ++ [ Event (JobGetRuntime jobID) (Ok jobRuntime);
                   Event (JobCompareAndSetRuntime jobID killed) None ]).
Proof.
  intros killed Hrt Hk. revert fuel count.
  induction k as [|k IH]; intros fuel count Hcount Hfuel;
    (destruct fuel as [|fuel]; [lia|]);
    cbn [stopJob_loop]; unfold stopJob_round;
    (eapply ensures_ask; [exact Hrt|]); cbv iota;
    rewrite bool_decide_eq_false_2 by done; cbv zeta; fold killed.
  - eapply (ensures_ask _ _ _ _ None); [reflexivity|]. by apply ensures_ret.
  - eapply (ensures_ask _ _ _ _ (Some UnexpectedVersionError)); [reflexivity|].
    cbv iota. rewrite bool_decide_eq_true_2 by done. simpl andb.
    rewrite (proj2 (Z.ltb_lt _ _)) by lia.
    eapply ensures_mono; [apply IH; lia|]. intros o (Hret & Hfin & Htr).
    split; [done|]. split; [done|]. simpl. do 2 f_equal. exact Htr.
Qed.

(** X14.  The retry succeeds when the conflicts stop in time: on a store that
    rejects the first k job-level writes of a whole-job Stop with
    UnexpectedVersionError, k below MaxConcurrencyErrorRetry, and accepts
    the next one, the handler makes k + 1 writes, enqueues the job once and
    reports every instance stopped. *)
Theorem Stop_recovers_from_fewer_conflicts
    (s : stub) (body : StopRequest) (cachedConfig : JobConfig)
    (jobRuntime : JobRuntime) (k : nat) (rest : list (option error)) :
  leader s = true →
  jobConfig s = Ok cachedConfig →
  Stub.jobRuntime s = Ok jobRuntime →
  jr_GoalState jobRuntime ≠ JobState_KILLED →
  stopsWholeJob (stop_Ranges body) (jc_InstanceCount cachedConfig) = true →
  (Z.of_nat k < MaxConcurrencyErrorRetry)%Z →
  ∃ o,
    run (scriptedEnv s) (Stop body) (replicate k UnexpectedVersion ++ None :: rest)
    = Some o
    ∧ returned o = Ok {| stop_Error := None;
                         StoppedInstanceIds := instanceList (jc_InstanceCount cachedConfig);
                         stop_InvalidInstanceIds := [] |}
    ∧ final o = rest
    ∧ countOf isJobCAS (trace o) = S k
    ∧ enqueues (trace o) = [ Event (EnqueueJob (stop_JobId body)) tt ].
Proof.
  intros Hl Hc Hr Hk Hwhole Hlt.
  set (killed := set_jr_GoalState
                   (set_jr_DesiredStateVersion jobRuntime
                      (uint64_add (jr_DesiredStateVersion jobRuntime) 1))
                   JobState_KILLED).
  cut (ensures (scriptedEnv s) (Stop body)
         (replicate k UnexpectedVersion ++ None :: rest) (λ o,
         returned o = Ok {| stop_Error := None;
                            StoppedInstanceIds := instanceList (jc_InstanceCount cachedConfig);
                            stop_InvalidInstanceIds := [] |}
         ∧ final o = rest
         ∧ trace o = [ Event IsLeader true;
                       Event (AddJob (stop_JobId body)) tt;
                       Event (JobGetConfig (stop_JobId body)) (Ok cachedConfig);
                       Event (AddJob (stop_JobId body)) tt ]
                     ++ (concat (replicate k (conflictRound (stop_JobId body) jobRuntime killed))
                         ++ [ Event (JobGetRuntime (stop_JobId body)) (Ok jobRuntime);
                              Event (JobCompareAndSetRuntime (stop_JobId body) killed) None ])
                     ++ [ Event (EnqueueJob (stop_JobId body)) tt ])).
  { intros (o & Hrun & Hret & Hfin & Htr). exists o.
    split; [done|]. split; [done|]. split; [done|]. rewrite Htr. split.
    - rewrite !countOf_app, countOf_conflictRounds, !countOf_cons.
      simpl. unfold countOf. simpl. lia.
    - rewrite !enqueues_app.
      rewrite (enqueues_quiet (concat _)).
      + done.
      + apply Forall_concat, Forall_replicate. by repeat constructor. }
  unfold Stop. eapply ensures_ask; [exact Hl|]. simpl negb. cbv iota.
  eapply (ensures_ask _ _ _ _ tt); [reflexivity|].
  eapply ensures_ask; [exact Hc|]. cbv iota zeta. rewrite Hwhole.
  unfold stopJob.
  eapply (ensures_ask _ _ _ _ tt); [reflexivity|].
  apply ensures_bind.
  eapply ensures_mono.
  { apply (stopJob_loop_recovers s retryFuel (stop_JobId body)
             (jc_InstanceCount cachedConfig) jobRuntime 0 k rest); [done|done|lia|].
    change retryFuel with 5%nat. unfold MaxConcurrencyErrorRetry in Hlt. lia. }
  intros o1 (Hret1 & Hfin1 & Htr1). rewrite Hret1.
  eapply (ensures_ask _ _ _ _ tt); [reflexivity|].
  apply ensures_ret. simpl. split; [done|]. split; [exact Hfin1|].
  do 4 f_equal. f_equal. exact Htr1.
Qed.

End MoreHandlerFacts.

(* --------------------------------------------------------------------- *)
(* Facts about the RPCs that read                                        *)
(* --------------------------------------------------------------------- *)

Lemma hafter_nil {R W} (o : option (houtcome R W)) : hafter [] o = o.
Proof. by destruct o as [[]|]. Qed.

Lemma hrun_vis E {R X} (c : hcall X) (k : X → hprog R) w :
  hrun E (HVis c k) w
  = hafter [HEvent c (hanswer E c w)] (hrun E (k (hanswer E c w)) (hnext E c w)).
Proof.
  unfold hanswer, hnext. simpl. destruct (hrespond E X c w) as [x w']. simpl.
  by destruct (hrun E (k x) w').
Qed.

Lemma hrun_bind E {A B} (p : hprog A) (f : A → hprog B) w :
  hrun E (p ≫= f) w =
  match hrun E p w with
  | Some o => hafter (htrace o) (hrun E (f (hreturned o)) (hfinal o))
  | None => None
  end.
Proof.
  revert w. induction p as [a|X c k IH|]; intros w.
  - simpl. by rewrite hafter_nil.
  - change (hrun E (HVis c (λ x, k x ≫= f)) w = match hrun E (HVis c k) w with
              | Some o => hafter (htrace o) (hrun E (f (hreturned o)) (hfinal o))
              | None => None end).
    rewrite !hrun_vis, IH.
    destruct (hrun E (k (hanswer E c w)) (hnext E c w)) as [o|]; simpl; [|done].
    by destruct (hrun E (f (hreturned o)) (hfinal o)).
  - done.
Qed.

Lemma hrun_ask_bind E {X B} (c : hcall X) (f : X → hprog B) w :
  hrun E (ask c ≫= f) w
  = hafter [HEvent c (hanswer E c w)] (hrun E (f (hanswer E c w)) (hnext E c w)).
Proof.
  rewrite hrun_bind. unfold ask. rewrite hrun_vis. simpl.
  by destruct (hrun E (f (hanswer E c w)) (hnext E c w)).
Qed.

Lemma hensures_ret E {R} (r : R) w (Q : houtcome R (hworld E) → Prop) :
  Q (HOutcome r w []) → hensures E (HRet r) w Q.
Proof. intros HQ. by exists (HOutcome r w []). Qed.

Lemma hensures_mono E {R} (p : hprog R) w (Q Q' : houtcome R (hworld E) → Prop) :
  hensures E p w Q → (∀ o, Q o → Q' o) → hensures E p w Q'.
Proof. intros (o & Hrun & HQ) Himp. exists o. auto. Qed.

Lemma hensures_bind E {A B} (p : hprog A) (f : A → hprog B) w
    (Q : houtcome B (hworld E) → Prop) :
  hensures E p w (λ o, hensures E (f (hreturned o)) (hfinal o)
                         (λ o', Q (hprepend (htrace o) o'))) →
  hensures E (p ≫= f) w Q.
Proof.
  intros (o & Hrun & o' & Hrun' & HQ). exists (hprepend (htrace o) o').
  rewrite hrun_bind, Hrun, Hrun'. done.
Qed.

Lemma hensures_ask_bind E {X B} (c : hcall X) (f : X → hprog B) w
    (Q : houtcome B (hworld E) → Prop) :
  hensures E (f (hanswer E c w)) (hnext E c w)
    (λ o, Q (hprepend [HEvent c (hanswer E c w)] o)) →
  hensures E (ask c ≫= f) w Q.
Proof.
  intros (o & Hrun & HQ). exists (hprepend [HEvent c (hanswer E c w)] o).
  rewrite hrun_ask_bind, Hrun. done.
Qed.

Lemma hensures_answer E {X B} (c : hcall X) (f : X → hprog B) w (x : X)
    (Q : houtcome B (hworld E) → Prop) :
  hanswer E c w = x →
  hensures E (f x) (hnext E c w) (λ o, Q (hprepend [HEvent c x] o)) →
  hensures E (ask c ≫= f) w Q.
Proof. intros <-. apply hensures_ask_bind. Qed.

Lemma hrun_lift E {R} (p : prog R) w :
  hrun E (lift p) w
  = match run (coreEnv E) p w with
    | Some o => Some (HOutcome (returned o) (final o) (coreEvent <$> trace o))
    | None => None
    end.
Proof.
  revert w. induction p as [r|X c k IH|]; intros w; [done| |done].
  simpl. destruct (hrespond E X (Core c) w) as [x w']. rewrite IH.
  by destruct (run (coreEnv E) (k x) w').
Qed.

Section ReadsFacts.

Variable ParseRunID : string → result N.
Variable ParsePodEntityVersion : string → result Z.
Variable TaskState_value : gmap string Z.
Variable IsPelotonStateTerminal : Z → bool.
Variable CreatePelotonTaskID : string → N → string.
Variable ExtractIPAndPortFromMesosAgentPID : string → result (string * string).
Variable JobID_String : JobID → string.
Variable mesosAgentWorkDir : string.

Abbreviation convertPodEventsFormat' := (convertPodEventsFormat ParsePodEntityVersion).
Abbreviation wireEvent' := (wireEvent ParsePodEntityVersion).
Abbreviation getTerminalEvents' :=
  (getTerminalEvents TaskState_value IsPelotonStateTerminal).
Abbreviation terminal' := (terminal TaskState_value IsPelotonStateTerminal).
Abbreviation eventTaskInfo' := (eventTaskInfo TaskState_value).

Lemma convertPodEventsFormat_loop_spec podEvents res :
  match convertPodEventsFormat_loop ParsePodEntityVersion podEvents res with
  | Ok res' =>
      ∃ evs, Forall2 (λ e t, wireEvent' e = Ok t) podEvents evs ∧ res' = res ++ evs
  | Err err =>
      ∃ pre e post,
        podEvents = pre ++ e :: post
        ∧ Forall (λ e', ∃ t, wireEvent' e' = Ok t) pre
        ∧ wireEvent' e = Err err
  end.
Proof.
  revert res. induction podEvents as [|e podEvents IH]; intros res.
  - simpl. exists []. split; [constructor | by rewrite app_nil_r].
  - cbn [convertPodEventsFormat_loop]. cbv zeta.
    destruct (ParsePodEntityVersion (pe_Version e)) as [v|err] eqn:Hv.
    2:{ exists [], e, podEvents. split; [done|]. split; [constructor|].
        unfold wireEvent. by rewrite Hv. }
    destruct (ParsePodEntityVersion (pe_DesiredVersion e)) as [d|err] eqn:Hd.
    2:{ exists [], e, podEvents. split; [done|]. split; [constructor|].
        unfold wireEvent. by rewrite Hv, Hd. }
    match goal with
    | |- match convertPodEventsFormat_loop _ _ (res ++ [?t]) with _ => _ end =>
        assert (wireEvent' e = Ok t) as He by (unfold wireEvent; by rewrite Hv, Hd);
        specialize (IH (res ++ [t]));
        destruct (convertPodEventsFormat_loop ParsePodEntityVersion podEvents
                    (res ++ [t])) as [res'|err]
    end.
    + destruct IH as (evs & Hall & ->). eexists (_ :: evs).
      split; [by constructor | by rewrite <- app_assoc].
    + destruct IH as (pre & e' & post & -> & Hpre & He').
      exists (e :: pre), e', post. split; [done|]. split; [|done].
      constructor; [by eexists | done].
Qed.

(** X15.  convertPodEventsFormat converts all the events or none: a result has
    one wire event per store event, in the same order; an error is the
    parse error of the first event one of whose versions does not parse,
    and nothing of the events before it is returned. *)
Theorem convertPodEventsFormat_converts_all_or_nothing (podEvents : list PodEvent) :
  match convertPodEventsFormat' podEvents with
  | Ok res =>
      Forall2 (λ e t, wireEvent' e = Ok t) podEvents res
      ∧ length res = length podEvents
  | Err err =>
      ∃ pre e post,
        podEvents = pre ++ e :: post
        ∧ Forall (λ e', ∃ t, wireEvent' e' = Ok t) pre
        ∧ wireEvent' e = Err err
  end.
Proof.
  unfold convertPodEventsFormat.
  pose proof (convertPodEventsFormat_loop_spec podEvents []) as H.
  destruct (convertPodEventsFormat_loop ParsePodEntityVersion podEvents []) as [res|err];
    [|done].
  destruct H as (evs & Hall & ->). simpl. split; [done|].
  symmetry. by eapply Forall2_length.
Qed.

Lemma getTerminalEvents_loop_spec eventList lastTaskInfo taskInfos :
  getTerminalEvents_loop TaskState_value IsPelotonStateTerminal
    eventList lastTaskInfo taskInfos
  = taskInfos ++ (eventTaskInfo' lastTaskInfo <$> filter terminal' eventList).
Proof.
  revert taskInfos. induction eventList as [|event eventList IH]; intros taskInfos.
  - simpl. by rewrite app_nil_r.
  - cbn [getTerminalEvents_loop]. cbv zeta. rewrite filter_cons.
    destruct (IsPelotonStateTerminal
                (taskStateOf TaskState_value (tpe_ActualState event))) eqn:Ht; simpl negb;
      cbv iota.
    + rewrite decide_True by done. rewrite IH. cbn [fmap list_fmap].
      by rewrite <- app_assoc.
    + rewrite decide_False by (unfold terminal; by rewrite Ht). apply IH.
Qed.

(** X16.  getTerminalEvents keeps the events whose actual state is terminal, in
    their order, and makes one task info of each: with the instance id and
    config of the last task info (zero values when there is none) and the
    state, ids, host, agent, message and reason of the event. *)
Theorem getTerminalEvents_keeps_the_terminal_events
    (eventList : list TaskPodEvent) (lastTaskInfo : option TaskInfo) :
  getTerminalEvents' eventList lastTaskInfo
  = eventTaskInfo' lastTaskInfo <$> filter terminal' eventList
  ∧ (length (getTerminalEvents' eventList lastTaskInfo) ≤ length eventList)%nat
  ∧ (∀ t, t ∈ getTerminalEvents' eventList lastTaskInfo →
          IsPelotonStateTerminal (eti_State t) = true
          ∧ eti_InstanceId t = from_option InstanceId 0%N lastTaskInfo
          ∧ ∃ event, event ∈ eventList ∧ eti_MesosTaskId t = tpe_TaskId event
                     ∧ eti_Host t = tpe_Hostname event)
  ∧ (Forall (λ event, ¬ terminal' event) eventList →
     getTerminalEvents' eventList lastTaskInfo = []).
Proof.
  assert (getTerminalEvents' eventList lastTaskInfo
          = eventTaskInfo' lastTaskInfo <$> filter terminal' eventList) as Heq.
  { unfold getTerminalEvents. by rewrite getTerminalEvents_loop_spec. }
  split; [done|]. rewrite Heq. split; [|split].
  - rewrite length_fmap. apply length_filter.
  - intros t (event & -> & Hin)%list_elem_of_fmap.
    apply list_elem_of_filter in Hin as [Hterm Hin]. split; [done|]. split; [done|].
    by exists event.
  - intros Hnone. induction Hnone as [|event eventList Hev _ IH]; [done|].
    rewrite filter_cons, decide_False by done. apply IH.
    unfold getTerminalEvents. by rewrite getTerminalEvents_loop_spec.
Qed.

End ReadsFacts.

Section ReadsFacts2.

Variable ParseRunID : string → result N.
Variable ParsePodEntityVersion : string → result Z.
Variable TaskState_value : gmap string Z.
Variable IsPelotonStateTerminal : Z → bool.

Abbreviation convertPodEventsFormat' := (convertPodEventsFormat ParsePodEntityVersion).
Abbreviation wireEvent' := (wireEvent ParsePodEntityVersion).
Abbreviation getPodEvents' := (getPodEvents ParseRunID ParsePodEntityVersion).
Abbreviation getPodEvents_loop' := (getPodEvents_loop ParseRunID ParsePodEntityVersion).
Abbreviation terminal' := (terminal TaskState_value IsPelotonStateTerminal).
Abbreviation getHostInfoWithTaskID' :=
  (getHostInfoWithTaskID ParseRunID ParsePodEntityVersion TaskState_value
     IsPelotonStateTerminal).

Lemma convertPodEventsFormat_wire podEvents evs :
  Forall2 (λ e t, wireEvent' e = Ok t) podEvents evs →
  convertPodEventsFormat' podEvents = Ok evs.
Proof.
  intros Hall.
  pose proof (convertPodEventsFormat_loop_spec ParsePodEntityVersion podEvents []) as H.
  unfold convertPodEventsFormat.
  destruct (convertPodEventsFormat_loop ParsePodEntityVersion podEvents []) as [res|err].
  - destruct H as (evs' & Hall' & ->). simpl. f_equal.
    clear -Hall Hall'. revert evs' Hall'.
    induction Hall as [|e t podEvents evs He _ IH]; intros evs' Hall'.
    + by inversion Hall'.
    + inversion Hall' as [|e' t' l l' He' Htl]; subst.
      rewrite He in He'. injection He' as <-. f_equal. by apply IH.
  - exfalso. destruct H as (pre & e & post & -> & Hpre & He).
    apply Forall2_app_inv_l in Hall as (ts1 & ts2 & _ & Hpost & _).
    inversion Hpost as [|e' t' l l' He' Htl]; subst. by rewrite He in He'.
Qed.

Lemma getPodEvents_loop_chain E fuel id inst podID runs evs events w :
  chain E ParseRunID id inst podID runs →
  Forall2 (λ e t, wireEvent' e = Ok t) (concat runs) evs →
  (length runs < fuel)%nat →
  hensures E (getPodEvents_loop' fuel id inst podID events) w
    (λ o, hreturned o = Ok (events ++ evs)
          ∧ (length runs ≤ length (htrace o) ≤ S (length runs))%nat).
Proof.
  revert fuel podID evs events w.
  induction runs as [|podEvents runs IH]; intros fuel podID evs events w Hchain Hall Hfuel;
    (destruct fuel as [|fuel]; [lia|]); cbn [getPodEvents_loop].
  - simpl in Hchain, Hall. inversion Hall; subst.
    eapply hensures_answer; [apply Hchain|]. apply hensures_ret. simpl.
    rewrite app_nil_r. split; [done|lia].
  - destruct Hchain as (Hne & Hans & prevRunID & Hparse & Hrest).
    simpl in Hall. apply Forall2_app_inv_l in Hall as (ts1 & ts2 & Hts1 & Hts2 & ->).
    eapply hensures_answer; [apply Hans|]. cbv iota.
    destruct podEvents as [|e0 podEvents']; [done|].
    rewrite (convertPodEventsFormat_wire _ _ Hts1). cbv zeta.
    simpl in Hparse. rewrite Hparse.
    destruct (decide (prevRunID = 0%N)) as [Hz|Hnz].
    + rewrite bool_decide_eq_true_2 by done. subst runs.
      inversion Hts2; subst. apply hensures_ret. simpl.
      rewrite app_nil_r. split; [done|lia].
    + rewrite bool_decide_eq_false_2 by done.
      eapply hensures_mono.
      { apply (IH fuel _ ts2); [done|done|simpl in Hfuel; lia]. }
      intros o [Hret Hlen]. simpl. split; [by rewrite Hret, app_assoc | lia].
Qed.

(** X17.  getPodEvents on a store that holds a finite chain of runs returns the
    events of all the runs of the chain, newest run first and in the
    store's order within a run, each in its wire form; it needs one fetch
    per run, and one more when the chain ends with an empty answer. *)
Theorem getPodEvents_returns_the_chain
    (E : henv) (w : hworld E) (fuel : nat) (id : JobID) (inst : N) (runID : string)
    (runs : list (list PodEvent)) (evs : list TaskPodEvent) :
  chain E ParseRunID id inst runID runs →
  Forall2 (λ e t, wireEvent' e = Ok t) (concat runs) evs →
  (length runs < fuel)%nat →
  ∃ o,
    hrun E (getPodEvents' fuel id inst runID) w = Some o
    ∧ hreturned o = Ok evs
    ∧ length evs = length (concat runs)
    ∧ (length runs ≤ length (htrace o) ≤ S (length runs))%nat.
Proof.
  intros Hchain Hall Hfuel.
  destruct (getPodEvents_loop_chain E fuel id inst runID runs evs [] w Hchain Hall Hfuel)
    as (o & Hrun & Hret & Hlen).
  exists o. split; [done|]. split; [done|]. split; [|done].
  symmetry. by eapply Forall2_length.
Qed.

Lemma getPodEvents_loop_cycle E fuel id inst podID e0 rest evs events w :
  halways E (Core (TaskStore_GetPodEvents id inst podID)) (Ok (e0 :: rest)) →
  halways E (Core (TaskStore_GetPodEvents id inst (pe_PrevPodId e0))) (Ok (e0 :: rest)) →
  convertPodEventsFormat' (e0 :: rest) = Ok evs →
  (∃ prevRunID, ParseRunID (pe_PrevPodId e0) = Ok prevRunID ∧ prevRunID ≠ 0%N) →
  hrun E (getPodEvents_loop' fuel id inst podID events) w = None.
Proof.
  intros Hpod Hprev Hconv (prevRunID & Hparse & Hnz).
  revert podID events w Hpod.
  induction fuel as [|fuel IH]; intros podID events w Hpod; [done|].
  cbn [getPodEvents_loop]. rewrite hrun_ask_bind, Hpod. cbv iota.
  rewrite Hconv. cbv zeta. rewrite Hparse.
  rewrite bool_decide_eq_false_2 by done.
  by rewrite IH.
Qed.

(** X18.  getPodEvents has no bound of its own: on a store where the first event
    of a run names, as its previous pod, a pod id for which the store
    answers that run again, with a run id that is not 0, the walk does not
    come to an end, however many rounds it is given; GetPodEvents, on any
    store, returns within its limit. *)
Theorem getPodEvents_does_not_end_on_a_cycle
    (E : henv) (id : JobID) (inst : N) (runID : string)
    (e0 : PodEvent) (rest : list PodEvent) (evs : list TaskPodEvent) :
  halways E (Core (TaskStore_GetPodEvents id inst runID)) (Ok (e0 :: rest)) →
  halways E (Core (TaskStore_GetPodEvents id inst (pe_PrevPodId e0))) (Ok (e0 :: rest)) →
  convertPodEventsFormat' (e0 :: rest) = Ok evs →
  (∃ prevRunID, ParseRunID (pe_PrevPodId e0) = Ok prevRunID ∧ prevRunID ≠ 0%N) →
  (∀ fuel w, hrun E (getPodEvents' fuel id inst runID) w = None)
  ∧ (∀ body w, ∃ o, run (coreEnv E) (GetPodEvents body) w = Some o
                     ∧ (N.of_nat (length (trace o)) ≤ podEventsLimit body)%N).
Proof.
  intros Hpod Hprev Hconv Hparse. split.
  - intros fuel w. unfold getPodEvents. by eapply getPodEvents_loop_cycle.
  - intros body w.
    destruct (GetPodEvents_loop_walk (coreEnv E) (N.to_nat (podEventsLimit body)) body
                (gpe_RunId body) [] w) as (o & Hrun & _ & Hlen & _).
    exists o. split; [done|]. lia.
Qed.

Lemma firstTerminal_filter events :
  firstTerminal TaskState_value IsPelotonStateTerminal events
  = head (filter terminal' events).
Proof.
  induction events as [|event events IH]; [done|].
  cbn [firstTerminal]. cbv zeta. rewrite filter_cons.
  destruct (IsPelotonStateTerminal
              (taskStateOf TaskState_value (tpe_ActualState event))) eqn:Ht.
  - by rewrite decide_True.
  - rewrite decide_False by (unfold terminal; by rewrite Ht). done.
Qed.

(** X19.  getHostInfoWithTaskID on a store that holds a finite chain of runs:
    with no events it returns NotFound; otherwise it returns the host and
    agent of the first event, in the order getPodEvents returns them, whose
    actual state is terminal, and those of the first event when no state is
    terminal. *)
Theorem getHostInfoWithTaskID_picks_first_terminal_event
    (E : henv) (w : hworld E) (fuel : nat) (jobID : JobID) (instanceID : N)
    (taskID : string) (runs : list (list PodEvent)) (evs : list TaskPodEvent) :
  chain E ParseRunID jobID instanceID taskID runs →
  Forall2 (λ e t, wireEvent' e = Ok t) (concat runs) evs →
  (length runs < fuel)%nat →
  ∃ o,
    hrun E (getHostInfoWithTaskID' fuel jobID instanceID taskID) w = Some o
    ∧ match evs with
      | [] => ∃ e, hreturned o = Err e ∧ IsNotFound e = true
      | event0 :: _ =>
          let event := default event0 (head (filter terminal' evs)) in
          hreturned o = Ok (tpe_Hostname event, tpe_AgentID event)
          ∧ event ∈ evs
          ∧ (terminal' event ∨ Forall (λ ev, ¬ terminal' ev) evs)
      end.
Proof.
  intros Hchain Hall Hfuel.
  cut (hensures E (getHostInfoWithTaskID' fuel jobID instanceID taskID) w (λ o,
         match evs with
         | [] => ∃ e, hreturned o = Err e ∧ IsNotFound e = true
         | event0 :: _ =>
             hreturned o
             = Ok (tpe_Hostname (default event0 (head (filter terminal' evs))),
                   tpe_AgentID (default event0 (head (filter terminal' evs))))
         end)).
  { intros (o & Hrun & Ho). exists o. split; [done|].
    destruct evs as [|event0 evs']; [done|]. cbv zeta. split; [done|].
    destruct (filter terminal' (event0 :: evs')) as [|t ts] eqn:Hf; simpl.
    - split; [apply list_elem_of_here|]. right.
      apply Forall_forall. intros ev Hin Hterm.
      assert (ev ∈ filter terminal' (event0 :: evs')) as Hin'
        by (by apply list_elem_of_filter).
      rewrite Hf in Hin'. by apply elem_of_nil in Hin'.
    - assert (t ∈ filter terminal' (event0 :: evs')) as Hin
        by (rewrite Hf; apply list_elem_of_here).
      apply list_elem_of_filter in Hin as [Hterm Hin]. split; [done|]. by left. }
  unfold getHostInfoWithTaskID. apply hensures_bind.
  eapply hensures_mono.
  { unfold getPodEvents. by apply (getPodEvents_loop_chain E fuel _ _ _ runs evs []). }
  intros o1 [Hret1 _]. rewrite Hret1. simpl app.
  destruct evs as [|event0 evs']; apply hensures_ret; simpl.
  - by eexists.
  - by rewrite <- firstTerminal_filter.
Qed.

End ReadsFacts2.

Section ReadsFacts3.

Variable ParseRunID : string → result N.
Variable ParsePodEntityVersion : string → result Z.
Variable TaskState_value : gmap string Z.
Variable IsPelotonStateTerminal : Z → bool.
Variable CreatePelotonTaskID : string → N → string.
Variable ExtractIPAndPortFromMesosAgentPID : string → result (string * string).
Variable JobID_String : JobID → string.
Variable mesosAgentWorkDir : string.

Abbreviation getPodEvents' := (getPodEvents ParseRunID ParsePodEntityVersion).
Abbreviation terminal' := (terminal TaskState_value IsPelotonStateTerminal).
Abbreviation eventTaskInfo' := (eventTaskInfo TaskState_value).
Abbreviation getHostInfoWithTaskID' :=
  (getHostInfoWithTaskID ParseRunID ParsePodEntityVersion TaskState_value
     IsPelotonStateTerminal).
Abbreviation getSandboxPathInfo' :=
  (getSandboxPathInfo ParseRunID ParsePodEntityVersion TaskState_value
     IsPelotonStateTerminal).
Abbreviation BrowseSandbox' :=
  (BrowseSandbox ParseRunID ParsePodEntityVersion TaskState_value
     IsPelotonStateTerminal ExtractIPAndPortFromMesosAgentPID JobID_String
     mesosAgentWorkDir).
Abbreviation Get' :=
  (Get ParseRunID ParsePodEntityVersion TaskState_value IsPelotonStateTerminal
     JobID_String).
Abbreviation List' := (List_ CreatePelotonTaskID).
Abbreviation Query' := (Query CreatePelotonTaskID JobID_String).
Abbreviation withReason' := (withReason CreatePelotonTaskID).
Abbreviation agentAddress' := (agentAddress ExtractIPAndPortFromMesosAgentPID).

Lemma map_size_1 {V} (m : gmap N V) : size m = 1 → ∃ i x, m = {[ i := x ]}.
Proof.
  intros Hsize. rewrite <- length_map_to_list in Hsize.
  destruct (map_to_list m) as [|[i x] [|kv l]] eqn:Hl; try done.
  exists i, x. rewrite <- (list_to_map_to_list m), Hl. simpl.
  by rewrite insert_empty.
Qed.

(** X20.  getHostInfoCurrentTask wants exactly one task info from the store: it
    passes a store error on, returns host, agent and mesos task id of the
    task info when the store answers with one, and NotFound when it
    answers with none or with several. *)
Theorem getHostInfoCurrentTask_wants_exactly_one_task
    (E : henv) (w : hworld E) (jobID : JobID) (instanceID : N)
    (r : result (gmap N TaskInfo)) :
  halways E (GetTaskForJob jobID instanceID) r →
  ∃ o,
    hrun E (getHostInfoCurrentTask jobID instanceID) w = Some o
    ∧ htrace o = [ HEvent (GetTaskForJob jobID instanceID) r ]
    ∧ match r with
      | Err err => hreturned o = Err err
      | Ok res =>
          (∀ i taskInfo,
             res = {[ i := taskInfo ]} →
             hreturned o = Ok (Host (Runtime taskInfo), AgentID (Runtime taskInfo),
                               MesosTaskId (Runtime taskInfo)))
          ∧ (size res ≠ 1 → hreturned o = Err (NotFoundErrorf "task not found"))
      end.
Proof.
  intros Hr. unfold getHostInfoCurrentTask.
  eapply hensures_answer; [apply Hr|].
  destruct r as [res|err]; [|by apply hensures_ret].
  case_bool_decide as Hsize.
  - apply hensures_ret. simpl. split; [done|]. split; [|done].
    intros i ti ->. by rewrite map_size_singleton in Hsize.
  - assert (size res = 1) as Hone by (by destruct (decide (size res = 1))).
    apply map_size_1 in Hone as (i & ti & ->).
    unfold range_values. rewrite map_to_list_singleton. simpl.
    apply hensures_ret. simpl. split; [done|]. split; [|done].
    intros i' ti' Heq.
    assert (({[i := ti]} : gmap N TaskInfo) !! i' = Some ti') as Hl
      by (rewrite Heq; apply lookup_singleton_eq).
    apply lookup_singleton_Some in Hl as [_ <-]. done.
Qed.

End ReadsFacts3.

Lemma hrun_bind_Some E {A B} (p : hprog A) (f : A → hprog B) w o :
  hrun E (p ≫= f) w = Some o →
  ∃ o1 o2, hrun E p w = Some o1
           ∧ hrun E (f (hreturned o1)) (hfinal o1) = Some o2
           ∧ o = hprepend (htrace o1) o2.
Proof.
  rewrite hrun_bind. destruct (hrun E p w) as [o1|]; [|done].
  destruct (hrun E (f (hreturned o1)) (hfinal o1)) as [o2|] eqn:H2; [|done].
  simpl. intros [= <-]. by exists o1, o2.
Qed.

Lemma hensures_run E {R} (p : hprog R) w (Q : houtcome R (hworld E) → Prop) o :
  hensures E p w Q → hrun E p w = Some o → Q o.
Proof. intros (o' & Hrun & HQ) Ho. rewrite Hrun in Ho. by injection Ho as <-. Qed.

Section ReadsFacts4.

Variable ParseRunID : string → result N.
Variable ParsePodEntityVersion : string → result Z.
Variable TaskState_value : gmap string Z.
Variable IsPelotonStateTerminal : Z → bool.
Variable CreatePelotonTaskID : string → N → string.
Variable ExtractIPAndPortFromMesosAgentPID : string → result (string * string).
Variable JobID_String : JobID → string.
Variable mesosAgentWorkDir : string.

Abbreviation getPodEvents' := (getPodEvents ParseRunID ParsePodEntityVersion).
Abbreviation terminal' := (terminal TaskState_value IsPelotonStateTerminal).
Abbreviation eventTaskInfo' := (eventTaskInfo TaskState_value).
Abbreviation getHostInfoWithTaskID' :=
  (getHostInfoWithTaskID ParseRunID ParsePodEntityVersion TaskState_value
     IsPelotonStateTerminal).
Abbreviation getSandboxPathInfo' :=
  (getSandboxPathInfo ParseRunID ParsePodEntityVersion TaskState_value
     IsPelotonStateTerminal).
Abbreviation BrowseSandbox' :=
  (BrowseSandbox ParseRunID ParsePodEntityVersion TaskState_value
     IsPelotonStateTerminal ExtractIPAndPortFromMesosAgentPID JobID_String
     mesosAgentWorkDir).
Abbreviation Get' :=
  (Get ParseRunID ParsePodEntityVersion TaskState_value IsPelotonStateTerminal
     JobID_String).
Abbreviation List' := (List_ CreatePelotonTaskID).
Abbreviation Query' := (Query CreatePelotonTaskID JobID_String).
Abbreviation withReason' := (withReason CreatePelotonTaskID).
Abbreviation agentAddress' := (agentAddress ExtractIPAndPortFromMesosAgentPID).

Lemma getFrameworkID_found E w :
  hensures E getFrameworkID w
    (λ o, match hreturned o with
          | (frameworkIDVal, None) => frameworkIDVal ≠ ""
          | (_, Some _) => True
          end).
Proof.
  unfold getFrameworkID. apply hensures_ask_bind.
  destruct (hanswer E (GetFrameworkID _frameworkName) w) as [fw [err|]].
  - by apply hensures_ret.
  - case_bool_decide; by apply hensures_ret.
Qed.

(* What getSandboxPathInfo returns, for the host info r found before. *)
Lemma getSandboxPathInfo_rest E w instanceCount req
    (r : result (string * string * string)) :
  hensures E
    (match r with
     | Err err =>
         HRet ("", "", "", "",
               Some (browseError (BrowseError_OutOfRange (bs_JobId req) instanceCount)))
     | Ok (host, agentid, taskid) =>
         if bool_decide (String.length host = 0) || bool_decide (String.length agentid = 0)
         then
           HRet ("", "", "", "",
                 Some (browseError (BrowseError_NotRunning
                                      "taskinfo does not have hostname or agentID")))
         else
           '(frameworkid, err) ← getFrameworkID;
           match err with
           | Some err =>
               HRet ("", "", "", "", Some (browseError (BrowseError_Failure (Error_ err))))
           | None => HRet (host, agentid, taskid, frameworkid, None)
           end
     end) w
    (λ o, match hreturned o with
          | (hostname, agentID, taskID, frameworkID, None) =>
              hostname ≠ "" ∧ agentID ≠ "" ∧ frameworkID ≠ ""
              ∧ ∃ host agentid, r = Ok (host, agentid, taskID)
          | (hostname, agentID, taskID, frameworkID, Some resp) =>
              (hostname, agentID, taskID, frameworkID) = ("", "", "", "")
              ∧ (bs_Error resp
                 = Some (BrowseError_OutOfRange (bs_JobId req) instanceCount)
                 ∨ bs_Error resp
                   = Some (BrowseError_NotRunning
                             "taskinfo does not have hostname or agentID")
                 ∨ ∃ msg, bs_Error resp = Some (BrowseError_Failure msg))
          end).
Proof.
  destruct r as [[[host agentid] taskid]|err]; [|apply hensures_ret; simpl; auto].
  destruct (bool_decide (String.length host = 0)
            || bool_decide (String.length agentid = 0)) eqn:Hempty;
    [apply hensures_ret; simpl; auto|].
  apply orb_false_iff in Hempty as [Hh Ha].
  apply bool_decide_eq_false in Hh, Ha.
  apply hensures_bind.
  eapply hensures_mono; [apply getFrameworkID_found|]. intros o1 Hfw.
  simpl in Hfw. destruct (hreturned o1) as [fw [err|]]; apply hensures_ret; simpl.
  - split; [done|]. right; right. by eexists.
  - split; [by intros ->|]. split; [by intros ->|]. split; [done|]. by eexists _, _.
Qed.

(** X21.  getSandboxPathInfo returns a response or the four values, never both:
    without a response the hostname, the agent id and the framework id are
    not empty, and the task id is that of the request when the request
    names one; with a response the four values are empty and the response
    carries OutOfRange, NotRunning or Failure.  For a request that names no
    task id it always returns. *)
Theorem getSandboxPathInfo_values_or_response
    (E : henv) (w : hworld E) (fuel : nat) (instanceCount : N)
    (req : BrowseSandboxRequest) :
  (∀ o, hrun E (getSandboxPathInfo' fuel instanceCount req) w = Some o →
        match hreturned o with
        | (hostname, agentID, taskID, frameworkID, None) =>
            hostname ≠ "" ∧ agentID ≠ "" ∧ frameworkID ≠ ""
            ∧ (bs_TaskId req ≠ "" → taskID = bs_TaskId req)
        | (hostname, agentID, taskID, frameworkID, Some resp) =>
            (hostname, agentID, taskID, frameworkID) = ("", "", "", "")
            ∧ (bs_Error resp
               = Some (BrowseError_OutOfRange (bs_JobId req) instanceCount)
               ∨ bs_Error resp
                 = Some (BrowseError_NotRunning
                           "taskinfo does not have hostname or agentID")
               ∨ ∃ msg, bs_Error resp = Some (BrowseError_Failure msg))
        end)
  ∧ (bs_TaskId req = "" →
     ∃ o, hrun E (getSandboxPathInfo' fuel instanceCount req) w = Some o).
Proof.
  split.
  - intros o Hrun. unfold getSandboxPathInfo in Hrun. cbv zeta in Hrun.
    apply hrun_bind_Some in Hrun as (o1 & o2 & Hrun1 & Hrun2 & ->).
    pose proof (hensures_run _ _ _ _ _
                  (getSandboxPathInfo_rest E (hfinal o1) instanceCount req (hreturned o1))
                  Hrun2) as Hrest.
    simpl in Hrest |- *.
    destruct (hreturned o2) as [[[[hostname agentID] taskID] frameworkID] [resp|]];
      [exact Hrest|].
    destruct Hrest as (Hh & Ha & Hf & host & agentid & Hr).
    split; [done|]. split; [done|]. split; [done|].
    intros Hid. case_bool_decide as Hlen.
    + apply hrun_bind_Some in Hrun1 as (o3 & o4 & _ & Hrun4 & ->).
      simpl in Hr. destruct (hreturned o3) as [[host' agentid']|err];
        simpl in Hrun4; injection Hrun4 as <-; simpl in Hr; [|done].
      by injection Hr.
    + exfalso. apply Hlen. destruct (bs_TaskId req); [done | simpl; lia].
  - intros Hid. unfold getSandboxPathInfo. cbv zeta. rewrite Hid.
    rewrite (bool_decide_eq_false_2 (0 < String.length "")%nat) by (simpl; lia).
    cut (hensures E
           (getHostInfoCurrentTask (bs_JobId req) (bs_InstanceId req) ≫=
            (λ r, match r with
                  | Err err =>
                      HRet ("", "", "", "",
                            Some (browseError (BrowseError_OutOfRange (bs_JobId req)
                                                 instanceCount)))
                  | Ok (host, agentid, taskid) =>
                      if bool_decide (String.length host = 0)
                         || bool_decide (String.length agentid = 0)
                      then
                        HRet ("", "", "", "",
                              Some (browseError (BrowseError_NotRunning
                                      "taskinfo does not have hostname or agentID")))
                      else
                        '(frameworkid, err) ← getFrameworkID;
                        match err with
                        | Some err =>
                            HRet ("", "", "", "",
                                  Some (browseError (BrowseError_Failure (Error_ err))))
                        | None => HRet (host, agentid, taskid, frameworkid, None)
                        end
                  end)) w (λ _, True)).
    { intros (o & Hrun & _). by exists o. }
    apply hensures_bind. unfold getHostInfoCurrentTask. apply hensures_ask_bind.
    assert (∀ (r : result (string * string * string)) w',
              hensures E (HRet r) w'
                (λ o, hensures E
                        match hreturned o with
                        | Err err =>
                            HRet ("", "", "", "",
                                  Some (browseError (BrowseError_OutOfRange (bs_JobId req)
                                                       instanceCount)))
                        | Ok (host, agentid, taskid) =>
                            if bool_decide (String.length host = 0)
                               || bool_decide (String.length agentid = 0)
                            then
                              HRet ("", "", "", "",
                                    Some (browseError (BrowseError_NotRunning
                                            "taskinfo does not have hostname or agentID")))
                            else
                              '(frameworkid, err) ← getFrameworkID;
                              match err with
                              | Some err =>
                                  HRet ("", "", "", "",
                                        Some (browseError (BrowseError_Failure (Error_ err))))
                              | None => HRet (host, agentid, taskid, frameworkid, None)
                              end
                        end (hfinal o) (λ _, True))) as Hret.
    { intros r w'. apply hensures_ret. simpl.
      eapply hensures_mono; [apply getSandboxPathInfo_rest|]. done. }
    destruct (hanswer E _ w) as [res|err]; [|eapply hensures_mono; [apply Hret|]; done].
    case_bool_decide; [eapply hensures_mono; [apply Hret|]; done|].
    destruct (last (range_values res)); (eapply hensures_mono; [apply Hret|]; done).
Qed.

End ReadsFacts4.

Section ReadsFacts5.

Variable ParseRunID : string → result N.
Variable ParsePodEntityVersion : string → result Z.
Variable TaskState_value : gmap string Z.
Variable IsPelotonStateTerminal : Z → bool.
Variable CreatePelotonTaskID : string → N → string.
Variable ExtractIPAndPortFromMesosAgentPID : string → result (string * string).
Variable JobID_String : JobID → string.
Variable mesosAgentWorkDir : string.

Abbreviation getPodEvents' := (getPodEvents ParseRunID ParsePodEntityVersion).
Abbreviation terminal' := (terminal TaskState_value IsPelotonStateTerminal).
Abbreviation eventTaskInfo' := (eventTaskInfo TaskState_value).
Abbreviation BrowseSandbox' :=
  (BrowseSandbox ParseRunID ParsePodEntityVersion TaskState_value
     IsPelotonStateTerminal ExtractIPAndPortFromMesosAgentPID JobID_String
     mesosAgentWorkDir).
Abbreviation Get' :=
  (Get ParseRunID ParsePodEntityVersion TaskState_value IsPelotonStateTerminal
     JobID_String).
Abbreviation List' := (List_ CreatePelotonTaskID).
Abbreviation Query' := (Query CreatePelotonTaskID JobID_String).
Abbreviation withReason' := (withReason CreatePelotonTaskID).
Abbreviation agentAddress' := (agentAddress ExtractIPAndPortFromMesosAgentPID).

(** X22.  BrowseSandbox for the current run of a task (a request that names no
    task id), with every collaborator answering: the address and port it
    hands to the log manager are the ones it returns; they are the ip and
    port of the pid of the first agent the host manager reports, the port
    5051 when that pid has none, and the task's host name with port 5051
    when no agent is reported or the pid does not parse.  The port is never
    empty. *)
Theorem BrowseSandbox_addresses_the_agent
    (E : henv) (w : hworld E) (fuel : nat) (req : BrowseSandboxRequest)
    (jobConfig : JobConfig) (i : N) (taskInfo : TaskInfo)
    (frameworkID : string) (agents : result (list string))
    (logPaths : list string) (masterHostname masterPort : string) :
  let hostname := Host (Runtime taskInfo) in
  let agentID := AgentID (Runtime taskInfo) in
  let taskID := MesosTaskId (Runtime taskInfo) in
  let address := agentAddress' hostname agents in
  bs_TaskId req = "" →
  halways E (GetJobConfigWithoutFillingCache (bs_JobId req)) (Ok jobConfig) →
  halways E (GetTaskForJob (bs_JobId req) (bs_InstanceId req)) (Ok {[ i := taskInfo ]}) →
  hostname ≠ "" →
  agentID ≠ "" →
  halways E (GetFrameworkID _frameworkName) (frameworkID, None) →
  frameworkID ≠ "" →
  halways E (GetMesosAgentInfo hostname) agents →
  halways E (ListSandboxFilesPaths mesosAgentWorkDir frameworkID address.1 address.2
               agentID taskID) (Ok logPaths) →
  halways E GetMesosMasterHostPort (Ok (masterHostname, masterPort)) →
  ∃ o,
    hrun E (BrowseSandbox' fuel req) w = Some o
    ∧ hreturned o = Ok {| bs_Error := None;
                          bs_Hostname := address.1;
                          bs_Port := address.2;
                          bs_Paths := logPaths;
                          bs_MesosMasterHostname := masterHostname;
                          bs_MesosMasterPort := masterPort |}
    ∧ address.2 ≠ ""
    ∧ ((∀ pid rest ip port,
          agents = Ok (pid :: rest) →
          ExtractIPAndPortFromMesosAgentPID pid ≠ Ok (ip, port)) →
       address = (hostname, "5051")).
Proof.
  intros hostname agentID taskID address Hid Hc Ht Hh Ha Hf Hfne Hagents Hlog Hmaster.
  cut (hensures E (BrowseSandbox' fuel req) w (λ o,
         hreturned o = Ok {| bs_Error := None;
                             bs_Hostname := address.1;
                             bs_Port := address.2;
                             bs_Paths := logPaths;
                             bs_MesosMasterHostname := masterHostname;
                             bs_MesosMasterPort := masterPort |})).
  { intros (o & Hrun & Hret). exists o. split; [done|]. split; [done|].
    unfold address, agentAddress. split.
    - destruct agents as [[|pid rest]|err]; try done.
      destruct (ExtractIPAndPortFromMesosAgentPID pid) as [[ip port]|err]; [|done].
      simpl. by case_decide.
    - intros Hno. destruct agents as [[|pid rest]|err]; try done.
      destruct (ExtractIPAndPortFromMesosAgentPID pid) as [[ip port]|err] eqn:Hx; [|done].
      by destruct (Hno pid rest ip port). }
  unfold BrowseSandbox. eapply hensures_answer; [apply Hc|]. cbv iota.
  apply hensures_bind. unfold getSandboxPathInfo. cbv zeta. rewrite Hid.
  rewrite (bool_decide_eq_false_2 (0 < String.length "")%nat) by (simpl; lia).
  apply hensures_bind. unfold getHostInfoCurrentTask.
  eapply hensures_answer; [apply Ht|]. cbv iota.
  rewrite bool_decide_eq_false_2 by (intros Hn; apply Hn, map_size_singleton).
  unfold range_values. rewrite map_to_list_singleton. simpl last. cbv iota.
  apply hensures_ret. simpl hreturned. cbv iota.
  fold hostname agentID taskID.
  rewrite (bool_decide_eq_false_2 (String.length hostname = 0))
    by (by intros ?%string_length_0).
  rewrite (bool_decide_eq_false_2 (String.length agentID = 0))
    by (by intros ?%string_length_0).
  simpl orb. cbv iota.
  apply hensures_bind. unfold getFrameworkID.
  eapply hensures_answer; [apply Hf|]. cbv iota.
  rewrite bool_decide_eq_false_2 by done.
  apply hensures_ret. simpl hreturned. cbv iota.
  apply hensures_ret. simpl hreturned. cbv iota zeta.
  eapply hensures_answer; [apply Hagents|].
  assert (match agents with
          | Ok (pid :: _) =>
              match ExtractIPAndPortFromMesosAgentPID pid with
              | Ok (ip, port) => (ip, if bool_decide (port ≠ "") then port else "5051")
              | Err _ => (hostname, "5051")
              end
          | _ => (hostname, "5051")
          end = (address.1, address.2)) as ->.
  { unfold address, agentAddress. destruct agents as [[|pid rest]|err]; try done.
    destruct (ExtractIPAndPortFromMesosAgentPID pid) as [[ip port]|err]; [|done].
    simpl. case_decide; case_bool_decide; done. }
  eapply hensures_answer; [apply Hlog|]. cbv iota.
  eapply hensures_answer; [apply Hmaster|]. cbv iota.
  by apply hensures_ret.
Qed.

(** X23.  Get, once the job config and the task info are read: when the walk of
    the pod events fails the answer is OutOfRange with the instance count
    of the job, whatever the instance asked for; otherwise Result is the
    task info the store returned (none when it returned none) and Results
    holds one task info per pod event with a terminal state, in the order
    of the walk. *)
Theorem Get_reports_terminal_events
    (E : henv) (w : hworld E) (fuel : nat) (body : GetRequest)
    (jobConfig : JobConfig) (res : gmap N TaskInfo)
    (r : result (list TaskPodEvent)) :
  halways E (GetJobConfigWithoutFillingCache (get_JobId body)) (Ok jobConfig) →
  halways E (GetTaskForJob (get_JobId body) (get_InstanceId body)) (Ok res) →
  (∀ w', ∃ o', hrun E (getPodEvents' fuel (get_JobId body) (get_InstanceId body) "") w'
               = Some o' ∧ hreturned o' = r) →
  ∃ o,
    hrun E (Get' fuel body) w = Some o
    ∧ hreturned o
      = Ok match r with
           | Err _ =>
               {| get_Result := None; get_Results := []; get_NotFound := None;
                  get_OutOfRange := Some (get_JobId body, jc_InstanceCount jobConfig) |}
           | Ok eventList =>
               {| get_Result := head (range_values res);
                  get_Results := eventTaskInfo' (head (range_values res))
                                   <$> filter terminal' eventList;
                  get_NotFound := None; get_OutOfRange := None |}
           end
    ∧ (size res = 1 → ∃ i taskInfo, res = {[ i := taskInfo ]}
                                    ∧ head (range_values res) = Some taskInfo)
    ∧ (res = ∅ → head (range_values res) = None).
Proof.
  intros Hc Ht Hwalk.
  cut (hensures E (Get' fuel body) w (λ o,
    hreturned o
    = Ok match r with
         | Err _ =>
             {| get_Result := None; get_Results := []; get_NotFound := None;
                get_OutOfRange := Some (get_JobId body, jc_InstanceCount jobConfig) |}
         | Ok eventList =>
             {| get_Result := head (range_values res);
                get_Results := eventTaskInfo' (head (range_values res))
                                 <$> filter terminal' eventList;
                get_NotFound := None; get_OutOfRange := None |}
         end)).
  { intros (o & Hrun & Hret). exists o. split; [done|]. split; [done|]. split.
    - intros (i & ti & ->)%map_size_1. exists i, ti. split; [done|].
      unfold range_values. by rewrite map_to_list_singleton.
    - intros ->. unfold range_values. by rewrite map_to_list_empty. }
  unfold Get. eapply hensures_answer; [apply Hc|]. cbv iota.
  eapply hensures_answer; [apply Ht|]. cbv iota zeta.
  apply hensures_bind.
  match goal with
  | |- hensures _ _ ?w' _ => destruct (Hwalk w') as (o' & Hrun' & Hret')
  end.
  exists o'. split; [done|]. rewrite Hret'.
  destruct r as [eventList|err]; apply hensures_ret; simpl; [|done].
  do 2 f_equal. unfold getTerminalEvents.
  by rewrite getTerminalEvents_loop_spec.
Qed.

End ReadsFacts5.

Section ReadsFacts6.

Variable CreatePelotonTaskID : string → N → string.
Variable JobID_String : JobID → string.

Abbreviation List' := (List_ CreatePelotonTaskID).
Abbreviation Query' := (Query CreatePelotonTaskID JobID_String).
Abbreviation withReason' := (withReason CreatePelotonTaskID).
Abbreviation fillReason' := (fillReasonForPendingTasksFromResMgr CreatePelotonTaskID).

Lemma fillReason_step E w reasonOf jobID taskInfo :
  (∀ taskID, halways E (ActiveRMTasks_GetTask taskID) (reasonOf taskID)) →
  hensures E
    (if bool_decide (State (Runtime taskInfo) = TaskState_PENDING)
     then
       taskEntry ← ask (ActiveRMTasks_GetTask
                          (CreatePelotonTaskID jobID (InstanceId taskInfo)));
       match taskEntry with
       | Some reason =>
           HRet {| InstanceId := InstanceId taskInfo;
                   Runtime := set_Reason (Runtime taskInfo) reason;
                   Config := Config taskInfo |}
       | None => HRet taskInfo
       end
     else HRet taskInfo) w
    (λ o, hreturned o = withReason' reasonOf jobID taskInfo).
Proof.
  intros Hrm. unfold withReason.
  destruct (decide (State (Runtime taskInfo) = TaskState_PENDING)) as [Hp|Hp].
  - rewrite bool_decide_eq_true_2 by done.
    eapply hensures_answer; [apply Hrm|].
    destruct (reasonOf (CreatePelotonTaskID jobID (InstanceId taskInfo)));
      by apply hensures_ret.
  - rewrite bool_decide_eq_false_2 by done. by apply hensures_ret.
Qed.

Lemma fillReason_withReason E w reasonOf jobID taskInfos :
  (∀ taskID, halways E (ActiveRMTasks_GetTask taskID) (reasonOf taskID)) →
  hensures E (fillReason' jobID taskInfos) w
    (λ o, hreturned o = withReason' reasonOf jobID <$> taskInfos).
Proof.
  intros Hrm. revert w.
  induction taskInfos as [|ti taskInfos IH]; intros w;
    cbn [fillReasonForPendingTasksFromResMgr].
  - by apply hensures_ret.
  - apply hensures_bind.
    eapply hensures_mono; [by apply fillReason_step|]. intros o1 Hret1.
    rewrite Hret1. apply hensures_bind.
    eapply hensures_mono; [apply IH|]. intros o2 Hret2.
    rewrite Hret2. by apply hensures_ret.
Qed.

Lemma zip_keys_fmap_values {V W} (f : V → W) (l : list (N * V)) :
  zip l.*1 (f <$> l.*2) = prod_map id f <$> l.
Proof. induction l as [|[k v] l IH]; [done|]. simpl. f_equal. exact IH. Qed.

Lemma rekeyed {V W} (f : V → W) (m : gmap N V) :
  list_to_map (zip (range_keys m) (f <$> range_values m)) = f <$> m.
Proof.
  unfold range_keys, range_values. rewrite zip_keys_fmap_values.
  rewrite list_to_map_fmap. by rewrite list_to_map_to_list.
Qed.

(** X24.  List and Query fill in the reasons of pending tasks: List answers
    NotFound, with the text err= <nil>, when the store finds no task for
    the request; otherwise the map it returns has the task infos the store
    found under the same keys, and Query returns the records of the store
    in their order and echoes the pagination of the request with the
    store's total.  In both, a task that is not PENDING is returned as the
    store has it, and a PENDING task has the reason of its entry in the
    tracker of active tasks when there is such an entry. *)
Theorem List_and_Query_fill_pending_reasons
    (E : henv) (w : hworld E) (body : ListRequest) (req : QueryRequest)
    (all : gmap N TaskInfo) (byRange : InstanceRange → gmap N TaskInfo)
    (jobRuntime : JobRuntime) (records : list TaskInfo) (total : N)
    (reasonOf : string → option string) :
  let ranges := match list_Range body with Some r => [r] | None => [] end in
  let selected := selectedTasks all byRange ranges in
  lookupsAnswer (coreEnv E) (list_JobId body) all byRange →
  halways E (GetJobRuntimeWithoutFillingCache (query_JobId req)) (Ok jobRuntime) →
  halways E (QueryTasks (query_JobId req) (query_Spec req)) (Ok (records, total)) →
  (∀ taskID, halways E (ActiveRMTasks_GetTask taskID) (reasonOf taskID)) →
  (∃ o,
     hrun E (List' body) w = Some o
     ∧ hreturned o
       = Ok (if decide (selected = ∅)
             then {| list_Result := None;
                     list_NotFound := Some (list_JobId body, "err= <nil>") |}
             else {| list_Result :=
                       Some (withReason' reasonOf (list_JobId body) <$> selected);
                     list_NotFound := None |}))
  ∧ (∃ o,
       hrun E (Query' req) w = Some o
       ∧ hreturned o
         = Ok {| query_Error := None;
                 query_Records := withReason' reasonOf (query_JobId req) <$> records;
                 query_Pagination :=
                   Some {| pg_Offset := qs_Offset (query_Spec req);
                           pg_Limit := qs_Limit (query_Spec req);
                           pg_Total := total |} |})
  ∧ (∀ jobID taskInfo,
       State (Runtime taskInfo) ≠ TaskState_PENDING →
       withReason' reasonOf jobID taskInfo = taskInfo)
  ∧ (∀ jobID taskInfo reason,
       State (Runtime taskInfo) = TaskState_PENDING →
       reasonOf (CreatePelotonTaskID jobID (InstanceId taskInfo)) = Some reason →
       Reason (Runtime (withReason' reasonOf jobID taskInfo)) = reason
       ∧ InstanceId (withReason' reasonOf jobID taskInfo) = InstanceId taskInfo
       ∧ State (Runtime (withReason' reasonOf jobID taskInfo)) = TaskState_PENDING).
Proof.
  intros ranges selected Hlookup Hrt Hq Hrm. split; [|split; [|split]].
  - cut (hensures E (List' body) w (λ o,
      hreturned o
      = Ok (if decide (selected = ∅)
            then {| list_Result := None;
                    list_NotFound := Some (list_JobId body, "err= <nil>") |}
            else {| list_Result :=
                      Some (withReason' reasonOf (list_JobId body) <$> selected);
                    list_NotFound := None |}))).
    { intros (o & ? & ?). by exists o. }
    unfold List_. cbv zeta. fold ranges. apply hensures_bind.
    destruct (getTaskInfosByRangesFromDB_selected (coreEnv E) (list_JobId body)
                all byRange ranges w Hlookup) as (o1 & Hrun1 & Hret1 & _).
    eexists. rewrite hrun_lift, Hrun1. split; [reflexivity|].
    cbv beta. cbn [hreturned hfinal htrace]. rewrite Hret1. fold selected. cbv iota.
    case_decide as Hempty.
    + rewrite bool_decide_eq_true_2 by (by rewrite Hempty, map_size_empty).
      by apply hensures_ret.
    + rewrite bool_decide_eq_false_2 by (by intros ?%map_size_empty_inv).
      apply hensures_bind.
      eapply hensures_mono; [by apply fillReason_withReason|].
      intros o2 Hret2. rewrite Hret2. apply hensures_ret. simpl.
      unfold convertTaskMapToSlice. by rewrite rekeyed.
  - cut (hensures E (Query' req) w (λ o,
      hreturned o
      = Ok {| query_Error := None;
              query_Records := withReason' reasonOf (query_JobId req) <$> records;
              query_Pagination :=
                Some {| pg_Offset := qs_Offset (query_Spec req);
                        pg_Limit := qs_Limit (query_Spec req);
                        pg_Total := total |} |})).
    { intros (o & ? & ?). by exists o. }
    unfold Query. eapply hensures_answer; [apply Hrt|]. cbv iota.
    eapply hensures_answer; [apply Hq|]. cbv iota.
    apply hensures_bind.
    eapply hensures_mono; [by apply fillReason_withReason|].
    intros o2 Hret2. rewrite Hret2. by apply hensures_ret.
  - intros jobID ti Hp. unfold withReason. by rewrite decide_False.
  - intros jobID ti reason Hp Hreason. unfold withReason.
    by rewrite decide_True, Hreason.
Qed.

End ReadsFacts6.

(* --------------------------------------------------------------------- *)
(* Facts about the query builder                                         *)
(* --------------------------------------------------------------------- *)

Section QueryBuilderFacts.

Import QueryBuilder.

Variable Placeholders : nat → string.

Abbreviation Eq_toSQL' := (Eq_toSQL Placeholders).
Abbreviation Eq_toSQL_ranged' := (Eq_toSQL_ranged Placeholders).
Abbreviation eqClause' := (eqClause Placeholders).
Abbreviation ToSQL' := (ToSQL Placeholders).

Lemma elements_append {A} (s : slice A) (elems : list A) :
  elements (append s elems) = elements s ++ elems.
Proof. by destruct s, elems. Qed.

Lemma append_append {A} (s : slice A) (l1 l2 : list A) :
  append (append s l1) l2 = append s (l1 ++ l2).
Proof.
  destruct s as [l|]; simpl.
  - destruct l1, l2; simpl; by rewrite <- ?app_assoc.
  - destruct l1, l2; simpl; by rewrite ?app_nil_r.
Qed.

Lemma append_nil {A} (s : slice A) : append s [] = s.
Proof. destruct s as [l|]; simpl; by rewrite ?app_nil_r. Qed.

Lemma append_None {A} (s : slice A) (elems : list A) :
  append s elems = None ↔ s = None ∧ elems = [].
Proof. destruct s, elems; simpl; intuition discriminate. Qed.

Lemma elements_eqAdd args entries :
  elements (foldl eqAdd args entries)
  = elements args ++ concat ((λ kv, eqArgs kv.2) <$> entries).
Proof.
  revert args. induction entries as [|[key val] entries IH]; intros args; simpl.
  - by rewrite app_nil_r.
  - rewrite IH, app_assoc. f_equal. unfold eqAdd, eqArgs. simpl.
    destruct (valueOf val) as [[| | |[|]|[|]|]|]; simpl;
      rewrite ?elements_append, ?app_nil_r; try done; by destruct args.
Qed.

Lemma eqAdd_None args entries :
  Forall (λ kv, ∃ v, valueOf kv.2 = Ok v) entries →
  foldl eqAdd args entries = None
  ↔ args = None ∧ Forall (λ kv, valueOf kv.2 = Ok VNil) entries.
Proof.
  intros Hall. revert args.
  induction Hall as [|[key val] entries [v Hv] _ IH]; intros args; simpl.
  - split; [intros ->; by split | by intros [-> _]].
  - rewrite IH, Forall_cons. unfold eqAdd. simpl in *. rewrite Hv.
    destruct v as [|text|t text|[|e elems]|[|e elems]|r]; simpl;
      rewrite ?append_None; try (intuition (discriminate || congruence));
      destruct args; intuition (discriminate || congruence).
Qed.

Lemma Eq_toSQL_loop_spec (useNotOpr : bool) entries exprs args :
  match Eq_toSQL_loop Placeholders
          (if useNotOpr then "<>" else "=")
          (if useNotOpr then "NOT IN" else "IN")
          (if useNotOpr then "IS NOT" else "IS") entries exprs args with
  | (sql, args', None) =>
      Forall (λ kv, ∃ v, valueOf kv.2 = Ok v) entries
      ∧ sql = strings_Join (exprs ++ ((λ kv, eqClause' useNotOpr kv.1 kv.2) <$> entries))
                " AND "
      ∧ args' = foldl eqAdd args entries
  | (sql, args', Some err) =>
      sql = ""
      ∧ ∃ pre key val post,
          entries = pre ++ (key, val) :: post
          ∧ Forall (λ kv, ∃ v, valueOf kv.2 = Ok v) pre
          ∧ valueOf val = Err err
          ∧ args' = foldl eqAdd args pre
  end.
Proof.
  revert exprs args. induction entries as [|[key val] entries IH]; intros exprs args.
  - simpl. by rewrite app_nil_r.
  - cbn [Eq_toSQL_loop].
    destruct (valueOf val) as [v|err] eqn:Hv.
    2:{ split; [done|]. exists [], key, val, entries. by repeat split. }
    assert (∃ expr args1,
              match v with
              | VNil => (key +:+ " " +:+ (if useNotOpr then "IS NOT" else "IS") +:+ " NULL",
                         args)
              | _ =>
                  if negb (IsUUID v) && isArrayOrSlice v
                  then
                    if bool_decide (length (elemsOf v) = 0)
                    then (key +:+ " " +:+ (if useNotOpr then "NOT IN" else "IN")
                          +:+ " (NULL)",
                          if args is None then Some [] else args)
                    else (key +:+ " " +:+ (if useNotOpr then "NOT IN" else "IN") +:+ " ("
                          +:+ Placeholders (length (elemsOf v)) +:+ ")",
                          append args (elemsOf v))
                  else (key +:+ " " +:+ (if useNotOpr then "<>" else "=") +:+ " ?",
                        append args [v])
              end = (expr, args1)
              ∧ expr = eqClause' useNotOpr key val
              ∧ args1 = eqAdd args (key, val)) as (expr & args1 & -> & -> & ->).
    { unfold eqClause, eqAdd. simpl. rewrite Hv.
      destruct v as [|text|[] text|[|e elems]|[|e elems]|r]; destruct useNotOpr;
        eexists _, _; (split; [reflexivity|]); by split. }
    specialize (IH (exprs ++ [eqClause' useNotOpr key val]) (eqAdd args (key, val))).
    destruct (Eq_toSQL_loop _ _ _ _ entries _ _) as [[sql args'] [err|]].
    + destruct IH as (-> & pre & key' & val' & post & -> & Hpre & Hval & ->).
      split; [done|]. exists ((key, val) :: pre), key', val', post.
      split; [done|]. split; [|done]. constructor; [by exists v | done].
    + destruct IH as (Hall & -> & ->). split; [|split; [|done]].
      * constructor; [by exists v | done].
      * by rewrite <- app_assoc.
Qed.

Lemma concat_fmap_Permutation {A B} (f : A → list B) (l l' : list A) :
  l ≡ₚ l' → concat (f <$> l) ≡ₚ concat (f <$> l').
Proof.
  induction 1 as [|x l l' _ IH|x y l|l l' l'' _ IH _ IH']; simpl.
  - done.
  - by rewrite IH.
  - rewrite !app_assoc. f_equiv. apply Permutation_app_comm.
  - by rewrite IH.
Qed.

Lemma Eq_toSQL_ranged_spec entries (useNotOpr : bool) :
  match Eq_toSQL_ranged' entries useNotOpr with
  | (sql, args, None) =>
      Forall (λ kv, ∃ v, valueOf kv.2 = Ok v) entries
      ∧ sql = strings_Join ((λ kv, eqClause' useNotOpr kv.1 kv.2) <$> entries) " AND "
      ∧ elements args = concat ((λ kv, eqArgs kv.2) <$> entries)
      ∧ (args = None ↔ Forall (λ kv, valueOf kv.2 = Ok VNil) entries)
  | (sql, args, Some err) =>
      sql = ""
      ∧ ∃ pre key val post,
          entries = pre ++ (key, val) :: post
          ∧ Forall (λ kv, ∃ v, valueOf kv.2 = Ok v) pre
          ∧ valueOf val = Err err
          ∧ elements args = concat ((λ kv, eqArgs kv.2) <$> pre)
  end.
Proof.
  unfold Eq_toSQL_ranged. cbv zeta.
  pose proof (Eq_toSQL_loop_spec useNotOpr entries [] None) as H.
  destruct (Eq_toSQL_loop _ _ _ _ entries [] None) as [[sql args] [err|]].
  - destruct H as (-> & pre & key & val & post & Hent & Hpre & Hval & ->).
    split; [done|]. exists pre, key, val, post.
    by rewrite elements_eqAdd.
  - destruct H as (Hall & -> & ->). split; [done|]. split; [done|].
    split; [by rewrite elements_eqAdd|].
    rewrite eqAdd_None by done. intuition.
Qed.

(* A call fails when, and only when, the Value() of some entry does. *)
Lemma Eq_toSQL_ranged_fails entries (useNotOpr : bool) :
  (Eq_toSQL_ranged' entries useNotOpr).2 = None
  ↔ Forall (λ kv, ∃ v, valueOf kv.2 = Ok v) entries.
Proof.
  pose proof (Eq_toSQL_ranged_spec entries useNotOpr) as H.
  destruct (Eq_toSQL_ranged' entries useNotOpr) as [[sql args] [err|]]; simpl.
  - destruct H as (_ & pre & key & val & post & -> & _ & Hval & _).
    split; [done|]. intros Hall.
    apply Forall_app in Hall as [_ Hall]. apply Forall_cons in Hall as [[v Hv] _].
    simpl in Hv. by rewrite Hval in Hv.
  - by destruct H as (Hall & _).
Qed.

(** X25.  Eq.toSQL and NotEq, in whatever order entries the range statement
    takes the map: entries has every key of the map once, with its value.
    A result without error has one clause per key, in that order, joined
    by AND: IS NULL for a nil value, IN (NULL) for an empty array or
    slice, IN with one placeholder per element for another, = ? for any
    other value, a UUID included (IS NOT NULL, NOT IN and <> ? for NotEq);
    the args are the values and the elements, in that order, and are nil
    only when every value is nil.  An error is that of the first Value()
    that fails in that order; it comes without SQL and with the args of the
    entries before.  NotEq and Eq on the same map, each in an order of its
    own (entries and entries'), fail together; when they do not fail they
    return the same args up to the order, nil together; and they return
    the same args and error when they take the same order. *)
Theorem Eq_toSQL_writes_one_clause_per_key (eq : Eq)
    (entries entries' : list (string * value)) (useNotOpr : bool) :
  rangesOver eq entries →
  rangesOver eq entries' →
  NoDup entries.*1
  ∧ (∀ key val, (key, val) ∈ entries ↔ eq !! key = Some val)
  ∧ match Eq_toSQL_ranged' entries useNotOpr with
    | (sql, args, None) =>
        Forall (λ kv, ∃ v, valueOf kv.2 = Ok v) entries
        ∧ sql = strings_Join ((λ kv, eqClause' useNotOpr kv.1 kv.2) <$> entries) " AND "
        ∧ elements args = concat ((λ kv, eqArgs kv.2) <$> entries)
        ∧ (args = None ↔ Forall (λ kv, valueOf kv.2 = Ok VNil) entries)
    | (sql, args, Some err) =>
        sql = ""
        ∧ ∃ pre key val post,
            entries = pre ++ (key, val) :: post
            ∧ Forall (λ kv, ∃ v, valueOf kv.2 = Ok v) pre
            ∧ valueOf val = Err err
            ∧ elements args = concat ((λ kv, eqArgs kv.2) <$> pre)
    end
  ∧ Eq_toSQL' eq useNotOpr = Eq_toSQL_ranged' (map_to_list eq) useNotOpr
  ∧ ((Eq_toSQL_ranged' entries true).2 = None
     ↔ (Eq_toSQL_ranged' entries' false).2 = None)
  ∧ ((Eq_toSQL_ranged' entries true).2 = None →
     elements (Eq_toSQL_ranged' entries true).1.2
     ≡ₚ elements (Eq_toSQL_ranged' entries' false).1.2
     ∧ ((Eq_toSQL_ranged' entries true).1.2 = None
        ↔ (Eq_toSQL_ranged' entries' false).1.2 = None))
  ∧ (Eq_toSQL_ranged' entries true).1.2 = (Eq_toSQL_ranged' entries false).1.2
  ∧ (Eq_toSQL_ranged' entries true).2 = (Eq_toSQL_ranged' entries false).2.
Proof.
  unfold rangesOver. intros Hperm Hperm'.
  assert (entries ≡ₚ entries') as Hboth by (by rewrite Hperm, Hperm').
  split; [|split; [|split; [|split; [|split; [|split]]]]].
  - rewrite Hperm. apply NoDup_fst_map_to_list.
  - intros key val. rewrite Hperm. apply elem_of_map_to_list.
  - apply Eq_toSQL_ranged_spec.
  - done.
  - rewrite !Eq_toSQL_ranged_fails. by rewrite Hboth.
  - intros Hok.
    assert ((Eq_toSQL_ranged' entries' false).2 = None) as Hok'.
    { apply Eq_toSQL_ranged_fails. rewrite <- Hboth. by apply Eq_toSQL_ranged_fails in Hok. }
    pose proof (Eq_toSQL_ranged_spec entries true) as Ht.
    pose proof (Eq_toSQL_ranged_spec entries' false) as Hf.
    destruct (Eq_toSQL_ranged' entries true) as [[sql args] [err|]]; [done|].
    destruct (Eq_toSQL_ranged' entries' false) as [[sql' args'] [err'|]]; [done|].
    simpl. destruct Ht as (_ & _ & -> & ->). destruct Hf as (_ & _ & -> & ->).
    split; [by apply concat_fmap_Permutation|]. by rewrite Hboth.
  - unfold Eq_toSQL_ranged. cbv zeta.
    pose proof (Eq_toSQL_loop_spec true entries [] None) as Ht.
    pose proof (Eq_toSQL_loop_spec false entries [] None) as Hf.
    simpl in Ht, Hf.
    destruct (Eq_toSQL_loop _ "<>" _ _ entries [] None) as [[sql args] [err|]],
             (Eq_toSQL_loop _ "=" _ _ entries [] None) as [[sql' args'] [err'|]];
      simpl.
    + destruct Ht as (_ & pre & key & val & post & Hent & Hpre & Hval & ->).
      destruct Hf as (_ & pre' & key' & val' & post' & Hent' & Hpre' & Hval' & ->).
      assert (pre = pre' ∧ val = val') as [-> ->]; [|by rewrite Hval in Hval'; injection Hval' as ->].
      clear -Hent Hent' Hpre Hpre' Hval Hval'. rewrite Hent in Hent'. clear Hent.
      revert pre' Hent' Hpre'.
      induction Hpre as [|kv pre [v Hkv] _ IH]; intros pre' Hent' Hpre'.
      * destruct Hpre' as [|kv' pre' [v' Hkv'] _]; simpl in Hent'.
        -- by injection Hent' as _ ->.
        -- injection Hent' as <- _. simpl in Hkv'. by rewrite Hval in Hkv'.
      * destruct Hpre' as [|kv' pre' [v' Hkv'] Hpre']; simpl in Hent'.
        -- injection Hent' as -> _. simpl in Hkv. by rewrite Hval' in Hkv.
        -- injection Hent' as <- Hent'. destruct (IH _ Hent' Hpre') as [-> ->]. done.
    + exfalso. destruct Ht as (_ & pre & key & val & post & Hent & _ & Hval & _).
      destruct Hf as (Hall & _). rewrite Hent in Hall.
      apply Forall_app in Hall as [_ Hall]. apply Forall_cons in Hall as [[v Hv] _].
      simpl in Hv. by rewrite Hval in Hv.
    + exfalso. destruct Hf as (_ & pre & key & val & post & Hent & _ & Hval & _).
      destruct Ht as (Hall & _). rewrite Hent in Hall.
      apply Forall_app in Hall as [_ Hall]. apply Forall_cons in Hall as [[v Hv] _].
      simpl in Hv. by rewrite Hval in Hv.
    + destruct Ht as (_ & _ & ->). destruct Hf as (_ & _ & ->). done.
Qed.

End QueryBuilderFacts.

Section QueryBuilderFacts2.

Import QueryBuilder.

Variable Placeholders : nat → string.

Abbreviation ToSQL' := (ToSQL Placeholders).

Lemma Lt_toSQL_loop_spec opr entries exprs args :
  match Lt_toSQL_loop opr entries exprs args with
  | (sql, args', None) =>
      Forall (λ kv, ltError kv.2 = None) entries
      ∧ sql = strings_Join (exprs ++ ((λ kv, kv.1 +:+ " " +:+ opr +:+ " ?") <$> entries))
                " AND "
      ∧ args' = append args ((λ kv, ltArg kv.2) <$> entries)
  | (sql, args', Some err) =>
      sql = ""
      ∧ ∃ pre key val post,
          entries = pre ++ (key, val) :: post
          ∧ Forall (λ kv, ltError kv.2 = None) pre
          ∧ ltError val = Some err
          ∧ args' = append args ((λ kv, ltArg kv.2) <$> pre)
  end.
Proof.
  revert exprs args. induction entries as [|[key val] entries IH]; intros exprs args.
  - simpl. by rewrite app_nil_r, append_nil.
  - cbn [Lt_toSQL_loop].
    match goal with
    | |- match ?e with _ => _ end =>
        assert ((∃ err, ltError val = Some err ∧ e = ("", args, Some err))
                ∨ (ltError val = None
                   ∧ e = Lt_toSQL_loop opr entries (exprs ++ [key +:+ " " +:+ opr +:+ " ?"])
                           (append args [ltArg val]))) as Hcase
    end.
    { unfold ltError, ltArg.
      destruct (valueOf val) as [[|text|[] text|elems|elems|r]|err]; simpl; eauto. }
    destruct Hcase as [(err & Herr & ->)|[Hok ->]].
    + split; [done|]. exists [], key, val, entries.
      split; [done|]. split; [constructor|]. split; [done|].
      cbn [fmap list_fmap]. by rewrite append_nil.
    + specialize (IH (exprs ++ [key +:+ " " +:+ opr +:+ " ?"]) (append args [ltArg val])).
      destruct (Lt_toSQL_loop opr entries _ _) as [[sql args'] [err|]].
      * destruct IH as (-> & pre & key' & val' & post & -> & Hpre & Hval & ->).
        split; [done|]. exists ((key, val) :: pre), key', val', post.
        split; [done|]. split; [by constructor|]. split; [done|].
        cbn [fmap list_fmap]. simpl. by rewrite append_append.
      * destruct IH as (Hall & -> & ->). split; [by constructor|]. split.
        -- cbn [fmap list_fmap]. simpl. by rewrite <- app_assoc.
        -- cbn [fmap list_fmap]. simpl. by rewrite append_append.
Qed.

(** X26.  Lt.toSQL, for Lt, LtOrEq, Gt and GtOrEq: a result without error has
    the clause key opr ? for every key, in the order the map is ranged
    over, joined by AND, with opr one of <, <=, > and >=, and the values as
    args; the args are nil only for the empty map.  An error comes without
    SQL, with the args of the entries before, and is that of the first
    entry whose Value() fails, whose value is nil or whose value is an
    array or a slice; a gocql.UUID is an array and is refused, a UUID is
    taken. *)
Theorem Lt_toSQL_takes_only_comparable_values (lt : Lt) (opposite orEq : bool) :
  let entries := map_to_list lt in
  match Lt_toSQL lt opposite orEq with
  | (sql, args, None) =>
      Forall (λ kv, ltError kv.2 = None) entries
      ∧ sql = strings_Join ((λ kv, kv.1 +:+ " " +:+ ltOpr opposite orEq +:+ " ?")
                              <$> entries) " AND "
      ∧ elements args = (λ kv, ltArg kv.2) <$> entries
      ∧ (args = None ↔ lt = ∅)
  | (sql, args, Some err) =>
      sql = ""
      ∧ ∃ pre key val post,
          entries = pre ++ (key, val) :: post
          ∧ Forall (λ kv, ltError kv.2 = None) pre
          ∧ ltError val = Some err
          ∧ elements args = (λ kv, ltArg kv.2) <$> pre
  end
  ∧ (∀ text, ltError (VUUID T_gocql_UUID text) ≠ None
             ∧ ltError (VUUID T_UUID text) = None
             ∧ eqArgs (VUUID T_gocql_UUID text) = [VUUID T_gocql_UUID text])
  ∧ ltError VNil ≠ None
  ∧ (∀ elems, ltError (VSlice elems) ≠ None ∧ ltError (VArray elems) ≠ None).
Proof.
  intros entries. split; [|by repeat split].
  unfold Lt_toSQL. cbv zeta. fold entries.
  assert ((if orEq then (if opposite then ">" else "<") +:+ "="
           else if opposite then ">" else "<") = ltOpr opposite orEq) as ->
    by (by destruct opposite, orEq).
  pose proof (Lt_toSQL_loop_spec (ltOpr opposite orEq) entries [] None) as H.
  destruct (Lt_toSQL_loop _ entries [] None) as [[sql args] [err|]].
  - destruct H as (-> & pre & key & val & post & Hent & Hpre & Hval & ->).
    split; [done|]. exists pre, key, val, post. by rewrite elements_append.
  - destruct H as (Hall & -> & ->). split; [done|]. split; [done|].
    split; [by rewrite elements_append|].
    rewrite append_None. split.
    + intros [_ Hnil]. apply fmap_nil_inv in Hnil. by apply map_to_list_empty_iff.
    + intros Hempty. split; [done|]. unfold entries. rewrite Hempty.
      change ((λ kv : string * value, ltArg kv.2)
                <$> map_to_list (∅ : gmap string value) = []).
      by rewrite map_to_list_empty.
Qed.

(* ----- conj.join ----- *)

Section JoinFacts.

Variable f : Sqlizer → sqlResult.

Lemma conj_join_loop_spec c sqlParts args sep :
  match conj_join_loop f c sqlParts args sep with
  | (sql, args', None) =>
      Forall (λ s, (f s).2 = None) c
      ∧ sql = (let parts := sqlParts ++ ((λ s, (f s).1.1) <$> withSQL f c) in
               if parts is [] then "" else "(" +:+ strings_Join parts sep +:+ ")")
      ∧ args' = append args (concat ((λ s, elements (f s).1.2) <$> withSQL f c))
  | (sql, args', Some err) =>
      sql = "" ∧ args' = None
      ∧ ∃ pre s post,
          c = pre ++ s :: post
          ∧ Forall (λ s', (f s').2 = None) pre
          ∧ (f s).2 = Some err
  end.
Proof.
  revert sqlParts args. induction c as [|s c IH]; intros sqlParts args.
  - simpl. rewrite app_nil_r, append_nil. split; [done|]. split; [|done].
    destruct sqlParts; [done|]. by rewrite bool_decide_eq_true_2 by (simpl; lia).
  - cbn [conj_join_loop]. unfold withSQL. rewrite filter_cons.
    destruct (f s) as [[partSQL partArgs] [err|]] eqn:Hs.
    { split; [done|]. split; [done|]. exists [], s, c. rewrite Hs. by repeat split. }
    simpl. case_bool_decide as Hsql.
    + rewrite decide_True by done.
      specialize (IH (sqlParts ++ [partSQL]) (append args (elements partArgs))).
      destruct (conj_join_loop f c _ _ sep) as [[sql args'] [err|]].
      * destruct IH as (-> & -> & pre & s' & post & -> & Hpre & Hs').
        split; [done|]. split; [done|]. exists (s :: pre), s', post.
        split; [done|]. split; [|done]. constructor; [by rewrite Hs | done].
      * destruct IH as (Hall & -> & ->). split; [|split].
        -- constructor; [by rewrite Hs | done].
        -- cbn [fmap list_fmap]. rewrite Hs. simpl. by rewrite <- app_assoc.
        -- cbn [fmap list_fmap concat]. rewrite Hs. simpl. by rewrite append_append.
    + rewrite decide_False by (by intros ?).
      specialize (IH sqlParts args).
      destruct (conj_join_loop f c _ _ sep) as [[sql args'] [err|]].
      * destruct IH as (-> & -> & pre & s' & post & -> & Hpre & Hs').
        split; [done|]. split; [done|]. exists (s :: pre), s', post.
        split; [done|]. split; [|done]. constructor; [by rewrite Hs | done].
      * destruct IH as (Hall & -> & ->). split; [|done].
        constructor; [by rewrite Hs | done].
Qed.

End JoinFacts.

(** X27.  And and Or join the parts that give SQL: without error the result is
    the SQL of those parts, joined by AND or by OR and put in parentheses,
    with their args in order; a part whose SQL is empty is left out
    together with its args, and with no part left the result is the empty
    string.  The first part that fails ends the call: its error is
    returned with no SQL and nil args. *)
Theorem And_and_Or_join_the_parts_with_SQL (c : list Sqlizer) :
  let kept := withSQL ToSQL' c in
  let joined := λ sep : string,
    if kept is [] then ""
    else "(" +:+ strings_Join ((λ s, (ToSQL' s).1.1) <$> kept) sep +:+ ")" in
  match ToSQL' (Sqlizer_And c), ToSQL' (Sqlizer_Or c) with
  | (sql, args, None), (sql', args', None) =>
      Forall (λ s, (ToSQL' s).2 = None) c
      ∧ sql = joined " AND " ∧ sql' = joined " OR "
      ∧ args = args'
      ∧ elements args = concat ((λ s, elements (ToSQL' s).1.2) <$> kept)
  | (sql, args, Some err), (sql', args', Some err') =>
      (sql, args) = ("", None) ∧ (sql', args') = ("", None) ∧ err = err'
      ∧ ∃ pre s post,
          c = pre ++ s :: post
          ∧ Forall (λ s', (ToSQL' s').2 = None) pre
          ∧ (ToSQL' s).2 = Some err
  | _, _ => False
  end.
Proof.
  intros kept joined.
  change (ToSQL' (Sqlizer_And c)) with (conj_join ToSQL' c " AND ").
  change (ToSQL' (Sqlizer_Or c)) with (conj_join ToSQL' c " OR ").
  unfold conj_join.
  pose proof (conj_join_loop_spec ToSQL' c [] None " AND ") as Ha.
  pose proof (conj_join_loop_spec ToSQL' c [] None " OR ") as Ho.
  destruct (conj_join_loop ToSQL' c [] None " AND ") as [[sql args] [err|]],
           (conj_join_loop ToSQL' c [] None " OR ") as [[sql' args'] [err'|]].
  - destruct Ha as (-> & -> & pre & s & post & Hc & Hpre & Hs).
    destruct Ho as (-> & -> & pre' & s' & post' & Hc' & Hpre' & Hs').
    assert (pre = pre' ∧ s = s') as [<- <-].
    { clear -Hc Hc' Hpre Hpre' Hs Hs'. rewrite Hc in Hc'. clear Hc.
      revert pre' Hc' Hpre'.
      induction Hpre as [|x pre Hx _ IH]; intros pre' Hc' Hpre'.
      - destruct Hpre' as [|x' pre' Hx' _]; simpl in Hc'.
        + by injection Hc' as ->.
        + injection Hc' as <- _. by rewrite Hs in Hx'.
      - destruct Hpre' as [|x' pre' Hx' Hpre']; simpl in Hc'.
        + injection Hc' as -> _. by rewrite Hs' in Hx.
        + injection Hc' as <- Hc'. by destruct (IH _ Hc' Hpre') as [-> ->]. }
    rewrite Hs in Hs'. injection Hs' as <-.
    split; [done|]. split; [done|]. split; [done|]. by exists pre, s, post.
  - destruct Ha as (_ & _ & pre & s & post & Hc & _ & Hs). destruct Ho as (Hall & _).
    rewrite Hc in Hall. apply Forall_app in Hall as [_ Hall].
    apply Forall_cons in Hall as [Hs' _]. by rewrite Hs in Hs'.
  - destruct Ho as (_ & _ & pre & s & post & Hc & _ & Hs). destruct Ha as (Hall & _).
    rewrite Hc in Hall. apply Forall_app in Hall as [_ Hall].
    apply Forall_cons in Hall as [Hs' _]. by rewrite Hs in Hs'.
  - destruct Ha as (Hall & -> & ->). destruct Ho as (_ & -> & ->).
    split; [done|].
    split; [unfold joined, kept; simpl; by destruct (withSQL ToSQL' c)|].
    split; [unfold joined, kept; simpl; by destruct (withSQL ToSQL' c)|].
    split; [done|]. by rewrite elements_append.
Qed.

End QueryBuilderFacts2.

Section QueryBuilderFacts3.

Import QueryBuilder.

Variable Placeholders : nat → string.

Abbreviation ToSQL' := (ToSQL Placeholders).

(** X28.  No builder of the file returns SQL together with an error: for an
    expr, an Eq, NotEq, Lt, LtOrEq, Gt, GtOrEq, And or Or, and for an alias
    of one, an error comes with the empty string as SQL; an And or an Or
    returns nil args with it as well, and an expr never fails.  An alias
    passes on what the aliased Sqlizer returns, so for an implementation
    of another file this holds when that implementation keeps to it. *)
Theorem ToSQL_error_comes_without_SQL (s : Sqlizer) (err : error) :
  keepsRule s →
  (ToSQL' s).2 = Some err →
  (ToSQL' s).1.1 = ""
  ∧ (∀ e, s ≠ Sqlizer_expr e)
  ∧ ((∃ c, s = Sqlizer_And c ∨ s = Sqlizer_Or c) → (ToSQL' s).1.2 = None).
Proof.
  intros Hrule Herr. split; [|split].
  - induction s as [e|expr IH alias|eq|neq|lt|ltOrEq|gt|gtOrEq|a|o|r].
    + done.
    + cbn [ToSQL] in Herr |- *. cbn [keepsRule] in Hrule.
      destruct (ToSQL' expr) as [[sql args] [err'|]]; [|done].
      simpl in *. by apply IH.
    + cbn [ToSQL] in Herr |- *. unfold Eq_ToSQL, Eq_toSQL, Eq_toSQL_ranged in *. cbv zeta in *.
      pose proof (Eq_toSQL_loop_spec Placeholders false (map_to_list eq) [] None) as H.
      simpl in H. destruct (Eq_toSQL_loop _ _ _ _ _ _ _) as [[sql args] [err'|]]; [|done].
      by destruct H as [-> _].
    + cbn [ToSQL] in Herr |- *. unfold NotEq_ToSQL, Eq_toSQL, Eq_toSQL_ranged in *. cbv zeta in *.
      pose proof (Eq_toSQL_loop_spec Placeholders true (map_to_list neq) [] None) as H.
      simpl in H. destruct (Eq_toSQL_loop _ _ _ _ _ _ _) as [[sql args] [err'|]]; [|done].
      by destruct H as [-> _].
    + cbn [ToSQL] in Herr |- *. unfold Lt_ToSQL, Lt_toSQL in *. cbv zeta in *.
      pose proof (Lt_toSQL_loop_spec "<" (map_to_list lt) [] None) as H.
      destruct (Lt_toSQL_loop _ _ _ _) as [[sql args] [err'|]]; [|done].
      by destruct H as [-> _].
    + cbn [ToSQL] in Herr |- *. unfold LtOrEq_ToSQL, Lt_toSQL in *. cbv zeta in *.
      pose proof (Lt_toSQL_loop_spec ("<" +:+ "=") (map_to_list ltOrEq) [] None) as H.
      destruct (Lt_toSQL_loop _ _ _ _) as [[sql args] [err'|]]; [|done].
      by destruct H as [-> _].
    + cbn [ToSQL] in Herr |- *. unfold Gt_ToSQL, Lt_toSQL in *. cbv zeta in *.
      pose proof (Lt_toSQL_loop_spec ">" (map_to_list gt) [] None) as H.
      destruct (Lt_toSQL_loop _ _ _ _) as [[sql args] [err'|]]; [|done].
      by destruct H as [-> _].
    + cbn [ToSQL] in Herr |- *. unfold GtOrEq_ToSQL, Lt_toSQL in *. cbv zeta in *.
      pose proof (Lt_toSQL_loop_spec (">" +:+ "=") (map_to_list gtOrEq) [] None) as H.
      destruct (Lt_toSQL_loop _ _ _ _) as [[sql args] [err'|]]; [|done].
      by destruct H as [-> _].
    + change (ToSQL' (Sqlizer_And a)) with (conj_join ToSQL' a " AND ") in *.
      unfold conj_join in *.
      pose proof (conj_join_loop_spec ToSQL' a [] None " AND ") as H.
      destruct (conj_join_loop _ _ _ _ _) as [[sql args] [err'|]]; [|done].
      by destruct H as [-> _].
    + change (ToSQL' (Sqlizer_Or o)) with (conj_join ToSQL' o " OR ") in *.
      unfold conj_join in *.
      pose proof (conj_join_loop_spec ToSQL' o [] None " OR ") as H.
      destruct (conj_join_loop _ _ _ _ _) as [[sql args] [err'|]]; [|done].
      by destruct H as [-> _].
    + simpl in *. destruct r as [[sql args] [err'|]]; done.
  - intros e ->. done.
  - intros [c [-> | ->]].
    + change (ToSQL' (Sqlizer_And c)) with (conj_join ToSQL' c " AND ") in *.
      unfold conj_join in *.
      pose proof (conj_join_loop_spec ToSQL' c [] None " AND ") as H.
      destruct (conj_join_loop _ _ _ _ _) as [[sql args] [err'|]]; [|done].
      by destruct H as (_ & -> & _).
    + change (ToSQL' (Sqlizer_Or c)) with (conj_join ToSQL' c " OR ") in *.
      unfold conj_join in *.
      pose proof (conj_join_loop_spec ToSQL' c [] None " OR ") as H.
      destruct (conj_join_loop _ _ _ _ _) as [[sql args] [err'|]]; [|done].
      by destruct H as (_ & -> & _).
Qed.

Section WriterFacts.

Variable W : Type.
Variable WriteString : W → string → W * option error.

Lemma AppendToSQL_loop_rest es i w sep args0 :
  AppendToSQL_loop W WriteString es (S i) w sep args0
  = (let '(w', err) :=
       writeAll W WriteString w (concat ((λ s, [sep; s]) <$> (sql <$> es))) in
     (if err is None
      then append args0 (concat ((λ e, elements (args e)) <$> es))
      else None, err, w')).
Proof.
  revert i w args0. induction es as [|e es IH]; intros i w args0.
  - simpl. by rewrite append_nil.
  - cbn [AppendToSQL_loop fmap list_fmap concat app writeAll].
    change (0 <? S i)%nat with true. cbv iota.
    destruct (WriteString w sep) as [w1 [err|]]; [reflexivity|]. cbv iota beta.
    destruct (WriteString w1 (sql e)) as [w2 [err|]]; [reflexivity|]. cbv iota beta.
    rewrite IH. destruct (writeAll _ _ w2 _) as [w' [err|]]; [reflexivity|].
    by rewrite append_append.
Qed.

End WriterFacts.

Lemma string_app_empty_r (s : string) : s +:+ "" = s.
Proof.
  induction s as [|a s IH]; [done|].
  change (String a (s +:+ "") = String a s). by f_equal.
Qed.

Lemma concat_empty_cons (s : string) (strs : list string) :
  String.concat "" (s :: strs) = s +:+ String.concat "" strs.
Proof. destruct strs; [symmetry; apply string_app_empty_r | reflexivity]. Qed.

Lemma writeAll_bufferWrite (w : string) (strs : list string) :
  writeAll string bufferWrite w strs = (w +:+ String.concat "" strs, None).
Proof.
  revert w. induction strs as [|s strs IH]; intros w.
  - simpl. by rewrite string_app_empty_r.
  - change (writeAll string bufferWrite w (s :: strs))
      with (writeAll string bufferWrite (w +:+ s) strs).
    by rewrite IH, concat_empty_cons, string_app_assoc.
Qed.

Lemma concat_pieces (sep : string) (sqls : list string) :
  String.concat "" (pieces sep sqls) = String.concat sep sqls.
Proof.
  destruct sqls as [|s sqls]; [done|]. unfold pieces.
  revert s. induction sqls as [|s' sqls IH]; intros s; [done|].
  cbn [fmap list_fmap concat app]. specialize (IH s').
  cbn [String.concat] in IH |- *.
  destruct sqls as [|s'' sqls]; simpl in *; [done|]. by rewrite <- IH.
Qed.

(** X29.  exprs.AppendToSQL writes the SQL of the expressions in order, with sep
    between two of them and neither before the first nor after the last,
    and stops at the first write that fails: it then returns that error
    and nil args.  When every write succeeds it returns the args it was
    given followed by the args of the expressions in order.  On a writer
    that does not fail, what is written is the expressions' SQL joined by
    sep. *)
Theorem AppendToSQL_writes_the_expressions_in_order
    (W : Type) (WriteString : W → string → W * option error)
    (es : exprs) (w : W) (buffer sep : string) (args0 : slice value) :
  AppendToSQL W WriteString es w sep args0
  = (let '(w', err) := writeAll W WriteString w (pieces sep (sql <$> es)) in
     (if err is None
      then append args0 (concat ((λ e, elements (args e)) <$> es))
      else None, err, w'))
  ∧ AppendToSQL string bufferWrite es buffer sep args0
    = (append args0 (concat ((λ e, elements (args e)) <$> es)), None,
       buffer +:+ strings_Join (sql <$> es) sep).
Proof.
  assert (∀ W WriteString (w : W),
            AppendToSQL W WriteString es w sep args0
            = (let '(w', err) := writeAll W WriteString w (pieces sep (sql <$> es)) in
               (if err is None
                then append args0 (concat ((λ e, elements (args e)) <$> es))
                else None, err, w'))) as Hgen.
  { clear. intros W WriteString w. unfold AppendToSQL.
    destruct es as [|e es]; [simpl; by rewrite append_nil|].
    cbn [AppendToSQL_loop pieces fmap list_fmap writeAll].
    change (0 <? 0)%nat with false. cbv iota.
    destruct (WriteString w (sql e)) as [w1 [err|]]; [reflexivity|]. cbv iota beta.
    rewrite AppendToSQL_loop_rest.
    destruct (writeAll _ _ w1 _) as [w' [err|]]; [reflexivity|].
    cbn [concat]. by rewrite append_append. }
  split; [apply Hgen|].
  rewrite Hgen, writeAll_bufferWrite, concat_pieces. done.
Qed.

End QueryBuilderFacts3.

(* --------------------------------------------------------------------- *)
(* The scenarios of the spec                                              *)
(* --------------------------------------------------------------------- *)

Lemma always_stub (s : stub) {X : Type} (c : call X) (x : X) :
  stub_answer s X c = x → always (stubEnv s) c x.
Proof. intros Hx w. exact Hx. Defined.

Lemma write_rpcs_refuse_on_non_leader_witness :
  answer (stubEnv followerJ1) IsLeader tt = false
  ∧ ∃ e, IsUnavailable e = true
         ∧ run (stubEnv followerJ1)
             (Refresh {| refresh_JobId := "J1"; refresh_Range := None |}) tt
           = Some (Outcome (Err e) tt [Event IsLeader false]).
Proof.
  split; [reflexivity|].
  apply (write_rpcs_refuse_on_non_leader
           defaultJobGoalState defaultTaskGoalState initialHealthState
           (stubEnv followerJ1) tt
           {| start_JobId := "J1"; start_Ranges := [] |}
           {| stop_JobId := "J1"; stop_Ranges := [] |}
           {| restart_JobId := "J1"; restart_Ranges := [] |}
           {| refresh_JobId := "J1"; refresh_Range := None |}).
  reflexivity.
Defined.

Lemma stop_whole_job_is_idempotent_witness :
  always (stubEnv killedJ1) IsLeader true
  ∧ always (stubEnv killedJ1) (JobGetConfig "J1")
      (Ok {| jc_Type := SERVICE; jc_InstanceCount := 4 |})
  ∧ always (stubEnv killedJ1) (JobGetRuntime "J1")
      (Ok (jobRuntimeOf JobState_KILLED JobState_KILLED))
  ∧ ∃ o resp,
      run (stubEnv killedJ1) (Stop {| stop_JobId := "J1"; stop_Ranges := [] |}) tt = Some o
      ∧ returned o = Ok resp
      ∧ stop_Error resp = None
      ∧ (∀ i, i ∈ StoppedInstanceIds resp ↔ (i < 4)%N)
      ∧ countOf isRuntimeWrite (trace o) = 0
      ∧ countOf isEnqueue (trace o) = 0.
Proof.
  assert (always (stubEnv killedJ1) IsLeader true) as Hl
    by (by apply always_stub).
  assert (always (stubEnv killedJ1) (JobGetConfig "J1")
            (Ok {| jc_Type := SERVICE; jc_InstanceCount := 4 |})) as Hc
    by (by apply always_stub).
  assert (always (stubEnv killedJ1) (JobGetRuntime "J1")
            (Ok (jobRuntimeOf JobState_KILLED JobState_KILLED))) as Hr
    by (by apply always_stub).
  repeat (split; [assumption|]).
  destruct (stop_whole_job_is_idempotent (stubEnv killedJ1) tt
              {| stop_JobId := "J1"; stop_Ranges := [] |} _ _ Hl Hc Hr eq_refl eq_refl)
    as (o & resp & Hrun & Hret & Herr & _ & Hids & _ & _ & Hw & He).
  by exists o, resp.
Defined.

Lemma retry_gives_up_at_fifth_conflict_witness :
  always (stubEnv conflictingJ1) IsLeader true
  ∧ (∀ written, always (stubEnv conflictingJ1) (JobCompareAndSetRuntime "J1" written)
                  (Some UnexpectedVersionError))
  ∧ (∃ o resp msg,
       run (stubEnv conflictingJ1)
         (StartS {| start_JobId := "J1"; start_Ranges := [] |}) tt = Some o
       ∧ returned o = Ok resp
       ∧ start_Error resp = Some (StartError_Failure msg)
       ∧ countOf isJobCAS (trace o) = 5)
  ∧ (∃ o resp msg,
       run (stubEnv conflictingJ1)
         (Stop {| stop_JobId := "J1"; stop_Ranges := [] |}) tt = Some o
       ∧ returned o = Ok resp
       ∧ stop_Error resp = Some (StopError_UpdateError msg)
       ∧ countOf isJobCAS (trace o) = 5).
Proof.
  assert (always (stubEnv conflictingJ1) IsLeader true) as Hl
    by (by apply always_stub).
  assert (∀ written, always (stubEnv conflictingJ1) (JobCompareAndSetRuntime "J1" written)
                       (Some UnexpectedVersionError)) as Hcas
    by (intros written; by apply always_stub).
  split; [assumption|]. split; [assumption|].
  destruct (retry_gives_up_at_fifth_conflict
              defaultJobGoalState defaultTaskGoalState initialHealthState
              (stubEnv conflictingJ1) tt
              {| start_JobId := "J1"; start_Ranges := [] |}
              {| stop_JobId := "J1"; stop_Ranges := [] |}
              {| jc_Type := SERVICE; jc_InstanceCount := 100 |}
              (jobRuntimeOf JobState_RUNNING JobState_RUNNING)
              eq_refl eq_refl Hl
              (always_stub conflictingJ1 _ _ eq_refl)
              (always_stub conflictingJ1 _ _ eq_refl)
              eq_refl ltac:(discriminate) Hcas)
    as [(o & resp & msg & Hrun & Hret & Herr & _ & Hn)
        [(o' & resp' & msg' & Hrun' & Hret' & Herr' & _ & _ & Hn') _]].
  split.
  - by exists o, resp, msg.
  - by exists o', resp', msg'.
Defined.

(** C1, at the store of scenario 4: the first five job-level writes of a
    Start are rejected for a version conflict and a sixth would be
    accepted.  The handler stops at the fifth: five writes are attempted,
    the write that would be accepted is never asked for, and the response
    carries the failure.  The comments at the guards of the two loops
    (lines 484 and 657) say that the write is retried
    MaxConcurrencyErrorRetry times, which would be five retries after the
    first attempt and so a sixth write; the guard count <
    MaxConcurrencyErrorRetry, tested after count is raised, allows four. *)
Lemma sixth_attempt_is_not_made_counterexample :
  ∃ o resp msg,
    run (scriptedEnv largeJ1)
      (StartS {| start_JobId := "J1"; start_Ranges := [] |})
      (replicate 5 UnexpectedVersion ++ [None]) = Some o
    ∧ returned o = Ok resp
    ∧ start_Error resp = Some (StartError_Failure msg)
    ∧ StartedInstanceIds resp = []
    ∧ countOf isJobCAS (trace o) = 5
    ∧ countOf isJobCAS (trace o) ≠ 6
    ∧ final o = [None]
    ∧ countOf isEnqueue (trace o) = 0.
Proof.
  eexists _, _, _. split; [vm_compute; reflexivity|].
  split; [reflexivity|]. split; [reflexivity|]. split; [reflexivity|].
  split; [reflexivity|]. split; [by vm_compute|]. split; reflexivity.
Qed.



Lemma stop_single_covering_range_stops_job_witness :
  always (stubEnv largeJ1) IsLeader true
  ∧ always (stubEnv largeJ1) (JobGetConfig "J1")
      (Ok {| jc_Type := SERVICE; jc_InstanceCount := 100 |})
  ∧ always (stubEnv largeJ1) (JobGetRuntime "J1")
      (Ok (jobRuntimeOf JobState_RUNNING JobState_RUNNING))
  ∧ ∃ o resp,
      run (stubEnv largeJ1) (Stop {| stop_JobId := "J1"; stop_Ranges := [] |}) tt = Some o
      ∧ returned o = Ok resp
      ∧ StoppedInstanceIds resp = instanceList 100
      ∧ countOf isJobCAS (trace o) = 1
      ∧ countOf isTaskCAS (trace o) = 0
      ∧ countOf isPatch (trace o) = 0
      ∧ countOf isEnqueue (trace o) = 1
      ∧ Event (JobCompareAndSetRuntime "J1"
                 {| jr_State := JobState_RUNNING; jr_GoalState := JobState_KILLED;
                    jr_DesiredStateVersion := 8; jr_UpdateTime := "";
                    jr_Revision := 1 |}) None ∈ trace o.
Proof.
  assert (always (stubEnv largeJ1) IsLeader true) as Hl
    by (by apply always_stub).
  assert (always (stubEnv largeJ1) (JobGetConfig "J1")
            (Ok {| jc_Type := SERVICE; jc_InstanceCount := 100 |})) as Hc
    by (by apply always_stub).
  assert (always (stubEnv largeJ1) (JobGetRuntime "J1")
            (Ok (jobRuntimeOf JobState_RUNNING JobState_RUNNING))) as Hr
    by (by apply always_stub).
  repeat (split; [assumption|]).
  destruct (stop_single_covering_range_stops_job (stubEnv largeJ1) tt
              {| stop_JobId := "J1"; stop_Ranges := [] |} _ _ Hl Hc Hr
              ltac:(discriminate) (λ w, eq_refl) (or_introl eq_refl))
    as (o & resp & Hrun & Hret & _ & Hids & _ & Htr & _ & _ & H1 & H2 & H3 & H4).
  exists o, resp. repeat (split; [assumption|]).
  rewrite Htr. do 5 apply list_elem_of_further. apply list_elem_of_here.
Defined.

(* Stops that do not go the way of the whole-job stop.  The two ranges
   [0,1) and [1,2) cover the two instances of the job, but Stop does not
   take the whole-job path: it makes no job-level CompareAndSetRuntime,
   patches the tasks with PatchTasks, and enqueues each task.  And for a
   job whose goal state is already KILLED, a Stop without ranges makes no
   CompareAndSetRuntime and no enqueue at all. *)
Lemma stop_covering_ranges_counterexample :
  coversAll halves 2 = true
  ∧ (∃ o,
       run (stubEnv smallJ1) (Stop {| stop_JobId := "J1"; stop_Ranges := halves |}) tt
       = Some o
       ∧ countOf isJobCAS (trace o) = 0
       ∧ countOf isPatch (trace o) = 1
       ∧ countOf isEnqueue (trace o) = 3)
  ∧ (∃ o,
       run (stubEnv killedJ1) (Stop {| stop_JobId := "J1"; stop_Ranges := [] |}) tt
       = Some o
       ∧ countOf isJobCAS (trace o) = 0
       ∧ countOf isEnqueue (trace o) = 0).
Proof.
  split; [reflexivity|].
  split; (eexists; split; [vm_compute; reflexivity|]); by vm_compute.
Qed.

Lemma start_restarts_killed_tasks_witness :
  let body := {| start_JobId := "J1"; start_Ranges := [ {| From := 2; To := 3 |} ] |} in
  always (stubEnv runningJ1) IsLeader true
  ∧ always (stubEnv runningJ1) (JobGetConfig "J1")
      (Ok {| jc_Type := SERVICE; jc_InstanceCount := 4 |})
  ∧ always (stubEnv runningJ1) (JobGetRuntime "J1")
      (Ok (jobRuntimeOf JobState_RUNNING JobState_RUNNING))
  ∧ lookupsAnswer (stubEnv runningJ1) "J1" (tasks runningJ1) (rangeIn runningJ1)
  ∧ Forall (taskServed (stubEnv runningJ1) defaultTaskGoalState initialHealthState
              "J1" {| jc_Type := SERVICE; jc_InstanceCount := 4 |}
              (runtimeIn runningJ1) (λ _, None))
      (range_values (selectedTasks (tasks runningJ1) (rangeIn runningJ1)
                       (start_Ranges body)))
  ∧ ∃ o,
      run (stubEnv runningJ1) (StartS body) tt = Some o
      ∧ returned o = Ok {| start_Error := None; StartedInstanceIds := [2%N];
                           start_InvalidInstanceIds := [] |}
      ∧ trace o !! 8
        = Some (Event (TaskCompareAndSetRuntime "J1" 2
                         {| State := TaskState_KILLED; GoalState := TaskState_RUNNING;
                            MesosTaskId := "J1-2-4"; DesiredMesosTaskId := "J1-2-3";
                            Host := "host-1"; AgentID := "agent-1";
                            Message := "Task start API request"; Reason := "";
                            ConfigVersion := 1; Healthy := HealthState_DISABLED;
                            TerminationStatus_ := None; Revision := 1 |}
                         SERVICE) None)
      ∧ filter (λ ev, isEnqueue ev = true) (trace o)
        = [ Event (EnqueueTask "J1" 2) tt;
            Event (EnqueueJobWithDefaultDelay "J1") tt ].
Proof.
  intros body.
  assert (always (stubEnv runningJ1) IsLeader true) as Hl
    by (by apply always_stub).
  assert (always (stubEnv runningJ1) (JobGetConfig "J1")
            (Ok {| jc_Type := SERVICE; jc_InstanceCount := 4 |})) as Hc
    by (by apply always_stub).
  assert (always (stubEnv runningJ1) (JobGetRuntime "J1")
            (Ok (jobRuntimeOf JobState_RUNNING JobState_RUNNING))) as Hr
    by (by apply always_stub).
  assert (lookupsAnswer (stubEnv runningJ1) "J1" (tasks runningJ1) (rangeIn runningJ1))
    as Hlookup by (split; [intros w|intros r w]; reflexivity).
  assert (Forall (taskServed (stubEnv runningJ1) defaultTaskGoalState initialHealthState
                    "J1" {| jc_Type := SERVICE; jc_InstanceCount := 4 |}
                    (runtimeIn runningJ1) (λ _, None))
            (range_values (selectedTasks (tasks runningJ1) (rangeIn runningJ1)
                             (start_Ranges body)))) as Hserved.
  { replace (range_values (selectedTasks (tasks runningJ1) (rangeIn runningJ1)
                             (start_Ranges body)))
      with [taskOf 2 TaskState_KILLED "J1-2-3"] by (by vm_compute).
    repeat constructor; try (intros w; reflexivity). discriminate. }
  repeat (split; [assumption|]).
  destruct (start_restarts_killed_tasks
              defaultJobGoalState defaultTaskGoalState initialHealthState
              (stubEnv runningJ1) tt body _ _ _ _ _ _
              Hl Hc Hr eq_refl (λ w, eq_refl) Hlookup Hserved)
    as ((o & Hrun & Hret & Htr) & _).
  exists o. split; [exact Hrun|]. rewrite Hret, Htr. by vm_compute.
Defined.

Lemma keyedByInstance_of_list (m : gmap N TaskInfo) :
  Forall (λ kv, InstanceId kv.2 = kv.1) (map_to_list m) → keyedByInstance m.
Proof.
  intros Hall i ti Hi. apply elem_of_map_to_list in Hi.
  by apply (proj1 (Forall_forall _ _) Hall (i, ti)).
Defined.

Lemma restart_bumps_desired_run_witness :
  let req := {| restart_JobId := "J1"; restart_Ranges := [] |} in
  let selected := selectedTasks (tasks runningJ1) (rangeIn runningJ1) (restart_Ranges req) in
  always (stubEnv runningJ1) IsLeader true
  ∧ lookupsAnswer (stubEnv runningJ1) "J1" (tasks runningJ1) (rangeIn runningJ1)
  ∧ keyedByInstance selected
  ∧ always (stubEnv runningJ1) (PatchTasks "J1" (restartDiff "J1" <$> selected)) None
  ∧ (∃ o,
       run (stubEnv runningJ1) (Restart req) tt = Some o
       ∧ returned o = Ok MkRestartResponse
       ∧ filter (λ ev, isEnqueue ev = true) (trace o)
         = enqueueTrace "J1" (range_keys (restartDiff "J1" <$> selected)))
  ∧ (restartDiff "J1" <$> selected) !! 2%N
    = Some [ (DesiredMesosTaskIDField, VTaskID "J1-2-4") ].
Proof.
  intros req selected.
  assert (always (stubEnv runningJ1) IsLeader true) as Hl
    by (by apply always_stub).
  assert (lookupsAnswer (stubEnv runningJ1) "J1" (tasks runningJ1) (rangeIn runningJ1))
    as Hlookup by (split; [intros w|intros r w]; reflexivity).
  assert (keyedByInstance selected) as Hkey.
  { apply keyedByInstance_of_list. apply (bool_decide_unpack _). by vm_compute. }
  assert (always (stubEnv runningJ1) (PatchTasks "J1" (restartDiff "J1" <$> selected)) None)
    as Hpatch by (intros w; reflexivity).
  repeat (split; [assumption|]).
  destruct (restart_bumps_desired_run (stubEnv runningJ1) tt req _ _
              Hl Hlookup Hkey Hpatch)
    as ((o & Hrun & Hret & Htr) & Hdiffs & _).
  split.
  - exists o. split; [exact Hrun|]. split; [exact Hret|]. rewrite Htr. by vm_compute.
  - etrans; [apply (Hdiffs 2%N (taskOf 2 TaskState_KILLED "J1-2-3")); by vm_compute|].
    by vm_compute.
Defined.

Section ScenarioWatch.

Import WatchProcessor.

Lemma task_client_overflows_after_buffer_size_witness :
  let p := newWatchProcessor testConfig in
  let c := {| Input := []; InputClosed := false; Signal := None |} in
  let pods := replicate 10 "pod" in
  wf p
  ∧ NewTaskClient p = (Ok ("0", c), (NewTaskClient p).2)
  ∧ length pods = BufferSize (config p)
  ∧ ∃ p2 c2,
      notifyEach pods (NewTaskClient p).2 = Some p2
      ∧ clients p2 !! "0" = Some c2
      ∧ receivedSignal c2 = StopSignalUnknown
      ∧ "0" ∈ taskClients p2
      ∧ ∃ p3 c3,
          NotifyTaskChange "pod" p2 = Some p3
          ∧ clients p3 !! "0" = Some c3
          ∧ receivedSignal c3 = StopSignalOverflow
          ∧ "0" ∉ taskClients p3.
Proof.
  intros p c pods.
  assert (wf p) as Hwf by (intros watchID Hin; by apply not_elem_of_empty in Hin).
  assert (NewTaskClient p = (Ok ("0", c), (NewTaskClient p).2)) as Hnew
    by (by vm_compute).
  repeat (split; [first [assumption | reflexivity]|]).
  destruct (task_client_overflows_after_buffer_size p _ "0" c pods "pod"
              Hwf Hnew eq_refl)
    as (p2 & c2 & Hrun2 & Hc2 & _ & _ & Hsig2 & Hreg2
        & p3 & c3 & Hrun3 & Hc3 & _ & Hsig3 & Hreg3 & _).
  exists p2, c2. repeat (split; [assumption|]). by exists p3, c3.
Defined.

End ScenarioWatch.

Section ScenarioLabel.

Import Label.

Lemma ParseAuroraMetadata_inverts_NewAuroraMetadata_witness :
  Forall (λ m, ValidString m.1 = true ∧ ValidString m.2 = true) tierMetadata
  ∧ NewAuroraMetadata _ json_Marshal tierMetadata = Ok (labelOf tierMetadata)
  ∧ firstAuroraLabel (labelsWith (labelOf tierMetadata))
    = Some (Some (labelOf tierMetadata))
  ∧ ParseAuroraMetadata _ json_Unmarshal (labelsWith (labelOf tierMetadata))
    = Ok tierMetadata.
Proof.
  assert (Forall (λ m, ValidString m.1 = true ∧ ValidString m.2 = true) tierMetadata)
    as Hvalid by (repeat constructor).
  assert (NewAuroraMetadata _ json_Marshal tierMetadata = Ok (labelOf tierMetadata))
    as Hnew by reflexivity.
  assert (firstAuroraLabel (labelsWith (labelOf tierMetadata))
          = Some (Some (labelOf tierMetadata))) as Hfirst by (by vm_compute).
  repeat (split; [assumption|]).
  destruct (ParseAuroraMetadata_inverts_NewAuroraMetadata tierMetadata Hvalid)
    as (l & Hl & _ & _ & Hparse & _).
  rewrite Hnew in Hl. injection Hl as <-.
  exact (proj2 (Hparse _ Hfirst)).
Defined.

(** C10, as the claim has it, for every metadata list: it does not hold
    for a list with a string that is no valid UTF-8.  NewAuroraMetadata
    succeeds on a value of the one byte 0xFF; json.Marshal writes that
    byte as the escape of U+FFFD, and ParseAuroraMetadata on a label list
    whose first label of the key is the label made returns a value of
    the three bytes that encode U+FFFD, not the list the label was made
    of. *)
Lemma ParseAuroraMetadata_coerces_invalid_UTF8_counterexample :
  NewAuroraMetadata _ json_Marshal brokenMetadata = Ok (labelOf brokenMetadata)
  ∧ Value (labelOf brokenMetadata)
    = "[{" +:+ quote +:+ "key" +:+ quote +:+ ":" +:+ quote +:+ "tier" +:+ quote +:+ ","
      +:+ quote +:+ "value" +:+ quote +:+ ":" +:+ quote +:+ "\ufffd" +:+ quote +:+ "}]"
  ∧ firstAuroraLabel (labelsWith (labelOf brokenMetadata))
    = Some (Some (labelOf brokenMetadata))
  ∧ ParseAuroraMetadata _ json_Unmarshal (labelsWith (labelOf brokenMetadata))
    = Ok coercedMetadata
  ∧ coercedMetadata ≠ brokenMetadata
  ∧ ParseAuroraMetadata _ json_Unmarshal (labelsWith (labelOf brokenMetadata))
    ≠ Ok brokenMetadata.
Proof.
  split; [reflexivity|]. split; [by vm_compute|]. split; [by vm_compute|].
  split; [by vm_compute|]. split; [by vm_compute|].
  by vm_compute.
Qed.

End ScenarioLabel.

(* --------------------------------------------------------------------- *)
(* More scenarios: failing collaborators, reads, the query builder       *)
(* --------------------------------------------------------------------- *)

Section ScenarioFaults.

Import Faults.

Lemma Refresh_replaces_and_enqueues_witness :
  let req := {| refresh_JobId := "J1"; refresh_Range := None |} in
  let cfg := {| jc_Type := SERVICE; jc_InstanceCount := 4 |} in
  let runtimes := Runtime <$> rangeIn runningJ1 {| From := 0; To := 4 |} in
  always (stubEnv runningJ1) IsLeader true
  ∧ always (stubEnv runningJ1) (GetJobConfig "J1") (Ok cfg)
  ∧ always (stubEnv runningJ1)
      (GetTaskRuntimesForJobByRange "J1" (refreshRange req 4)) (Ok runtimes)
  ∧ runtimes ≠ ∅
  ∧ ∃ o,
      run (stubEnv runningJ1) (Refresh req) tt = Some o
      ∧ returned o = Ok MkRefreshResponse
      ∧ Event (ReplaceTasks "J1" runtimes true) tt ∈ trace o
      ∧ enqueues (trace o)
        = [ Event (EnqueueTask "J1" 2) tt; Event (EnqueueTask "J1" 3) tt;
            Event (EnqueueJobWithDefaultDelay "J1") tt ].
Proof.
  intros req cfg runtimes.
  assert (always (stubEnv runningJ1) IsLeader true) as Hl
    by (by apply always_stub).
  assert (always (stubEnv runningJ1) (GetJobConfig "J1") (Ok cfg)) as Hc
    by (by apply always_stub).
  assert (always (stubEnv runningJ1)
            (GetTaskRuntimesForJobByRange "J1" (refreshRange req 4)) (Ok runtimes)) as Hr
    by (by apply always_stub).
  assert (runtimes ≠ ∅) as Hne by (apply (bool_decide_unpack _); by vm_compute).
  repeat (split; [assumption|]).
  destruct (Refresh_replaces_and_enqueues (stubEnv runningJ1) tt req cfg runtimes
              Hl Hc Hr Hne) as (o & Hrun & Hret & Htr & _).
  exists o. split; [exact Hrun|]. split; [exact Hret|]. rewrite Htr. split.
  - do 4 apply list_elem_of_further. apply list_elem_of_here.
  - by vm_compute.
Defined.

Lemma config_failure_is_reported_as_NotFound_witness :
  let err := NotFoundErrorf "job not found" in
  always (stubEnv missingJ1) IsLeader true
  ∧ always (stubEnv missingJ1) (JobGetConfig "J1") (Err err)
  ∧ (∃ o,
       run (stubEnv missingJ1) (StartS {| start_JobId := "J1"; start_Ranges := [] |}) tt
       = Some o
       ∧ returned o
         = Ok {| start_Error := Some (StartError_NotFound "J1" "job not found");
                 StartedInstanceIds := []; start_InvalidInstanceIds := [] |}
       ∧ length (trace o) = 3)
  ∧ (∃ o,
       run (stubEnv missingJ1) (Stop {| stop_JobId := "J1"; stop_Ranges := [] |}) tt
       = Some o
       ∧ returned o
         = Ok {| stop_Error := Some (StopError_NotFound "J1" "job not found");
                 StoppedInstanceIds := []; stop_InvalidInstanceIds := [] |}
       ∧ length (trace o) = 3).
Proof.
  intros err.
  assert (always (stubEnv missingJ1) IsLeader true) as Hl
    by (by apply always_stub).
  assert (always (stubEnv missingJ1) (JobGetConfig "J1") (Err err)) as Hc
    by (by apply always_stub).
  repeat (split; [assumption|]).
  destruct (config_failure_is_reported_as_NotFound
              defaultJobGoalState defaultTaskGoalState initialHealthState
              (stubEnv missingJ1) tt
              {| start_JobId := "J1"; start_Ranges := [] |}
              {| stop_JobId := "J1"; stop_Ranges := [] |} err Hl Hc Hc)
    as [(o & Hrun & Hret & Htr) (o' & Hrun' & Hret' & Htr')].
  split.
  - exists o. split; [exact Hrun|]. split; [exact Hret|]. by rewrite Htr.
  - exists o'. split; [exact Hrun'|]. split; [exact Hret'|]. by rewrite Htr'.
Defined.

Lemma runtime_fetch_failure_ends_the_call_witness :
  let cfg := {| jc_Type := SERVICE; jc_InstanceCount := 4 |} in
  always (stubEnv unreadableJ1) IsLeader true
  ∧ always (stubEnv unreadableJ1) (JobGetConfig "J1") (Ok cfg)
  ∧ always (stubEnv unreadableJ1) (JobGetRuntime "J1") (Err dbTimeout)
  ∧ (∃ o,
       run (stubEnv unreadableJ1)
         (StartS {| start_JobId := "J1"; start_Ranges := [] |}) tt = Some o
       ∧ returned o = Err dbTimeout)
  ∧ (∃ o,
       run (stubEnv unreadableJ1) (Stop {| stop_JobId := "J1"; stop_Ranges := [] |}) tt
       = Some o
       ∧ returned o
         = Ok {| stop_Error := Some (StopError_UpdateError
                                       "Job state fetch failed for db timeout");
                 StoppedInstanceIds := [];
                 stop_InvalidInstanceIds := [0; 1; 2; 3]%N |}).
Proof.
  intros cfg.
  assert (always (stubEnv unreadableJ1) IsLeader true) as Hl
    by (by apply always_stub).
  assert (always (stubEnv unreadableJ1) (JobGetConfig "J1") (Ok cfg)) as Hc
    by (by apply always_stub).
  assert (always (stubEnv unreadableJ1) (JobGetRuntime "J1") (Err dbTimeout)) as Hr
    by (by apply always_stub).
  repeat (split; [assumption|]).
  destruct (runtime_fetch_failure_ends_the_call
              defaultJobGoalState defaultTaskGoalState initialHealthState
              (stubEnv unreadableJ1) tt
              {| start_JobId := "J1"; start_Ranges := [] |}
              {| stop_JobId := "J1"; stop_Ranges := [] |} cfg dbTimeout
              eq_refl eq_refl Hl Hc Hr)
    as [(o & Hrun & Hret & _) (o' & Hrun' & Hret' & _)].
  split.
  - by exists o.
  - exists o'. split; [exact Hrun'|]. rewrite Hret'. by vm_compute.
Defined.

Lemma other_write_errors_are_not_retried_witness :
  let cfg := {| jc_Type := SERVICE; jc_InstanceCount := 4 |} in
  always (stubEnv unwritableJ1) IsLeader true
  ∧ (∀ written, always (stubEnv unwritableJ1) (JobCompareAndSetRuntime "J1" written)
                  (Some dbTimeout))
  ∧ dbTimeout ≠ UnexpectedVersionError
  ∧ (∃ o msg,
       run (stubEnv unwritableJ1)
         (StartS {| start_JobId := "J1"; start_Ranges := [] |}) tt = Some o
       ∧ returned o
         = Ok {| start_Error := Some (StartError_Failure msg);
                 StartedInstanceIds := []; start_InvalidInstanceIds := [] |}
       ∧ countOf isJobCAS (trace o) = 1)
  ∧ (∃ o msg,
       run (stubEnv unwritableJ1) (Stop {| stop_JobId := "J1"; stop_Ranges := [] |}) tt
       = Some o
       ∧ returned o
         = Ok {| stop_Error := Some (StopError_UpdateError msg);
                 StoppedInstanceIds := [];
                 stop_InvalidInstanceIds := instanceList 4 |}
       ∧ countOf isJobCAS (trace o) = 1).
Proof.
  intros cfg.
  assert (always (stubEnv unwritableJ1) IsLeader true) as Hl
    by (by apply always_stub).
  assert (∀ written, always (stubEnv unwritableJ1) (JobCompareAndSetRuntime "J1" written)
                       (Some dbTimeout)) as Hcas
    by (intros written; by apply always_stub).
  assert (dbTimeout ≠ UnexpectedVersionError) as Herr by discriminate.
  repeat (split; [assumption|]).
  destruct (other_write_errors_are_not_retried
              defaultJobGoalState defaultTaskGoalState initialHealthState
              (stubEnv unwritableJ1) tt
              {| start_JobId := "J1"; start_Ranges := [] |}
              {| stop_JobId := "J1"; stop_Ranges := [] |} cfg
              (jobRuntimeOf JobState_RUNNING JobState_RUNNING) dbTimeout
              eq_refl eq_refl Hl
              (always_stub unwritableJ1 _ _ eq_refl)
              (always_stub unwritableJ1 _ _ eq_refl)
              eq_refl ltac:(discriminate) Herr (Hcas _) (Hcas _))
    as [(o & Hrun & Hret & Htr) (o' & Hrun' & Hret' & Htr')].
  split.
  - exists o. eexists. split; [exact Hrun|]. split; [exact Hret|]. by rewrite Htr.
  - exists o'. eexists. split; [exact Hrun'|]. split; [exact Hret'|]. by rewrite Htr'.
Defined.

Lemma Stop_by_ranges_patches_the_unkilled_witness :
  let body := {| stop_JobId := "J1"; stop_Ranges := [ {| From := 2; To := 4 |} ] |} in
  let cfg := {| jc_Type := SERVICE; jc_InstanceCount := 100 |} in
  let selected := selectedTasks (tasks largeJ1) (rangeIn largeJ1) (stop_Ranges body) in
  always (stubEnv largeJ1) IsLeader true
  ∧ always (stubEnv largeJ1) (JobGetConfig "J1") (Ok cfg)
  ∧ stopsWholeJob (stop_Ranges body) 100 = false
  ∧ lookupsAnswer (stubEnv largeJ1) "J1" (tasks largeJ1) (rangeIn largeJ1)
  ∧ keyedByInstance selected
  ∧ always (stubEnv largeJ1) (PatchTasks "J1" (stopDiffs selected)) None
  ∧ ∃ o,
      run (stubEnv largeJ1) (Stop body) tt = Some o
      ∧ returned o = Ok {| stop_Error := None; StoppedInstanceIds := [3%N];
                           stop_InvalidInstanceIds := [] |}
      ∧ enqueues (trace o)
        = [ Event (EnqueueTask "J1" 3) tt; Event (EnqueueJobWithDefaultDelay "J1") tt ]
      ∧ stopDiffs selected !! 2%N = None.
Proof.
  intros body cfg selected.
  assert (always (stubEnv largeJ1) IsLeader true) as Hl
    by (by apply always_stub).
  assert (always (stubEnv largeJ1) (JobGetConfig "J1") (Ok cfg)) as Hc
    by (by apply always_stub).
  assert (stopsWholeJob (stop_Ranges body) 100 = false) as Hpart by reflexivity.
  assert (lookupsAnswer (stubEnv largeJ1) "J1" (tasks largeJ1) (rangeIn largeJ1))
    as Hlookup by (split; [intros w|intros r w]; reflexivity).
  assert (keyedByInstance selected) as Hkey.
  { apply keyedByInstance_of_list. apply (bool_decide_unpack _). by vm_compute. }
  assert (always (stubEnv largeJ1) (PatchTasks "J1" (stopDiffs selected)) None)
    as Hpatch by (intros w; reflexivity).
  repeat (split; [assumption|]).
  destruct (Stop_by_ranges_patches_the_unkilled (stubEnv largeJ1) tt body cfg _ _
              Hl Hc Hpart Hlookup Hkey Hpatch)
    as (o & Hrun & Hret & Htr & _ & _ & Hdiffs).
  exists o. split; [exact Hrun|]. rewrite Hret, Htr.
  split; [by vm_compute|]. split; [by vm_compute|]. by vm_compute.
Defined.

Lemma Stop_by_ranges_patch_failure_witness :
  let body := {| stop_JobId := "J1"; stop_Ranges := [ {| From := 0; To := 1 |} ] |} in
  let cfg := {| jc_Type := SERVICE; jc_InstanceCount := 2 |} in
  let selected :=
    selectedTasks (tasks unpatchableJ1) (rangeIn unpatchableJ1) (stop_Ranges body) in
  always (stubEnv unpatchableJ1) IsLeader true
  ∧ always (stubEnv unpatchableJ1) (JobGetConfig "J1") (Ok cfg)
  ∧ stopsWholeJob (stop_Ranges body) 2 = false
  ∧ lookupsAnswer (stubEnv unpatchableJ1) "J1" (tasks unpatchableJ1)
      (rangeIn unpatchableJ1)
  ∧ keyedByInstance selected
  ∧ always (stubEnv unpatchableJ1) (PatchTasks "J1" (stopDiffs selected))
      (Some dbTimeout)
  ∧ ∃ o,
      run (stubEnv unpatchableJ1) (Stop body) tt = Some o
      ∧ returned o
        = Ok {| stop_Error := Some (StopError_UpdateError
                                      "Goalstate update failed for db timeout");
                StoppedInstanceIds := []; stop_InvalidInstanceIds := [] |}
      ∧ enqueues (trace o) = [ Event (EnqueueJobWithDefaultDelay "J1") tt ].
Proof.
  intros body cfg selected.
  assert (always (stubEnv unpatchableJ1) IsLeader true) as Hl
    by (by apply always_stub).
  assert (always (stubEnv unpatchableJ1) (JobGetConfig "J1") (Ok cfg)) as Hc
    by (by apply always_stub).
  assert (stopsWholeJob (stop_Ranges body) 2 = false) as Hpart by reflexivity.
  assert (lookupsAnswer (stubEnv unpatchableJ1) "J1" (tasks unpatchableJ1)
            (rangeIn unpatchableJ1))
    as Hlookup by (split; [intros w|intros r w]; reflexivity).
  assert (keyedByInstance selected) as Hkey.
  { apply keyedByInstance_of_list. apply (bool_decide_unpack _). by vm_compute. }
  assert (always (stubEnv unpatchableJ1) (PatchTasks "J1" (stopDiffs selected))
            (Some dbTimeout))
    as Hpatch by (intros w; reflexivity).
  repeat (split; [assumption|]).
  destruct (Stop_by_ranges_patch_failure (stubEnv unpatchableJ1) tt body cfg _ _ dbTimeout
              Hl Hc Hpart Hlookup Hkey Hpatch)
    as (o & Hrun & Hret & _ & Henq).
  exists o. split; [exact Hrun|]. split; [|exact Henq]. rewrite Hret. by vm_compute.
Defined.

End ScenarioFaults.

Section ScenarioFaults2.

Import Faults.

Lemma task_lookup_stops_at_first_failing_range_witness :
  let E := lossyEnv runningJ1 fromOne in
  (∀ r', r' ∈ [ {| From := 0; To := 1 |} ] →
         always E (GetTasksForJobByRange "J1" (clampRange r'))
           (Ok (rangeIn runningJ1 (clampRange r'))))
  ∧ always E (GetTasksForJobByRange "J1" (clampRange {| From := 1; To := 2 |}))
      (Err dbTimeout)
  ∧ ∃ o,
      run E (getTaskInfosByRangesFromDB "J1" thirds) tt = Some o
      ∧ returned o = Err dbTimeout
      ∧ length (trace o) = 2.
Proof.
  intros E.
  assert (∀ r', r' ∈ [ {| From := 0; To := 1 |} ] →
                always E (GetTasksForJobByRange "J1" (clampRange r'))
                  (Ok (rangeIn runningJ1 (clampRange r')))) as Hpre.
  { intros r' Hin w. apply list_elem_of_singleton in Hin. subst r'. reflexivity. }
  assert (always E (GetTasksForJobByRange "J1" (clampRange {| From := 1; To := 2 |}))
            (Err dbTimeout)) as Hr by (intros w; reflexivity).
  repeat (split; [assumption|]).
  destruct (task_lookup_stops_at_first_failing_range E tt "J1"
              [ {| From := 0; To := 1 |} ] [ {| From := 2; To := 3 |} ]
              {| From := 1; To := 2 |} (rangeIn runningJ1) dbTimeout Hpre Hr)
    as [(o & Hrun & Hret & _ & Hlen) _].
  by exists o.
Defined.

Lemma failed_task_lookup_is_reported_as_OutOfRange_witness :
  let E := lossyEnv runningJ1 fromOne in
  let start := {| start_JobId := "J1"; start_Ranges := [] |} in
  let stop := {| stop_JobId := "J1"; stop_Ranges := [ {| From := 1; To := 2 |} ] |} in
  always E IsLeader true
  ∧ lookupFails E "J1" (start_Ranges start) dbTimeout
  ∧ lookupFails E "J1" (stop_Ranges stop) dbTimeout
  ∧ (∃ o,
       run E (StartS start) tt = Some o
       ∧ returned o
         = Ok {| start_Error := Some (StartError_OutOfRange "J1" 4);
                 StartedInstanceIds := []; start_InvalidInstanceIds := [] |}
       ∧ countOf isJobCAS (trace o) = 1)
  ∧ (∃ o,
       run E (Stop stop) tt = Some o
       ∧ returned o
         = Ok {| stop_Error := Some (StopError_OutOfRange "J1" 4);
                 StoppedInstanceIds := []; stop_InvalidInstanceIds := [] |}
       ∧ countOf isPatch (trace o) = 0).
Proof.
  intros E start stop.
  assert (always E IsLeader true) as Hl by (intros w; reflexivity).
  assert (lookupFails E "J1" (start_Ranges start) dbTimeout) as Hfail
    by (intros w; reflexivity).
  assert (lookupFails E "J1" (stop_Ranges stop) dbTimeout) as Hfail'
    by (intros w; reflexivity).
  repeat (split; [assumption|]).
  destruct (failed_task_lookup_is_reported_as_OutOfRange
              defaultJobGoalState defaultTaskGoalState initialHealthState
              E tt start stop {| jc_Type := SERVICE; jc_InstanceCount := 4 |}
              (jobRuntimeOf JobState_RUNNING JobState_RUNNING) dbTimeout
              eq_refl eq_refl Hl (λ w, eq_refl) (λ w, eq_refl) eq_refl (λ w, eq_refl)
              Hfail Hfail')
    as [(o & Hrun & Hret & Htr & _) (o' & Hrun' & Hret' & Htr')].
  split.
  - exists o. split; [exact Hrun|]. split; [exact Hret|]. by rewrite Htr.
  - exists o'. split; [exact Hrun'|]. split; [exact Hret'|]. by rewrite Htr'.
Defined.

Lemma Start_reports_started_and_invalid_ids_witness :
  let E := cacheEnv fiveJ1 patchyCache in
  let body := {| start_JobId := "J1"; start_Ranges := [] |} in
  let cfg := {| jc_Type := SERVICE; jc_InstanceCount := 5 |} in
  let selected :=
    range_values (selectedTasks (tasks fiveJ1) (rangeIn fiveJ1) (start_Ranges body)) in
  always E IsLeader true
  ∧ lookupsAnswer E "J1" (tasks fiveJ1) (rangeIn fiveJ1)
  ∧ Forall (λ taskInfo, serves E "J1" SERVICE patchyCache (InstanceId taskInfo)) selected
  ∧ ∃ o,
      run E (StartS body) tt = Some o
      ∧ returned o = Ok {| start_Error := None; StartedInstanceIds := [2%N];
                           start_InvalidInstanceIds := [3; 1; 0]%N |}
      ∧ enqueues (trace o)
        = [ Event (EnqueueTask "J1" 2) tt; Event (EnqueueJobWithDefaultDelay "J1") tt ].
Proof.
  intros E body cfg selected.
  assert (always E IsLeader true) as Hl by (intros w; reflexivity).
  assert (lookupsAnswer E "J1" (tasks fiveJ1) (rangeIn fiveJ1)) as Hlookup
    by (split; [intros w|intros r w]; reflexivity).
  assert (Forall (λ taskInfo, serves E "J1" SERVICE patchyCache (InstanceId taskInfo))
            selected) as Hserved.
  { apply Forall_forall. intros taskInfo _.
    split; [|split]; [intros w|intros w|intros rt w]; reflexivity. }
  repeat (split; [assumption|]).
  destruct (Start_reports_started_and_invalid_ids
              defaultJobGoalState defaultTaskGoalState initialHealthState
              E tt body cfg (jobRuntimeOf JobState_RUNNING JobState_RUNNING)
              (tasks fiveJ1) (rangeIn fiveJ1) patchyCache
              Hl (λ w, eq_refl) (λ w, eq_refl) eq_refl (λ w, eq_refl) Hlookup Hserved)
    as (o & Hrun & Hret & Henq & _).
  exists o. split; [exact Hrun|]. rewrite Hret, Henq. by vm_compute.
Defined.

End ScenarioFaults2.

Section ScenarioFaults3.

Import Faults.

Lemma Start_gives_up_on_a_task_at_fifth_conflict_witness :
  let body := {| start_JobId := "J1"; start_Ranges := [] |} in
  let cfg := {| jc_Type := SERVICE; jc_InstanceCount := 4 |} in
  let selected :=
    range_values (selectedTasks (tasks stoppedJ1) (rangeIn stoppedJ1) (start_Ranges body)) in
  always (stubEnv stoppedJ1) IsLeader true
  ∧ lookupsAnswer (stubEnv stoppedJ1) "J1" (tasks stoppedJ1) (rangeIn stoppedJ1)
  ∧ Forall (taskConflicts (stubEnv stoppedJ1) defaultTaskGoalState initialHealthState
              "J1" cfg (runtimeIn stoppedJ1)) selected
  ∧ ∃ o,
      run (stubEnv stoppedJ1) (StartS body) tt = Some o
      ∧ returned o = Ok {| start_Error := None; StartedInstanceIds := [];
                           start_InvalidInstanceIds := [2%N] |}
      ∧ countOf isTaskCAS (trace o) = 5
      ∧ enqueues (trace o) = [ Event (EnqueueJobWithDefaultDelay "J1") tt ].
Proof.
  intros body cfg selected.
  assert (always (stubEnv stoppedJ1) IsLeader true) as Hl
    by (by apply always_stub).
  assert (lookupsAnswer (stubEnv stoppedJ1) "J1" (tasks stoppedJ1) (rangeIn stoppedJ1))
    as Hlookup by (split; [intros w|intros r w]; reflexivity).
  assert (Forall (taskConflicts (stubEnv stoppedJ1) defaultTaskGoalState
                    initialHealthState "J1" cfg (runtimeIn stoppedJ1)) selected)
    as Hall.
  { replace selected with [taskOf 2 TaskState_KILLED "J1-2-3"] by (by vm_compute).
    repeat constructor; intros w; reflexivity. }
  repeat (split; [assumption|]).
  destruct (Start_gives_up_on_a_task_at_fifth_conflict
              defaultJobGoalState defaultTaskGoalState initialHealthState
              (stubEnv stoppedJ1) tt body cfg
              (jobRuntimeOf JobState_RUNNING JobState_RUNNING)
              (tasks stoppedJ1) (rangeIn stoppedJ1) (runtimeIn stoppedJ1)
              Hl (λ w, eq_refl) (λ w, eq_refl) eq_refl (λ w, eq_refl) Hlookup Hall)
    as (o & Hrun & Hret & Hn & Henq & _).
  exists o. split; [exact Hrun|]. split; [rewrite Hret; by vm_compute|].
  split; [rewrite Hn; by vm_compute | exact Henq].
Defined.

Lemma Stop_recovers_from_fewer_conflicts_witness :
  let body := {| stop_JobId := "J1"; stop_Ranges := [] |} in
  leader largeJ1 = true
  ∧ (Z.of_nat 4 < MaxConcurrencyErrorRetry)%Z
  ∧ ∃ o,
      run (scriptedEnv largeJ1) (Stop body) (replicate 4 UnexpectedVersion ++ [None])
      = Some o
      ∧ returned o = Ok {| stop_Error := None; StoppedInstanceIds := instanceList 100;
                           stop_InvalidInstanceIds := [] |}
      ∧ final o = []
      ∧ countOf isJobCAS (trace o) = 5
      ∧ enqueues (trace o) = [ Event (EnqueueJob "J1") tt ].
Proof.
  intros body.
  split; [reflexivity|]. split; [reflexivity|].
  apply (Stop_recovers_from_fewer_conflicts largeJ1 body
           {| jc_Type := SERVICE; jc_InstanceCount := 100 |}
           (jobRuntimeOf JobState_RUNNING JobState_RUNNING) 4 []
           eq_refl eq_refl eq_refl ltac:(discriminate) eq_refl eq_refl).
Defined.

End ScenarioFaults3.

Section ScenarioReads.

Import ReadStub.

Lemma chain_historyJ1 :
  chain (hstubEnv (readsOf historyJ1)) ParseRunID "J1" 2 "J1-2-3" [run3; run2; run1].
Proof.
  split; [discriminate|]. split; [intros w; reflexivity|].
  exists 2%N. split; [by vm_compute|]. rewrite decide_False by discriminate.
  split; [discriminate|]. split; [intros w; reflexivity|].
  exists 1%N. split; [by vm_compute|]. rewrite decide_False by discriminate.
  split; [discriminate|]. split; [intros w; reflexivity|].
  exists 0%N. split; [by vm_compute|]. by rewrite decide_True.
Defined.

Lemma wire_historyJ1 :
  Forall2 (λ e t, wireEvent parsePodEntityVersion e = Ok t) (concat [run3; run2; run1])
    [ taskPodEvent "J1-2-3" "J1-2-2" "RUNNING";
      taskPodEvent "J1-2-2" "J1-2-1" "FAILED";
      taskPodEvent "J1-2-2" "J1-2-1" "RUNNING";
      taskPodEvent "J1-2-1" "J1-2-0" "KILLED" ].
Proof. repeat constructor. Defined.

Lemma getPodEvents_returns_the_chain_witness :
  let E := hstubEnv (readsOf historyJ1) in
  let evs := [ taskPodEvent "J1-2-3" "J1-2-2" "RUNNING";
               taskPodEvent "J1-2-2" "J1-2-1" "FAILED";
               taskPodEvent "J1-2-2" "J1-2-1" "RUNNING";
               taskPodEvent "J1-2-1" "J1-2-0" "KILLED" ] in
  chain E ParseRunID "J1" 2 "J1-2-3" [run3; run2; run1]
  ∧ Forall2 (λ e t, wireEvent parsePodEntityVersion e = Ok t)
      (concat [run3; run2; run1]) evs
  ∧ ∃ o,
      hrun E (getPodEvents ParseRunID parsePodEntityVersion 4 "J1" 2 "J1-2-3") tt
      = Some o
      ∧ hreturned o = Ok evs
      ∧ length (htrace o) = 3.
Proof.
  intros E evs.
  split; [exact chain_historyJ1|]. split; [exact wire_historyJ1|].
  destruct (getPodEvents_returns_the_chain ParseRunID parsePodEntityVersion E tt 4
              "J1" 2 "J1-2-3" [run3; run2; run1] evs
              chain_historyJ1 wire_historyJ1 ltac:(simpl; lia))
    as (o & Hrun & Hret & _ & _).
  exists o. split; [exact Hrun|]. split; [exact Hret|].
  vm_compute in Hrun. injection Hrun as <-. reflexivity.
Defined.

Lemma getPodEvents_does_not_end_on_a_cycle_witness :
  let E := hstubEnv (readsOf loopJ1) in
  let e0 := podEvent "J1-2-3" "J1-2-3" "RUNNING" in
  let body := {| gpe_JobId := "J1"; gpe_InstanceId := 2; gpe_RunId := "";
                 gpe_Limit := 3 |} in
  halways E (Core (TaskStore_GetPodEvents "J1" 2 "J1-2-3")) (Ok [e0])
  ∧ ParseRunID (pe_PrevPodId e0) = Ok 3%N
  ∧ hrun E (getPodEvents ParseRunID parsePodEntityVersion 1000 "J1" 2 "J1-2-3") tt = None
  ∧ ∃ o,
      run (coreEnv E) (GetPodEvents body) tt = Some o
      ∧ (N.of_nat (length (trace o)) ≤ 3)%N.
Proof.
  intros E e0 body.
  assert (halways E (Core (TaskStore_GetPodEvents "J1" 2 "J1-2-3")) (Ok [e0])) as Hpod
    by (intros w; reflexivity).
  assert (ParseRunID (pe_PrevPodId e0) = Ok 3%N) as Hparse by (by vm_compute).
  repeat (split; [assumption|]).
  assert (convertPodEventsFormat parsePodEntityVersion [e0]
          = Ok [taskPodEvent "J1-2-3" "J1-2-3" "RUNNING"]) as Hconv by (by vm_compute).
  assert (∃ prevRunID, ParseRunID (pe_PrevPodId e0) = Ok prevRunID ∧ prevRunID ≠ 0%N)
    as Hnz by (exists 3%N; split; [exact Hparse | discriminate]).
  pose proof (getPodEvents_does_not_end_on_a_cycle ParseRunID parsePodEntityVersion E
                "J1" 2 "J1-2-3" e0 [] [taskPodEvent "J1-2-3" "J1-2-3" "RUNNING"]) as H.
  specialize (H Hpod). specialize (H Hpod). specialize (H Hconv). specialize (H Hnz).
  destruct H as [Hloop Hwalk].
  split; [exact (Hloop 1000 tt)|].
  destruct (Hwalk body tt) as (o & Hrun & Hlen).
  exists o. split; [exact Hrun | exact Hlen].
Defined.

Lemma getHostInfoWithTaskID_picks_first_terminal_event_witness :
  let E := hstubEnv (readsOf historyJ1) in
  chain E ParseRunID "J1" 2 "J1-2-3" [run3; run2; run1]
  ∧ ∃ o,
      hrun E (getHostInfoWithTaskID ParseRunID parsePodEntityVersion taskStateValue
                isPelotonStateTerminal 4 "J1" 2 "J1-2-3") tt = Some o
      ∧ hreturned o = Ok ("host-J1-2-2", "agent-J1-2-2").
Proof.
  intros E. split; [exact chain_historyJ1|].
  destruct (getHostInfoWithTaskID_picks_first_terminal_event
              ParseRunID parsePodEntityVersion taskStateValue isPelotonStateTerminal
              E tt 4 "J1" 2 "J1-2-3" [run3; run2; run1] _
              chain_historyJ1 wire_historyJ1 ltac:(simpl; lia))
    as (o & Hrun & Hret & _).
  exists o. split; [exact Hrun|]. rewrite Hret. by vm_compute.
Defined.

End ScenarioReads.

Section ScenarioReads2.

Import ReadStub.

Lemma getHostInfoCurrentTask_wants_exactly_one_task_witness :
  let E := hstubEnv (readsOf runningJ1) in
  let res : gmap N TaskInfo := {[ 2%N := taskOf 2 TaskState_RUNNING "J1-2-3" ]} in
  halways E (GetTaskForJob "J1" 2) (Ok res)
  ∧ ∃ o,
      hrun E (getHostInfoCurrentTask "J1" 2) tt = Some o
      ∧ hreturned o = Ok ("host-1", "agent-1", "J1-2-3").
Proof.
  intros E res.
  assert (halways E (GetTaskForJob "J1" 2) (Ok res)) as Hr by (intros w; reflexivity).
  split; [assumption|].
  destruct (getHostInfoCurrentTask_wants_exactly_one_task E tt "J1" 2 (Ok res) Hr)
    as (o & Hrun & _ & Hone & _).
  exists o. split; [exact Hrun|]. exact (Hone 2%N _ eq_refl).
Defined.

Lemma getSandboxPathInfo_values_or_response_witness :
  let E := hstubEnv (readsOf runningJ1) in
  let req := {| bs_JobId := "J1"; bs_InstanceId := 2; bs_TaskId := "" |} in
  ∃ o hostname agentID taskID frameworkID,
    hrun E (getSandboxPathInfo ParseRunID parsePodEntityVersion taskStateValue
              isPelotonStateTerminal 4 4 req) tt = Some o
    ∧ hreturned o = (hostname, agentID, taskID, frameworkID, None)
    ∧ hostname ≠ "" ∧ agentID ≠ "" ∧ frameworkID ≠ "".
Proof.
  intros E req.
  destruct (getSandboxPathInfo_values_or_response
              ParseRunID parsePodEntityVersion taskStateValue isPelotonStateTerminal
              E tt 4 4 req) as [Hpart Htotal].
  destruct (Htotal eq_refl) as [o Hrun].
  specialize (Hpart o Hrun).
  assert (hreturned o = ("host-1", "agent-1", "J1-2-3", "fw-1", None)) as Hret.
  { vm_compute in Hrun. injection Hrun as <-. reflexivity. }
  rewrite Hret in Hpart. destruct Hpart as (Hh & Ha & Hf & _).
  by exists o, "host-1", "agent-1", "J1-2-3", "fw-1".
Defined.

Lemma BrowseSandbox_addresses_the_agent_witness :
  let E := hstubEnv (readsOf runningJ1) in
  let req := {| bs_JobId := "J1"; bs_InstanceId := 2; bs_TaskId := "" |} in
  bs_TaskId req = ""
  ∧ halways E (GetMesosAgentInfo "host-1")
      (Ok [ "slave(1)@10.0.0.8"; "slave(1)@10.0.0.7:5061" ])
  ∧ extractIPAndPort "slave(1)@10.0.0.8" = Ok ("10.0.0.8", "")
  ∧ ∃ o,
      hrun E (BrowseSandbox ParseRunID parsePodEntityVersion taskStateValue
                isPelotonStateTerminal extractIPAndPort jobIDString "/var/lib/mesos"
                4 req) tt = Some o
      ∧ hreturned o
        = Ok {| bs_Error := None; bs_Hostname := "10.0.0.8"; bs_Port := "5051";
                bs_Paths := [ "/var/lib/mesos/stdout"; "/var/lib/mesos/stderr" ];
                bs_MesosMasterHostname := "master-1"; bs_MesosMasterPort := "5050" |}.
Proof.
  intros E req.
  assert (halways E (GetMesosAgentInfo "host-1")
            (Ok [ "slave(1)@10.0.0.8"; "slave(1)@10.0.0.7:5061" ])) as Hagents
    by (intros w; reflexivity).
  split; [reflexivity|]. split; [assumption|]. split; [by vm_compute|].
  pose proof (BrowseSandbox_addresses_the_agent
                ParseRunID parsePodEntityVersion taskStateValue isPelotonStateTerminal
                extractIPAndPort jobIDString "/var/lib/mesos" E tt 4 req
                {| jc_Type := SERVICE; jc_InstanceCount := 4 |}
                2%N (taskOf 2 TaskState_RUNNING "J1-2-3") "fw-1"
                (Ok [ "slave(1)@10.0.0.8"; "slave(1)@10.0.0.7:5061" ])
                [ "/var/lib/mesos/stdout"; "/var/lib/mesos/stderr" ]
                "master-1" "5050") as H.
  cbv zeta in H.
  specialize (H eq_refl). specialize (H (λ w, eq_refl)). specialize (H (λ w, eq_refl)).
  specialize (H ltac:(discriminate)). specialize (H ltac:(discriminate)).
  specialize (H (λ w, eq_refl)). specialize (H ltac:(discriminate)).
  specialize (H Hagents). specialize (H (λ w, eq_refl)). specialize (H (λ w, eq_refl)).
  destruct H as (o & Hrun & Hret & _).
  exists o. split; [exact Hrun|]. rewrite Hret. by vm_compute.
Defined.

Lemma walk_historyJ1 (w' : hworld (hstubEnv (readsOf historyJ1))) :
  ∃ o', hrun (hstubEnv (readsOf historyJ1))
          (getPodEvents ParseRunID parsePodEntityVersion 4 "J1" 2 "") w' = Some o'
        ∧ hreturned o'
          = Ok [ taskPodEvent "J1-2-3" "J1-2-2" "RUNNING";
                 taskPodEvent "J1-2-2" "J1-2-1" "FAILED";
                 taskPodEvent "J1-2-2" "J1-2-1" "RUNNING";
                 taskPodEvent "J1-2-1" "J1-2-0" "KILLED" ].
Proof. destruct w'. eexists. split; [by vm_compute | reflexivity]. Defined.

Lemma Get_reports_terminal_events_witness :
  let E := hstubEnv (readsOf historyJ1) in
  let taskInfo := taskOf 2 TaskState_RUNNING "J1-2-3" in
  halways E (GetJobConfigWithoutFillingCache "J1")
    (Ok {| jc_Type := SERVICE; jc_InstanceCount := 4 |})
  ∧ halways E (GetTaskForJob "J1" 2) (Ok {[ 2%N := taskInfo ]})
  ∧ ∃ o resp,
      hrun E (Get ParseRunID parsePodEntityVersion taskStateValue isPelotonStateTerminal
                jobIDString 4 {| get_JobId := "J1"; get_InstanceId := 2 |}) tt = Some o
      ∧ hreturned o = Ok resp
      ∧ get_Result resp = Some taskInfo
      ∧ (eti_MesosTaskId <$> get_Results resp) = [ "J1-2-2"; "J1-2-1" ]
      ∧ (eti_State <$> get_Results resp) = [ 11; 15 ]%Z.
Proof.
  intros E taskInfo.
  assert (halways E (GetJobConfigWithoutFillingCache "J1")
            (Ok {| jc_Type := SERVICE; jc_InstanceCount := 4 |})) as Hc
    by (intros w; reflexivity).
  assert (halways E (GetTaskForJob "J1" 2) (Ok {[ 2%N := taskInfo ]})) as Ht
    by (intros w; reflexivity).
  repeat (split; [assumption|]).
  pose proof (Get_reports_terminal_events
                ParseRunID parsePodEntityVersion taskStateValue isPelotonStateTerminal
                jobIDString E tt 4 {| get_JobId := "J1"; get_InstanceId := 2 |}
                _ _ _ Hc Ht walk_historyJ1) as (o & Hrun & Hret & _).
  exists o. eexists. split; [exact Hrun|]. split; [exact Hret|]. by vm_compute.
Defined.

Lemma List_and_Query_fill_pending_reasons_witness :
  let E := hstubEnv (readsOf pendingJ1) in
  let body := {| list_JobId := "J1"; list_Range := None |} in
  let req := {| query_JobId := "J1";
                query_Spec := {| qs_Offset := 0; qs_Limit := 10 |} |} in
  lookupsAnswer (coreEnv E) "J1" (tasks pendingJ1) (rangeIn pendingJ1)
  ∧ (∀ taskID, halways E (ActiveRMTasks_GetTask taskID) (noQuota taskID))
  ∧ (∃ o m,
       hrun E (List_ createPelotonTaskID body) tt = Some o
       ∧ hreturned o = Ok {| list_Result := Some m; list_NotFound := None |}
       ∧ (Reason ∘ Runtime <$> m) !! 5%N = Some "no quota"
       ∧ m !! 3%N = Some (taskOf 3 TaskState_RUNNING "J1-3-1"))
  ∧ (∃ o resp,
       hrun E (Query createPelotonTaskID jobIDString req) tt = Some o
       ∧ hreturned o = Ok resp
       ∧ (Reason ∘ Runtime <$> query_Records resp) = [ "no quota"; "" ]
       ∧ query_Pagination resp
         = Some {| pg_Offset := 0; pg_Limit := 10; pg_Total := 2 |}).
Proof.
  intros E body req.
  assert (lookupsAnswer (coreEnv E) "J1" (tasks pendingJ1) (rangeIn pendingJ1))
    as Hlookup by (split; [intros w|intros r w]; reflexivity).
  assert (∀ taskID, halways E (ActiveRMTasks_GetTask taskID) (noQuota taskID)) as Hrm
    by (intros taskID w; reflexivity).
  repeat (split; [assumption|]).
  pose proof (List_and_Query_fill_pending_reasons createPelotonTaskID jobIDString
                E tt body req (tasks pendingJ1) (rangeIn pendingJ1)
                (jobRuntimeOf JobState_RUNNING JobState_RUNNING)
                [ pendingTask 5; taskOf 3 TaskState_RUNNING "J1-3-1" ] 2%N noQuota) as H.
  cbv zeta in H.
  specialize (H Hlookup). specialize (H (λ w, eq_refl)). specialize (H (λ w, eq_refl)).
  specialize (H Hrm).
  destruct H as [(o & Hrun & Hret) [(o' & Hrun' & Hret') _]].
  split.
  - exists o. eexists. split; [exact Hrun|]. split; [rewrite Hret; by vm_compute|].
    split; by vm_compute.
  - exists o'. eexists. split; [exact Hrun'|]. split; [exact Hret'|].
    split; by vm_compute.
Defined.

End ScenarioReads2.

Section ScenarioQuery.

Import QueryBuilder QueryStub.

Lemma ToSQL_error_comes_without_SQL_witness :
  keepsRule failing
  ∧ (ToSQL questionMarks failing).2 = Some badValue
  ∧ (ToSQL questionMarks failing).1.1 = "".
Proof.
  assert (keepsRule failing) as Hrule by exact I.
  assert ((ToSQL questionMarks failing).2 = Some badValue) as Herr by (by vm_compute).
  repeat (split; [assumption|]).
  apply (ToSQL_error_comes_without_SQL questionMarks failing badValue Hrule Herr).
Defined.

Lemma Eq_toSQL_writes_one_clause_per_key_witness :
  rangesOver hostAndStates hostFirst
  ∧ rangesOver hostAndStates stateFirst
  ∧ Eq_toSQL_ranged questionMarks hostFirst false
    = ("host = ? AND state IN (?,?)",
       Some [VScalar "h1"; VScalar "RUNNING"; VScalar "KILLED"], None)
  ∧ Eq_toSQL_ranged questionMarks stateFirst true
    = ("state NOT IN (?,?) AND host <> ?",
       Some [VScalar "RUNNING"; VScalar "KILLED"; VScalar "h1"], None)
  ∧ elements (Eq_toSQL_ranged questionMarks stateFirst true).1.2
    ≡ₚ elements (Eq_toSQL_ranged questionMarks hostFirst false).1.2.
Proof.
  assert (rangesOver hostAndStates hostFirst) as Hhost.
  { unfold rangesOver. vm_compute. first [reflexivity | apply perm_swap]. }
  assert (rangesOver hostAndStates stateFirst) as Hstate.
  { unfold rangesOver. vm_compute. first [reflexivity | apply perm_swap]. }
  split; [exact Hhost|]. split; [exact Hstate|].
  split; [by vm_compute|]. split; [by vm_compute|].
  pose proof (Eq_toSQL_writes_one_clause_per_key questionMarks hostAndStates
                stateFirst hostFirst true) as H.
  specialize (H Hstate). specialize (H Hhost).
  destruct H as (_ & _ & _ & _ & _ & Hargs & _).
  apply Hargs. by vm_compute.
Defined.

End ScenarioQuery.
